(* ===== verification/_CoqProject ===== *)
-Q . S2P
Prelude.v
Program.v
Ownership.v
States.v
Dag.v
DagFacts.v
CycleFacts.v
DagSpec.v
Models.v
Documents.v
Retry.v
TaskRepo.v
Frames.v
Dispatcher.v
Engine.v
RunInv.v
EngineTx.v
EngineInv.v
EngineStart.v
EngineSafety.v
EngineProps.v
EngineSpec.v
TaskQueue.v
Recovery.v
Worker.v
WorkerProps.v
Attempts.v
EventLog.v
EndToEnd.v
Records.v
Turns.v
Progress.v
Lifecycle.v
Lock.v
Outbox.v
Relay.v
Resilience.v
RateLimit.v
Access.v
Services.v
ServicesProps.v
Scheduler.v
Text.v
Accounts.v
AccountsProps.v
Structured.v
Router.v
Agent.v
Consumer.v
Double.v
Calculator.v
CalculatorProps.v
Numbers.v
RagText.v
Rag.v
RagProps.v
Handlers.v
HandlersProps.v
Cron.v
Http.v
HttpProps.v
Pages.v
Tools.v
Health.v
Providers.v
Mock.v
LlmStack.v
Analytics.v
Chaos.v
Registry.v
App.v
AppProps.v
Config.v
Wiring.v
Startup.v
