(* ===== verification/Prelude.v ===== *)
(** * A verification library for the distributed workflow engine

    ** The program

    The repository is a workflow engine in JavaScript.  Users define workflows
    (directed acyclic graphs of tasks) through an HTTP API and run them.  The
    state of a run lives in MongoDB; a queue in Redis distributes the ids of
    tasks that are ready to worker processes; lifecycle events go through a
    transactional outbox to Kafka; a scheduler starts runs by cron expressions;
    tasks may call language models, search documents and run a confined agent.
    Any process may crash at any point, Redis may lose everything it holds, and
    several processes of each kind run at once.

    ** How it is modelled

    The definitions keep the names of the source.  An [async] function is a
    [prog] ([Program]): a tree of atomic steps on a shared world.  One awaited
    call of MongoDB or Redis, or one MongoDB transaction, is one step; a
    transaction commits as a whole or leaves no trace.  [run] executes a program
    alone; [reachable] is every world that any number of concurrent calls of an
    API reach, with every interleaving of their steps, every crash (a program
    that is never scheduled again) and every move of the environment (time,
    outages).  Invariants are proved per step ([steps_ok]), and hold under
    [reachable] by [reachable_inv].  Failures are values: [res] for exceptions
    ([exn]), [settled] and [promise] for promises with the time at which they
    settle, [thrown] for whatever JavaScript code may throw.

    Conventions.  ObjectIds are [nat]; instants and durations are [Z] in
    milliseconds; integers of JavaScript are [Z], doubles are IEEE doubles of
    53 bits where fractions matter ([Double]; the backoff of [Retry]); JSON
    values ([json]) hold integers only; strings are sequences of 8-bit
    characters, so that one UTF-16 unit of the source is one character; a Map or
    an object used as one is a [gmap], a Set a [gset].  Reading a property of
    [undefined] or [null] is an exception, and so is, where the source does it,
    finding an inherited property of an object ([Access.inherited]).

    ** The files

    The language of the model:
    - [Prelude]: identifiers, JSON, exceptions, lemmas and automation shared by
      all files; [Program]: programs, their execution and interleaving;
      [Ownership]: programs that own something (exclusive tokens) or know it; [Frames]: what
      transactions and programs leave alone (preorders on databases);
      [Text], [Double]: strings and numbers of JavaScript.

    The engine ([src/workflow], [src/repositories], [src/models], [src/workers]):
    - [States]: the transition tables ([states.js]).
    - [Dag], [DagFacts], [CycleFacts], [DagSpec]: [validateDag] ([dag.js]): Kahn's
      algorithm, the search for a cycle, their correctness.
    - [Models]: documents and the database; [Documents]: what responses show of
      documents; [TaskRepo]: the compare-and-set
      transition, the claim with its fencing token, the renewal
      ([task.repository.js]); [Retry]: retryable errors and backoff ([retry.js]).
    - [Dispatcher]: the interface between engine and queue, a class with laws.
    - [Engine]: every function of [createEngine] ([engine.js]).  [RunInv],
      [EngineTx], [EngineInv], [EngineStart], [EngineSafety]: the invariant of
      runs, what each transaction commits, and that every step of every function
      preserves the invariant.  [EngineProps]: what follows in every reachable
      world; [EventLog]: the outbox and the documents agree; [EngineSpec]: what
      each function does when it runs to its end.
    - [TaskQueue]: the Lua scripts and the methods of the Redis queue
      ([taskQueue.js]), an instance of [Dispatcher]; [Recovery]: the sweep of the
      reconciler, proved against the interface.
    - [Worker], [WorkerProps]: [withTimeout.js], [runTask.js], [queueWorker.js];
      [Attempts]: the counter of attempts under every interleaving; [EndToEnd]:
      engine, queue and worker together, from the start of a run to its end;
      [Records]: the records of attempts never run ahead of the counter; [Turns],
      [Progress]: the same from any state that crashes leave, with handlers that
      fail: a sweep, and then turns of workers that each do some of the work left;
      [Lifecycle]: the loops and timers of a worker process as a state machine, draining, and the shutdown of both processes ([worker.js],
      [server.js], [workers/]); [Registry]: the registry of workers and its
      heartbeat ([registry.js]).
    - [Lock]: the distributed lock ([lock.js]); [Outbox]: the relay and the
      idempotent consumer ([src/events]); [Relay]: the relays of several
      processes at work at once; [Consumer]: the consumer process, its
      group, its messages ([src/consumers]); [Startup]: how the three processes
      start, their connections and pings; [Scheduler], [Cron]: [src/scheduler].
    - [Chaos]: the workload and the checks of the test that kills workers and
      restarts Redis ([scripts/chaos.js]).

    Users and the API ([src/auth], [src/services], [src/middleware],
    [src/controllers], [src/routes], [src/app.js], [src/config]):
    - [Access]: roles, permissions, ownership, error classes; [Accounts],
      [AccountsProps]: tokens, registration, sign-in, refresh, revocation.
    - [Services], [ServicesProps]: the execution, workflow and approval
      operations of a user, idempotency keys, optimistic concurrency.
    - [RateLimit]: the sliding window and its middleware; [Health]: readiness.
    - [Http], [HttpProps]: validation of requests, error responses, the schemas
      and controllers of workflows.
    - [App], [AppProps]: every router as one list of layers in the order of
      [createApp], the middleware, the controllers; properties of whole requests.
    - [Pages]: the lists that the API answers page by page, with their filters
      and order; [Analytics]: the aggregation pipelines of the two reports
      ([analytics.service.js]).
    - [Config]: every environment variable and [loadConfig] ([env.js]); [Wiring]:
      what the processes derive from it (locks, registry, heartbeat).

    Language models ([src/ai], [src/handlers]):
    - [Providers]: the HTTP client of model servers, the chain that the
      configuration builds, the record of a call; [Resilience]: circuit breaker
      and fallback chain; [Mock]: the mock provider; [LlmStack]: client, breakers,
      fallback chain and tracking composed, in time.
    - [Structured]: untrusted text, extraction of JSON, validate and repair;
      [Router]: classification and routing; [Agent]: the selection of tools and
      the agent loop; [Calculator], [CalculatorProps]: the calculator tool;
      [Numbers]: JavaScript's [Number]; [Tools]: the agent's three tools over the
      data of the owner.
    - [RagText], [Rag], [RagProps]: cleaning, ingestion, search, cited answers.
    - [Handlers], [HandlersProps]: the handlers of all task types.

    ** What is proved

    - The engine, in every interleaving: dependencies are COMPLETED before a task
      starts, counters are exact, a run is COMPLETED exactly when its tasks are,
      a RUNNING run is never stuck, stale workers are refused, ended runs start
      nothing, a task only moves along the table ([EngineProps]); and the
      functional behaviour of each report on every branch ([EngineSpec]).
    - The outbox has exactly one event for every task that finished, every run
      that ended or started, and none for others; at most one attempt of a task
      succeeds ([EventLog.events_tell_outcomes]).  The checks of the chaos test
      follow, in every world that the deployment reaches
      ([Chaos.chaos_test_passes]).
    - Graph validation: total, sound and complete; topological order; real cycles
      ([DagSpec]).
    - Together: whatever crashed, whatever Redis lost and whatever the handlers
      do, once Redis answers every run ends, within as many rounds as its tasks
      are allowed attempts and two more for each task ([Progress.every_run_ends]);
      undisturbed, and when the handlers answer, one turn per task completes it
      ([EndToEnd.every_run_completes]); a worker that is told to stop
      drains within a bound ([Lifecycle.worker_drains]), and both processes exit.
      However workers crash and leases lapse, the handler of a task is started at
      most [maxAttempts] times ([Attempts.attempts_bounded]).
    - No work is lost: ids stay in the queue ([TaskQueue]), a crash of a worker
      at any step ([WorkerProps]), the loss of Redis ([Recovery]), events
      ([Outbox], [Relay]) and their exactly-once count, from the outbox through
      any number of relays and Kafka to the counters
      ([Consumer.every_event_counted_once]), one run per slot ([Scheduler]).
      [TaskQueue.scripts_move_ids] refines the scripts to an abstract queue.
    - Users: ownership, idempotency, lost updates ([ServicesProps]), revocation
      and the round trip of sign-in ([AccountsProps]), and for whole requests
      what it takes to change anything, what a stored definition looks like, and
      how often a password can be tried ([AppProps]).
    - Bounds: the rate limiter in any window, the agent's requests and tools, the
      attempts of structured output, the time of a call through the whole stack of
      providers ([LlmStack.stack_settles]), configuration, leases against the
      timers that renew them ([Wiring.leases_outlive_renewals]).
    - Confinement: what an agent sees ([Tools.agent_sees_only_own_data]) and what
      the reports count ([Analytics.analytics_confined]) is the user's own.
    - The calculator computes its grammar; ingestion is all or nothing; answers
      cite the asker's own sources.

    Lemmas that show where the code departs from its documentation stand next to
    the definitions they are about (for instance [TaskQueue.late_ack_drops_new_lease],
    [Resilience.trial_leak_wedges], [RagProps.failed_document_stays_searchable],
    [AppProps.run_counts_twice], [Config.overlap_can_exceed_size]).

    ** Fuel and bounds

    Two loops of [Dag] take fuel: [kahn_loop] one unit per task and one more,
    [visit] one unit per task on the path and one more; [DagFacts] and
    [CycleFacts] prove that it never runs out on the graphs they are called
    with.  The calculator takes six units per character, and six more;
    [CalculatorProps] proves that this is enough for every input.
    [structured_loop], [agent_loop] and [embed_batches] recurse on the number of
    rounds that the source's own loop bounds; [exponent10] on the number of
    decimal exponents of a double.  A property about a loop that never ends in
    the source ([loop] of a worker, the ticks of timers) is about any number of
    its turns.

    ** Parameters

    Code outside of the repository is a parameter, with laws where a theorem
    relies on it: Express's matching and body parsing, zod's issue texts and
    checks of email addresses and URLs, mongoose's casts of ids, jsonwebtoken and
    bcrypt (classes [Jwt] and [Bcrypt]), Kafka ([Broker]), Qdrant ([Qdrant]), the
    text splitter, cron-parser and [Intl], the hash functions of [node:crypto],
    [fetch], [JSON.parse] and [JSON.stringify], [toISOString], [new Date] of a
    string, [Math.pow], and the model behind a provider.  The
    [createdAt] of documents, by which pages are sorted, is a function of the id.
    The text of a fraction in JSON is a function of the double.
    [App.Reporting] holds what the two reports and the page of workers read and
    the world does not keep: the records of model calls, the percentile operator
    of MongoDB, its sum of doubles, and the registry.  The randomness of the
    backoff and the local clocks of processes are arbitrary at every step.

    ** Not modelled

    Logging, security headers, the OpenAPI pages; the inside of the clients of
    MongoDB, Redis and Kafka ([Startup] has the calls the processes make on
    them), the processes, kills and HTTP calls of the chaos test (its workload
    and checks are in [Chaos]), and [check-secrets.js], a scan of the tree beside
    the program; the expiry of the consumer's markers after thirty
    days, before which a redelivery is assumed to come; [updatedAt]; write conflicts
    of transactions, which mongoose retries (a transaction is one step); the
    asynchronous context that carries a task's identity to the record of a call;
    MongoDB outages during the operations of [Rag] and of the API.

    ** Left for later

    The deletion of collections of the vector store, which nothing calls; interleavings of ingestion
    with deletion; a bound on the time in which every run ends ([Progress]) when
    processes keep crashing: a crash among the rounds leaves a world from which
    the theorem starts afresh. *)

From stdpp Require Export base tactics option list gmap fin_maps sets strings pretty.
From coqutil Require Export Datatypes.RecordSetters.
Export DoubleBraceUpdate.

(** Let [simpl] see through [r {{ field := v }}]. *)
#[global] Arguments constant {_} _ / _.

(** ** Identifiers, instants and JSON *)

(** MongoDB ObjectIds.  Only equality and their order are ever used. *)
Abbreviation oid := nat (only parsing).

(** Instants and durations, in milliseconds (JavaScript [Date] / [Date.now()]). *)
Abbreviation ms := Z (only parsing).

(** Values stored in [Mixed] fields (task config and output, run input, event
    payloads).  The engine moves them around and never computes with them. *)
Inductive json : Type :=
| JNull
| JBool (b : bool)
| JNum (z : Z)
| JStr (s : string)
| JArr (l : list json)
| JObj (fields : list (string * json)).

(** [String(objectId)]. *)
Definition oid_str (i : oid) : string := pretty i.

(** ** Exceptions and results *)

(** What JavaScript code of the repository throws.  [AppErr] is an instance of
    the [AppError] hierarchy; [DuplicateKey] is MongoDB's error 11000 with the
    fields of the violated unique index; [TypeErr] is the error of reading a
    property of [undefined] or [null]. *)
Inductive exn : Type :=
| InvalidTransitionError (machine from to : string)
| AppErr (statusCode : Z) (code message : string) (details : json)
| DuplicateKey (keyPattern : list string)
| TypeErr
| PlainErr (message : string).

Inductive res (A : Type) : Type :=
| Ok (a : A)
| Exn (e : exn).
Arguments Ok {A} a.
Arguments Exn {A} e.

#[export] Instance res_ret : MRet res := λ A a, Ok a.
#[export] Instance res_bind : MBind res := λ A B k r,
  match r with Ok a => k a | Exn e => Exn e end.
#[export] Instance res_fmap : FMap res := λ A B g r,
  match r with Ok a => Ok (g a) | Exn e => Exn e end.

Lemma ok_pair {S A} (a a' : A) (s s' : S) : Ok (a, s) = Ok (a', s') → a = a' ∧ s = s'.
Proof. by intros [= -> ->]. Qed.

Definition is_ok {A} (r : res A) : bool :=
  match r with Ok _ => true | Exn _ => false end.

(** [Map.get] followed by a property access: a missing key is a [TypeError]. *)
Definition get_or_type_error {A} (o : option A) : res A :=
  match o with Some a => Ok a | None => Exn TypeErr end.

(** ** State with exceptions: the body of a database transaction *)

(** A computation on a store [S] that returns a value with the new store, or
    throws.  [connection.transaction] discards the store of a body that throws
    (see [Program.transaction]). *)
Definition tx (S A : Type) : Type := S → res (A * S).

#[export] Instance tx_ret {S} : MRet (tx S) := λ A a s, Ok (a, s).
#[export] Instance tx_bind {S} : MBind (tx S) := λ A B k m s,
  match m s with Ok (a, s') => k a s' | Exn e => Exn e end.

Definition tx_throw {S A} (e : exn) : tx S A := λ _, Exn e.
Definition tx_get {S} : tx S S := λ s, Ok (s, s).
Definition tx_lift {S A} (r : res A) : tx S A := λ s,
  match r with Ok a => Ok (a, s) | Exn e => Exn e end.
(** Run a pure state transformer that also returns a value. *)
Definition tx_state {S A} (f : S → A * S) : tx S A := λ s, Ok (f s).
Definition tx_modify {S} (f : S → S) : tx S unit := λ s, Ok (tt, f s).

Lemma tx_bind_ok {S A B} (m : tx S A) (k : A → tx S B) s b s' :
  (m ≫= k) s = Ok (b, s') ↔ ∃ a s1, m s = Ok (a, s1) ∧ k a s1 = Ok (b, s').
Proof.
  unfold mbind, tx_bind. destruct (m s) as [[a s1]|e].
  - split; [eauto|]. by intros (? & ? & [= <- <-] & ?).
  - split; [done|]. by intros (? & ? & ? & ?).
Qed.

Lemma tx_state_ok {S A} (f : S → A * S) s a s' :
  tx_state f s = Ok (a, s') ↔ f s = (a, s').
Proof. unfold tx_state. split; [by intros [= ->]|by intros ->]. Qed.

(** ** Automation *)

(** Split a successful transaction body into the successes of its parts. *)
Ltac tx_inv_step :=
  match goal with
  | H : (_ ≫= _) _ = Ok _ |- _ => apply tx_bind_ok in H as (? & ? & ? & ?)
  | H : mret _ _ = Ok _ |- _ => injection H as <- <-
  | H : tx_get _ = Ok _ |- _ => injection H as <- <-
  | H : tx_modify _ _ = Ok _ |- _ => injection H as <- <-
  | H : tx_throw _ _ = Ok _ |- _ => discriminate H
  | H : Exn _ = Ok _ |- _ => discriminate H
  | H : Ok _ = Ok _ |- _ => injection H as ? ?
  end.
Ltac tx_inv := repeat (tx_inv_step; simplify_eq/=).

Create HintDb wf discriminated.

(** ** Lists *)

Lemma list_filter_ext_in {A} (P Q : A → Prop) `{∀ x, Decision (P x), ∀ x, Decision (Q x)}
    (l : list A) :
  (∀ x, x ∈ l → P x ↔ Q x) → filter P l = filter Q l.
Proof.
  induction l as [|x l IH]; intros HPQ; [done|]. rewrite !filter_cons.
  rewrite IH by (intros; apply HPQ; by right).
  destruct (decide (P x)) as [Hp|Hp], (decide (Q x)) as [Hq|Hq]; try done;
    exfalso; [apply Hq|apply Hp]; apply (HPQ x); (done || left).
Qed.

(** ** Counting the entries of a finite map *)

Definition b2z (b : bool) : Z := if b then 1%Z else 0%Z.

Section mcount.
Context {K A : Type} `{Countable K}.
Implicit Types (m : gmap K A) (p q : A → bool).

(** The number of entries of [m] that satisfy [p]. *)
Definition mcount (p : A → bool) (m : gmap K A) : Z :=
  Z.of_nat (size (filter (λ kv : K * A, p kv.2 = true) m)).

Lemma mcount_nonneg p m : (0 ≤ mcount p m)%Z.
Proof. unfold mcount. lia. Qed.

Lemma mcount_empty p : mcount p ∅ = 0%Z.
Proof. unfold mcount. by rewrite map_filter_empty, map_size_empty. Qed.

Lemma mcount_insert_new p m i x :
  m !! i = None → mcount p (<[i:=x]> m) = (mcount p m + b2z (p x))%Z.
Proof.
  intros Hi. unfold mcount, b2z. destruct (p x) eqn:Hp.
  - rewrite map_filter_insert_True by done.
    rewrite map_size_insert_None; [lia|]. apply map_lookup_filter_None. auto.
  - rewrite map_filter_insert_False by (simpl; congruence).
    rewrite delete_id by done. lia.
Qed.

Lemma mcount_delete p m i y :
  m !! i = Some y → mcount p m = (mcount p (delete i m) + b2z (p y))%Z.
Proof.
  intros Hi. rewrite <- (insert_delete_id m i y Hi) at 1.
  apply mcount_insert_new, lookup_delete_eq.
Qed.

Lemma mcount_insert p m i x y :
  m !! i = Some y →
  mcount p (<[i:=x]> m) = (mcount p m - b2z (p y) + b2z (p x))%Z.
Proof.
  intros Hi. rewrite (mcount_delete p m i y Hi).
  rewrite <- insert_delete_eq, mcount_insert_new by apply lookup_delete_eq. lia.
Qed.

Lemma mcount_fmap p (f : A → A) m : mcount p (f <$> m) = mcount (p ∘ f) m.
Proof.
  unfold mcount. rewrite map_filter_fmap, map_size_fmap. done.
Qed.

Lemma mcount_ext p q m :
  (∀ i x, m !! i = Some x → p x = q x) → mcount p m = mcount q m.
Proof.
  intros Hpq. unfold mcount. do 2 f_equal. apply map_filter_ext.
  intros i x Hx; simpl. by rewrite (Hpq i x Hx).
Qed.

Lemma mcount_split p q m :
  mcount p m = (mcount (λ x, p x && q x) m + mcount (λ x, p x && negb (q x)) m)%Z.
Proof.
  induction m as [|i x m Hi IH] using map_ind.
  - by rewrite !mcount_empty.
  - rewrite !mcount_insert_new by done. rewrite IH.
    destruct (p x), (q x); simpl; lia.
Qed.

Lemma mcount_zero p m :
  mcount p m = 0%Z ↔ ∀ i x, m !! i = Some x → p x = false.
Proof.
  induction m as [|i x m Hi IH] using map_ind.
  - rewrite mcount_empty. split; [|done]. intros _ i x. by rewrite lookup_empty.
  - rewrite mcount_insert_new by done. pose proof (mcount_nonneg p m). split.
    + intros Hz j y. destruct (p x) eqn:Hpx; simpl in Hz; [lia|].
      rewrite lookup_insert_Some. intros [[-> ->]|[_ Hj]]; [done|].
      revert j y Hj. apply IH. lia.
    + intros Hall. rewrite (Hall i x) by apply lookup_insert_eq. simpl.
      rewrite (proj2 IH); [done|]. intros j y Hj. apply (Hall j).
      rewrite lookup_insert_ne; congruence.
Qed.

Lemma mcount_exists p m : mcount p m ≠ 0%Z → ∃ i x, m !! i = Some x ∧ p x = true.
Proof.
  induction m as [|i x m Hi IH] using map_ind; [by rewrite mcount_empty|].
  rewrite mcount_insert_new by done. destruct (p x) eqn:Hpx.
  - intros _. exists i, x. by rewrite lookup_insert_eq.
  - simpl. intros Hne. destruct IH as (j & y & Hj & Hy); [lia|]. exists j, y.
    rewrite lookup_insert_ne; [done|congruence].
Qed.
End mcount.

(** ** Sums *)

Definition sumZ {A} (f : A → Z) (l : list A) : Z := foldr (λ x s, f x + s)%Z 0%Z l.
Definition countZ {A} (p : A → bool) (l : list A) : Z := sumZ (λ x, if p x then 1 else 0)%Z l.

Section sums.
Context {A : Type}.

Lemma sumZ_cons (f : A → Z) x l : sumZ f (x :: l) = (f x + sumZ f l)%Z.
Proof. done. Qed.

#[export] Instance sumZ_proper (f : A → Z) : Proper ((≡ₚ) ==> eq) (sumZ f).
Proof. induction 1; rewrite ?sumZ_cons; lia. Qed.

Lemma sumZ_app (f : A → Z) l k : sumZ f (l ++ k) = (sumZ f l + sumZ f k)%Z.
Proof. induction l; cbn [app]; rewrite ?sumZ_cons; [done|lia]. Qed.

Lemma sumZ_fmap {B} (g : A → B) (f : B → Z) l : sumZ f (g <$> l) = sumZ (λ x, f (g x)) l.
Proof. unfold sumZ. induction l; cbn in *; congruence. Qed.

Lemma sumZ_add (f g : A → Z) l : sumZ (λ x, f x + g x)%Z l = (sumZ f l + sumZ g l)%Z.
Proof. induction l; rewrite ?sumZ_cons; [done|lia]. Qed.

Lemma length_sumZ (l : list A) : Z.of_nat (length l) = sumZ (λ _, 1%Z) l.
Proof. induction l; rewrite ?sumZ_cons; [done|cbn [length]; lia]. Qed.

Lemma countZ_bounds (p : A → bool) l : (0 ≤ countZ p l ≤ Z.of_nat (length l))%Z.
Proof. unfold countZ. induction l as [|x l IH]; rewrite ?sumZ_cons; [done|]. cbn [length]. destruct (p x); lia. Qed.

Lemma countZ_filter (P : A → Prop) `{∀ x, Decision (P x)} l :
  countZ (λ x, bool_decide (P x)) l = Z.of_nat (length (filter P l)).
Proof.
  unfold countZ. induction l as [|x l IH]; [done|]. rewrite filter_cons, sumZ_cons, IH.
  case_bool_decide; destruct (decide (P x)); cbn [length]; done || lia.
Qed.

Lemma sumZ_insert (f : A → Z) l i x y : l !! i = Some x → sumZ f (<[i := y]> l) = (sumZ f l - f x + f y)%Z.
Proof.
  revert i. induction l as [|z l IH]; intros [|i] Hi; [done..| |]; cbn in Hi.
  - injection Hi as ->. change (<[0 := y]> (x :: l)) with (y :: l). rewrite !sumZ_cons. lia.
  - change (<[S i := y]> (z :: l)) with (z :: <[i := y]> l). rewrite !sumZ_cons, (IH i Hi). lia.
Qed.

Lemma sumZ_le (f g : A → Z) l : (∀ x, x ∈ l → f x ≤ g x)%Z → (sumZ f l ≤ sumZ g l)%Z.
Proof.
  induction l as [|x l IH]; intros Hle; [done|]. rewrite !sumZ_cons.
  pose proof (Hle x ltac:(by left)). assert (sumZ f l ≤ sumZ g l)%Z by (apply IH; intros y Hy; apply Hle; by right). lia.
Qed.

Lemma sumZ_lookup (f : A → Z) l i x : (∀ y, 0 ≤ f y)%Z → l !! i = Some x → (f x ≤ sumZ f l)%Z.
Proof.
  intros Hf. revert i. induction l as [|y l IH]; intros [|i] Hi; [done..| |]; cbn in Hi; rewrite sumZ_cons.
  - injection Hi as ->. assert (0 ≤ sumZ f l)%Z; [|lia]. clear IH. induction l as [|z l IH]; [done|].
    rewrite sumZ_cons. pose proof (Hf z). lia.
  - pose proof (IH i Hi). pose proof (Hf y). lia.
Qed.

Lemma sumZ_lt (f g : A → Z) l x :
  (∀ y, y ∈ l → f y ≤ g y)%Z → x ∈ l → (f x < g x)%Z → (sumZ f l < sumZ g l)%Z.
Proof.
  intros Hle Hx Hlt. apply list_elem_of_split in Hx as (l1 & l2 & ->). rewrite !sumZ_app, !sumZ_cons.
  pose proof (sumZ_le f g l1 ltac:(intros y Hy; apply Hle, elem_of_app; by left)).
  pose proof (sumZ_le f g l2 ltac:(intros y Hy; apply Hle, elem_of_app; right; by right)). lia.
Qed.

Lemma sumZ_ext (f g : A → Z) l : (∀ x, x ∈ l → f x = g x) → sumZ f l = sumZ g l.
Proof. intros H. apply Z.le_antisymm; apply sumZ_le; intros x Hx; by rewrite (H x Hx). Qed.
End sums.
