(* ===== verification/Program.v ===== *)
(** * Asynchronous programs over shared services

    Every operation of the engine is an [async] function: a sequence of
    awaited calls to MongoDB or Redis with plain JavaScript in between.  Each
    awaited call is atomic (a single document operation, a transaction, a Lua
    script); between two of them any other process may run, and the process
    itself may crash.  [prog] represents such a function as a tree of atomic
    steps on the shared world; [run] executes one without interference, and
    [pool_step] interleaves any number of them. *)

From S2P Require Import Prelude.

Section prog.
Context {W : Type}.

Inductive prog (A : Type) : Type :=
| Ret (a : A)
| Throw (e : exn)
| Atom {B : Type} (f : W → B * W) (k : B → prog A).
End prog.
Arguments prog : clear implicits.
Arguments Ret {W A} a.
Arguments Throw {W A} e.
Arguments Atom {W A B} f k.

Section prog_ops.
Context {W : Type}.

Fixpoint prog_bind_ {A B} (k : A → prog W B) (p : prog W A) : prog W B :=
  match p with
  | Ret a => k a
  | Throw e => Throw e
  | Atom f g => Atom f (λ b, prog_bind_ k (g b))
  end.

#[global] Instance prog_ret : MRet (prog W) := λ A a, Ret a.
#[global] Instance prog_bind : MBind (prog W) := λ A B k p, prog_bind_ k p.

(** [try p catch (err) { h err }]. *)
Fixpoint catch {A} (p : prog W A) (h : exn → prog W A) : prog W A :=
  match p with
  | Ret a => Ret a
  | Throw e => h e
  | Atom f g => Atom f (λ b, catch (g b) h)
  end.

Definition lift {A} (r : res A) : prog W A :=
  match r with Ok a => Ret a | Exn e => Throw e end.

(** One awaited call that may reject. *)
Definition await {A} (f : W → res A * W) : prog W A := Atom f lift.

(** [for (const x of l) await body(x)], without an accumulator and with one. *)
Fixpoint for_each {A} (l : list A) (body : A → prog W unit) : prog W unit :=
  match l with
  | [] => Ret tt
  | x :: l' => _ ← body x; for_each l' body
  end.

Fixpoint for_fold {A S} (l : list A) (s : S) (body : S → A → prog W S) : prog W S :=
  match l with
  | [] => Ret s
  | x :: l' => s' ← body s x; for_fold l' s' body
  end.

(** *** Sequential execution *)

Fixpoint run {A} (p : prog W A) (w : W) : res A * W :=
  match p with
  | Ret a => (Ok a, w)
  | Throw e => (Exn e, w)
  | Atom f k => let '(b, w') := f w in run (k b) w'
  end.

Lemma run_bind {A B} (p : prog W A) (k : A → prog W B) w :
  run (p ≫= k) w =
  match run p w with (Ok a, w') => run (k a) w' | (Exn e, w') => (Exn e, w') end.
Proof.
  revert w. induction p as [a|e|C f g IH]; intros w; try done.
  unfold mbind, prog_bind in *; simpl. destruct (f w) as [b w']. apply IH.
Qed.

Lemma run_catch {A} (p : prog W A) h w :
  run (catch p h) w =
  match run p w with (Ok a, w') => (Ok a, w') | (Exn e, w') => run (h e) w' end.
Proof.
  revert w. induction p as [a|e|C f g IH]; intros w; simpl; try done.
  destruct (f w) as [b w']. apply IH.
Qed.

Lemma run_lift {A} (r : res A) w : run (lift r) w = (r, w).
Proof. by destruct r. Qed.

Lemma run_await {A} (f : W → res A * W) w : run (await f) w = f w.
Proof. simpl. destruct (f w) as [[a|e] w']; done. Qed.

(** Two programs are equivalent when no sequential run tells them apart. *)
Definition prog_eq {A} (p q : prog W A) : Prop := ∀ w, run p w = run q w.

#[global] Instance prog_eq_equiv A : Equivalence (@prog_eq A).
Proof.
  split; [by intros p w|by intros p q H w|].
  intros p q r H1 H2 w. by rewrite (H1 w), (H2 w).
Qed.

#[global] Instance prog_bind_proper A B :
  Proper (pointwise_relation A prog_eq ==> prog_eq ==> prog_eq)
    (@mbind (prog W) prog_bind A B).
Proof.
  intros k1 k2 Hk p1 p2 Hp w. rewrite !run_bind, (Hp w).
  destruct (run p2 w) as [[a|e] w']; [apply Hk|done].
Qed.

Lemma prog_bind_assoc {A B C} (p : prog W A) (k1 : A → prog W B) (k2 : B → prog W C) :
  prog_eq ((p ≫= k1) ≫= k2) (p ≫= λ a, k1 a ≫= k2).
Proof.
  intros w. rewrite !run_bind. destruct (run p w) as [[a|e] w']; [|done].
  by rewrite run_bind.
Qed.

Lemma prog_bind_ret_l {A B} (a : A) (k : A → prog W B) : prog_eq (mret a ≫= k) (k a).
Proof. by intros w. Qed.

(** *** Invariants and guarantees of the atomic steps

    [steps_ok I G p]: started in a world that satisfies [I], every atomic
    step of [p] preserves [I] and relates the worlds before and after it by
    [G], whatever other programs (that do the same) did in between. *)
Fixpoint steps_ok (I : W → Prop) (G : W → W → Prop) {A} (p : prog W A) : Prop :=
  match p with
  | Ret _ | Throw _ => True
  | Atom f k => ∀ w, I w → I (f w).2 ∧ G w (f w).2 ∧ steps_ok I G (k (f w).1)
  end.

Section steps_ok.
Context (I : W → Prop) (G : W → W → Prop).

Lemma steps_ok_bind {A B} (p : prog W A) (k : A → prog W B) :
  steps_ok I G p → (∀ a, steps_ok I G (k a)) → steps_ok I G (p ≫= k).
Proof.
  intros Hp Hk. induction p as [a|e|C f g IH]; simpl in *; [apply Hk|done|].
  intros w Hw. destruct (Hp w Hw) as (? & ? & ?). repeat split; auto.
Qed.

Lemma steps_ok_catch {A} (p : prog W A) h :
  steps_ok I G p → (∀ e, steps_ok I G (h e)) → steps_ok I G (catch p h).
Proof.
  intros Hp Hh. induction p as [a|e|C f g IH]; simpl in *; [done|apply Hh|].
  intros w Hw. destruct (Hp w Hw) as (? & ? & ?). auto.
Qed.

Lemma steps_ok_await {A} (f : W → res A * W) :
  (∀ w, I w → I (f w).2 ∧ G w (f w).2) → steps_ok I G (await f).
Proof.
  intros Hf w Hw. destruct (Hf w Hw). repeat split; auto.
  destruct (f w).1; done.
Qed.

Lemma steps_ok_lift {A} (r : res A) : steps_ok I G (lift r).
Proof. by destruct r. Qed.

Lemma steps_ok_for_each {A} (l : list A) body :
  (∀ x, steps_ok I G (body x)) → steps_ok I G (for_each l body).
Proof.
  intros Hb. induction l; simpl; [done|]. by apply steps_ok_bind.
Qed.

Lemma steps_ok_for_fold {A S} (l : list A) (s : S) body :
  (∀ s x, steps_ok I G (body s x)) → steps_ok I G (for_fold l s body).
Proof.
  intros Hb. revert s. induction l; intros s; simpl; [done|].
  apply steps_ok_bind; auto.
Qed.

Lemma steps_ok_run {A} (p : prog W A) w : steps_ok I G p → I w → I (run p w).2.
Proof.
  revert w. induction p as [a|e|C f g IH]; simpl; intros w Hp Hw; [done..|].
  destruct (Hp w Hw) as (? & ? & ?). destruct (f w) as [b w']; simpl in *. auto.
Qed.

Lemma steps_ok_impl (J : W → Prop) (H : W → W → Prop) {A} (p : prog W A) :
  (∀ w, J w → I w) → (∀ w w', J w → I w' ∧ G w w' → J w' ∧ H w w') → steps_ok I G p → steps_ok J H p.
Proof.
  intros HI HG Hp. induction p as [a|e|C f g IH]; simpl in *; [done..|].
  intros w Hw. destruct (Hp w (HI w Hw)) as (? & ? & ?). destruct (HG w (f w).2 Hw); auto.
Qed.

(** The same, and [Q] holds of the result. *)
Fixpoint steps_spec {A} (Q : A → Prop) (p : prog W A) : Prop :=
  match p with
  | Ret a => Q a
  | Throw _ => True
  | Atom f k => ∀ w, I w → I (f w).2 ∧ G w (f w).2 ∧ steps_spec Q (k (f w).1)
  end.

Lemma steps_spec_ok {A} (Q : A → Prop) (p : prog W A) : steps_spec Q p → steps_ok I G p.
Proof.
  induction p as [a|e|C f g IH]; simpl; [done..|]. intros Hp w Hw. destruct (Hp w Hw) as (? & ? & ?). auto.
Qed.

Lemma steps_spec_of_ok {A} (Q : A → Prop) (p : prog W A) : (∀ a, Q a) → steps_ok I G p → steps_spec Q p.
Proof.
  intros HQ. induction p as [a|e|C f g IH]; simpl; [done..|]. intros Hp w Hw. destruct (Hp w Hw) as (? & ? & ?). auto.
Qed.

Lemma steps_ok_bind_spec {A B} (Q : A → Prop) (p : prog W A) (k : A → prog W B) :
  steps_spec Q p → (∀ a, Q a → steps_ok I G (k a)) → steps_ok I G (p ≫= k).
Proof.
  intros Hp Hk. induction p as [a|e|C f g IH]; simpl in *; [by apply Hk|done|].
  intros w Hw. destruct (Hp w Hw) as (? & ? & ?). auto.
Qed.

Lemma steps_spec_bind {A B} (Q : A → Prop) (R : B → Prop) (p : prog W A) (k : A → prog W B) :
  steps_spec Q p → (∀ a, Q a → steps_spec R (k a)) → steps_spec R (p ≫= k).
Proof.
  intros Hp Hk. induction p as [a|e|C f g IH]; simpl in *; [by apply Hk|done|].
  intros w Hw. destruct (Hp w Hw) as (? & ? & ?). auto.
Qed.

(** The worlds a program goes through when it runs alone: after each of its
    steps, where it may crash. *)
Fixpoint worlds {A} (p : prog W A) (w : W) : list W :=
  match p with
  | Ret _ | Throw _ => []
  | Atom f k => (f w).2 :: worlds (k (f w).1) (f w).2
  end.

Lemma worlds_bind {A B} (p : prog W A) (k : A → prog W B) w :
  worlds (p ≫= k) w =
  worlds p w ++ match run p w with (Ok a, w') => worlds (k a) w' | (Exn _, _) => [] end.
Proof.
  revert w. induction p as [a|e|C f g IH]; intros w; try done.
  unfold mbind, prog_bind in *; simpl. rewrite IH. by destruct (f w).
Qed.

Lemma steps_ok_worlds {A} (p : prog W A) w : steps_ok I G p → I w → Forall I (worlds p w).
Proof.
  revert w. induction p as [a|e|C f g IH]; simpl; intros w Hp Hw; [done..|].
  destruct (Hp w Hw) as (? & ? & ?). constructor; auto.
Qed.
End steps_ok.
End prog_ops.

#[export] Hint Resolve steps_ok_bind steps_ok_catch steps_ok_await steps_ok_lift
  steps_ok_for_each steps_ok_for_fold : wf.

(** ** Concurrency

    A pool of running operations.  At each step one operation performs its next
    atomic step, or a new call of the [api] arrives, or the environment moves
    the world ([env]: time passes, Redis fails or recovers).  An operation that
    is never scheduled again has crashed. *)
Section pool.
Context {W : Type} (api : prog W unit → Prop) (env : W → W → Prop).

Inductive pool_step : W * list (prog W unit) → W * list (prog W unit) → Prop :=
| step_atom w ps1 ps2 B (f : W → B * W) (k : B → prog W unit) :
    pool_step (w, ps1 ++ Atom f k :: ps2) ((f w).2, ps1 ++ k (f w).1 :: ps2)
| step_call w ps p :
    api p → pool_step (w, ps) (w, p :: ps)
| step_env w w' ps :
    env w w' → pool_step (w, ps) (w', ps).

(** The worlds reachable from [w0], with every interleaving and every crash. *)
Definition reachable (w0 w : W) : Prop :=
  ∃ ps, rtc pool_step (w0, []) (w, ps).

Context (I : W → Prop) (G : W → W → Prop).
Hypothesis api_ok : ∀ p, api p → steps_ok I G p.
Hypothesis env_ok : ∀ w w', env w w' → I w → I w' ∧ G w w'.

Definition pool_ok (st : W * list (prog W unit)) : Prop :=
  I st.1 ∧ Forall (steps_ok I G) st.2.

Lemma pool_step_ok st st' : pool_step st st' → pool_ok st → pool_ok st'.
Proof.
  intros Hstep [Hi Hps]. destruct Hstep as [w ps1 ps2 B f k|w ps p Hp|w w' ps He];
    simpl in *.
  - apply Forall_app in Hps as [? Hps]. apply Forall_cons in Hps as [Hat ?].
    destruct (Hat w Hi) as (? & ? & ?).
    split; [done|]. apply Forall_app. split; [done|]. by apply Forall_cons.
  - split; [done|]. apply Forall_cons. auto.
  - destruct (env_ok _ _ He Hi). done.
Qed.

Lemma pool_steps_ok st st' : rtc pool_step st st' → pool_ok st → pool_ok st'.
Proof. induction 1; eauto using pool_step_ok. Qed.

Lemma reachable_inv w0 w : I w0 → reachable w0 w → I w.
Proof.
  intros H0 [ps Hps]. eapply (pool_steps_ok _ _ Hps). split; [done|by constructor].
Qed.

(** Two moments of one execution of the system: [w], and [w'] at or after it. *)
Definition history (w0 w w' : W) : Prop :=
  ∃ ps ps', rtc pool_step (w0, []) (w, ps) ∧ rtc pool_step (w, ps) (w', ps').

Lemma pool_steps_rtc st st' : rtc pool_step st st' → pool_ok st → rtc G st.1 st'.1.
Proof.
  induction 1 as [|st1 st2 st3 H12 _ IH]; [done|]. intros Hok.
  pose proof (pool_step_ok _ _ H12 Hok) as Hok2. etrans; [|by apply IH].
  destruct Hok as [Hi Hps]. destruct H12 as [w ps1 ps2 B f k|w ps p Hp|w w' ps He]; simpl in *.
  - apply Forall_app in Hps as [? Hps]. apply Forall_cons in Hps as [Hat ?].
    apply rtc_once. by destruct (Hat w Hi) as (? & ? & ?).
  - done.
  - apply rtc_once. by destruct (env_ok _ _ He Hi).
Qed.

Lemma history_guarantee w0 w w' : I w0 → history w0 w w' → rtc G w w'.
Proof.
  intros H0 (ps & ps' & H1 & H2). apply (pool_steps_rtc _ _ H2).
  apply (pool_steps_ok _ _ H1). split; [done|by constructor].
Qed.

Lemma history_reachable w0 w w' : history w0 w w' → reachable w0 w ∧ reachable w0 w'.
Proof.
  intros (ps & ps' & H1 & H2). split; [by exists ps|]. exists ps'. by etrans.
Qed.
End pool.

(** Running one call of the API to its end is a special case. *)
Section pool_run.
Context {W : Type} (api : prog W unit → Prop) (env : W → W → Prop).

Lemma pool_run (p : prog W unit) w ps :
  ∃ p', rtc (pool_step api env) (w, p :: ps) ((run p w).2, p' :: ps).
Proof.
  revert w. induction p as [a|e|B f k IH]; intros w; simpl; [eexists; done..|].
  destruct (f w) as [b w'] eqn:Hf. destruct (IH b w') as [p' Hp'].
  exists p'. eapply rtc_l; [|apply Hp'].
  pose proof (step_atom api env w [] ps B f k) as Hs. by rewrite Hf in Hs.
Qed.

Lemma reachable_run (p : prog W unit) w0 w :
  api p → reachable api env w0 w → reachable api env w0 (run p w).2.
Proof.
  intros Hp [ps Hps]. destruct (pool_run p w ps) as [p' Hp'].
  exists (p' :: ps). etrans; [done|].
  eapply rtc_l; [by apply step_call|done].
Qed.

(** So is a call that crashes on the way. *)
Lemma pool_crash (p : prog W unit) w w' ps :
  w' ∈ worlds p w → ∃ p', rtc (pool_step api env) (w, p :: ps) (w', p' :: ps).
Proof.
  revert w. induction p as [a|e|B f k IH]; intros w; simpl; [by intros ?%not_elem_of_nil..|].
  pose proof (step_atom api env w [] ps B f k) as Hs. intros [->|Hin]%elem_of_cons.
  - eexists. by apply rtc_once.
  - destruct (IH _ _ Hin) as [p' Hp']. exists p'. eapply rtc_l; [exact Hs|done].
Qed.

Lemma reachable_crash (p : prog W unit) w0 w w' :
  api p → reachable api env w0 w → w' ∈ worlds p w → reachable api env w0 w'.
Proof.
  intros Hp [ps Hps] Hin. destruct (pool_crash p w w' ps Hin) as [p' Hp'].
  exists (p' :: ps). etrans; [done|]. eapply rtc_l; [by apply step_call|done].
Qed.

Lemma reachable_refl w : reachable api env w w.
Proof. by exists []. Qed.

Lemma reachable_env w0 w w' :
  env w w' → reachable api env w0 w → reachable api env w0 w'.
Proof.
  intros He [ps Hps]. exists ps. eapply rtc_r; [done|by apply step_env].
Qed.
End pool_run.

(** An explicit interleaving: the [k]-th program takes its next step. *)
Definition step_nth {W A} (st : W * list (prog W A)) (k : nat) : W * list (prog W A) :=
  match st.2 !! k with
  | Some (Atom f g) => let '(b, w) := f st.1 in (w, <[k := g b]> st.2)
  | _ => st
  end.

Definition schedule {W A} (ks : list nat) (st : W * list (prog W A)) : W * list (prog W A) :=
  foldl step_nth st ks.

(** A program on a part of the world. *)
Fixpoint zoom {V W A} (get : W → V) (put : V → W → W) (p : prog V A) : prog W A :=
  match p with
  | Ret a => Ret a
  | Throw e => Throw e
  | Atom f k => Atom (λ w, let '(b, v) := f (get w) in (b, put v w)) (λ b, zoom get put (k b))
  end.

Lemma steps_ok_zoom {V W A} (I : W → Prop) (G : W → W → Prop) (J : V → Prop) (H : V → V → Prop)
    (get : W → V) (put : V → W → W) (p : prog V A) :
  (∀ w, I w → J (get w)) → (∀ w v, I w → J v → H (get w) v → I (put v w) ∧ G w (put v w)) →
  steps_ok J H p → steps_ok I G (zoom get put p).
Proof.
  intros HJ HI. induction p as [a|e|B f k IH]; simpl; [done..|]. intros Hp w Hw.
  destruct (Hp (get w) (HJ w Hw)) as (H1 & H2 & H3). destruct (f (get w)) as [b v]. simpl in *.
  destruct (HI w v Hw H1 H2). auto.
Qed.

Lemma steps_ok_any {W A} (p : prog W A) : steps_ok (λ _, True) (λ _ _, True) p.
Proof. induction p as [a|e|B f k IH]; simpl; auto. Qed.

Lemma run_zoom {V W A} (get : W → V) (put : V → W → W) (p : prog V A) w :
  (∀ v w, get (put v w) = v) → (∀ v v' w, put v' (put v w) = put v' w) → (∀ w, put (get w) w = w) →
  run (zoom get put p) w = let '(r, v) := run p (get w) in (r, put v w).
Proof.
  intros Hgp Hpp Hpg. revert w. induction p as [a|e|B f k IH]; intros w; simpl; [by rewrite Hpg..|].
  destruct (f (get w)) as [b v]. rewrite IH, Hgp. destruct (run (k b) v) as [r v']. by rewrite Hpp.
Qed.
