(* ===== verification/Ownership.v ===== *)
(** * Programs that own something

    The rely-guarantee reasoning of [Program] with exclusive tokens: a running
    program may hold tokens that no other program holds, and the invariant says
    what the tokens in circulation stand for.  A step may create tokens that
    nobody has, and give up its own; a program that ends or crashes only leaves
    its tokens behind.  At the end, the same for facts that a program learns and
    that stay true. *)

From S2P Require Import Prelude Program.

Section ownership.
Context {W K : Type} `{Countable K}.
(** [I T w]: the world is good while exactly the tokens [T] are held. *)
Context (I : gset K → W → Prop).

(** [p], which holds [T], keeps the invariant whatever tokens [others] hold,
    and holds tokens and returns a value that satisfy [Q]. *)
Fixpoint owns {A} (T : gset K) (p : prog W A) (Q : gset K → A → Prop) : Prop :=
  match p with
  | Ret a => Q T a
  | Throw _ => True
  | Atom f k => ∀ w others, T ## others → I (T ∪ others) w →
      ∃ T', T' ## others ∧ I (T' ∪ others) (f w).2 ∧ owns T' (k (f w).1) Q
  end.

Lemma owns_impl {A} (p : prog W A) (Q Q' : gset K → A → Prop) : ∀ T,
  (∀ T a, Q T a → Q' T a) → owns T p Q → owns T p Q'.
Proof.
  induction p as [a|e|B f k IH]; intros T HQ; cbn; [by apply HQ|done|].
  intros Hp w others Hd HI. destruct (Hp w others Hd HI) as (T' & Hd' & HI' & Hk). exists T'. split_and!; [done..|]. by apply IH.
Qed.

Lemma owns_bind {A B} (p : prog W A) (k : A → prog W B) (Q : gset K → B → Prop) : ∀ T,
  owns T p (λ T' a, owns T' (k a) Q) → owns T (p ≫= k) Q.
Proof.
  induction p as [a|e|C f g IH]; intros T; cbn; [done..|]. intros Hp w others Hd HI.
  destruct (Hp w others Hd HI) as (T' & Hd' & HI' & Hk). exists T'. split_and!; [done..|]. by apply IH.
Qed.

(** *** A pool of programs *)

(** No token is held twice. *)
Fixpoint apart (Ts : list (gset K)) : Prop :=
  match Ts with [] => True | T :: Ts => T ## ⋃ Ts ∧ apart Ts end.

Lemma apart_middle (Ts1 : list (gset K)) (T : gset K) (Ts2 : list (gset K)) : apart (Ts1 ++ T :: Ts2) ↔ T ## ⋃ (Ts1 ++ Ts2) ∧ apart (Ts1 ++ Ts2).
Proof.
  induction Ts1 as [|T1 Ts1 IH]; cbn; [done|]. rewrite IH, !union_list_app_L. cbn. set_solver.
Qed.

Lemma union_middle (Ts1 : list (gset K)) (T : gset K) (Ts2 : list (gset K)) : ⋃ (Ts1 ++ T :: Ts2) = T ∪ ⋃ (Ts1 ++ Ts2).
Proof. rewrite !union_list_app_L. cbn. set_solver. Qed.

Context (api : prog W unit → Prop) (env : W → W → Prop).
Hypothesis (weaken : ∀ T T' w, T ⊆ T' → I T' w → I T w).
Hypothesis (api_owns : ∀ p, api p → owns ∅ p (λ _ _, True)).
Hypothesis (env_owns : ∀ w w' T, env w w' → I T w → I T w').

Definition pool_owned (st : W * list (prog W unit)) : Prop :=
  ∃ Ts, Forall2 (λ T p, owns T p (λ _ _, True)) Ts st.2 ∧ apart Ts ∧ I (⋃ Ts) st.1.

Lemma pool_step_owned st st' : pool_step api env st st' → pool_owned st → pool_owned st'.
Proof.
  intros Hstep (Ts & Hps & Hap & HI). destruct Hstep as [w ps1 ps2 B f k|w ps p Hp|w w' ps He]; cbn in *.
  - apply Forall2_app_inv_r in Hps as (Ts1 & Ts' & Hps1 & Hps' & ->).
    inversion Hps' as [|T ? Ts2 ? Hatom Hps2]; subst. apply apart_middle in Hap as [Hd Hap]. rewrite union_middle in HI.
    destruct (Hatom w _ Hd HI) as (T' & Hd' & HI' & Hk). exists (Ts1 ++ T' :: Ts2). split_and!.
    + by apply Forall2_app; [|constructor].
    + by apply apart_middle.
    + by rewrite union_middle.
  - exists (∅ :: Ts). split_and!; [constructor; [by apply api_owns|done]|split; [set_solver|done]|]. cbn. by rewrite union_empty_l_L.
  - exists Ts. split_and!; [done..|]. by eapply env_owns.
Qed.

(** In every reachable world the invariant holds, and as no tokens are needed. *)
Lemma reachable_owned w0 w : I ∅ w0 → reachable api env w0 w → I ∅ w.
Proof.
  intros H0 [ps Hps].
  assert (pool_owned (w, ps)) as (Ts & _ & _ & HI); [|by eapply weaken, HI].
  assert (∀ st st', rtc (pool_step api env) st st' → pool_owned st → pool_owned st') as Hsteps
    by (induction 1; eauto using pool_step_owned).
  apply (Hsteps _ _ Hps). exists []. by split_and!.
Qed.
End ownership.

(** A program on a part of the world whose steps all keep the invariant needs
    no tokens, and keeps those that it has. *)
Section zoom.
Context {W V K : Type} `{Countable K} (I : gset K → W → Prop).
Context (get : W → V) (put : V → W → W) (J : V → Prop) (G : V → V → Prop).
Hypothesis (looks : ∀ T w, I T w → J (get w)).
Hypothesis (keeps : ∀ T w v, I T w → J v → G (get w) v → I T (put v w)).

Lemma owns_zoom {A} (p : prog V A) : ∀ T, steps_ok J G p → owns I T (zoom get put p) (λ T' _, T' = T).
Proof.
  induction p as [a|e|B f k IH]; intros T; cbn; [done..|]. intros Hp w others Hd HI.
  destruct (Hp (get w)) as (HJ & HG & Hk); [by eapply looks|]. destruct (f (get w)) as [b v]. cbn in *.
  exists T. split_and!; [done|by eapply keeps|by apply IH].
Qed.

Lemma owns_zoom_bind {A B} (p : prog V A) (k : A → prog V B) (Q : gset K → B → Prop) : ∀ T,
  owns I T (zoom get put p) (λ T' a, owns I T' (zoom get put (k a)) Q) → owns I T (zoom get put (p ≫= k)) Q.
Proof.
  induction p as [a|e|C f g IH]; intros T; cbn; [done..|]. intros Hp w others Hd HI.
  destruct (Hp w others Hd HI) as (T' & Hd' & HI' & Hk). exists T'. split; [done|].
  destruct (f (get w)) as [b v]. cbn in *. split; [done|]. by apply IH.
Qed.
End zoom.

(** The same without a part. *)
Lemma owns_steps {W K A} `{Countable K} (I : gset K → W → Prop) (J : W → Prop) (G : W → W → Prop) (p : prog W A) :
  (∀ T w, I T w → J w) → (∀ T w w', I T w → G w w' → I T w') → ∀ T, steps_ok J G p → owns I T p (λ T' _, T' = T).
Proof.
  intros Hlooks Hkeeps. induction p as [a|e|B f k IH]; intros T; cbn; [done..|]. intros Hp w others Hd HI.
  destruct (Hp w) as (HJ & HG & Hk); [by eapply Hlooks|]. exists T. split_and!; [done|by eapply Hkeeps|by apply IH].
Qed.

(** ** Programs that know something

    A fact that no step of the guarantee destroys may be learnt at one step and
    used at a later one, whatever happens in between. *)
Section knowledge.
Context {W : Type} (I : W → Prop) (G : W → W → Prop).

Definition stable (F : W → Prop) : Prop := ∀ w w', G w w' → F w → F w'.

(** [p], which knows [F], keeps the invariant and the guarantee. *)
Fixpoint knows {A} (F : W → Prop) (p : prog W A) (Q : A → (W → Prop) → Prop) : Prop :=
  match p with
  | Ret a => Q a F
  | Throw _ => True
  | Atom f k => ∀ w, I w → F w →
      I (f w).2 ∧ G w (f w).2 ∧ ∃ F', stable F' ∧ F' (f w).2 ∧ knows F' (k (f w).1) Q
  end.

Lemma knows_impl {A} (p : prog W A) (Q Q' : A → (W → Prop) → Prop) : ∀ F,
  (∀ a F', Q a F' → Q' a F') → knows F p Q → knows F p Q'.
Proof.
  induction p as [a|e|B f k IH]; intros F HQ; cbn; [apply HQ|done|].
  intros Hp w HI HF. destruct (Hp w HI HF) as (? & ? & F' & ? & ? & ?). split_and!; [done..|]. exists F'. split_and!; [done..|]. by apply IH.
Qed.

Lemma knows_bind {A B} (p : prog W A) (k : A → prog W B) (Q : B → (W → Prop) → Prop) : ∀ F,
  knows F p (λ a F', knows F' (k a) Q) → knows F (p ≫= k) Q.
Proof.
  induction p as [a|e|C f g IH]; intros F; cbn; [done..|]. intros Hp w HI HF.
  destruct (Hp w HI HF) as (? & ? & F' & ? & ? & ?). split_and!; [done..|]. exists F'. split_and!; [done..|]. by apply IH.
Qed.

Lemma knows_catch {A} (p : prog W A) (h : exn → prog W A) (Q : A → (W → Prop) → Prop) : ∀ F,
  (∀ F' e, knows F' (h e) Q) → knows F p Q → knows F (catch p h) Q.
Proof.
  induction p as [a|e|C f g IH]; intros F Hh; cbn; [done|by intros _|]. intros Hp w HI HF.
  destruct (Hp w HI HF) as (? & ? & F' & ? & ? & ?). split_and!; [done..|]. exists F'. split_and!; [done..|]. by apply IH.
Qed.

(** A program that needs no knowledge keeps what it has. *)
Lemma knows_steps {A} (p : prog W A) : ∀ F, stable F → steps_ok I G p → knows F p (λ _ F', F' = F).
Proof.
  induction p as [a|e|B f k IH]; intros F HF; cbn; [done..|]. intros Hp w HI HFw. destruct (Hp w HI) as (? & HG & ?).
  split_and!; [done..|]. exists F. split_and!; [done|by eapply HF|by apply IH].
Qed.

Context (api : prog W unit → Prop) (env : W → W → Prop).
Hypothesis (api_knows : ∀ p, api p → knows (λ _, True) p (λ _ _, True)).
Hypothesis (env_keeps : ∀ w w', env w w' → I w → I w' ∧ G w w').

Definition informed (w : W) (p : prog W unit) : Prop := ∃ F, stable F ∧ F w ∧ knows F p (λ _ _, True).

Lemma informed_later w w' ps : G w w' → Forall (informed w) ps → Forall (informed w') ps.
Proof. intros HG Hps. apply (Forall_impl _ _ _ Hps). intros p (F & HF & HFw & Hp). exists F. split_and!; [done|by eapply HF|done]. Qed.

Lemma pool_step_informed st st' :
  pool_step api env st st' → I st.1 ∧ Forall (informed st.1) st.2 → I st'.1 ∧ Forall (informed st'.1) st'.2.
Proof.
  intros Hstep [HI Hps]. destruct Hstep as [w ps1 ps2 B f k|w ps p Hp|w w' ps He]; cbn in *.
  - apply Forall_app in Hps as [Hps1 [(F & HF & HFw & Hat) Hps2]%Forall_cons].
    destruct (Hat w HI HFw) as (HI' & HG & F' & HF' & HFw' & Hk). split; [done|].
    apply Forall_app. split; [by eapply informed_later|]. constructor; [by exists F'|by eapply informed_later].
  - split; [done|]. constructor; [|done]. exists (λ _, True). split_and!; [done..|]. by apply api_knows.
  - destruct (env_keeps _ _ He HI) as [HI' HG]. split; [done|]. by eapply informed_later.
Qed.

Lemma reachable_informed w0 w : I w0 → reachable api env w0 w → I w.
Proof.
  intros H0 [ps Hps].
  assert (∀ st st', rtc (pool_step api env) st st' → I st.1 ∧ Forall (informed st.1) st.2 → I st'.1 ∧ Forall (informed st'.1) st'.2) as Hsteps
    by (induction 1; eauto using pool_step_informed).
  by apply (Hsteps _ _ Hps).
Qed.
End knowledge.
