(* ===== verification/States.v ===== *)
(** * State machines of executions and tasks ([src/workflow/states.js])

    The two transition tables, the three queries on them, and what the tables
    guarantee.  Statuses are strings in the source; [TASK_STATUS] and
    [EXECUTION_STATUS] enumerate them, and the queries accept any string. *)

From S2P Require Import Prelude.

Inductive EXECUTION_STATUS : Type :=
| E_PENDING | E_RUNNING | E_PAUSED | E_WAITING_FOR_APPROVAL
| E_COMPLETED | E_FAILED | E_CANCELLED.

Inductive TASK_STATUS : Type :=
| T_PENDING | T_READY | T_QUEUED | T_RUNNING | T_RETRYING | T_WAITING_FOR_APPROVAL
| T_COMPLETED | T_FAILED | T_DEAD_LETTER | T_CANCELLED.

#[export] Instance execution_status_eq_dec : EqDecision EXECUTION_STATUS.
Proof. solve_decision. Defined.
#[export] Instance task_status_eq_dec : EqDecision TASK_STATUS.
Proof. solve_decision. Defined.

Definition execution_status_str (s : EXECUTION_STATUS) : string :=
  match s with
  | E_PENDING => "PENDING" | E_RUNNING => "RUNNING" | E_PAUSED => "PAUSED"
  | E_WAITING_FOR_APPROVAL => "WAITING_FOR_APPROVAL" | E_COMPLETED => "COMPLETED"
  | E_FAILED => "FAILED" | E_CANCELLED => "CANCELLED"
  end.

Definition task_status_str (s : TASK_STATUS) : string :=
  match s with
  | T_PENDING => "PENDING" | T_READY => "READY" | T_QUEUED => "QUEUED"
  | T_RUNNING => "RUNNING" | T_RETRYING => "RETRYING"
  | T_WAITING_FOR_APPROVAL => "WAITING_FOR_APPROVAL" | T_COMPLETED => "COMPLETED"
  | T_FAILED => "FAILED" | T_DEAD_LETTER => "DEAD_LETTER" | T_CANCELLED => "CANCELLED"
  end.

Definition execution_statuses : list EXECUTION_STATUS :=
  [E_PENDING; E_RUNNING; E_PAUSED; E_WAITING_FOR_APPROVAL; E_COMPLETED; E_FAILED; E_CANCELLED].

Definition task_statuses : list TASK_STATUS :=
  [T_PENDING; T_READY; T_QUEUED; T_RUNNING; T_RETRYING; T_WAITING_FOR_APPROVAL;
   T_COMPLETED; T_FAILED; T_DEAD_LETTER; T_CANCELLED].

(** [from -> allowed next states]; terminal states map to an empty list. *)
Definition EXECUTION_TRANSITIONS (s : EXECUTION_STATUS) : list EXECUTION_STATUS :=
  match s with
  | E_PENDING => [E_RUNNING; E_CANCELLED]
  | E_RUNNING => [E_PAUSED; E_WAITING_FOR_APPROVAL; E_COMPLETED; E_FAILED; E_CANCELLED]
  | E_PAUSED => [E_RUNNING; E_FAILED; E_CANCELLED]
  | E_WAITING_FOR_APPROVAL => [E_RUNNING; E_FAILED; E_CANCELLED]
  | E_COMPLETED => []
  | E_FAILED => []
  | E_CANCELLED => []
  end.

Definition TASK_TRANSITIONS (s : TASK_STATUS) : list TASK_STATUS :=
  match s with
  | T_PENDING => [T_READY; T_CANCELLED]
  | T_READY => [T_QUEUED; T_CANCELLED]
  | T_QUEUED => [T_RUNNING; T_READY; T_CANCELLED]
  | T_RUNNING => [T_COMPLETED; T_FAILED; T_RETRYING; T_WAITING_FOR_APPROVAL; T_QUEUED; T_CANCELLED]
  | T_RETRYING => [T_QUEUED; T_CANCELLED]
  | T_WAITING_FOR_APPROVAL => [T_COMPLETED; T_FAILED; T_CANCELLED]
  | T_FAILED => [T_DEAD_LETTER]
  | T_COMPLETED => []
  | T_DEAD_LETTER => []
  | T_CANCELLED => []
  end.

(** The tables as the source stores them, keyed by strings. *)
Definition MACHINES : gmap string (gmap string (list string)) :=
  {[ "execution" := list_to_map ((λ s, (execution_status_str s,
                       execution_status_str <$> EXECUTION_TRANSITIONS s)) <$> execution_statuses);
     "task" := list_to_map ((λ s, (task_status_str s,
                       task_status_str <$> TASK_TRANSITIONS s)) <$> task_statuses) ]}.

(** [table[from]?.includes(to) ?? false], after the check that the machine exists. *)
Definition canTransition (machine from to : string) : res bool :=
  match MACHINES !! machine with
  | None => Exn (PlainErr (String.append "Unknown state machine: " machine))
  | Some table =>
      match table !! from with
      | None => Ok false
      | Some next => Ok (bool_decide (to ∈ next))
      end
  end.

Definition assertTransition (machine from to : string) : res unit :=
  ok ← canTransition machine from to;
  if ok : bool then Ok tt else Exn (InvalidTransitionError machine from to).

(** [MACHINES[machine][status]?.length === 0]. *)
Definition isTerminal (machine status : string) : res bool :=
  table ← get_or_type_error (MACHINES !! machine);
  match table !! status with
  | None => Ok false
  | Some next => Ok (bool_decide (length next = 0))
  end.

(** The two machines on the typed statuses. *)
Definition assertTask (from to : TASK_STATUS) : res unit :=
  assertTransition "task" (task_status_str from) (task_status_str to).
Definition assertExecution (from to : EXECUTION_STATUS) : res unit :=
  assertTransition "execution" (execution_status_str from) (execution_status_str to).

Definition task_edge (from to : TASK_STATUS) : bool := bool_decide (to ∈ TASK_TRANSITIONS from).
Definition execution_edge (from to : EXECUTION_STATUS) : bool :=
  bool_decide (to ∈ EXECUTION_TRANSITIONS from).

Definition task_terminal (s : TASK_STATUS) : bool := bool_decide (TASK_TRANSITIONS s = []).
Definition execution_terminal (s : EXECUTION_STATUS) : bool :=
  bool_decide (EXECUTION_TRANSITIONS s = []).

Lemma assertTask_spec a b :
  assertTask a b =
  if task_edge a b then Ok tt
  else Exn (InvalidTransitionError "task" (task_status_str a) (task_status_str b)).
Proof. destruct a, b; vm_compute; reflexivity. Qed.

Lemma assertExecution_spec a b :
  assertExecution a b =
  if execution_edge a b then Ok tt
  else Exn (InvalidTransitionError "execution" (execution_status_str a) (execution_status_str b)).
Proof. destruct a, b; vm_compute; reflexivity. Qed.

Lemma isTerminal_task s : isTerminal "task" (task_status_str s) = Ok (task_terminal s).
Proof. destruct s; vm_compute; reflexivity. Qed.

Lemma isTerminal_execution s :
  isTerminal "execution" (execution_status_str s) = Ok (execution_terminal s).
Proof. destruct s; vm_compute; reflexivity. Qed.

(** A status change of a task as the engine performs it in one atomic step:
    none, an edge of the table, or one of the three compounds that the source
    documents (a retry wake-up RETRYING -> QUEUED -> RUNNING, a takeover
    RUNNING -> QUEUED -> RUNNING, and RUNNING -> FAILED -> DEAD_LETTER). *)
Inductive task_move : TASK_STATUS → TASK_STATUS → Prop :=
| move_none s : task_move s s
| move_edge a b : task_edge a b = true → task_move a b
| move_compound a b c : task_edge a b = true → task_edge b c = true → task_move a c.

Inductive execution_move : EXECUTION_STATUS → EXECUTION_STATUS → Prop :=
| emove_none s : execution_move s s
| emove_edge a b : execution_edge a b = true → execution_move a b
| emove_compound a b c :
    execution_edge a b = true → execution_edge b c = true → execution_move a c.

#[export] Hint Constructors task_move execution_move : wf.

(** The reachability that many moves give. *)
Definition task_path : relation TASK_STATUS := rtc (λ a b, task_edge a b = true).
Definition execution_path : relation EXECUTION_STATUS := rtc (λ a b, execution_edge a b = true).

Lemma task_move_path a b : task_move a b → task_path a b.
Proof.
  destruct 1; [done|by apply rtc_once|].
  eapply rtc_l; [done|by apply rtc_once].
Qed.

Lemma execution_move_path a b : execution_move a b → execution_path a b.
Proof.
  destruct 1; [done|by apply rtc_once|].
  eapply rtc_l; [done|by apply rtc_once].
Qed.

Lemma task_terminal_path a b : task_terminal a = true → task_path a b → b = a.
Proof.
  intros Ha Hp. inversion Hp as [|? ? ? He]; subst; [done|].
  destruct a; try discriminate Ha; destruct y; discriminate He.
Qed.

Lemma execution_terminal_path a b :
  execution_terminal a = true → execution_path a b → b = a.
Proof.
  intros Ha Hp. inversion Hp as [|? ? ? He]; subst; [done|].
  destruct a; try discriminate Ha; destruct y; discriminate He.
Qed.

(** Finished: the four statuses a task never leaves for an unfinished one. *)
Definition task_finished (s : TASK_STATUS) : bool :=
  match s with
  | T_COMPLETED | T_FAILED | T_DEAD_LETTER | T_CANCELLED => true
  | _ => false
  end.

Lemma task_finished_path a b :
  task_finished a = true → task_path a b → task_finished b = true.
Proof.
  intros Ha. induction 1 as [|x y z He _ IH]; [done|]. apply IH.
  destruct x; try discriminate Ha; destruct y; try discriminate He; done.
Qed.
