(* ===== verification/Dag.v ===== *)
(** * Validation of workflow task graphs ([src/workflow/dag.js])

    [validateDag] with its structural checks, Kahn's algorithm ([kahn]) and the
    three-colour depth-first search ([findCycle]).  JavaScript [Map]s are
    [gmap]s, [Set]s are [gset]s; a read of a missing key that the source would
    dereference is a [TypeErr].  The two loops that are not structural take
    fuel; [DagFacts] and [CycleFacts] prove the fuel used here is enough. *)

From S2P Require Import Prelude.

(** The part of a task definition the graph code reads. *)
Record DagTask := mkDagTask {
  dt_key : string;
  dt_dependsOn : option (list string);   (* [dependsOn?] *)
}.

(** [task.dependsOn ?? []]. *)
Definition deps_of (t : DagTask) : list string := default [] (dt_dependsOn t).

Inductive DAG_ERROR : Type :=
| DUPLICATE_KEY | SELF_DEPENDENCY | DUPLICATE_DEPENDENCY | UNKNOWN_DEPENDENCY | CYCLE.

#[export] Instance dag_error_eq_dec : EqDecision DAG_ERROR.
Proof. solve_decision. Defined.

Record DagError := mkDagError {
  err_code : DAG_ERROR;
  err_task : option string;
  err_dependency : option string;
  err_cycle : option (list string);
  err_message : string;
}.

Record DagResult := mkDagResult {
  valid : bool;
  errors : list DagError;
  order : list string;
  levels : list (list string);
}.

Local Open Scope string_scope.

Definition quote (s : string) : string := String (Ascii.ascii_of_nat 34) s +:+
  String (Ascii.ascii_of_nat 34) EmptyString.

Definition duplicate_key_error (k : string) : DagError :=
  mkDagError DUPLICATE_KEY (Some k) None None
    ("Task key " +:+ quote k +:+ " is used more than once").
Definition self_dependency_error (k : string) : DagError :=
  mkDagError SELF_DEPENDENCY (Some k) None None
    ("Task " +:+ quote k +:+ " depends on itself").
Definition unknown_dependency_error (k d : string) : DagError :=
  mkDagError UNKNOWN_DEPENDENCY (Some k) (Some d) None
    ("Task " +:+ quote k +:+ " depends on unknown task " +:+ quote d).
Definition duplicate_dependency_error (k d : string) : DagError :=
  mkDagError DUPLICATE_DEPENDENCY (Some k) (Some d) None
    ("Task " +:+ quote k +:+ " lists dependency " +:+ quote d +:+ " more than once").

(** [xs.join(sep)]. *)
Fixpoint join (sep : string) (xs : list string) : string :=
  match xs with
  | [] => ""
  | [x] => x
  | x :: xs' => x +:+ sep +:+ join sep xs'
  end.

Definition cycle_error (c : list string) : DagError :=
  mkDagError CYCLE None None (Some c) ("Dependency cycle: " +:+ join " -> " c).

Local Close Scope string_scope.

(** ** Structural checks *)

(** The first loop of [validateDag]: the set of keys and the duplicates. *)
Fixpoint check_keys (seen : gset string) (tasks : list DagTask) : gset string * list DagError :=
  match tasks with
  | [] => (seen, [])
  | t :: tasks' =>
      let errs := if decide (dt_key t ∈ seen) then [duplicate_key_error (dt_key t)] else [] in
      let '(seen', errs') := check_keys ({[dt_key t]} ∪ seen) tasks' in
      (seen', errs ++ errs')
  end.

(** The inner loop over one task's dependencies. *)
Fixpoint check_deps (seen : gset string) (key : string) (counted : gset string)
    (deps : list string) : list DagError :=
  match deps with
  | [] => []
  | dep :: deps' =>
      (if decide (dep = key) then [self_dependency_error key]
       else if decide (dep ∈ seen) then [] else [unknown_dependency_error key dep]) ++
      (if decide (dep ∈ counted) then [duplicate_dependency_error key dep] else []) ++
      check_deps seen key ({[dep]} ∪ counted) deps'
  end.

Definition structural_errors (tasks : list DagTask) : list DagError :=
  let '(seen, errs) := check_keys ∅ tasks in
  errs ++ mjoin ((λ t, check_deps seen (dt_key t) ∅ (deps_of t)) <$> tasks).

(** ** Kahn's algorithm *)

Definition in_degrees (tasks : list DagTask) : gmap string Z :=
  foldl (λ m t, <[dt_key t := Z.of_nat (length (deps_of t))]> m) ∅ tasks.

(** [children.get(dep).push(key)]. *)
Definition push_child (key : string) (ch : gmap string (list string)) (dep : string)
    : res (gmap string (list string)) :=
  l ← get_or_type_error (ch !! dep);
  Ok (<[dep := l ++ [key]]> ch).

Fixpoint push_children (key : string) (deps : list string) (ch : gmap string (list string))
    : res (gmap string (list string)) :=
  match deps with
  | [] => Ok ch
  | dep :: deps' => ch' ← push_child key ch dep; push_children key deps' ch'
  end.

Fixpoint add_edges (tasks : list DagTask) (ch : gmap string (list string))
    : res (gmap string (list string)) :=
  match tasks with
  | [] => Ok ch
  | t :: tasks' => ch' ← push_children (dt_key t) (deps_of t) ch; add_edges tasks' ch'
  end.

Definition children_of (tasks : list DagTask) : res (gmap string (list string)) :=
  add_edges tasks (foldl (λ m t, <[dt_key t := []]> m) ∅ tasks).

(** One child of a completed task: decrement, and start it at zero. *)
Definition release_child (st : gmap string Z * list string) (child : string)
    : gmap string Z * list string :=
  let '(inDegree, next) := st in
  let remaining := (default 0 (inDegree !! child) - 1)%Z in
  (<[child := remaining]> inDegree,
   if decide (remaining = 0%Z) then next ++ [child] else next).

Fixpoint process_wave (ch : gmap string (list string)) (wave : list string)
    (st : gmap string Z * list string) : res (gmap string Z * list string) :=
  match wave with
  | [] => Ok st
  | key :: wave' =>
      cs ← get_or_type_error (ch !! key);
      process_wave ch wave' (foldl release_child st cs)
  end.

(** The [while] loop; [None] is running out of fuel. *)
Fixpoint kahn_loop (fuel : nat) (ch : gmap string (list string)) (inDegree : gmap string Z)
    (wave order : list string) (levels : list (list string))
    : option (res (list string * list (list string))) :=
  match wave, fuel with
  | [], _ => Some (Ok (order, levels))
  | _, 0 => None
  | _, S fuel' =>
      match process_wave ch wave (inDegree, []) with
      | Exn e => Some (Exn e)
      | Ok (inDegree', next) =>
          kahn_loop fuel' ch inDegree' next (order ++ wave) (levels ++ [wave])
      end
  end.

Record KahnResult := mkKahn {
  k_order : list string;
  k_levels : list (list string);
  k_unprocessed : list string;
}.

Definition kahn (tasks : list DagTask) : option (res KahnResult) :=
  match children_of tasks with
  | Exn e => Some (Exn e)
  | Ok ch =>
      let inDegree := in_degrees tasks in
      let wave := dt_key <$> filter (λ t, inDegree !! dt_key t = Some 0%Z) tasks in
      match kahn_loop (S (length tasks)) ch inDegree wave [] [] with
      | None => None
      | Some (Exn e) => Some (Exn e)
      | Some (Ok (order, levels)) =>
          let unprocessed := filter (λ k, k ∉ (list_to_set order : gset string))
                               (dt_key <$> tasks) in
          Some (Ok (mkKahn order levels unprocessed))
      end
  end.

(** ** Three-colour depth-first search *)

Inductive colour := WHITE | GREY | BLACK.

#[export] Instance colour_eq_dec : EqDecision colour.
Proof. solve_decision. Defined.

Record dfs := mkDfs { colours : gmap string colour; path : list string }.

(** [path.indexOf(x)], −1 when absent. *)
Fixpoint index_from (i : Z) (x : string) (l : list string) : Z :=
  match l with
  | [] => -1
  | y :: l' => if decide (x = y) then i else index_from (i + 1) x l'
  end.
Definition indexOf (x : string) (l : list string) : Z := index_from 0 x l.

(** [path.slice(i)]: a negative index counts from the end. *)
Definition slice (i : Z) (l : list string) : list string :=
  drop (if decide (i < 0)%Z then Z.to_nat (Z.max 0 (Z.of_nat (length l) + i)) else Z.to_nat i) l.

(** [path.pop()]. *)
Definition pop (l : list string) : list string := removelast l.

Section visit.
Context (deps : gmap string (list string)).

(** The [for (const dep of deps.get(key))] loop, [recur] being [visit]. *)
Fixpoint visit_deps (recur : string → dfs → option (res (option (list string) * dfs)))
    (key : string) (ds : list string) (st : dfs)
    : option (res (option (list string) * dfs)) :=
  match ds with
  | [] => Some (Ok (None, mkDfs (<[key := BLACK]> (colours st)) (pop (path st))))
  | dep :: ds' =>
      if decide (colours st !! dep = Some GREY) then
        Some (Ok (Some (slice (indexOf dep (path st)) (path st) ++ [dep]), st))
      else if decide (colours st !! dep = Some WHITE) then
        match recur dep st with
        | Some (Ok (None, st')) => visit_deps recur key ds' st'
        | r => r
        end
      else visit_deps recur key ds' st
  end.

Fixpoint visit (fuel : nat) (key : string) (st : dfs)
    : option (res (option (list string) * dfs)) :=
  match fuel with
  | 0 => None
  | S fuel' =>
      let st := mkDfs (<[key := GREY]> (colours st)) (path st ++ [key]) in
      match deps !! key with
      | None => Some (Exn TypeErr)
      | Some ds => visit_deps (visit fuel') key ds st
      end
  end.

Fixpoint visit_candidates (fuel : nat) (cands : list string) (st : dfs)
    : option (res (option (list string))) :=
  match cands with
  | [] => Some (Ok None)
  | key :: cands' =>
      if decide (colours st !! key = Some WHITE) then
        match visit fuel key st with
        | None => None
        | Some (Exn e) => Some (Exn e)
        | Some (Ok (Some c, _)) => Some (Ok (Some (reverse c)))
        | Some (Ok (None, st')) => visit_candidates fuel cands' st'
        end
      else visit_candidates fuel cands' st
  end.
End visit.

Definition deps_map (tasks : list DagTask) : gmap string (list string) :=
  foldl (λ m t, <[dt_key t := deps_of t]> m) ∅ tasks.

(** [candidates] is the JavaScript set in its insertion order. *)
Definition findCycle (tasks : list DagTask) (candidates : list string)
    : option (res (list string)) :=
  let st := mkDfs (foldl (λ m t, <[dt_key t := WHITE]> m) ∅ tasks) [] in
  match visit_candidates (deps_map tasks) (S (length tasks)) candidates st with
  | None => None
  | Some (Exn e) => Some (Exn e)
  | Some (Ok (Some c)) => Some (Ok c)
  | Some (Ok None) => Some (Ok candidates)
  end.

(** ** [validateDag] *)

Definition invalid (errs : list DagError) : DagResult := mkDagResult false errs [] [].

Definition validateDag (tasks : list DagTask) : option (res DagResult) :=
  let errs := structural_errors tasks in
  if decide (0 < length errs) then Some (Ok (invalid errs))
  else match kahn tasks with
       | None => None
       | Some (Exn e) => Some (Exn e)
       | Some (Ok k) =>
           if decide (0 < length (k_unprocessed k)) then
             match findCycle tasks (k_unprocessed k) with
             | None => None
             | Some (Exn e) => Some (Exn e)
             | Some (Ok c) => Some (Ok (invalid [cycle_error c]))
             end
           else Some (Ok (mkDagResult true [] (k_order k) (k_levels k)))
       end.

(** ** Evaluation on the graphs of the source's own unit tests *)

Module DagExamples.
Definition tk (k : string) (ds : list string) : DagTask := mkDagTask k (Some ds).

Example diamond :
  validateDag [tk "A" []; tk "B" ["A"]; tk "C" ["A"]; tk "D" ["B"; "C"]] =
  Some (Ok (mkDagResult true [] ["A"; "B"; "C"; "D"] [["A"]; ["B"; "C"]; ["D"]])).
Proof. vm_compute. reflexivity. Qed.

Example three_cycle :
  validateDag [tk "A" ["C"]; tk "B" ["A"]; tk "C" ["B"]] =
  Some (Ok (invalid [cycle_error ["A"; "B"; "C"; "A"]])).
Proof. vm_compute. reflexivity. Qed.

Example all_problems :
  (err_code <$> structural_errors
     [tk "A" ["A"]; tk "B" ["Z"]; tk "B" []; tk "C" ["A"; "A"]]) =
  [DUPLICATE_KEY; SELF_DEPENDENCY; UNKNOWN_DEPENDENCY; DUPLICATE_DEPENDENCY].
Proof. vm_compute. reflexivity. Qed.
End DagExamples.
