(* ===== verification/DagFacts.v ===== *)
(** * Kahn's algorithm is correct

    On a structurally sound task list (unique keys, known and unique
    dependencies) [kahn] terminates within its fuel, and its waves are exactly
    the depths of the dependency graph. *)

From S2P Require Import Prelude Dag.

(** ** The dependency graph of a task list *)

Definition keys (tasks : list DagTask) : list string := dt_key <$> tasks.

(** [k] lists [d] in its [dependsOn]. *)
Definition depends (tasks : list DagTask) (k d : string) : Prop :=
  ∃ t, t ∈ tasks ∧ dt_key t = k ∧ d ∈ deps_of t.

Definition acyclic (tasks : list DagTask) : Prop :=
  ∀ k, ¬ tc (depends tasks) k k.

(** What the structural checks of [validateDag] establish. *)
Record sound (tasks : list DagTask) : Prop := {
  sound_keys : NoDup (keys tasks);
  sound_known : ∀ k d, depends tasks k d → d ∈ keys tasks;
  sound_deps : ∀ t, t ∈ tasks → NoDup (deps_of t);
}.

(** A chain of dependencies: each element depends on the next one. *)
Fixpoint chain (tasks : list DagTask) (l : list string) : Prop :=
  match l with
  | k :: (d :: _) as l' => depends tasks k d ∧ chain tasks l'
  | _ => True
  end.

Section foldl_insert.
Context {T A : Type} (f : T → string) (g : T → A).

Lemma foldl_insert_notin l (m : gmap string A) k :
  k ∉ f <$> l → foldl (λ m t, <[f t := g t]> m) m l !! k = m !! k.
Proof.
  revert m. induction l as [|t l IH]; intros m; simpl; [done|].
  rewrite not_elem_of_cons. intros [? ?]. rewrite IH by done.
  by rewrite lookup_insert_ne.
Qed.

Lemma foldl_insert_in l (m : gmap string A) t :
  NoDup (f <$> l) → t ∈ l → foldl (λ m t, <[f t := g t]> m) m l !! f t = Some (g t).
Proof.
  revert m. induction l as [|t' l IH]; intros m Hnd; simpl; [by intros ?%not_elem_of_nil|].
  apply NoDup_cons in Hnd as [Hni Hnd]. intros [->|Ht]%elem_of_cons.
  - rewrite foldl_insert_notin by done. apply lookup_insert_eq.
  - by apply IH.
Qed.
End foldl_insert.

Section kahn.
Context (tasks : list DagTask) (Hs : sound tasks).

Definition kdeps (k : string) : list string := default [] (deps_map tasks !! k).

Lemma elem_of_keys k : k ∈ keys tasks ↔ ∃ t, t ∈ tasks ∧ dt_key t = k.
Proof.
  clear Hs. unfold keys. rewrite list_elem_of_fmap. split; intros (t & ? & ?); by exists t.
Qed.

Lemma deps_map_lookup t : t ∈ tasks → deps_map tasks !! dt_key t = Some (deps_of t).
Proof. intros. apply foldl_insert_in; [apply Hs|done]. Qed.

Lemma kdeps_task t : t ∈ tasks → kdeps (dt_key t) = deps_of t.
Proof. intros. unfold kdeps. by rewrite deps_map_lookup. Qed.

Lemma key_inj t1 t2 : t1 ∈ tasks → t2 ∈ tasks → dt_key t1 = dt_key t2 → t1 = t2.
Proof.
  intros [i Hi]%list_elem_of_lookup [j Hj]%list_elem_of_lookup Heq.
  assert (i = j) as ->; [|congruence].
  eapply (NoDup_lookup (keys tasks)); [apply Hs| |];
    unfold keys; rewrite list_lookup_fmap; [by rewrite Hi|by rewrite Hj, Heq].
Qed.

Lemma depends_kdeps k d : depends tasks k d ↔ k ∈ keys tasks ∧ d ∈ kdeps k.
Proof.
  split.
  - intros (t & Ht & <- & Hd). split; [apply elem_of_keys; eauto|].
    by rewrite kdeps_task.
  - intros [(t & Ht & <-)%elem_of_keys Hd]. rewrite kdeps_task in Hd by done.
    by exists t.
Qed.

Lemma kdeps_NoDup k : k ∈ keys tasks → NoDup (kdeps k).
Proof.
  intros (t & Ht & <-)%elem_of_keys. rewrite kdeps_task by done. by apply Hs.
Qed.

Lemma kdeps_known k d : k ∈ keys tasks → d ∈ kdeps k → d ∈ keys tasks.
Proof. intros. apply (sound_known _ Hs k). by apply depends_kdeps. Qed.

(** *** The children map *)

Definition childlist (d : string) : list string :=
  dt_key <$> filter (λ t, d ∈ deps_of t) tasks.

Lemma push_children_spec key ds (ch : gmap string (list string)) :
  NoDup ds → (∀ d, d ∈ ds → is_Some (ch !! d)) →
  ∃ ch', push_children key ds ch = Ok ch' ∧
    ∀ d, ch' !! d = (λ l, l ++ if bool_decide (d ∈ ds) then [key] else []) <$> ch !! d.
Proof.
  revert ch. induction ds as [|x ds IH]; intros ch Hnd Hdom; simpl.
  - exists ch. split; [done|]. intros d. destruct (ch !! d); simpl; [|done]. by rewrite app_nil_r.
  - apply NoDup_cons in Hnd as [Hx Hnd].
    destruct (Hdom x) as [l Hl]; [set_solver|].
    unfold push_child. rewrite Hl; simpl.
    destruct (IH (<[x:=l ++ [key]]> ch)) as (ch' & Hch' & Hlk); [done| |].
    { intros d Hd. rewrite lookup_insert_is_Some'. right. apply Hdom. set_solver. }
    exists ch'. split; [done|]. intros d. rewrite Hlk.
    destruct (decide (d = x)) as [->|Hne].
    + rewrite lookup_insert_eq, Hl; simpl.
      rewrite bool_decide_false, bool_decide_true by set_solver. by rewrite app_nil_r.
    + rewrite lookup_insert_ne by done.
      destruct (ch !! d); simpl; [|done]. do 2 f_equal.
      by rewrite (bool_decide_ext (d ∈ x :: ds) (d ∈ ds)) by set_solver.
Qed.

Lemma add_edges_spec l (ch : gmap string (list string)) :
  (∀ t, t ∈ l → NoDup (deps_of t)) →
  (∀ t d, t ∈ l → d ∈ deps_of t → is_Some (ch !! d)) →
  ∃ ch', add_edges l ch = Ok ch' ∧
    ∀ d, ch' !! d = (λ c, c ++ (dt_key <$> filter (λ t, d ∈ deps_of t) l)) <$> ch !! d.
Proof.
  revert ch. induction l as [|t l IH]; intros ch Hnd Hdom; simpl.
  - exists ch. split; [done|]. intros d. destruct (ch !! d); simpl; [|done].
    by rewrite app_nil_r.
  - destruct (push_children_spec (dt_key t) (deps_of t) ch) as (ch1 & -> & H1).
    { apply Hnd. set_solver. } { intros. apply (Hdom t); set_solver. }
    simpl. destruct (IH ch1) as (ch2 & -> & H2).
    { intros. apply Hnd. set_solver. }
    { intros t' d Ht' Hd. rewrite H1. rewrite fmap_is_Some. apply (Hdom t'); set_solver. }
    exists ch2. split; [done|]. intros d. rewrite H2, H1, <- option_fmap_compose.
    destruct (ch !! d); simpl; [|done]. f_equal. rewrite filter_cons, <- app_assoc.
    by case_bool_decide; case_decide.
Qed.

Lemma children_of_spec :
  ∃ ch, children_of tasks = Ok ch ∧ ∀ k, k ∈ keys tasks → ch !! k = Some (childlist k).
Proof.
  set (m0 := foldl (λ m t, <[dt_key t := []]> m) (∅ : gmap string (list string)) tasks).
  assert (Hm0 : ∀ k, k ∈ keys tasks → m0 !! k = Some []).
  { intros k (t & Ht & <-)%elem_of_keys. unfold m0.
    apply (foldl_insert_in dt_key (λ _, [] : list string)); [apply Hs|done]. }
  destruct (add_edges_spec tasks m0) as (ch & Hch & Hlk).
  { apply Hs. }
  { intros t d Ht Hd. rewrite Hm0; [done|]. apply (sound_known _ Hs (dt_key t)). by exists t. }
  exists ch. split; [done|]. intros k Hk. by rewrite Hlk, Hm0.
Qed.

Lemma elem_of_childlist d k :
  k ∈ childlist d ↔ k ∈ keys tasks ∧ d ∈ kdeps k.
Proof.
  unfold childlist. rewrite list_elem_of_fmap, <- depends_kdeps. unfold depends.
  setoid_rewrite list_elem_of_filter. naive_solver.
Qed.

Lemma childlist_NoDup d : NoDup (childlist d).
Proof.
  unfold childlist. apply NoDup_fmap_2_strong.
  - intros t1 t2 [_ ?]%list_elem_of_filter [_ ?]%list_elem_of_filter. by apply key_inj.
  - apply NoDup_filter. eapply NoDup_fmap_1, Hs.
Qed.

(** *** Unmet dependencies *)

(** How many dependencies of [k] are not in [dn]. *)
Definition unmet (dn : list string) (k : string) : Z :=
  Z.of_nat (length (filter (λ d, d ∉ dn) (kdeps k))).

Lemma unmet_nonneg dn k : (0 ≤ unmet dn k)%Z.
Proof. unfold unmet. lia. Qed.

Lemma unmet_zero dn k : unmet dn k = 0%Z ↔ ∀ d, d ∈ kdeps k → d ∈ dn.
Proof.
  unfold unmet. split.
  - intros Hz d Hd. destruct (decide (d ∈ dn)) as [|Hn]; [done|].
    assert (d ∈ filter (λ d, d ∉ dn) (kdeps k)) as Hin by (apply list_elem_of_filter; done).
    destruct (filter _ _); [by apply not_elem_of_nil in Hin|done].
  - intros Hall. destruct (filter _ _) as [|d l] eqn:Hf; [done|].
    assert (d ∈ filter (λ d, d ∉ dn) (kdeps k)) as Hin by (rewrite Hf; left).
    apply list_elem_of_filter in Hin as [Hn Hd]. by destruct Hn; apply Hall.
Qed.

Lemma filter_length_snoc (dn : list string) (x : string) (l : list string) :
  NoDup l → x ∉ dn →
  length (filter (λ d, d ∉ dn) l) =
  length (filter (λ d, d ∉ dn ++ [x]) l) + (if bool_decide (x ∈ l) then 1 else 0).
Proof.
  intros Hnd Hx. induction Hnd as [|y l Hy _ IH]; [done|].
  rewrite !filter_cons. destruct (decide (x = y)) as [->|Hne].
  - rewrite (bool_decide_true (y ∈ y :: l)) by left.
    rewrite bool_decide_false in IH by done.
    rewrite decide_True by done. rewrite decide_False by set_solver. simpl. lia.
  - rewrite (bool_decide_ext (x ∈ y :: l) (x ∈ l)) by set_solver.
    destruct (decide (y ∉ dn)), (decide (y ∉ dn ++ [x])); simpl; try lia; set_solver.
Qed.

Lemma unmet_snoc dn x k :
  k ∈ keys tasks → x ∉ dn →
  unmet (dn ++ [x]) k = (unmet dn k - b2z (bool_decide (x ∈ kdeps k)))%Z.
Proof.
  intros Hk Hx. unfold unmet, b2z.
  rewrite (filter_length_snoc dn x (kdeps k)) by (auto using kdeps_NoDup).
  case_bool_decide; lia.
Qed.

Lemma unmet_mono dn dn' k :
  (∀ d, d ∈ dn → d ∈ dn') → unmet dn k = 0%Z → unmet dn' k = 0%Z.
Proof. rewrite !unmet_zero. auto. Qed.

(** *** One wave *)

Lemma release_children_spec cs (deg : gmap string Z) (next : list string) :
  NoDup cs → (∀ k, k ∈ cs → is_Some (deg !! k)) →
  ∃ deg', foldl release_child (deg, next) cs =
            (deg', next ++ filter (λ k, deg !! k = Some 1%Z) cs) ∧
    ∀ k, deg' !! k = (λ n, n - b2z (bool_decide (k ∈ cs)))%Z <$> deg !! k.
Proof.
  revert deg next. induction cs as [|c cs IH]; intros deg next Hnd Hdom; simpl.
  - exists deg. rewrite app_nil_r. split; [done|]. intros k.
    destruct (deg !! k); simpl; [|done]. f_equal. lia.
  - apply NoDup_cons in Hnd as [Hc Hnd].
    destruct (Hdom c) as [n Hn]; [left|]. rewrite Hn; simpl.
    destruct (IH (<[c:=(n - 1)%Z]> deg)
                (if decide (n - 1 = 0)%Z then next ++ [c] else next)) as (deg' & -> & Hd').
    { done. } { intros k Hk. rewrite lookup_insert_is_Some'. right. apply Hdom. by right. }
    exists deg'. split.
    + f_equal. rewrite filter_cons, Hn.
      rewrite (list_filter_ext_in (λ k, <[c:=(n - 1)%Z]> deg !! k = Some 1%Z)
                 (λ k, deg !! k = Some 1%Z)).
      2: { intros k Hk. rewrite lookup_insert_ne; [done|]. by intros ->. }
      destruct (decide (n - 1 = 0)%Z), (decide (Some n = Some 1%Z)); simplify_eq; try lia.
      * by rewrite <- app_assoc.
      * destruct n0. f_equal. lia.
      * done.
    + intros k. rewrite Hd'. destruct (decide (c = k)) as [->|Hne].
      * rewrite lookup_insert_eq, Hn; simpl.
        rewrite bool_decide_false, bool_decide_true by (done || left).
        simpl. f_equal. lia.
      * rewrite lookup_insert_ne by done.
        by rewrite (bool_decide_ext (k ∈ c :: cs) (k ∈ cs)) by set_solver.
Qed.

Definition counts (dn : list string) (deg : gmap string Z) : Prop :=
  ∀ k, k ∈ keys tasks → deg !! k = Some (unmet dn k).

Lemma process_wave_spec ch wave dn deg next :
  (∀ k, k ∈ keys tasks → ch !! k = Some (childlist k)) →
  NoDup wave → (∀ k, k ∈ wave → k ∈ keys tasks ∧ k ∉ dn) →
  counts dn deg → NoDup next →
  (∀ k, k ∈ next → unmet dn k = 0%Z) →
  ∃ deg' next', process_wave ch wave (deg, next) = Ok (deg', next') ∧
    counts (dn ++ wave) deg' ∧ NoDup next' ∧
    ∀ k, k ∈ next' ↔ k ∈ next ∨
      (k ∈ keys tasks ∧ unmet dn k ≠ 0%Z ∧ unmet (dn ++ wave) k = 0%Z).
Proof.
  intros Hch. revert dn deg next.
  induction wave as [|x wave IH]; intros dn deg next Hnd Hwave Hcnt Hnext Hz; simpl.
  - exists deg, next. rewrite app_nil_r. split_and!; try done. naive_solver.
  - apply NoDup_cons in Hnd as [Hx Hnd].
    destruct (Hwave x) as [Hxk Hxd]; [left|]. rewrite (Hch x Hxk); simpl.
    destruct (release_children_spec (childlist x) deg next) as (deg1 & -> & Hdeg1).
    { apply childlist_NoDup. }
    { intros k [Hk _]%elem_of_childlist. by rewrite Hcnt. }
    set (next1 := next ++ _).
    assert (Hcnt1 : counts (dn ++ [x]) deg1).
    { intros k Hk. rewrite Hdeg1, Hcnt by done. simpl. f_equal.
      rewrite unmet_snoc by done. do 2 f_equal. apply bool_decide_ext.
      rewrite elem_of_childlist. naive_solver. }
    assert (Hin1 : ∀ k, k ∈ next1 ↔ k ∈ next ∨
              (k ∈ keys tasks ∧ unmet dn k ≠ 0 ∧ unmet (dn ++ [x]) k = 0)%Z).
    { intros k. unfold next1. rewrite elem_of_app, list_elem_of_filter, elem_of_childlist.
      split; (intros [?|Hk]; [by left|right]).
      - destruct Hk as (Hone & Hk & Hkx). rewrite Hcnt in Hone by done.
        injection Hone as Hone. rewrite unmet_snoc, bool_decide_true by done. simpl.
        split_and!; [done|lia..].
      - destruct Hk as (Hk & Hnz & Hz'). rewrite unmet_snoc in Hz' by done.
        case_bool_decide; simpl in Hz'; [|lia]. rewrite Hcnt by done.
        split_and!; [f_equal; lia|done..]. }
    destruct (IH (dn ++ [x]) deg1 next1) as (deg' & next' & -> & Hc & Hn & Hiff).
    { done. }
    { intros k Hk. destruct (Hwave k) as [? ?]; [by right|]. split; [done|].
      rewrite elem_of_app, list_elem_of_singleton. intros [?| ->]; done. }
    { done. }
    { unfold next1. apply NoDup_app. split_and!; [done| |apply NoDup_filter, childlist_NoDup].
      intros k Hk [Hone [Hkk _]%elem_of_childlist]%list_elem_of_filter.
      apply Hz in Hk. rewrite Hcnt in Hone by done. congruence. }
    { intros k Hk. apply Hin1 in Hk as [Hk|Hk]; [|tauto].
      eapply unmet_mono; [|by apply Hz]. set_solver. }
    exists deg', next'. replace (dn ++ x :: wave) with ((dn ++ [x]) ++ wave) by (by rewrite <- app_assoc).
    split_and!; try done. intros k. rewrite Hiff, Hin1.
    pose proof (unmet_mono (dn ++ [x]) ((dn ++ [x]) ++ wave) k ltac:(set_solver)).
    pose proof (unmet_mono dn (dn ++ [x]) k ltac:(set_solver)).
    destruct (decide (unmet (dn ++ [x]) k = 0%Z)); naive_solver.
Qed.

(** *** The loop *)

(** The state of the loop before a wave: [ord] is what earlier waves emitted. *)
Record loop_inv (deg : gmap string Z) (wave ord : list string)
    (lvls : list (list string)) : Prop := {
  li_counts : counts ord deg;
  li_nodup : NoDup (ord ++ wave);
  li_keys : ∀ k, k ∈ ord ++ wave → k ∈ keys tasks;
  li_ready : ∀ k, k ∈ keys tasks → k ∈ ord ++ wave ↔ unmet ord k = 0%Z;
  li_concat : mjoin lvls = ord;
  li_levels : ∀ i l, lvls !! i = Some l → ∀ k, k ∈ l ↔
    k ∈ keys tasks ∧ unmet (mjoin (take i lvls)) k = 0%Z ∧ k ∉ mjoin (take i lvls);
  li_nonempty : ∀ l, l ∈ lvls → l ≠ [];
}.

Lemma loop_inv_step ch deg wave ord lvls :
  (∀ k, k ∈ keys tasks → ch !! k = Some (childlist k)) →
  loop_inv deg wave ord lvls → wave ≠ [] →
  ∃ deg' next, process_wave ch wave (deg, []) = Ok (deg', next) ∧
    loop_inv deg' next (ord ++ wave) (lvls ++ [wave]).
Proof.
  intros Hch [Hc Hnd Hk Hr Hcc Hl Hne] Hw.
  apply NoDup_app in Hnd as (Hndo & Hdis & Hndw).
  destruct (process_wave_spec ch wave ord deg []) as (deg' & next & Hp & Hc' & Hn' & Hiff);
    [done|done| |done|constructor|by intros k ?%not_elem_of_nil|].
  { intros k Hkw. split; [apply Hk; set_solver|]. intros Hko. by apply (Hdis k). }
  exists deg', next. split; [done|].
  assert (Hnext : ∀ k, k ∈ next ↔
            k ∈ keys tasks ∧ unmet ord k ≠ 0%Z ∧ unmet (ord ++ wave) k = 0%Z) by set_solver.
  split; [done| | | | | |].
  - apply NoDup_app. split_and!; [by apply NoDup_app| |done].
    intros k Hkw (Hkk & Hnz & _)%Hnext. apply Hnz. by apply Hr.
  - intros k [?|Hkn]%elem_of_app; [by apply Hk|]. by apply Hnext in Hkn as [? _].
  - intros k Hkk. rewrite elem_of_app, Hr, Hnext by done.
    pose proof (unmet_mono ord (ord ++ wave) k ltac:(set_solver)).
    destruct (decide (unmet ord k = 0%Z)); naive_solver.
  - rewrite join_app, Hcc. simpl. by rewrite app_nil_r.
  - intros i l Hil. destruct (decide (i < length lvls)) as [Hi|Hi].
    + rewrite lookup_app_l in Hil by done. rewrite take_app_le by lia. by apply Hl.
    + rewrite lookup_app_r in Hil by lia.
      destruct (i - length lvls) as [|j] eqn:Hj; [|done]. injection Hil as <-.
      rewrite take_app_length' by lia. rewrite Hcc. intros k. split.
      * intros Hkw. split_and!; [apply Hk; set_solver| |].
        { apply Hr; [apply Hk|]; set_solver. }
        { intros Hko. by apply (Hdis k). }
      * intros (Hkk & Hz & Hko). apply Hr in Hz; [|done]. set_solver.
  - intros l [?|Hlw]%elem_of_app; [by apply Hne|]. set_solver.
Qed.

Lemma kahn_loop_step fuel ch deg wave ord lvls :
  wave ≠ [] →
  kahn_loop (S fuel) ch deg wave ord lvls =
  match process_wave ch wave (deg, []) with
  | Exn e => Some (Exn e)
  | Ok (deg', next) => kahn_loop fuel ch deg' next (ord ++ wave) (lvls ++ [wave])
  end.
Proof. by destruct wave. Qed.

Lemma kahn_loop_spec ch fuel deg wave ord lvls :
  (∀ k, k ∈ keys tasks → ch !! k = Some (childlist k)) →
  loop_inv deg wave ord lvls → length tasks < fuel + length ord →
  ∃ ord' lvls' deg', kahn_loop fuel ch deg wave ord lvls = Some (Ok (ord', lvls')) ∧
    loop_inv deg' [] ord' lvls'.
Proof.
  intros Hch. revert deg wave ord lvls.
  induction fuel as [|fuel IH]; intros deg wave ord lvls Hinv Hlen;
    (destruct wave as [|x wave]; [by eauto|]).
  - exfalso. pose proof (li_nodup _ _ _ _ Hinv) as Hnd.
    assert (length (ord ++ x :: wave) ≤ length (keys tasks)) as Hle.
    { apply submseteq_length, NoDup_submseteq; [done|]. apply Hinv. }
    unfold keys in Hle. rewrite length_fmap, length_app in Hle. simpl in Hle. lia.
  - destruct (loop_inv_step ch deg (x :: wave) ord lvls) as (deg' & next & Hp & Hinv');
      [done..|].
    rewrite kahn_loop_step, Hp by done. apply (IH deg'); [done|].
    rewrite length_app. simpl. lia.
Qed.

Lemma in_degrees_counts : counts [] (in_degrees tasks).
Proof.
  intros k (t & Ht & <-)%elem_of_keys. unfold in_degrees, unmet.
  rewrite (foldl_insert_in dt_key (λ t, Z.of_nat (length (deps_of t)))) by (done || apply Hs).
  rewrite kdeps_task by done. do 3 f_equal. induction (deps_of t) as [|d l IH]; [done|].
  rewrite filter_cons_True by apply not_elem_of_nil. simpl. by f_equal.
Qed.

Lemma loop_inv_init :
  loop_inv (in_degrees tasks)
    (dt_key <$> filter (λ t, in_degrees tasks !! dt_key t = Some 0%Z) tasks) [] [].
Proof.
  assert (Hin : ∀ k, k ∈ dt_key <$> filter (λ t, in_degrees tasks !! dt_key t = Some 0%Z) tasks
                  ↔ k ∈ keys tasks ∧ unmet [] k = 0%Z).
  { intros k. rewrite list_elem_of_fmap. setoid_rewrite list_elem_of_filter.
    rewrite elem_of_keys. split.
    - intros (t & -> & Hz & Ht). split; [eauto|].
      rewrite in_degrees_counts in Hz by (apply elem_of_keys; eauto). congruence.
    - intros [(t & Ht & <-) Hz]. exists t. split_and!; try done.
      rewrite in_degrees_counts by (apply elem_of_keys; eauto). congruence. }
  split; simpl.
  - apply in_degrees_counts.
  - apply NoDup_fmap_2_strong.
    + intros t1 t2 [_ ?]%list_elem_of_filter [_ ?]%list_elem_of_filter. by apply key_inj.
    + apply NoDup_filter. eapply NoDup_fmap_1, Hs.
  - intros k Hk. by apply Hin in Hk as [? _].
  - intros k Hk. rewrite Hin. naive_solver.
  - done.
  - by intros i l; rewrite lookup_nil.
  - by intros l ?%not_elem_of_nil.
Qed.

(** *** The result of [kahn] *)

Record kahn_ok (r : KahnResult) : Prop := {
  ko_nodup : NoDup (k_order r);
  ko_keys : ∀ k, k ∈ k_order r → k ∈ keys tasks;
  ko_concat : mjoin (k_levels r) = k_order r;
  ko_closed : ∀ k, k ∈ keys tasks →
    k ∈ k_order r ↔ ∀ d, depends tasks k d → d ∈ k_order r;
  ko_level : ∀ i l, k_levels r !! i = Some l → ∀ k, k ∈ l ↔
    k ∈ keys tasks ∧ (∀ d, depends tasks k d → d ∈ mjoin (take i (k_levels r))) ∧
    k ∉ mjoin (take i (k_levels r));
  ko_nonempty : ∀ l, l ∈ k_levels r → l ≠ [];
  ko_unprocessed : ∀ k, k ∈ k_unprocessed r ↔ k ∈ keys tasks ∧ k ∉ k_order r;
  ko_unprocessed_nodup : NoDup (k_unprocessed r);
}.

Lemma kahn_spec : ∃ r, kahn tasks = Some (Ok r) ∧ kahn_ok r.
Proof.
  destruct children_of_spec as (ch & Hch & Hlk).
  destruct (kahn_loop_spec ch (S (length tasks)) _ _ _ _ Hlk loop_inv_init)
    as (ord & lvls & deg & Hloop & Hinv); [simpl; lia|].
  unfold kahn. rewrite Hch, Hloop. eexists. split; [done|].
  destruct Hinv as [Hc Hnd Hk Hr Hcc Hl Hne]. rewrite app_nil_r in *.
  assert (Hdeps : ∀ k dn, k ∈ keys tasks →
            unmet dn k = 0%Z ↔ ∀ d, depends tasks k d → d ∈ dn).
  { intros k dn Hkk. rewrite unmet_zero. setoid_rewrite depends_kdeps. naive_solver. }
  split; simpl.
  - done.
  - done.
  - done.
  - intros k Hkk. by rewrite Hr, Hdeps by done.
  - intros i l Hil k. rewrite (Hl i l Hil k).
    split; intros (Hkk & Hz & Hni); (split_and!; [done| |done]); by apply Hdeps.
  - done.
  - intros k. rewrite list_elem_of_filter. unfold keys. set_solver.
  - apply NoDup_filter, Hs.
Qed.
End kahn.
