(* ===== verification/CycleFacts.v ===== *)
(** * The depth-first search reports a real cycle

    Called with Kahn's leftovers, [findCycle] terminates within its fuel, finds
    a closed path of dependencies, and never reaches its fallback. *)

From S2P Require Import Prelude Dag DagFacts.

(** ** Chains and cycles *)

Section chains.
Context (tasks : list DagTask).

Lemma chain_cons_inv k l : chain tasks (k :: l) → chain tasks l.
Proof. destruct l; simpl; [done|tauto]. Qed.

Lemma chain_suffix l1 l2 : chain tasks (l1 ++ l2) → chain tasks l2.
Proof. induction l1; simpl app; [done|]. eauto using chain_cons_inv. Qed.

Lemma chain_snoc l a b :
  chain tasks (l ++ [a]) → depends tasks a b → chain tasks (l ++ [a; b]).
Proof.
  induction l as [|x l IH]; simpl; [done|]. intros Hc Hab.
  destruct (l ++ [a]) as [|y l'] eqn:Hl; [by destruct l|].
  assert (∃ l'', l ++ [a; b] = y :: l'') as [l'' Hl''].
  { destruct l; simplify_eq/=; eauto. }
  rewrite Hl'' in *. destruct Hc. auto.
Qed.

Lemma chain_tc a l b : chain tasks (a :: l ++ [b]) → tc (depends tasks) a b.
Proof.
  revert a. induction l as [|x l IH]; intros a; simpl; [intros [? _]; by apply tc_once|].
  intros [Hax Hc]. eapply tc_l; [done|]. by apply IH.
Qed.
End chains.

(** A closed path in dependency direction. *)
Definition closed_path (tasks : list DagTask) (c : list string) : Prop :=
  chain tasks c ∧ ∃ a l, c = a :: l ++ [a].

(** A closed path in execution direction: each task depends on the one before it. *)
Definition dependency_cycle (tasks : list DagTask) (c : list string) : Prop :=
  closed_path tasks (reverse c).

(** ** [indexOf] and [slice] *)

Lemma index_from_app i x l1 l2 :
  x ∉ l1 → index_from i x (l1 ++ x :: l2) = (i + Z.of_nat (length l1))%Z.
Proof.
  revert i. induction l1 as [|y l1 IH]; intros i; simpl.
  - intros _. rewrite decide_True by done. lia.
  - rewrite not_elem_of_cons. intros [? ?].
    rewrite decide_False, IH by done. lia.
Qed.

Lemma slice_indexOf x l1 l2 :
  x ∉ l1 → slice (indexOf x (l1 ++ x :: l2)) (l1 ++ x :: l2) = x :: l2.
Proof.
  intros Hx. unfold slice, indexOf. rewrite index_from_app by done.
  rewrite decide_False by lia.
  replace (Z.to_nat (0 + Z.of_nat (length l1))) with (length l1) by lia.
  apply drop_app_length.
Qed.

Lemma elem_of_split_fresh (x : string) l :
  x ∈ l → ∃ l1 l2, l = l1 ++ x :: l2 ∧ x ∉ l1.
Proof.
  induction l as [|y l IH]; [by intros ?%not_elem_of_nil|].
  intros Hx. destruct (decide (x = y)) as [->|Hne].
  - exists [], l. split; [done|apply not_elem_of_nil].
  - apply elem_of_cons in Hx as [?|Hx]; [done|].
    destruct (IH Hx) as (l1 & l2 & -> & ?). exists (y :: l1), l2. set_solver.
Qed.

(** ** The invariant of the search *)

Section dfs.
Context (tasks : list DagTask) (Hs : sound tasks).
Notation dmap := (deps_map tasks).

(** Finished keys, newest first: each one's dependencies finished before it. *)
Fixpoint finished_before (bl : list string) : Prop :=
  match bl with
  | [] => True
  | k :: bl' => (∀ d, depends tasks k d → d ∈ bl') ∧ finished_before bl'
  end.

Lemma finished_no_closed_set bl (S : string → Prop) x :
  finished_before bl → (∀ k, S k → ∃ d, S d ∧ depends tasks k d) →
  S x → x ∈ bl → False.
Proof.
  intros Hbl HS. revert x Hbl. induction bl as [|k bl IH]; intros x Hbl Hx Hin.
  - by apply not_elem_of_nil in Hin.
  - destruct Hbl as [Hk Hbl]. apply elem_of_cons in Hin as [->|Hin]; [|by apply (IH x)].
    destruct (HS k Hx) as (d & Hd & Hkd). apply (IH d); auto.
Qed.

Record dfs_inv (st : dfs) (bl : list string) : Prop := {
  di_dom : ∀ k, is_Some (colours st !! k) ↔ k ∈ keys tasks;
  di_grey : ∀ k, colours st !! k = Some GREY ↔ k ∈ path st;
  di_black : ∀ k, colours st !! k = Some BLACK ↔ k ∈ bl;
  di_path : NoDup (path st);
  di_chain : chain tasks (path st);
  di_finished : finished_before bl;
}.

Definition whites (st : dfs) : Z := mcount (λ c, bool_decide (c = WHITE)) (colours st).

(** What a call of [visit] (or of its inner loop) that ends returns. *)
Definition visit_post (key : string) (p : list string) (bl : list string) (w : Z)
    (o : option (res (option (list string) * dfs))) : Prop :=
  ∃ r st', o = Some (Ok (r, st')) ∧
    match r with
    | Some c => closed_path tasks c
    | None => path st' = p ∧ (whites st' ≤ w)%Z ∧
        ∃ bl', dfs_inv st' (bl' ++ bl) ∧ key ∈ bl'
    end.

Lemma found_cycle p key dep :
  chain tasks (p ++ [key]) → depends tasks key dep → dep ∈ p ++ [key] →
  closed_path tasks (slice (indexOf dep (p ++ [key])) (p ++ [key]) ++ [dep]).
Proof.
  intros Hc Hd Hin. destruct (elem_of_split_fresh _ _ Hin) as (l1 & l2 & Heq & Hni).
  rewrite Heq, slice_indexOf by done. split; [|by exists dep, l2].
  rewrite Heq in Hc. apply chain_suffix in Hc.
  destruct l2 as [|y l2 _] using rev_ind.
  - assert (key = dep) as -> by (apply app_inj_2 in Heq as [_ ?]; [congruence|done]).
    by split.
  - assert (key = y) as ->.
    { rewrite app_comm_cons, app_assoc in Heq. by apply app_inj_2 in Heq as [_ [= ->]]. }
    apply (chain_snoc tasks (dep :: l2) y dep Hc) in Hd. simpl in *.
    by rewrite <- app_assoc.
Qed.

Lemma finish_key st bl p key :
  dfs_inv st bl → path st = p ++ [key] → key ∈ keys tasks →
  (∀ d, depends tasks key d → d ∈ bl) →
  dfs_inv (mkDfs (<[key := BLACK]> (colours st)) (pop (path st))) (key :: bl).
Proof.
  intros [Hdom Hg Hb Hnd Hc Hf] Hp Hk Hall.
  rewrite Hp in *. unfold pop. rewrite removelast_last.
  assert (key ∉ p) as Hkp.
  { apply NoDup_app in Hnd as (_ & Hdis & _). intros Hin. apply (Hdis key Hin). left. }
  split; simpl.
  - intros k. rewrite lookup_insert_is_Some', Hdom. naive_solver.
  - intros k. rewrite lookup_insert. case_decide as Hkk; [by subst|].
    rewrite Hg. set_solver.
  - intros k. rewrite lookup_insert. case_decide as Hkk; [subst; set_solver|].
    rewrite Hb. set_solver.
  - by apply NoDup_app in Hnd as [? _].
  - clear -Hc. induction p as [|x p IH]; [done|]. destruct p; [done|].
    simpl in *. naive_solver.
  - done.
Qed.

Lemma whites_paint st key c c' p :
  colours st !! key = Some c → c' ≠ WHITE →
  whites (mkDfs (<[key := c']> (colours st)) p) = (whites st - b2z (bool_decide (c = WHITE)))%Z.
Proof.
  intros Hc Hne. unfold whites; simpl. rewrite (mcount_insert _ _ _ _ _ Hc).
  rewrite (bool_decide_false (c' = WHITE)) by done. simpl. lia.
Qed.

Lemma visit_deps_spec recur key p ds pre st bl w :
  (∀ dep st bl, dfs_inv st bl → colours st !! dep = Some WHITE →
     (whites st ≤ w)%Z → chain tasks (path st ++ [dep]) →
     visit_post dep (path st) bl (whites st) (recur dep st)) →
  dfs_inv st bl → path st = p ++ [key] → key ∈ keys tasks → (whites st ≤ w)%Z →
  kdeps tasks key = pre ++ ds → (∀ d, d ∈ pre → d ∈ bl) →
  visit_post key p bl (whites st) (visit_deps recur key ds st).
Proof.
  intros Hrec. revert pre st bl. induction ds as [|dep ds IH]; intros pre st bl Hinv Hp Hk Hw Hds Hpre.
  - simpl. eexists None, _. split; [done|]. rewrite app_nil_r in Hds.
    assert (colours st !! key = Some GREY) as Hgk by (apply Hinv; rewrite Hp; set_solver).
    split_and!.
    + simpl. rewrite Hp. apply removelast_last.
    + rewrite (whites_paint _ _ _ _ _ Hgk) by done. unfold b2z. case_bool_decide; [done|lia].
    + exists [key]. split; [|set_solver]. eapply finish_key; [done..|].
      intros d [_ Hd]%depends_kdeps; [|done]. rewrite Hds in Hd. auto.
  - assert (depends tasks key dep) as Hd by (apply depends_kdeps; [done|]; rewrite Hds; set_solver).
    simpl. case_decide as Hgrey; [|case_decide as Hwhite].
    + eexists (Some _), _. split; [done|]. rewrite Hp. apply found_cycle; [|done|].
      * rewrite <- Hp. apply Hinv.
      * rewrite <- Hp. by apply Hinv.
    + destruct (Hrec dep st bl Hinv Hwhite Hw) as (r & st' & -> & Hr).
      { rewrite Hp, <- app_assoc. apply chain_snoc; [|done]. rewrite <- Hp. apply Hinv. }
      destruct r as [c|]; [by eexists (Some c), _|].
      destruct Hr as (Hp' & Hw' & bl1 & Hinv' & Hin).
      destruct (IH (pre ++ [dep]) st' (bl1 ++ bl)) as (r & st2 & -> & Hr); try done.
      { by rewrite Hp'. } { lia. } { by rewrite <- app_assoc. }
      { intros d [?|?]%elem_of_app; set_solver. }
      exists r, st2. split; [done|]. destruct r as [c|]; [done|].
      destruct Hr as (? & ? & bl2 & Hi2 & ?). split_and!; [done|lia|].
      exists (bl2 ++ bl1). rewrite <- app_assoc. split; [done|set_solver].
    + assert (dep ∈ bl) as Hbl.
      { apply Hinv. assert (is_Some (colours st !! dep)) as [c Hc].
        { apply Hinv. by apply (sound_known _ Hs key). }
        by destruct c. }
      apply (IH (pre ++ [dep])); try done; [by rewrite <- app_assoc|set_solver].
Qed.

Lemma visit_spec fuel key st bl :
  dfs_inv st bl → colours st !! key = Some WHITE → (whites st ≤ Z.of_nat fuel)%Z →
  chain tasks (path st ++ [key]) →
  visit_post key (path st) bl (whites st) (visit dmap fuel key st).
Proof.
  revert key st bl. induction fuel as [|fuel IH]; intros key st bl Hinv Hwh Hfuel Hc.
  - exfalso. unfold whites in Hfuel. rewrite (mcount_delete _ _ _ _ Hwh) in Hfuel.
    rewrite bool_decide_true in Hfuel by done. simpl in Hfuel.
    pose proof (mcount_nonneg (λ c, bool_decide (c = WHITE)) (delete key (colours st))). lia.
  - assert (key ∈ keys tasks) as Hk by (apply Hinv; by rewrite Hwh).
    pose proof Hk as (t & Ht & Hkey)%elem_of_keys.
    assert (dmap !! key = Some (kdeps tasks key)) as Hdm.
    { rewrite <- Hkey, kdeps_task by done. by apply deps_map_lookup. }
    simpl. rewrite Hdm.
    set (st1 := mkDfs (<[key:=GREY]> (colours st)) (path st ++ [key])).
    assert (whites st1 = whites st - 1)%Z as Hw1.
    { unfold st1. rewrite (whites_paint _ _ _ _ _ Hwh) by done.
      by rewrite bool_decide_true by done. }
    assert (key ∉ path st) as Hkp.
    { intros Hin. apply Hinv in Hin. congruence. }
    destruct (visit_deps_spec (visit dmap fuel) key (path st) (kdeps tasks key) [] st1 bl
                (Z.of_nat fuel)) as (r & st' & Hv & Hr); try done.
    { destruct Hinv as [Hdom Hg Hb Hnd Hch Hf]. split; simpl.
      - intros k. rewrite lookup_insert_is_Some', Hdom. naive_solver.
      - intros k. rewrite lookup_insert. case_decide as Hkk; [subst; set_solver|].
        rewrite Hg. set_solver.
      - intros k. rewrite lookup_insert. case_decide as Hkk; [|done].
        subst. split; [done|]. intros Hin. apply Hb in Hin. congruence.
      - apply NoDup_app. split_and!; [done| |apply NoDup_singleton]. set_solver.
      - done.
      - done. }
    { lia. } { by intros d ?%not_elem_of_nil. }
    exists r, st'. split; [done|]. destruct r as [c|]; [done|].
    destruct Hr as (? & ? & Hbl). split_and!; [done|lia|done].
Qed.

Lemma visit_candidates_spec fuel cands st bl :
  dfs_inv st bl → path st = [] → (whites st ≤ Z.of_nat fuel)%Z →
  (∀ k, k ∈ cands → k ∈ keys tasks) →
  ∃ r, visit_candidates dmap fuel cands st = Some (Ok r) ∧
    match r with
    | Some c => dependency_cycle tasks c
    | None => ∃ bl', finished_before (bl' ++ bl) ∧ ∀ k, k ∈ cands → k ∈ bl' ++ bl
    end.
Proof.
  revert st bl. induction cands as [|key cands IH]; intros st bl Hinv Hp Hw Hk.
  - exists None. split; [done|]. exists []. split; [apply Hinv|]. by intros k ?%not_elem_of_nil.
  - assert (Hkc : ∀ k, k ∈ cands → k ∈ keys tasks) by set_solver.
    simpl. case_decide as Hwh.
    + destruct (visit_spec fuel key st bl) as (r & st' & -> & Hr); [done..| |].
      { by rewrite Hp. }
      destruct r as [c|].
      * exists (Some (reverse c)). split; [done|]. unfold dependency_cycle.
        by rewrite reverse_involutive.
      * destruct Hr as (Hp' & Hw' & bl1 & Hinv' & Hin).
        destruct (IH st' (bl1 ++ bl)) as (r & -> & Hr); [done|congruence|lia|done|].
        exists r. split; [done|]. destruct r; [done|].
        destruct Hr as (bl2 & Hf & Hall). exists (bl2 ++ bl1). rewrite <- app_assoc.
        split; [done|]. intros k [->|?]%elem_of_cons; [set_solver|auto].
    + destruct (IH st bl) as (r & -> & Hr); [done..|].
      exists r. split; [done|]. destruct r; [done|].
      destruct Hr as (bl2 & Hf & Hall). exists bl2. split; [done|].
      intros k [->|?]%elem_of_cons; [|auto].
      assert (is_Some (colours st !! key)) as [c Hc] by (apply Hinv, Hk; left).
      apply elem_of_app. right. apply Hinv. destruct c; [done| |done].
      apply Hinv in Hc. rewrite Hp in Hc. by apply not_elem_of_nil in Hc.
Qed.

Definition initial_colours : gmap string colour :=
  foldl (λ m t, <[dt_key t := WHITE]> m) ∅ tasks.

Lemma initial_colours_lookup k c :
  initial_colours !! k = Some c ↔ k ∈ keys tasks ∧ c = WHITE.
Proof.
  unfold initial_colours. split.
  - intros Hc. destruct (decide (k ∈ keys tasks)) as [Hk|Hk].
    + pose proof Hk as (t & Ht & <-)%elem_of_keys.
      rewrite (foldl_insert_in dt_key (λ _, WHITE)) in Hc by (done || apply Hs).
      naive_solver.
    + by rewrite (foldl_insert_notin dt_key (λ _, WHITE)) in Hc.
  - intros [(t & Ht & <-)%elem_of_keys ->].
    by rewrite (foldl_insert_in dt_key (λ _, WHITE)) by (done || apply Hs).
Qed.

Lemma size_foldl_insert {A} (g : DagTask → A) l (m : gmap string A) :
  size (foldl (λ m t, <[dt_key t := g t]> m) m l) ≤ size m + length l.
Proof.
  revert m. induction l as [|t l IH]; intros m; simpl; [lia|].
  etrans; [apply IH|]. rewrite map_size_insert. destruct (m !! dt_key t); simpl; lia.
Qed.

Lemma initial_whites :
  (whites (mkDfs initial_colours []) ≤ Z.of_nat (length tasks))%Z.
Proof.
  unfold whites, mcount; simpl.
  pose proof (map_size_filter (λ kv : string * colour, bool_decide (kv.2 = WHITE) = true)
                initial_colours).
  pose proof (size_foldl_insert (λ _, WHITE) tasks ∅) as Hsz.
  rewrite map_size_empty in Hsz. unfold initial_colours in *. lia.
Qed.

Lemma dfs_inv_init : dfs_inv (mkDfs initial_colours []) [].
Proof.
  split; simpl; try done; [|intros k; rewrite initial_colours_lookup..|by constructor].
  - intros k. split.
    + intros [c Hc]. by apply initial_colours_lookup in Hc as [? _].
    + intros Hk. exists WHITE. by apply initial_colours_lookup.
  - split; [by intros [_ ?]|by intros ?%not_elem_of_nil].
  - split; [by intros [_ ?]|by intros ?%not_elem_of_nil].
Qed.

(** On a nonempty set of keys each of which depends on another one of the set. *)
Lemma findCycle_spec cands x :
  (∀ k, k ∈ cands → k ∈ keys tasks) → x ∈ cands →
  (∀ k, k ∈ cands → ∃ d, d ∈ cands ∧ depends tasks k d) →
  ∃ c, findCycle tasks cands = Some (Ok c) ∧ dependency_cycle tasks c.
Proof.
  intros Hk Hx Hclosed. unfold findCycle. fold initial_colours.
  pose proof initial_whites as Hw.
  destruct (visit_candidates_spec (S (length tasks)) cands (mkDfs initial_colours []) [])
    as (r & -> & Hr); [apply dfs_inv_init|done|lia|done|].
  destruct r as [c|]; [by eauto|]. exfalso.
  destruct Hr as (bl & Hf & Hall). rewrite app_nil_r in *.
  by apply (finished_no_closed_set bl (λ k, k ∈ cands) x); auto.
Qed.
End dfs.

(** A reported cycle refutes acyclicity. *)
Lemma dependency_cycle_tc tasks c :
  dependency_cycle tasks c → ¬ acyclic tasks.
Proof.
  intros [Hc (a & l & Heq)] Hac. rewrite Heq in Hc. by apply chain_tc, (Hac a) in Hc.
Qed.
