(* ===== verification/DagSpec.v ===== *)
(** * What [validateDag] promises

    The contract of [src/workflow/dag.js]: every structural problem is reported,
    validation always ends, it accepts exactly the well-formed acyclic graphs,
    the order is topological, the levels are the depths, and a reported cycle
    exists. *)

From S2P Require Import Prelude Dag DagFacts CycleFacts.

(** ** Structural errors *)

(** [x] occurs at two positions of [l]. *)
Definition repeated (x : string) (l : list string) : Prop :=
  ∃ l1 l2 l3, l = l1 ++ x :: l2 ++ x :: l3.

Lemma repeated_cons x y l : repeated x (y :: l) ↔ (x = y ∧ x ∈ l) ∨ repeated x l.
Proof.
  split.
  - intros ([|z l1] & l2 & l3 & Heq); simplify_eq/=; [left; set_solver|right].
    by exists l1, l2, l3.
  - intros [[-> Hin]|(l1 & l2 & l3 & ->)].
    + apply list_elem_of_split in Hin as (l2 & l3 & ->). by exists [], l2, l3.
    + by exists (y :: l1), l2, l3.
Qed.

Lemma not_repeated_nodup l : (∀ x, ¬ repeated x l) ↔ NoDup l.
Proof.
  induction l as [|y l IH].
  - split; [constructor|]. intros _ x ([|] & ? & ? & ?); done.
  - rewrite NoDup_cons, <- IH. setoid_rewrite repeated_cons. split.
    + intros H. split; [intros Hy; apply (H y); by left|]. intros x Hx. apply (H x). by right.
    + intros [Hy H] x [[-> ?]|?]; [done|by apply (H x)].
Qed.

Lemma check_keys_spec seen tasks :
  ∃ errs, check_keys seen tasks = (list_to_set (keys tasks) ∪ seen, errs) ∧
    ∀ e, e ∈ errs ↔ ∃ k, e = duplicate_key_error k ∧
      (k ∈ seen ∧ k ∈ keys tasks ∨ repeated k (keys tasks)).
Proof.
  revert seen. induction tasks as [|t tasks IH]; intros seen; simpl.
  - exists []. split; [f_equal; set_solver|]. intros e. split; [by intros ?%not_elem_of_nil|].
    intros (k & _ & [[_ ?%not_elem_of_nil]|([|] & ? & ? & ?)]); done.
  - destruct (IH ({[dt_key t]} ∪ seen)) as (errs & -> & Herr).
    eexists. split; [f_equal; unfold keys; simpl; set_solver|]. intros e.
    rewrite elem_of_app, Herr. change (keys (t :: tasks)) with (dt_key t :: keys tasks).
    setoid_rewrite repeated_cons. setoid_rewrite elem_of_cons. setoid_rewrite elem_of_union.
    setoid_rewrite elem_of_singleton. split.
    + intros [He|(k & -> & Hk)].
      * case_decide; [|by apply not_elem_of_nil in He].
        apply list_elem_of_singleton in He as ->. exists (dt_key t). tauto.
      * exists k. split; [done|]. destruct Hk as [[[->|?] ?]|?]; tauto.
    + intros (k & -> & [[Hs [->|Hk]]|[[-> Hk]|Hk]]).
      * left. rewrite decide_True by done. by left.
      * right. exists k. tauto.
      * right. exists (dt_key t). tauto.
      * right. exists k. tauto.
Qed.

Lemma check_deps_spec seen key counted deps e :
  e ∈ check_deps seen key counted deps ↔
  (e = self_dependency_error key ∧ key ∈ deps) ∨
  (∃ d, e = unknown_dependency_error key d ∧ d ∈ deps ∧ d ≠ key ∧ d ∉ seen) ∨
  (∃ d, e = duplicate_dependency_error key d ∧ (d ∈ counted ∧ d ∈ deps ∨ repeated d deps)).
Proof.
  revert counted. induction deps as [|x deps IH]; intros counted; simpl.
  - split; [by intros ?%not_elem_of_nil|].
    intros [[_ ?%not_elem_of_nil]|[(d & _ & ?%not_elem_of_nil & _)|
      (d & _ & [[_ ?%not_elem_of_nil]|([|] & ? & ? & ?)])]]; done.
  - rewrite !elem_of_app, IH. setoid_rewrite repeated_cons. setoid_rewrite elem_of_cons.
    setoid_rewrite elem_of_union. setoid_rewrite elem_of_singleton.
    repeat case_decide; subst; rewrite ?list_elem_of_singleton;
      split; intros; repeat (destruct_or? || destruct_and? || match goal with
        | H : ∃ _, _ |- _ => destruct H as [? ?]
        | H : _ ∈ [] |- _ => by apply not_elem_of_nil in H
        end); subst; try done; try tauto; eauto 10.
Qed.

Lemma structural_errors_spec tasks e :
  e ∈ structural_errors tasks ↔
  (∃ k, e = duplicate_key_error k ∧ repeated k (keys tasks)) ∨
  (∃ t, t ∈ tasks ∧ e = self_dependency_error (dt_key t) ∧ dt_key t ∈ deps_of t) ∨
  (∃ t d, t ∈ tasks ∧ e = unknown_dependency_error (dt_key t) d ∧
     d ∈ deps_of t ∧ d ≠ dt_key t ∧ d ∉ keys tasks) ∨
  (∃ t d, t ∈ tasks ∧ e = duplicate_dependency_error (dt_key t) d ∧ repeated d (deps_of t)).
Proof.
  unfold structural_errors.
  destruct (check_keys_spec ∅ tasks) as (errs & -> & Herr).
  rewrite elem_of_app, Herr, list_elem_of_join. split.
  - intros [(k & -> & [[? _]|Hk])|(l & He & (t & -> & Ht)%list_elem_of_fmap)];
      [set_solver|eauto|].
    apply check_deps_spec in He as [[-> ?]|[(d & -> & ? & ? & ?)|(d & -> & [[? _]|?])]];
      [eauto 6| |set_solver|eauto 10].
    right. right. left. exists t, d. split_and!; try done. set_solver.
  - intros [(k & -> & Hk)|[(t & Ht & -> & ?)|[(t & d & Ht & -> & ? & ? & ?)|(t & d & Ht & -> & ?)]]];
      [left; eauto|..]; right; eexists; (split; [|apply list_elem_of_fmap; eauto]);
      apply check_deps_spec.
    + by left.
    + right. left. exists d. split_and!; try done. set_solver.
    + right. right. exists d. tauto.
Qed.

Definition self_free (tasks : list DagTask) : Prop := ∀ k, ¬ depends tasks k k.

Lemma structural_errors_nil tasks :
  structural_errors tasks = [] ↔ sound tasks ∧ self_free tasks.
Proof.
  split.
  - intros Hnil. assert (Hno : ∀ e, ¬ e ∈ structural_errors tasks).
    { rewrite Hnil. intros e. apply not_elem_of_nil. }
    setoid_rewrite structural_errors_spec in Hno. split; [split|].
    + apply not_repeated_nodup. intros k Hk. eapply Hno. left. eauto.
    + intros k d (t & Ht & <- & Hd). destruct (decide (d = dt_key t)) as [->|Hne].
      { unfold keys. apply list_elem_of_fmap. eauto. }
      destruct (decide (d ∈ keys tasks)) as [|Hni]; [done|]. exfalso.
      eapply Hno. right. right. left. eauto 10.
    + intros t Ht. apply not_repeated_nodup. intros d Hd. eapply Hno.
      right. right. right. eauto 10.
    + intros k (t & Ht & <- & Hd). eapply Hno. right. left. eauto 10.
  - intros [[Hk Hkn Hd] Hself]. destruct (structural_errors tasks) as [|e l] eqn:Heq; [done|].
    assert (e ∈ structural_errors tasks) as He by (rewrite Heq; left). exfalso.
    apply structural_errors_spec in He
      as [(k & -> & Hr)|[(t & Ht & -> & ?)|[(t & d & Ht & -> & ? & ? & Hni)|(t & d & Ht & -> & Hr)]]].
    + by apply not_repeated_nodup in Hr.
    + apply (Hself (dt_key t)). by exists t.
    + apply Hni, (Hkn (dt_key t)). by exists t.
    + exact (proj2 (not_repeated_nodup _) (Hd t Ht) d Hr).
Qed.

(** ** Levels *)

Definition level_at (r : KahnResult) (k : string) (i : nat) : Prop :=
  ∃ l, k_levels r !! i = Some l ∧ k ∈ l.

Section levels.
Context (tasks : list DagTask) (Hs : sound tasks) (r : KahnResult) (Hr : kahn_ok tasks r).

Lemma elem_of_take_levels k n :
  k ∈ mjoin (take n (k_levels r)) ↔ ∃ i, i < n ∧ level_at r k i.
Proof.
  rewrite list_elem_of_join. split.
  - intros (l & Hk & (i & Hi)%list_elem_of_lookup).
    apply lookup_take_Some in Hi as [? ?]. exists i. split; [done|]. by exists l.
  - intros (i & Hi & l & Hl & Hk). exists l. split; [done|].
    apply list_elem_of_lookup. exists i. by apply lookup_take_Some.
Qed.

Lemma elem_of_order_level k : k ∈ k_order r ↔ ∃ i, level_at r k i.
Proof.
  rewrite <- (ko_concat _ _ Hr), <- (firstn_all (k_levels r)), elem_of_take_levels.
  split; [intros (i & _ & Hi); by exists i|]. intros (i & l & Hl & Hk). exists i.
  split; [by eapply lookup_lt_Some|]. by exists l.
Qed.

Lemma level_at_dep k d i :
  level_at r k i → depends tasks k d → ∃ j, j < i ∧ level_at r d j.
Proof.
  intros (l & Hl & Hk) Hd. apply (ko_level _ _ Hr _ _ Hl) in Hk as (_ & Hall & _).
  by apply elem_of_take_levels, Hall.
Qed.

Lemma level_at_fun k i j : level_at r k i → level_at r k j → i = j.
Proof.
  assert (Hlt : ∀ i j, level_at r k i → level_at r k j → ¬ i < j).
  { intros i' j' Hi (l & Hl & Hk) Hij.
    apply (ko_level _ _ Hr _ _ Hl) in Hk as (_ & _ & Hni). apply Hni.
    apply elem_of_take_levels. eauto. }
  intros Hi Hj. destruct (Nat.lt_trichotomy i j) as [Hij|[?|Hij]]; [|done|]; exfalso;
    [exact (Hlt i j Hi Hj Hij)|exact (Hlt j i Hj Hi Hij)].
Qed.

(** A task of a later level has a dependency in the level just before. *)
Lemma level_at_pred k i : level_at r k (S i) → ∃ d, depends tasks k d ∧ level_at r d i.
Proof.
  intros (l & Hl & Hk). pose proof Hk as Hk'.
  apply (ko_level _ _ Hr _ _ Hl) in Hk as (Hkk & Hall & Hni).
  destruct (k_levels r !! i) as [l0|] eqn:Hl0.
  2: { apply lookup_ge_None in Hl0. apply lookup_lt_Some in Hl. lia. }
  destruct (decide (Exists (λ d, d ∈ l0) (kdeps tasks k))) as [Hex|Hex].
  - apply Exists_exists in Hex as (d & Hd & Hdl). exists d.
    split; [by apply depends_kdeps|by exists l0].
  - exfalso. apply Hni, elem_of_take_levels. exists i. split; [lia|]. exists l0.
    split; [done|]. apply (ko_level _ _ Hr _ _ Hl0). split_and!; [done| |].
    + intros d Hd. pose proof (Hall d Hd) as (j & Hj & Hdj)%elem_of_take_levels.
      apply elem_of_take_levels. exists j. split; [|done].
      destruct (decide (j = i)) as [->|]; [|lia]. exfalso. apply Hex, Exists_exists.
      destruct Hdj as (l1 & ? & ?). exists d. simplify_eq.
      split; [|done]. by apply depends_kdeps in Hd as [_ ?].
    + intros (j & Hj & Hkj)%elem_of_take_levels. apply Hni, elem_of_take_levels.
      exists j. split; [lia|done].
Qed.

Lemma chain_from_level k i :
  level_at r k i → ∃ c, chain tasks (k :: c) ∧ length (k :: c) = S i.
Proof.
  revert k. induction i as [|i IH]; intros k Hk.
  - by exists [].
  - destruct (level_at_pred k i Hk) as (d & Hd & Hdi).
    destruct (IH d Hdi) as (c & Hc & Hlen). exists (d :: c). simpl in *. auto with lia.
Qed.

Lemma chain_below_level k c i :
  level_at r k i → chain tasks (k :: c) → length (k :: c) ≤ S i.
Proof.
  revert k i. induction c as [|d c IH]; intros k i Hk; simpl; [lia|]. intros [Hd Hc].
  destruct (level_at_dep k d i Hk Hd) as (j & Hj & Hdj).
  specialize (IH d j Hdj Hc). simpl in IH. lia.
Qed.

(** All keys placed: the graph has a rank, hence no cycle. *)
Definition rank (k : string) : nat :=
  match list_find (λ l, k ∈ l) (k_levels r) with
  | Some (i, _) => i
  | None => 0
  end.

Lemma rank_level k i : level_at r k i → rank k = i.
Proof.
  intros Hk. unfold rank.
  destruct (list_find (λ l, k ∈ l) (k_levels r)) as [[j l]|] eqn:Hf.
  - apply list_find_Some in Hf as (Hl & Hkl & _). apply (level_at_fun k); [by exists l|done].
  - destruct Hk as (l & Hl & Hkl). apply list_find_None in Hf.
    rewrite Forall_forall in Hf. destruct (Hf l); [|done].
    apply list_elem_of_lookup. eauto.
Qed.

Lemma rank_dep k d : k ∈ k_order r → depends tasks k d → rank d < rank k.
Proof.
  intros (i & Hk)%elem_of_order_level Hd.
  destruct (level_at_dep k d i Hk Hd) as (j & Hj & Hdj).
  by rewrite (rank_level _ _ Hk), (rank_level _ _ Hdj).
Qed.

Lemma all_placed_acyclic :
  (∀ k, k ∈ keys tasks → k ∈ k_order r) → acyclic tasks.
Proof.
  intros Hall k Hkk.
  assert (Hlt : ∀ a b, tc (depends tasks) a b → rank b < rank a).
  { induction 1 as [a b Hab|a b c Hab _ IH].
    - apply rank_dep; [|done]. by apply Hall; apply depends_kdeps in Hab as [? _].
    - etrans; [done|]. apply rank_dep; [|done].
      by apply Hall; apply depends_kdeps in Hab as [? _]. }
  specialize (Hlt k k Hkk). lia.
Qed.

Lemma unprocessed_closed k :
  k ∈ k_unprocessed r → ∃ d, d ∈ k_unprocessed r ∧ depends tasks k d.
Proof.
  intros [Hk Hni]%(ko_unprocessed _ _ Hr).
  destruct (decide (Exists (λ d, d ∉ k_order r) (kdeps tasks k))) as [Hex|Hex].
  - apply Exists_exists in Hex as (d & Hd & Hdo). exists d.
    assert (depends tasks k d) by (by apply depends_kdeps). split; [|done].
    apply (ko_unprocessed _ _ Hr). split; [by apply (sound_known _ Hs k)|done].
  - exfalso. apply Hni, (ko_closed _ _ Hr k Hk). intros d [_ Hd]%depends_kdeps; [|done].
    destruct (decide (d ∈ k_order r)) as [|Hn]; [done|].
    exfalso. apply Hex, Exists_exists. eauto.
Qed.
End levels.

(** ** The result of [validateDag] *)

(** The three ways it can end. *)
Lemma validateDag_cases tasks :
  (structural_errors tasks ≠ [] ∧ validateDag tasks = Some (Ok (invalid (structural_errors tasks)))) ∨
  (sound tasks ∧ self_free tasks ∧ ¬ acyclic tasks ∧ ∃ c, dependency_cycle tasks c ∧
     validateDag tasks = Some (Ok (invalid [cycle_error c]))) ∨
  (sound tasks ∧ acyclic tasks ∧ ∃ r, kahn_ok tasks r ∧ (∀ k, k ∈ keys tasks → k ∈ k_order r) ∧
     validateDag tasks = Some (Ok (mkDagResult true [] (k_order r) (k_levels r)))).
Proof.
  unfold validateDag. destruct (structural_errors tasks) as [|e l] eqn:He.
  2: { left. split; [done|]. by rewrite decide_True by (simpl; lia). }
  right. rewrite decide_False by (simpl; lia).
  apply structural_errors_nil in He as [Hs Hself].
  destruct (kahn_spec tasks Hs) as (r & -> & Hr).
  destruct (k_unprocessed r) as [|x xs] eqn:Hu.
  - right. rewrite decide_False by (simpl; lia).
    assert (Hall : ∀ k, k ∈ keys tasks → k ∈ k_order r).
    { intros k Hk. destruct (decide (k ∈ k_order r)) as [|Hni]; [done|].
      assert (k ∈ k_unprocessed r) as Hin by (by apply (ko_unprocessed _ _ Hr)).
      rewrite Hu in Hin. by apply not_elem_of_nil in Hin. }
    split_and!; [done|by eapply all_placed_acyclic|]. eauto.
  - left. rewrite decide_True by (simpl; lia).
    destruct (findCycle_spec tasks Hs (k_unprocessed r) x) as (c & Hc & Hcyc).
    + intros k Hk. by apply (ko_unprocessed _ _ Hr) in Hk as [? _].
    + rewrite Hu. left.
    + intros k Hk. by eapply unprocessed_closed.
    + rewrite <- Hu, Hc. split_and!; [done..| |by eauto]. by eapply dependency_cycle_tc.
Qed.

Lemma validateDag_valid_kahn tasks r :
  validateDag tasks = Some (Ok r) → valid r = true →
  sound tasks ∧ acyclic tasks ∧ errors r = [] ∧ ∃ kr, kahn_ok tasks kr ∧
    (∀ k, k ∈ keys tasks → k ∈ k_order kr) ∧ order r = k_order kr ∧ levels r = k_levels kr.
Proof.
  intros Hv Hval.
  destruct (validateDag_cases tasks) as [[_ H]|[(_ & _ & _ & c & _ & H)|(Hs & Ha & kr & Hk & Hall & H)]];
    rewrite Hv in H; simplify_eq; [done..|].
  split_and!; [done|done|done|]. by exists kr.
Qed.

(** A position before another one in a list without duplicates. *)
Definition before (l : list string) (x y : string) : Prop :=
  ∃ l1 l2, l = l1 ++ l2 ∧ x ∈ l1 ∧ y ∈ l2.

Lemma before_levels tasks r k d :
  sound tasks → kahn_ok tasks r → k ∈ k_order r → depends tasks k d →
  before (k_order r) d k.
Proof.
  intros Hs Hr Hk Hd. apply (elem_of_order_level tasks r Hr) in Hk as (i & l & Hl & Hkl).
  exists (mjoin (take i (k_levels r))), (mjoin (drop i (k_levels r))).
  rewrite <- (ko_concat _ _ Hr). split_and!.
  - by rewrite <- join_app, take_drop.
  - by apply (ko_level _ _ Hr _ _ Hl) in Hkl as (_ & Hall & _); auto.
  - apply list_elem_of_join. exists l. split; [done|].
    apply list_elem_of_lookup. exists 0. by rewrite lookup_drop, Nat.add_0_r.
Qed.

(** A graph the engine can run has a rank that decreases along dependencies. *)
Lemma validateDag_rank tasks r :
  validateDag tasks = Some (Ok r) → valid r = true →
  sound tasks ∧ ∃ rk : string → nat, ∀ k d, depends tasks k d → rk d < rk k.
Proof.
  intros Hv Hval.
  destruct (validateDag_valid_kahn _ _ Hv Hval) as (Hs & _ & _ & kr & Hk & Hall & _ & _).
  split; [done|]. exists (rank kr). intros k d Hd.
  apply (rank_dep tasks kr Hk); [|done]. apply Hall. by apply depends_kdeps in Hd as [? _].
Qed.

(** ** Properties *)

(** C9: [validateDag] always returns a result (it never throws and never runs
    out of fuel), and it accepts exactly the task lists whose keys are unique,
    whose dependencies are known and listed once, and whose dependency relation
    has no cycle. *)
Theorem validateDag_accepts_exactly (tasks : list DagTask) :
  ∃ r, validateDag tasks = Some (Ok r) ∧
    (valid r = true ↔ sound tasks ∧ acyclic tasks).
Proof.
  destruct (validateDag_cases tasks)
    as [[Hne ->]|[(Hs & _ & Hc & c & _ & ->)|(Hs & Ha & kr & _ & _ & ->)]];
    eexists; (split; [done|]); simpl.
  - split; [done|]. intros [Hs Ha]. destruct Hne. apply structural_errors_nil.
    split; [done|]. intros k Hk. by apply (Ha k), tc_once.
  - split; [done|]. by intros [_ Ha].
  - done.
Qed.

(** C17: the [order] of an accepted graph is a topological order: it lists every
    task key exactly once, it is the concatenation of the levels, and every
    task comes after all of its dependencies. *)
Theorem validateDag_order_topological (tasks : list DagTask) (r : DagResult)
    (Hv : validateDag tasks = Some (Ok r)) (Hok : valid r = true) :
  order r ≡ₚ keys tasks ∧ mjoin (levels r) = order r ∧
  ∀ k d, depends tasks k d → before (order r) d k.
Proof.
  destruct (validateDag_valid_kahn _ _ Hv Hok) as (Hs & _ & _ & kr & Hk & Hall & -> & ->).
  split_and!.
  - apply NoDup_Permutation; [apply Hk|apply Hs|]. intros k. split; [apply Hk|apply Hall].
  - apply Hk.
  - intros k d Hd. eapply before_levels; [done..| |done].
    apply Hall. by apply depends_kdeps in Hd as [? _].
Qed.

(** the levels of an accepted graph are its depths: a task is in level [i]
    exactly when its longest dependency chain has [i + 1] tasks.  So tasks of a
    level never depend on one another and [levels.length] is the critical path. *)
Theorem validateDag_levels_are_depths (tasks : list DagTask) (r : DagResult)
    (Hv : validateDag tasks = Some (Ok r)) (Hok : valid r = true)
    (i : nat) (l : list string) (Hl : levels r !! i = Some l) (k : string) (Hk : k ∈ l) :
  (∃ c, chain tasks (k :: c) ∧ length (k :: c) = S i) ∧
  (∀ c, chain tasks (k :: c) → length (k :: c) ≤ S i).
Proof.
  destruct (validateDag_valid_kahn _ _ Hv Hok) as (Hs & _ & _ & kr & Hkr & _ & _ & Hlv).
  rewrite Hlv in Hl. assert (level_at kr k i) as Hat by (by exists l). split.
  - by eapply chain_from_level.
  - intros c. by eapply chain_below_level.
Qed.

(** all structural problems are reported, and nothing else: the first phase
    yields a duplicate-key error for every repeated key, a self-dependency
    error for every task that lists itself, an unknown-dependency error for
    every dependency that is no key, and a duplicate-dependency error for every
    dependency a task lists twice; when there is any, they are the result. *)
Theorem validateDag_reports_all_structural_errors (tasks : list DagTask) :
  (structural_errors tasks ≠ [] →
   validateDag tasks = Some (Ok (invalid (structural_errors tasks)))) ∧
  ∀ e, e ∈ structural_errors tasks ↔
    (∃ k, e = duplicate_key_error k ∧ repeated k (keys tasks)) ∨
    (∃ t, t ∈ tasks ∧ e = self_dependency_error (dt_key t) ∧ dt_key t ∈ deps_of t) ∨
    (∃ t d, t ∈ tasks ∧ e = unknown_dependency_error (dt_key t) d ∧
       d ∈ deps_of t ∧ d ≠ dt_key t ∧ d ∉ keys tasks) ∨
    (∃ t d, t ∈ tasks ∧ e = duplicate_dependency_error (dt_key t) d ∧ repeated d (deps_of t)).
Proof.
  split; [|apply structural_errors_spec]. intros Hne.
  destruct (validateDag_cases tasks) as [[_ ?]|[(Hs & Hf & _)|(Hs & Ha & _)]]; [done|..];
    destruct Hne; apply structural_errors_nil; [done|].
  split; [done|]. intros k Hk. by apply (Ha k), tc_once.
Qed.

(** C29: when the structure is sound but the graph has a cycle, the single error
    names a real one: the reported path starts and ends with the same task and
    each task on it depends on the one before it. *)
Theorem validateDag_reports_real_cycle (tasks : list DagTask)
    (Hs : sound tasks) (Hself : self_free tasks) (Hc : ¬ acyclic tasks) :
  ∃ c, validateDag tasks = Some (Ok (invalid [cycle_error c])) ∧ dependency_cycle tasks c.
Proof.
  destruct (validateDag_cases tasks) as [[Hne _]|[(_ & _ & _ & c & ? & ?)|(_ & ? & _)]].
  - destruct Hne. by apply structural_errors_nil.
  - by exists c.
  - done.
Qed.

(** ** Witnesses *)

Import DagExamples.

Definition diamond_tasks : list DagTask :=
  [tk "A" []; tk "B" ["A"]; tk "C" ["A"]; tk "D" ["B"; "C"]].
Definition diamond_result : DagResult :=
  mkDagResult true [] ["A"; "B"; "C"; "D"] [["A"]; ["B"; "C"]; ["D"]].

Lemma validateDag_order_topological_witness :
  order diamond_result ≡ₚ keys diamond_tasks ∧ mjoin (levels diamond_result) = order diamond_result ∧
  ∀ k d, depends diamond_tasks k d → before (order diamond_result) d k.
Proof.
  apply (validateDag_order_topological diamond_tasks diamond_result); vm_compute; reflexivity.
Defined.

Lemma validateDag_levels_are_depths_witness :
  (∃ c, chain diamond_tasks ("D" :: c) ∧ length ("D" :: c) = 3) ∧
  (∀ c, chain diamond_tasks ("D" :: c) → length ("D" :: c) ≤ 3).
Proof.
  apply (validateDag_levels_are_depths diamond_tasks diamond_result) with (l := ["D"]);
    [vm_compute; reflexivity|vm_compute; reflexivity|reflexivity|left].
Defined.

Lemma validateDag_reports_all_structural_errors_witness :
  structural_errors [tk "A" []; tk "A" []] ≠ [] ∧
  validateDag [tk "A" []; tk "A" []] =
    Some (Ok (invalid (structural_errors [tk "A" []; tk "A" []]))).
Proof.
  split; [vm_compute; discriminate|].
  apply (validateDag_reports_all_structural_errors [tk "A" []; tk "A" []]).
  vm_compute; discriminate.
Defined.

Definition loop_tasks : list DagTask := [tk "A" ["B"]; tk "B" ["A"]].

Lemma loop_tasks_no_errors : structural_errors loop_tasks = [].
Proof. vm_compute. reflexivity. Qed.

Lemma loop_tasks_cyclic : ¬ acyclic loop_tasks.
Proof.
  intros Ha. apply (Ha "A"). eapply tc_l; [|apply tc_once].
  - exists (tk "A" ["B"]). split; [left|]. split; [done|]. left.
  - exists (tk "B" ["A"]). split; [right; left|]. split; [done|]. left.
Qed.

Lemma validateDag_reports_real_cycle_witness :
  ∃ c, validateDag loop_tasks = Some (Ok (invalid [cycle_error c])) ∧
    dependency_cycle loop_tasks c.
Proof.
  apply (validateDag_reports_real_cycle loop_tasks).
  - apply (structural_errors_nil loop_tasks), loop_tasks_no_errors.
  - apply (structural_errors_nil loop_tasks), loop_tasks_no_errors.
  - apply loop_tasks_cyclic.
Defined.
