(* ===== verification/Models.v ===== *)
(** * Documents and the store ([src/models/*.js])

    One record per Mongoose schema the engine reads or writes, and the store
    [DB] that holds them.  A document's [_id] is its key in the map.  The
    fields [createdAt] and [updatedAt] that Mongoose adds are not modelled: no
    code of the engine reads them.  The MongoDB operations the source uses
    ([updateOne], [updateMany], [find], [create]) are functions on these maps;
    a new [_id] is one that no document has. *)

From S2P Require Import Prelude States.

Set Primitive Projections.

(** [models/task.model.js]: one task instance of one execution. *)
Record Task := mkTask {
  t_executionId : oid;
  t_ownerId : oid;
  t_key : string;
  t_type : string;
  t_config : json;
  dependsOn : list string;
  dependents : list string;
  remainingDeps : Z;
  t_status : TASK_STATUS;
  attempt : Z;
  maxAttempts : Z;
  baseDelayMs : Z;
  t_timeoutMs : Z;
  leaseOwner : option string;
  leaseToken : Z;
  leaseExpiresAt : option ms;
  output : json;
  t_error : option string;
  readyAt : option ms;
  retryAt : option ms;
  queuedAt : option ms;
  t_startedAt : option ms;
  t_completedAt : option ms
}.

(** [models/workflowExecution.model.js]: one run of a workflow. *)
Inductive TRIGGER : Type := TRIGGER_manual | TRIGGER_schedule.

Record WorkflowExecution := mkWorkflowExecution {
  x_workflowId : oid;
  x_ownerId : oid;
  x_workflowVersion : Z;
  x_status : EXECUTION_STATUS;
  x_input : json;
  taskCount : Z;
  pendingTasks : Z;
  triggeredBy : option oid;
  trigger : TRIGGER;
  idempotencyKey : option string;
  requestHash : option string;
  x_startedAt : option ms;
  x_completedAt : option ms;
  x_error : option string
}.

(** [models/taskExecution.model.js]: one attempt of one task. *)
Inductive ATTEMPT_STATUS : Type :=
| A_RUNNING | A_SUCCEEDED | A_FAILED | A_TIMED_OUT | A_ABANDONED | A_SUSPENDED.

#[export] Instance attempt_status_eq_dec : EqDecision ATTEMPT_STATUS.
Proof. solve_decision. Defined.

Record TaskExecution := mkTaskExecution {
  a_taskId : oid;
  a_executionId : oid;
  a_attempt : Z;
  a_workerId : string;
  a_leaseToken : Z;
  a_status : ATTEMPT_STATUS;
  a_startedAt : ms;
  a_finishedAt : option ms;
  a_durationMs : option Z;
  a_error : option (string * bool)
}.

(** [models/approval.model.js]: one request per waiting task. *)
Inductive APPROVAL_STATUS : Type :=
| P_PENDING | P_APPROVED | P_REJECTED | P_EXPIRED | P_CANCELLED.

#[export] Instance approval_status_eq_dec : EqDecision APPROVAL_STATUS.
Proof. solve_decision. Defined.

Record ApprovalRequest := mkApprovalRequest {
  p_taskId : oid;
  p_executionId : oid;
  p_ownerId : oid;
  p_taskKey : string;
  p_title : string;
  p_message : string;
  p_context : json;
  p_status : APPROVAL_STATUS;
  decidedBy : option oid;
  decidedAt : option ms;
  p_comment : option string;
  expiresAt : ms
}.

(** [models/outboxEvent.model.js]: one row of the transactional outbox.
    [eventId] is a [randomUUID()], represented by a number that never repeats. *)
Record OutboxEvent := mkOutboxEvent {
  eventId : nat;
  ev_type : string;
  aggregateId : string;
  ev_payload : json;
  occurredAt : ms;
  publishedAt : option ms
}.

(** [models/workflow.model.js]: a definition, and the tasks inside it.  The
    optional fields are the ones the engine reads with [?.] or lets Mongoose
    default. *)
Record TaskDefinition := mkTaskDefinition {
  td_key : string;
  td_type : string;
  td_dependsOn : list string;
  td_config : json;
  td_maxAttempts : option Z;
  td_baseDelayMs : option Z;
  td_timeoutMs : option Z
}.

Record Workflow := mkWorkflow {
  wf_id : oid;
  wf_ownerId : oid;
  wf_version : Z;
  wf_tasks : list TaskDefinition
}.

(** The collections.  [attempts] is keyed by its unique index (taskId, attempt). *)
Record DB := mkDB {
  executions : gmap oid WorkflowExecution;
  tasks : gmap oid Task;
  attempts : gmap (oid * Z) TaskExecution;
  approvals : gmap oid ApprovalRequest;
  outbox : list OutboxEvent;
  uuids : nat
}.

Unset Primitive Projections.

Definition empty_db : DB := mkDB ∅ ∅ ∅ ∅ [] 0.

(** ** Operations of a collection *)

Section collection.
Context {K A : Type} `{Countable K}.
Implicit Types (m : gmap K A) (p : A → bool) (u : A → A).

(** [updateOne({ _id, ...filter }, update)]: the number of documents updated. *)
Definition updateOne (i : K) (p : A → bool) (u : A → A) (m : gmap K A) : Z * gmap K A :=
  match m !! i with
  | Some x => if p x then (1%Z, <[i := u x]> m) else (0%Z, m)
  | None => (0%Z, m)
  end.

(** [findOneAndUpdate({ _id, ...filter }, update, { returnDocument: "after" })]. *)
Definition findOneAndUpdate (i : K) (p : A → bool) (u : A → A) (m : gmap K A)
    : option A * gmap K A :=
  match m !! i with
  | Some x => if p x then (Some (u x), <[i := u x]> m) else (None, m)
  | None => (None, m)
  end.

(** [updateMany(filter, update)]: the number of documents updated. *)
Definition updateMany (p : A → bool) (u : A → A) (m : gmap K A) : Z * gmap K A :=
  (mcount p m, (λ x, if p x then u x else x) <$> m).

(** [find(filter)], in the order of the map (MongoDB promises none). *)
Definition find (p : A → bool) (m : gmap K A) : list (K * A) :=
  map_to_list (filter (λ kv : K * A, p kv.2 = true) m).

(** [findOne({ _id, ...filter })]. *)
Definition findOne (i : K) (p : A → bool) (m : gmap K A) : option A :=
  x ← m !! i; if p x then Some x else None.

(** [.limit(n)]: MongoDB takes 0 to mean no limit. *)
Definition limit_to {B} (n : nat) (l : list B) : list B :=
  match n with O => l | S _ => take n l end.

Lemma updateOne_hit i p u m x :
  m !! i = Some x → p x = true → updateOne i p u m = (1%Z, <[i := u x]> m).
Proof. unfold updateOne. by intros -> ->. Qed.

Lemma updateOne_miss i p u m :
  (∀ x, m !! i = Some x → p x = false) → updateOne i p u m = (0%Z, m).
Proof. unfold updateOne. destruct (m !! i); [|done]. by intros ->. Qed.

(** The two outcomes of a conditional update of one document. *)
Lemma updateOne_cases i p u m :
  (∃ x, m !! i = Some x ∧ p x = true ∧ updateOne i p u m = (1%Z, <[i := u x]> m)) ∨
  ((∀ x, m !! i = Some x → p x = false) ∧ updateOne i p u m = (0%Z, m)).
Proof.
  unfold updateOne. destruct (m !! i) as [x|]; [|by right].
  destruct (p x) eqn:Hp; [left; by eauto|right].
  split; [|done]. by intros ? [= <-].
Qed.

Lemma findOneAndUpdate_cases i p u m :
  (∃ x, m !! i = Some x ∧ p x = true ∧
     findOneAndUpdate i p u m = (Some (u x), <[i := u x]> m)) ∨
  ((∀ x, m !! i = Some x → p x = false) ∧ findOneAndUpdate i p u m = (None, m)).
Proof.
  unfold findOneAndUpdate. destruct (m !! i) as [x|]; [|by right].
  destruct (p x) eqn:Hp; [left; by eauto|right].
  split; [|done]. by intros ? [= <-].
Qed.

Lemma elem_of_find p m i x : (i, x) ∈ find p m ↔ m !! i = Some x ∧ p x = true.
Proof. unfold find. by rewrite elem_of_map_to_list, map_lookup_filter_Some. Qed.

Lemma findOne_Some i p m x : findOne i p m = Some x ↔ m !! i = Some x ∧ p x = true.
Proof.
  unfold findOne. destruct (m !! i) as [y|]; simpl; [|by split; [|intros [? _]]].
  destruct (p y) eqn:Hp; split; try done; [by intros [= ->]|by intros [[= ->] _]|].
  intros [[= ->] ?]. congruence.
Qed.

Lemma findOne_None i p m : findOne i p m = None ↔ ∀ x, m !! i = Some x → p x = false.
Proof.
  unfold findOne. destruct (m !! i) as [y|]; simpl; [|done].
  destruct (p y) eqn:Hp; split; try done; [intros Hx; by rewrite Hx in Hp|].
  by intros _ ? [= <-].
Qed.

Lemma updateMany_none p u m :
  (∀ i x, m !! i = Some x → p x = false) → updateMany p u m = (0%Z, m).
Proof.
  intros Hp. unfold updateMany. f_equal; [by apply mcount_zero|].
  apply map_eq. intros i. rewrite lookup_fmap. destruct (m !! i) eqn:Hi; simpl; [|done].
  by rewrite (Hp _ _ Hi).
Qed.
End collection.

(** [String(date)] arithmetic of the source: [task.startedAt ? finishedAt - task.startedAt : null]. *)
Definition durationMs (t : Task) (finishedAt : ms) : option Z :=
  (λ s, (finishedAt - s)%Z) <$> t_startedAt t.

Definition json_opt_num (o : option Z) : json :=
  match o with Some z => JNum z | None => JNull end.
Definition json_opt_str (o : option string) : json :=
  match o with Some s => JStr s | None => JNull end.

(** ** Creating documents *)

Section create.
Context {A : Type}.

(** Insert a document under a new [_id]. *)
Definition insert_new (x : A) (m : gmap oid A) : oid * gmap oid A :=
  let i := fresh (dom m) in (i, <[i := x]> m).

(** [insertMany]: one new [_id] per document. *)
Definition insert_all (l : list A) (m : gmap oid A) : gmap oid A :=
  list_to_map (zip (fresh_list (length l) (dom m)) l) ∪ m.
End create.
