(* ===== verification/Documents.v ===== *)
(** * Documents in responses ([src/models])

    The [toJSON] transforms of the models: what a client gets to see of a
    document.  A plain object is its list of properties, in their order. *)

From S2P Require Import Prelude.

Local Open Scope string_scope.

(** An object without two properties of one name. *)
Abbreviation object := (list (string * json)) (only parsing).
Definition proper (ret : object) : Prop := NoDup ret.*1.

Definition get_property (name : string) (ret : object) : option json := (list_to_map ret : gmap string json) !! name.

(** [ret[name] = value]: in its place if it is there, at the end otherwise. *)
Definition set_property (name : string) (value : json) (ret : object) : object :=
  if decide (name ∈ ret.*1) then (λ p, if bool_decide (p.1 = name) then (name, value) else p) <$> ret
  else (ret ++ [(name, value)])%list.

(** [delete ret[name]]. *)
Definition delete_property (name : string) (ret : object) : object := filter (λ p, p.1 ≠ name) ret.

(** [ret.id = String(ret._id)]: [hex] is the ObjectId in hexadecimal. *)
Definition set_id (hex : string) (ret : object) : object := set_property "id" (JStr hex) ret.

Definition without_internals (ret : object) : object := delete_property "__v" (delete_property "_id" ret).

Definition workflow_toJSON (hex : string) (ret : object) : object := without_internals (set_id hex ret).
Definition task_toJSON (hex : string) (ret : object) : object := without_internals (set_id hex ret).
Definition taskExecution_toJSON (hex : string) (ret : object) : object := without_internals (set_id hex ret).
Definition approval_toJSON (hex : string) (ret : object) : object := without_internals (set_id hex ret).
Definition knowledge_toJSON (hex : string) (ret : object) : object := without_internals (set_id hex ret).
Definition worker_toJSON (ret : object) : object := without_internals ret.
Definition execution_toJSON (hex : string) (ret : object) : object := delete_property "requestHash" (without_internals (set_id hex ret)).
Definition user_toJSON (hex : string) (ret : object) : object :=
  delete_property "tokenVersion" (delete_property "passwordHash" (without_internals (set_id hex ret))).

(** ** Properties of properties *)

Lemma get_delete name name' ret :
  get_property name (delete_property name' ret) = if bool_decide (name = name') then None else get_property name ret.
Proof.
  unfold get_property, delete_property. induction ret as [|[k v] ret IH]; [by case_bool_decide|].
  destruct (decide (k = name')) as [->|Hk].
  - rewrite filter_cons_False by (cbn; auto). rewrite IH. case_bool_decide; [done|]. cbn. by rewrite lookup_insert_ne.
  - rewrite filter_cons_True by done. cbn. destruct (decide (k = name)) as [->|Hne].
    + rewrite !lookup_insert_eq. by rewrite bool_decide_eq_false_2.
    + by rewrite !lookup_insert_ne.
Qed.

Lemma get_set name name' v ret :
  get_property name (set_property name' v ret) = if bool_decide (name = name') then Some v else get_property name ret.
Proof.
  unfold get_property, set_property. case_decide as Hin.
  - induction ret as [|[k u] ret IH]; [by apply elem_of_nil in Hin|]. cbn [fmap list_fmap fst list_to_map foldr uncurry] in *.
    destruct (decide (k = name')) as [->|Hk].
    + rewrite bool_decide_eq_true_2 by done. cbn. destruct (decide (name = name')) as [->|Hne].
      * rewrite bool_decide_eq_true_2, lookup_insert_eq by done. done.
      * rewrite bool_decide_eq_false_2, !lookup_insert_ne by done. clear IH Hin.
        induction ret as [|[k u'] ret IH]; [done|]. cbn. destruct (decide (k = name')) as [->|Hk'].
        -- rewrite bool_decide_eq_true_2 by done. cbn. by rewrite !lookup_insert_ne.
        -- rewrite bool_decide_eq_false_2 by done. cbn. destruct (decide (k = name)) as [->|]; [by rewrite !lookup_insert_eq|].
           by rewrite !lookup_insert_ne.
    + rewrite bool_decide_eq_false_2 by done. cbn. apply elem_of_cons in Hin as [->|Hin]; [done|].
      destruct (decide (k = name)) as [->|Hne]; [by rewrite !lookup_insert_eq, bool_decide_eq_false_2|].
      rewrite !lookup_insert_ne by done. by apply IH.
  - rewrite list_to_map_app. destruct (decide (name = name')) as [->|Hne].
    + rewrite bool_decide_eq_true_2 by done. rewrite lookup_union_r by (by apply not_elem_of_list_to_map_1).
      cbn. apply lookup_insert_eq.
    + rewrite bool_decide_eq_false_2 by done. rewrite lookup_union_l; [done|]. cbn. by rewrite lookup_insert_ne.
Qed.

Lemma set_proper name v ret : proper ret → proper (set_property name v ret).
Proof.
  unfold proper, set_property. intros Hnd. case_decide as Hin.
  - rewrite <- list_fmap_compose. erewrite list_fmap_ext; [exact Hnd|]. intros _ [k u] _. cbn. by case_bool_decide; subst.
  - rewrite fmap_app. cbn. apply NoDup_app. split_and!; [done|set_solver|apply NoDup_singleton].
Qed.

Lemma delete_proper name ret : proper ret → proper (delete_property name ret).
Proof.
  unfold proper, delete_property. induction ret as [|[k v] ret IH]; [done|]. cbn [fmap list_fmap fst].
  rewrite NoDup_cons. intros [Hk Hnd]. destruct (decide (k = name)) as [->|Hne];
    [rewrite filter_cons_False by (cbn; auto); by apply IH|]. rewrite filter_cons_True by done. cbn. apply NoDup_cons.
  split; [|by apply IH]. intros (p & -> & [_ Hp]%list_elem_of_filter)%list_elem_of_fmap. apply Hk. apply list_elem_of_fmap. by exists p.
Qed.

#[export] Hint Resolve set_proper delete_proper : wf.

(** No client sees the credentials of a user: the answer has the properties of the
    document, its id under the name [id], and none of [_id], [__v], [passwordHash]
    and [tokenVersion]. *)
Theorem user_answers_hide_credentials (hex : string) (ret : object) :
  (∀ name, get_property name (user_toJSON hex ret) =
     if bool_decide (name ∈ ["_id"; "__v"; "passwordHash"; "tokenVersion"]) then None
     else if bool_decide (name = "id") then Some (JStr hex)
     else get_property name ret) ∧
  (proper ret → proper (user_toJSON hex ret)).
Proof.
  split; [|unfold user_toJSON, without_internals, set_id; eauto 10 with wf]. intros name.
  unfold user_toJSON, without_internals, set_id. rewrite !get_delete, get_set.
  repeat case_bool_decide; subst; try done; exfalso; set_solver.
Qed.

(** Runs keep the hash of the request to themselves. *)
Theorem execution_answers_hide_hash (hex : string) (ret : object) name :
  get_property name (execution_toJSON hex ret) =
    if bool_decide (name ∈ ["_id"; "__v"; "requestHash"]) then None
    else if bool_decide (name = "id") then Some (JStr hex)
    else get_property name ret.
Proof.
  unfold execution_toJSON, without_internals, set_id. rewrite !get_delete, get_set.
  repeat case_bool_decide; subst; try done; exfalso; set_solver.
Qed.

Example a_user_answer :
  user_toJSON "65f0" [("_id", JStr "65f0"); ("email", JStr "a@b.c"); ("passwordHash", JStr "$2b$"); ("role", JStr "viewer"); ("tokenVersion", JNum 3); ("__v", JNum 0)] =
  [("email", JStr "a@b.c"); ("role", JStr "viewer"); ("id", JStr "65f0")].
Proof. reflexivity. Qed.
