(* ===== verification/Retry.v ===== *)
(** * Retry policy ([src/workers/retry.js])

    Which errors deserve a retry and how long to wait.  JavaScript code may
    throw anything: [thrown] describes a thrown value by what the engine reads
    of it.  The backoff is computed on doubles, as the source does. *)

From S2P Require Import Prelude.

Set Primitive Projections.

(** An object that was thrown: is it a [NonRetryableError], its [name], its
    [message] ([None] when undefined or null), its [retryable] property
    ([None] when it is not a boolean) and [String(err)]. *)
Record error_object := mkError {
  is_NonRetryableError : bool;
  e_name : option string;
  e_message : option string;
  e_retryable : option bool;
  e_string : string
}.

Unset Primitive Projections.

Inductive thrown : Type :=
| Nullish
| Primitive (truthy : bool) (s : string)
| ErrorObject (e : error_object).

(** [if (err)]: the values [undefined], [null], [false], [0], [NaN] and the empty
    string count as false, although they can be thrown. *)
Definition truthy_thrown (err : thrown) : bool :=
  match err with Nullish => false | Primitive b _ => b | ErrorObject _ => true end.

(** [new Error(message)], [new NonRetryableError(message)], [new TimeoutError(label, ms)]. *)
Definition new_Error (message : string) : thrown :=
  ErrorObject (mkError false (Some "Error") (Some message) None ("Error: " +:+ message)).

Definition NonRetryableError (message : string) : thrown :=
  ErrorObject (mkError true (Some "NonRetryableError") (Some message) (Some false)
    ("NonRetryableError: " +:+ message)).

Definition TimeoutError (label : string) (duration : ms) : thrown :=
  let message := label +:+ " timed out after " +:+ pretty duration +:+ "ms" in
  ErrorObject (mkError false (Some "TimeoutError") (Some message) None
    ("TimeoutError: " +:+ message)).

(** [err?.retryable !== false], after the [instanceof] check. *)
Definition isRetryable (err : thrown) : bool :=
  match err with
  | ErrorObject e =>
      if is_NonRetryableError e then false
      else match e_retryable e with Some false => false | _ => true end
  | _ => true
  end.

(** [String(error?.message ?? error ?? "Task failed").slice(0, 2000)]. *)
Definition error_message (err : thrown) : string :=
  String.substring 0 2000
    match err with
    | Nullish => "Task failed"
    | Primitive _ s => s
    | ErrorObject e => match e_message e with Some m => m | None => e_string e end
    end.

(** [error?.name === "TimeoutError"]. *)
Definition is_timeout (err : thrown) : bool :=
  match err with
  | ErrorObject e => bool_decide (e_name e = Some "TimeoutError")
  | _ => false
  end.

(** ** Backoff *)

Local Open Scope Z_scope.

(** The double nearest to a non-negative integer, ties to even: the integer
    itself up to 53 bits, otherwise its 53 leading bits, rounded. *)
Definition round53 (p : Z) : Z :=
  let excess := Z.log2 p + 1 - 53 in
  if excess <=? 0 then p
  else
    let q := Z.shiftr p excess in
    let rest := p - Z.shiftl q excess in
    let half := Z.shiftl 1 (excess - 1) in
    let up := if (half <? rest) || ((rest =? half) && Z.odd q) then 1 else 0 in
    Z.shiftl (q + up) excess.

(** [Math.random()] is [r / 2^53] with [0 <= r < 2^53], so [Math.random() * cap]
    is the double nearest to [r * cap], scaled by an exact power of two.
    [baseDelayMs * 2 ** n] is exact: the product of an integer below 2^53 and a
    power of two. *)
Definition computeBackoff (attempt baseDelayMs maxDelayMs r : Z) : Z :=
  let exponential := baseDelayMs * 2 ^ Z.max 0 (attempt - 1) in
  let cap := Z.min maxDelayMs exponential in
  Z.shiftr (round53 (r * cap)) 53.

(** The cap that attempt [attempt] is given. *)
Definition backoff_cap (attempt baseDelayMs maxDelayMs : Z) : Z :=
  Z.min maxDelayMs (baseDelayMs * 2 ^ Z.max 0 (attempt - 1)).

Lemma round53_nonneg p : 0 ≤ p → 0 ≤ round53 p.
Proof.
  intros Hp. unfold round53. destruct (Z.leb_spec (Z.log2 p + 1 - 53) 0) as [|He]; [done|].
  apply Z.shiftl_nonneg. destruct (_ || _); [|rewrite Z.add_0_r]; [|by apply Z.shiftr_nonneg].
  apply Z.add_nonneg_nonneg; [by apply Z.shiftr_nonneg|done].
Qed.

(** Rounding is monotone below a number that is itself a double: it never
    crosses a multiple of [2^excess]. *)
Lemma round53_le p m :
  0 ≤ p → (0 < Z.log2 p + 1 - 53 → (2 ^ (Z.log2 p + 1 - 53) | m)) → p ≤ m → round53 p ≤ m.
Proof.
  intros Hp Hm Hle. unfold round53.
  destruct (Z.leb_spec (Z.log2 p + 1 - 53) 0) as [|He]; [done|]. specialize (Hm He).
  set (e := Z.log2 p + 1 - 53) in *.
  assert (0 < 2 ^ e) as Hpos by (apply Z.pow_pos_nonneg; lia).
  rewrite !Z.shiftl_mul_pow2, Z.shiftr_div_pow2, Z.mul_1_l by lia.
  destruct Hm as [c ->].
  assert (p / 2 ^ e * 2 ^ e ≤ p) as Hdiv by (rewrite Z.mul_comm; by apply Z.mul_div_le).
  destruct (_ || _) eqn:Hup; [|nia].
  assert (p / 2 ^ e < c) as Hlt; [|nia].
  apply Z.div_lt_upper_bound; [done|].
  destruct (Z.eq_dec p (c * 2 ^ e)) as [Heq|]; [|lia].
  rewrite Heq, Z.div_mul, Z.sub_diag in Hup by lia.
  assert (0 < 2 ^ (e - 1)) by (apply Z.pow_pos_nonneg; lia).
  destruct (Z.ltb_spec (2 ^ (e - 1)) 0), (Z.eqb_spec 0 (2 ^ (e - 1)));
    simpl in Hup; (done || lia).
Qed.

Lemma computeBackoff_bounds a b m r :
  0 ≤ b → 0 ≤ m < 2 ^ 53 → 0 ≤ r < 2 ^ 53 →
  0 ≤ computeBackoff a b m r ≤ backoff_cap a b m.
Proof.
  intros Hb Hm Hr. unfold computeBackoff. fold (backoff_cap a b m).
  set (cap := backoff_cap a b m).
  assert (0 ≤ cap < 2 ^ 53) as Hcap.
  { subst cap. unfold backoff_cap.
    assert (0 ≤ b * 2 ^ Z.max 0 (a - 1)) by (apply Z.mul_nonneg_nonneg; lia). lia. }
  assert (0 ≤ r * cap) as Hp by (apply Z.mul_nonneg_nonneg; lia).
  split; [by apply Z.shiftr_nonneg, round53_nonneg|].
  rewrite Z.shiftr_div_pow2 by done. apply Z.div_le_upper_bound; [done|].
  apply round53_le; [done| |change (2 ^ 53) with 9007199254740992 in *; nia]. intros He.
  apply Z.divide_mul_l. exists (2 ^ (53 - (Z.log2 (r * cap) + 1 - 53))).
  assert (Z.log2 (r * cap) < 106).
  { destruct (Z.eq_dec (r * cap) 0) as [->|]; [done|]. apply Z.log2_lt_pow2; [lia|].
    change (2 ^ 106) with (2 ^ 53 * 2 ^ 53). nia. }
  rewrite <- Z.pow_add_r by lia. f_equal. lia.
Qed.

Lemma backoff_cap_doubles a b m :
  1 ≤ a → 0 ≤ b → 0 ≤ m → backoff_cap (a + 1) b m = Z.min m (2 * backoff_cap a b m).
Proof.
  intros Ha Hb Hm. unfold backoff_cap.
  replace (Z.max 0 (a + 1 - 1)) with (Z.succ (Z.max 0 (a - 1))) by lia.
  rewrite Z.pow_succ_r by lia.
  assert (0 ≤ b * 2 ^ Z.max 0 (a - 1)) by (apply Z.mul_nonneg_nonneg; lia). lia.
Qed.
