(* ===== verification/TaskRepo.v ===== *)
(** * The world and the task repository ([src/repositories/task.repository.js])

    The world the engine's operations act on: the database, the task queue, the
    clock of the MongoDB server ([$$NOW]) and what the process about to take a
    step reads locally, its own clock and [Math.random()].  The local readings
    are arbitrary at every step (see [Engine.outside]), so processes with skewed
    clocks are covered.  Then the three updates every change of a task's
    status goes through. *)

From S2P Require Import Prelude Program States Models.

Set Primitive Projections.

Record World (Q : Type) := mkWorld {
  w_db : DB;
  w_q : Q;
  w_now : ms;
  w_clock : ms;
  w_random : Z
}.

(** What the body of a database call reads besides the database: [new Date()],
    [$$NOW] and [Math.random()]. *)
Record Readings := mkReadings { now : ms; NOW : ms; random : Z }.

Unset Primitive Projections.

Arguments mkWorld {Q} _ _ _ _ _.
Arguments w_db {Q} _.
Arguments w_q {Q} _.
Arguments w_now {Q} _.
Arguments w_clock {Q} _.
Arguments w_random {Q} _.

Section world.
Context {Q : Type}.
Implicit Types (w : World Q).

Definition readings w : Readings := mkReadings (w_clock w) (w_now w) (w_random w).

Definition set_db w (db : DB) : World Q :=
  mkWorld db (w_q w) (w_now w) (w_clock w) (w_random w).
Definition set_q w (q : Q) : World Q :=
  mkWorld (w_db w) q (w_now w) (w_clock w) (w_random w).

(** One atomic call of the database: it commits as a whole, or throws and
    leaves the database as it was. *)
Definition db_step {A} (body : Readings → tx DB A) w : res A * World Q :=
  match body (readings w) (w_db w) with
  | Ok (a, db) => (Ok a, set_db w db)
  | Exn e => (Exn e, w)
  end.

Definition db_call {A} (body : Readings → tx DB A) : prog (World Q) A :=
  await (db_step body).

(** [connection.transaction(async (session) => ...)].  A transaction is atomic
    and isolated; MongoDB re-runs the body after a write conflict, on fresh
    data, so the run that commits behaves like one atomic step. *)
Definition transaction {A} (body : Readings → tx DB A) : prog (World Q) A := db_call body.

(** A read. *)
Definition db_read {A} (f : Readings → DB → A) : prog (World Q) A :=
  db_call (λ r, db ← tx_get; mret (f r db)).

Definition queue_call {A} (f : Q → res A * Q) : prog (World Q) A :=
  await (λ w, let '(a, q) := f (w_q w) in (a, set_q w q)).

Lemma run_db_call {A} (body : Readings → tx DB A) w :
  run (db_call body) w = db_step body w.
Proof. apply run_await. Qed.

(** Run a database call that commits, then the rest. *)
Lemma run_db_bind {A B} (body : Readings → tx DB A) (k : A → prog (World Q) B) w a db :
  body (readings w) (w_db w) = Ok (a, db) →
  run (db_call body ≫= k) w = run (k a) (set_db w db).
Proof. intros Hb. rewrite run_bind, run_db_call. unfold db_step. by rewrite Hb. Qed.

Lemma run_db_throw {A B} (body : Readings → tx DB A) (k : A → prog (World Q) B) w e :
  body (readings w) (w_db w) = Exn e → run (db_call body ≫= k) w = (Exn e, w).
Proof. intros Hb. rewrite run_bind, run_db_call. unfold db_step. by rewrite Hb. Qed.

Lemma run_db_read {A} (f : Readings → DB → A) w :
  run (db_read f) w = (Ok (f (readings w) (w_db w)), w).
Proof. by destruct w. Qed.

Lemma run_queue_call {A} (f : Q → res A * Q) w :
  run (queue_call f) w = ((f (w_q w)).1, set_q w (f (w_q w)).2).
Proof. unfold queue_call. rewrite run_await. by destruct (f (w_q w)). Qed.

Lemma set_db_id w : set_db w (w_db w) = w.
Proof. by destruct w. Qed.
Lemma set_q_id w : set_q w (w_q w) = w.
Proof. by destruct w. Qed.
End world.

(** ** Status changes of a task *)

(** [transitionTask]: compare-and-set on the status.  [set] are the other fields
    of the same update and [where_] the extra conditions. *)
Definition transitionTask (taskId : oid) (from to : TASK_STATUS)
    (set : Task → Task) (where_ : Task → bool) : tx DB bool :=
  _ ← tx_lift (assertTask from to);
  tx_state (λ db,
    let '(modifiedCount, ts) :=
      updateOne taskId (λ t, where_ t && bool_decide (t_status t = from))
        (λ t, (set t) {{ t_status := to }}) (tasks db) in
    (bool_decide (modifiedCount = 1%Z), db {{ tasks := ts }})).

(** Claimable: queued, due for a retry, or running under a lapsed lease.  In the
    comparison of an aggregation expression, null is below every date. *)
Definition lease_expired (t : Task) (NOW : ms) : bool :=
  match leaseExpiresAt t with
  | None => true
  | Some l => bool_decide (l < NOW)%Z
  end.

Definition claimable (NOW : ms) (t : Task) : bool :=
  match t_status t with
  | T_QUEUED | T_RETRYING => true
  | T_RUNNING => lease_expired t NOW
  | _ => false
  end.

(** The claim's update: RUNNING, one more attempt, a new fencing token, a lease. *)
Definition claim_update (workerId : string) (leaseMs : Z) (NOW : ms) (t : Task) : Task :=
  t {{ t_status := T_RUNNING; leaseOwner := Some workerId; t_startedAt := Some NOW;
       attempt := (attempt t + 1)%Z; leaseToken := (leaseToken t + 1)%Z;
       leaseExpiresAt := Some (NOW + leaseMs)%Z }}.

Definition claimTask (taskId : oid) (workerId : string) (leaseMs : Z)
    : Readings → tx DB (option Task) := λ r,
  _ ← tx_lift (assertTask T_QUEUED T_RUNNING);
  _ ← tx_lift (assertTask T_RUNNING T_QUEUED);
  _ ← tx_lift (assertTask T_RETRYING T_QUEUED);
  tx_state (λ db,
    let '(t, ts) := findOneAndUpdate taskId (claimable (NOW r))
                      (claim_update workerId leaseMs (NOW r)) (tasks db) in
    (t, db {{ tasks := ts }})).

(** The heartbeat: [matchedCount === 1]. *)
Definition renewTaskLease (taskId : oid) (token leaseMs : Z) : Readings → tx DB bool := λ r,
  tx_state (λ db,
    let '(matchedCount, ts) :=
      updateOne taskId
        (λ t, bool_decide (t_status t = T_RUNNING) && bool_decide (leaseToken t = token))
        (λ t, t {{ leaseExpiresAt := Some (NOW r + leaseMs)%Z }}) (tasks db) in
    (bool_decide (matchedCount = 1%Z), db {{ tasks := ts }})).

(** ** What they do *)

Lemma transitionTask_spec i a b set where_ db :
  task_edge a b = true →
  transitionTask i a b set where_ db =
    match tasks db !! i with
    | Some t =>
        if where_ t && bool_decide (t_status t = a)
        then Ok (true, db {{ tasks := <[i := (set t) {{ t_status := b }}]> (tasks db) }})
        else Ok (false, db)
    | None => Ok (false, db)
    end.
Proof.
  intros Hab. unfold transitionTask, mbind, tx_bind, tx_lift.
  rewrite assertTask_spec, Hab. simpl. unfold tx_state, updateOne.
  destruct (tasks db !! i) as [t|]; [|by destruct db].
  by destruct (where_ t && _); [|destruct db].
Qed.

(** It never throws on an edge of the table. *)
Lemma transitionTask_ok i a b set where_ db won db' :
  transitionTask i a b set where_ db = Ok (won, db') →
  task_edge a b = true ∧
  ((won = true ∧ ∃ t, tasks db !! i = Some t ∧ where_ t = true ∧ t_status t = a ∧
      db' = db {{ tasks := <[i := (set t) {{ t_status := b }}]> (tasks db) }}) ∨
   (won = false ∧ db' = db ∧
      ∀ t, tasks db !! i = Some t → where_ t = true → t_status t ≠ a)).
Proof.
  destruct (task_edge a b) eqn:Hab.
  - rewrite transitionTask_spec by done. intros H. split; [done|].
    destruct (tasks db !! i) as [t|]; [|by injection H as <- <-; right].
    destruct (where_ t && _) eqn:Hw; injection H as <- <-; [left|right].
    + apply andb_true_iff in Hw as [? ?%bool_decide_eq_true]. eauto 10.
    + split_and!; [done..|]. intros ? [= <-] Hwh Hst. rewrite Hwh in Hw.
      by rewrite bool_decide_eq_true_2 in Hw.
  - unfold transitionTask, mbind, tx_bind, tx_lift. by rewrite assertTask_spec, Hab.
Qed.

Lemma claimTask_spec i wk ls r db :
  claimTask i wk ls r db =
    match tasks db !! i with
    | Some t =>
        if claimable (NOW r) t
        then let t' := claim_update wk ls (NOW r) t in
             Ok (Some t', db {{ tasks := <[i := t']> (tasks db) }})
        else Ok (None, db)
    | None => Ok (None, db)
    end.
Proof.
  unfold claimTask, mbind, tx_bind, tx_lift. rewrite !assertTask_spec. simpl.
  unfold tx_state, findOneAndUpdate.
  destruct (tasks db !! i) as [t|]; [|by destruct db].
  by destruct (claimable (NOW r) t); [|destruct db].
Qed.

Lemma renewTaskLease_spec i tok ls r db :
  renewTaskLease i tok ls r db =
    match tasks db !! i with
    | Some t =>
        if bool_decide (t_status t = T_RUNNING) && bool_decide (leaseToken t = tok)
        then Ok (true, db {{ tasks := <[i := t {{ leaseExpiresAt := Some (NOW r + ls)%Z }}]> (tasks db) }})
        else Ok (false, db)
    | None => Ok (false, db)
    end.
Proof.
  unfold renewTaskLease, tx_state, updateOne.
  destruct (tasks db !! i) as [t|]; [|by destruct db].
  by destruct (_ && _); [|destruct db].
Qed.
