(* ===== verification/Frames.v ===== *)
(** * What transactions and programs leave alone

    A preorder on databases that holds across every step of a transaction holds
    across the transaction, and across the programs that commit such
    transactions.  [EndToEnd] and [Attempts] each use it with a relation of
    their own. *)

From S2P Require Import Prelude Program Models TaskRepo.

Section frames.
Context (R : DB → DB → Prop) `{!PreOrder R}.

Definition relates {A} (m : tx DB A) : Prop := ∀ db a db', m db = Ok (a, db') → R db db'.

Lemma rel_bind {A B} (m : tx DB A) (k : A → tx DB B) : relates m → (∀ a, relates (k a)) → relates (m ≫= k).
Proof. intros Hm Hk db b db'. rewrite tx_bind_ok. intros (a & db1 & H1 & H2). etrans; [by eapply Hm|by eapply Hk]. Qed.
Lemma rel_ret {A} (a : A) : relates (mret a).
Proof. by intros db b db' [= _ <-]. Qed.
Lemma rel_lift {A} (r : res A) : relates (tx_lift r).
Proof. intros db b db'. unfold tx_lift. destruct r; [|done]. by intros [= _ <-]. Qed.
Lemma rel_throw {A} e : relates (tx_throw (A := A) e).
Proof. by intros db b db'. Qed.
Lemma rel_get : relates tx_get.
Proof. by intros db b db' [= _ <-]. Qed.
Lemma rel_state {A} (f : DB → A * DB) : (∀ db, R db (f db).2) → relates (tx_state f).
Proof. intros Hf db a db' [= Ha]. specialize (Hf db). by rewrite Ha in Hf. Qed.
Lemma rel_modify (f : DB → DB) : (∀ db, R db (f db)) → relates (tx_modify f).
Proof. intros Hf db a db' [= _ <-]. apply Hf. Qed.

(** Every step of a program, whatever happens in between. *)
Context {Q : Type}.
Notation stepwise := (steps_ok (λ _ : World Q, True) (λ w w', R (w_db w) (w_db w'))).

Lemma stepwise_db_call {A} (body : Readings → tx DB A) : (∀ r, relates (body r)) → stepwise (db_call body).
Proof.
  intros Hb. apply steps_ok_await. intros w _. split; [done|]. unfold db_step.
  destruct (body (readings w) (w_db w)) as [[a db]|e] eqn:E; [|reflexivity]. by eapply Hb.
Qed.
Lemma stepwise_queue_call {A} (f : Q → res A * Q) : stepwise (queue_call f).
Proof. apply steps_ok_await. intros w _. split; [done|]. destruct (f (w_q w)). cbn. reflexivity. Qed.
Lemma stepwise_read {A} (f : Readings → DB → A) : stepwise (db_read f).
Proof. apply stepwise_db_call. intros r. apply rel_bind; [apply rel_get|]. intros db. apply rel_ret. Qed.

Lemma stepwise_run {A} (p : prog (World Q) A) w : stepwise p → R (w_db w) (w_db (run p w).2).
Proof.
  revert w. induction p as [a|e|B f k IH]; intros w; cbn; [reflexivity..|]. intros Hp.
  destruct (Hp w I) as (_ & HR & Hk). destruct (f w) as [b w']. cbn in *. etrans; [exact HR|by apply IH].
Qed.
End frames.

Create HintDb frames discriminated.
#[export] Hint Resolve rel_ret rel_lift rel_throw rel_get : frames.

(** Take a transaction apart; [update] proves the relation across an update. *)
Ltac rel_step update :=
  match goal with
  | |- relates ?R (_ ≫= _) => apply (rel_bind R); [|intros]
  | |- relates _ (match ?b with _ => _ end) => destruct b
  | |- relates ?R (tx_state _) => apply (rel_state R); update
  | |- relates ?R (tx_modify _) => apply (rel_modify R); update
  | |- relates _ _ => solve [eauto with frames typeclass_instances]
  end.

(** Take a program apart for the relation [R]; [tx] takes a step in a transaction. *)
Ltac stepwise_step R tx :=
  match goal with
  | |- steps_ok _ _ (_ ≫= _) => apply steps_ok_bind; [|intros]
  | |- steps_ok _ _ (catch _ _) => apply steps_ok_catch; [|intros]
  | |- steps_ok _ _ (for_each _ _) => apply steps_ok_for_each; intros
  | |- steps_ok _ _ (for_fold _ _ _) => apply steps_ok_for_fold; intros
  | |- steps_ok _ _ (lift _) => apply steps_ok_lift
  | |- steps_ok _ _ (match ?b with _ => _ end) => destruct b
  | |- steps_ok _ _ (Ret _) => exact I
  | |- steps_ok _ _ (Throw _) => exact I
  | |- steps_ok _ _ (queue_call _) => apply (stepwise_queue_call R)
  | |- steps_ok _ _ (db_read _) => apply (stepwise_read R)
  | |- steps_ok _ _ (db_call _) => apply (stepwise_db_call R); intros; repeat tx
  end.
