(* ===== verification/Dispatcher.v ===== *)
(** * The interface between the engine and the task queue

    The engine is given two functions, [enqueue] and [enqueueDelayed]
    ([createEngine] in [src/workflow/engine.js]), and knows nothing else of the
    queue.  [Dispatcher] is that interface, either call may throw; and
    [DispatcherLaws] is what the engine's recovery relies on: a successful call
    leaves the task in the queue, and no call removes another task. *)

From S2P Require Import Prelude.

(** [{ taskId, executionId, key }]. *)
Record item := mkItem { it_taskId : oid; it_executionId : oid; it_key : string }.

Class Dispatcher (Q : Type) := {
  enqueue : item → Q → res unit * Q;
  enqueueDelayed : oid → Z → Q → res unit * Q
}.

Class DispatcherLaws (Q : Type) `{Dispatcher Q} := {
  (** The task is somewhere in the queue: ready, delayed or leased. *)
  queued : oid → Q → Prop;
  enqueue_queued it q q' : enqueue it q = (Ok tt, q') → queued (it_taskId it) q';
  enqueue_keeps it q r q' j : enqueue it q = (r, q') → queued j q → queued j q';
  enqueueDelayed_queued i d q q' : enqueueDelayed i d q = (Ok tt, q') → queued i q';
  enqueueDelayed_keeps i d q r q' j : enqueueDelayed i d q = (r, q') → queued j q → queued j q'
}.
