(* ===== verification/Engine.v ===== *)
(** * The workflow engine ([src/workflow/engine.js])

    [createEngine] with every function of the source, under its name.  An
    [async] function is a [prog]: each awaited call of the database or of the
    queue is one atomic step, and a [connection.transaction] is one step that
    commits or leaves no trace.  [EngineInv] proves what holds in every world
    any interleaving of these functions can reach; [EngineSpec] what each of
    them does.  Log lines are not modelled. *)

From S2P Require Import Prelude Program States Dag Models Retry TaskRepo Dispatcher.

Local Open Scope string_scope.

(** What [createEngine] is configured with: whether the [OutboxEvent] and
    [ApprovalRequest] models are given, whether [enqueueDelayed] is, the length
    of a lease, and [backoff] (whose first argument is a random draw). *)
Record EngineConfig := mkEngineConfig {
  cfg_outbox : bool;
  cfg_approvals : bool;
  cfg_delayed : bool;
  cfg_leaseMs : Z;
  cfg_backoff : Z → Z → Z → Z
}.

(** The defaults, with everything configured (see [server.js] and [worker.js]). *)
Definition default_config : EngineConfig :=
  mkEngineConfig true true true 15000 (λ r attempt base, computeBackoff attempt base 60000 r).

(** [status === RUNNING || status === PAUSED]. *)
Definition live (s : EXECUTION_STATUS) : bool :=
  match s with E_RUNNING | E_PAUSED => true | _ => false end.

Definition status_in (l : list TASK_STATUS) (s : TASK_STATUS) : bool := bool_decide (s ∈ l).

(** [key: { $in: keys }]. *)
Definition key_in (keys : list string) (t : Task) : bool := bool_decide (t_key t ∈ keys).

(** [executionId]. *)
Definition of_run (e : oid) (t : Task) : bool := bool_decide (t_executionId t = e).

(** [$inc: { pendingTasks: -n }], [$inc: { remainingDeps: -1 }]. *)
Definition dec_pending (n : Z) (x : WorkflowExecution) : WorkflowExecution :=
  x {{ pendingTasks := (pendingTasks x - n)%Z }}.
Definition dec_remaining (t : Task) : Task := t {{ remainingDeps := (remainingDeps t - 1)%Z }}.

(** [$set: { status: CANCELLED, completedAt }]. *)
Definition cancel_task (at_ : ms) (t : Task) : Task :=
  t {{ t_status := T_CANCELLED; t_completedAt := Some at_ }}.
Definition release_lease (t : Task) : Task :=
  t {{ leaseOwner := None; leaseExpiresAt := None }}.

(** [$set: { status: READY, readyAt }]. *)
Definition make_ready (at_ : ms) (t : Task) : Task :=
  t {{ t_status := T_READY; readyAt := Some at_ }}.

(** Tasks waiting for nothing but a running execution. *)
Definition promotable (t : Task) : bool :=
  bool_decide (t_status t = T_PENDING) && bool_decide (remainingDeps t = 0%Z).

(** The tasks fail-fast cancels, and the ones a cancellation cancels. *)
Definition unstarted : list TASK_STATUS := [T_PENDING; T_READY; T_QUEUED; T_RETRYING].
Definition cancellable : list TASK_STATUS :=
  [T_PENDING; T_READY; T_QUEUED; T_RETRYING; T_RUNNING; T_WAITING_FOR_APPROVAL].

(** ** Steps on the collections, inside a transaction *)

Definition Task_updateMany (p : Task → bool) (u : Task → Task) : tx DB Z :=
  tx_state (λ db, let '(n, ts) := updateMany p u (tasks db) in (n, db {{ tasks := ts }})).

Definition Task_findById (i : oid) : tx DB Task :=
  db ← tx_get; tx_lift (get_or_type_error (tasks db !! i)).

Definition Execution_updateOne (e : oid) (p : WorkflowExecution → bool)
    (u : WorkflowExecution → WorkflowExecution) : tx DB Z :=
  tx_state (λ db,
    let '(n, xs) := updateOne e p u (executions db) in (n, db {{ executions := xs }})).

Definition Execution_findOneAndUpdate (e : oid) (p : WorkflowExecution → bool)
    (u : WorkflowExecution → WorkflowExecution) : tx DB (option WorkflowExecution) :=
  tx_state (λ db,
    let '(x, xs) := findOneAndUpdate e p u (executions db) in (x, db {{ executions := xs }})).

Definition Attempt_updateOne (i : oid) (n : Z) (u : TaskExecution → TaskExecution) : tx DB unit :=
  tx_modify (λ db, db {{ attempts := (updateOne (i, n) (λ _, true) u (attempts db)).2 }}).

Definition is_execution (s : EXECUTION_STATUS) (x : WorkflowExecution) : bool :=
  bool_decide (x_status x = s).

Definition set_execution (s : EXECUTION_STATUS) (x : WorkflowExecution) : WorkflowExecution :=
  x {{ x_status := s }}.
Definition finish_execution (s : EXECUTION_STATUS) (at_ : ms) (x : WorkflowExecution)
    : WorkflowExecution := x {{ x_status := s; x_completedAt := Some at_ }}.

Section engine.
Context {Q : Type} `{!Dispatcher Q} (cfg : EngineConfig).

(** [emit(session, type, executionId, payload)]. *)
Definition emit (r : Readings) (type : string) (executionId : oid) (payload : json)
    : tx DB unit :=
  if cfg_outbox cfg then
    tx_modify (λ db, db {{
      outbox := (outbox db ++ [mkOutboxEvent (uuids db) type (oid_str executionId) payload
                                (now r) None])%list;
      uuids := S (uuids db) }})
  else mret tt.

(** *** Dispatching *)

(** Returns whether the task reached the queue. *)
Definition enqueueSafely (i : oid) (t : Task) : prog (World Q) bool :=
  catch (_ ← queue_call (enqueue (mkItem i (t_executionId t) (t_key t))); Ret true)
    (λ _, Ret false).

Definition enqueueRetrySafely (i : oid) (t : Task) (delayMs : Z) : prog (World Q) unit :=
  catch
    (if cfg_delayed cfg then queue_call (enqueueDelayed i delayMs)
     else queue_call (enqueue (mkItem i (t_executionId t) (t_key t))))
    (λ _, Ret tt).

Definition dispatchTask (i : oid) (t : Task) : prog (World Q) bool :=
  won ← db_call (λ r, transitionTask i T_READY T_QUEUED
                        (λ t, t {{ queuedAt := Some (now r) }}) (λ _, true));
  if won : bool then _ ← enqueueSafely i t; Ret true else Ret false.

Definition dispatchReady (executionId : oid) : prog (World Q) unit :=
  execution ← db_read (λ _ db, executions db !! executionId);
  if bool_decide (x_status <$> execution = Some E_RUNNING) then
    ready ← db_read (λ _ db,
      find (λ t, of_run executionId t && bool_decide (t_status t = T_READY)) (tasks db));
    for_each ready (λ '(i, t), _ ← dispatchTask i t; Ret tt)
  else Ret tt.

(** *** What follows a task that finished *)

Definition afterTaskSucceeded (r : Readings) (i : oid) (task : Task) (finishedAt : ms)
    : tx DB unit :=
  let e := t_executionId task in
  found ← Execution_findOneAndUpdate e (λ _, true) (dec_pending 1);
  execution ← tx_lift (get_or_type_error found);
  _ ← (if live (x_status execution) && bool_decide (0 < length (dependents task)) then
         _ ← Task_updateMany (λ t, of_run e t && key_in (dependents task) t) dec_remaining;
         if is_execution E_RUNNING execution then
           _ ← tx_lift (assertTask T_PENDING T_READY);
           _ ← Task_updateMany (λ t, of_run e t && key_in (dependents task) t && promotable t)
                 (make_ready finishedAt);
           mret tt
         else mret tt
       else mret tt);
  _ ← (if is_execution E_RUNNING execution && bool_decide (pendingTasks execution = 0%Z) then
         _ ← tx_lift (assertExecution E_RUNNING E_COMPLETED);
         _ ← Execution_updateOne e (is_execution E_RUNNING)
               (finish_execution E_COMPLETED finishedAt);
         emit r "execution.completed" e (JObj [])
       else mret tt);
  emit r "task.completed" e
    (JObj [("taskId", JStr (oid_str i)); ("key", JStr (t_key task));
           ("attempt", JNum (attempt task));
           ("durationMs", json_opt_num (durationMs task finishedAt))]).

Definition why (outcome : TASK_STATUS) (task : Task) : string :=
  if bool_decide (outcome = T_DEAD_LETTER)
  then "failed after " +:+ pretty (attempt task) +:+ " attempt(s) and was dead-lettered"
  else "failed".

Definition failure_message (outcome : TASK_STATUS) (task : Task) (message : string) : string :=
  "Task " +:+ quote (t_key task) +:+ " " +:+ why outcome task +:+ ": " +:+ message.

Definition afterTaskFailedForGood (r : Readings) (i : oid) (task : Task) (outcome : TASK_STATUS)
    (message : string) (retryable : bool) (finishedAt : ms) : tx DB unit :=
  let e := t_executionId task in
  found ← Execution_findOneAndUpdate e (λ _, true) (dec_pending 1);
  updated ← tx_lift (get_or_type_error found);
  _ ← (if live (x_status updated) then
         cancelled ← Task_updateMany (λ t, of_run e t && status_in unstarted (t_status t))
                       (cancel_task finishedAt);
         _ ← tx_lift (assertExecution (x_status updated) E_FAILED);
         _ ← Execution_updateOne e (is_execution (x_status updated))
               (λ x, (dec_pending cancelled (finish_execution E_FAILED finishedAt x))
                       {{ x_error := Some (failure_message outcome task message) }});
         emit r "execution.failed" e
           (JObj [("failedTask", JStr (t_key task)); ("error", JStr message)])
       else mret tt);
  emit r (if bool_decide (outcome = T_DEAD_LETTER) then "task.dead_lettered" else "task.failed") e
    (JObj [("taskId", JStr (oid_str i)); ("key", JStr (t_key task));
           ("attempt", JNum (attempt task)); ("error", JStr message);
           ("retryable", JBool retryable)]).

(** *** Controlling a run *)

Definition renewLease (taskId : oid) (token : Z) : prog (World Q) bool :=
  db_call (renewTaskLease taskId token (cfg_leaseMs cfg)).

Definition pause_tx (executionId : oid) (r : Readings) : tx DB bool :=
  modified ← Execution_updateOne executionId (is_execution E_RUNNING) (set_execution E_PAUSED);
  if bool_decide (modified ≠ 1%Z) then mret false
  else _ ← emit r "execution.paused" executionId (JObj []); mret true.

Definition pauseExecution (executionId : oid) : prog (World Q) bool :=
  _ ← lift (assertExecution E_RUNNING E_PAUSED);
  transaction (pause_tx executionId).

Definition resume_tx (executionId : oid) (r : Readings) : tx DB bool :=
  _ ← tx_lift (assertExecution E_PAUSED E_RUNNING);
  found ← Execution_findOneAndUpdate executionId (is_execution E_PAUSED) (set_execution E_RUNNING);
  match found with
  | None => mret false
  | Some execution =>
      _ ← emit r "execution.resumed" executionId (JObj []);
      _ ← Task_updateMany (λ t, of_run executionId t && promotable t) (make_ready (now r));
      _ ← (if bool_decide (pendingTasks execution = 0%Z) then
             _ ← Execution_updateOne executionId (is_execution E_RUNNING)
                   (finish_execution E_COMPLETED (now r));
             emit r "execution.completed" executionId (JObj [])
           else mret tt);
      mret true
  end.

Definition resumeExecution (executionId : oid) : prog (World Q) bool :=
  resumed ← transaction (resume_tx executionId);
  _ ← (if resumed : bool then dispatchReady executionId else Ret tt);
  Ret resumed.

Definition cancel_tx (executionId : oid) (r : Readings) : tx DB bool :=
  db ← tx_get;
  match findOne executionId (λ x, live (x_status x)) (executions db) with
  | None => mret false
  | Some execution =>
      _ ← tx_lift (assertExecution (x_status execution) E_CANCELLED);
      n ← Task_updateMany (λ t, of_run executionId t && status_in cancellable (t_status t))
            (λ t, release_lease (cancel_task (now r) t));
      _ ← Execution_updateOne executionId (is_execution (x_status execution))
            (λ x, (dec_pending n (finish_execution E_CANCELLED (now r) x))
                    {{ x_error := Some "Cancelled by user" }});
      _ ← (if cfg_approvals cfg then
             tx_modify (λ db, db {{ approvals := (updateMany
               (λ p, bool_decide (p_executionId p = executionId) && bool_decide (p_status p = P_PENDING))
               (λ p, p {{ p_status := P_CANCELLED; decidedAt := Some (now r) }})
               (approvals db)).2 }})
           else mret tt);
      _ ← emit r "execution.cancelled" executionId (JObj [("cancelledTasks", JNum n)]);
      mret true
  end.

Definition cancelExecution (executionId : oid) : prog (World Q) bool :=
  transaction (cancel_tx executionId).

(** *** Starting a run *)

Definition dag_task (d : TaskDefinition) : DagTask := mkDagTask (td_key d) (Some (td_dependsOn d)).

(** [dependents.get(dep).push(t.key)], for every dependency of every task. *)
Definition push_dependent (k : string) (m : res (gmap string (list string))) (dep : string)
    : res (gmap string (list string)) :=
  m ← m; l ← get_or_type_error (m !! dep); Ok (<[dep := (l ++ [k])%list]> m).

Definition dependents_of (defs : list TaskDefinition) : res (gmap string (list string)) :=
  foldl (λ m d, foldl (push_dependent (td_key d)) m (td_dependsOn d))
    (Ok (list_to_map ((λ d, (td_key d, [])) <$> defs))) defs.

(** The task document copied from a definition. *)
Definition task_of_definition (e : oid) (ownerId : oid) (startedAt : ms)
    (dependents : gmap string (list string)) (d : TaskDefinition) : Task :=
  let isRoot := bool_decide (length (td_dependsOn d) = 0) in
  {| t_executionId := e; t_ownerId := ownerId; t_key := td_key d; t_type := td_type d;
     t_config := td_config d; dependsOn := td_dependsOn d;
     dependents := default [] (dependents !! td_key d);
     remainingDeps := Z.of_nat (length (td_dependsOn d));
     t_status := if isRoot then T_READY else T_PENDING;
     attempt := 0; maxAttempts := default 3%Z (td_maxAttempts d);
     baseDelayMs := default 1000%Z (td_baseDelayMs d);
     t_timeoutMs := default 30000%Z (td_timeoutMs d);
     leaseOwner := None; leaseToken := 0; leaseExpiresAt := None;
     output := JNull; t_error := None;
     readyAt := if isRoot then Some startedAt else None;
     retryAt := None; queuedAt := None; t_startedAt := None; t_completedAt := None |}.

(** The parameters of [startExecution] besides the workflow. *)
Record StartParams := mkStartParams {
  sp_input : json;
  sp_triggeredBy : option oid;
  sp_trigger : TRIGGER;
  sp_idempotencyKey : option string;
  sp_requestHash : option string
}.

Definition new_execution (w : Workflow) (p : StartParams) (startedAt : ms) : WorkflowExecution :=
  {| x_workflowId := wf_id w; x_ownerId := wf_ownerId w; x_workflowVersion := wf_version w;
     x_status := E_RUNNING; x_input := sp_input p;
     taskCount := Z.of_nat (length (wf_tasks w));
     pendingTasks := Z.of_nat (length (wf_tasks w));
     triggeredBy := sp_triggeredBy p; trigger := sp_trigger p;
     idempotencyKey := sp_idempotencyKey p; requestHash := sp_requestHash p;
     x_startedAt := Some startedAt; x_completedAt := None; x_error := None |}.

(** The partial unique index on (triggeredBy, idempotencyKey). *)
Definition idempotency_clash (p : StartParams) (db : DB) : bool :=
  match sp_idempotencyKey p with
  | None => false
  | Some k =>
      bool_decide (0 < mcount (λ x, bool_decide (triggeredBy x = sp_triggeredBy p) &&
                                    bool_decide (idempotencyKey x = Some k)) (executions db))%Z
  end.

(** [required: true] rejects the empty string. *)
Definition definition_ok (d : TaskDefinition) : bool :=
  bool_decide (td_key d ≠ "") && bool_decide (td_type d ≠ "").

Definition trigger_str (t : TRIGGER) : string :=
  match t with TRIGGER_manual => "manual" | TRIGGER_schedule => "schedule" end.

Definition start_tx (w : Workflow) (p : StartParams) (children : gmap string (list string))
    (r : Readings) : tx DB oid :=
  db ← tx_get;
  if idempotency_clash p db then tx_throw (DuplicateKey ["triggeredBy"; "idempotencyKey"]) else
  e ← tx_state (λ db,
    let '(e, xs) := insert_new (new_execution w p (now r)) (executions db) in
    (e, db {{ executions := xs }}));
  if negb (forallb definition_ok (wf_tasks w)) then tx_throw (PlainErr "Task validation failed") else
  _ ← tx_modify (λ db, db {{ tasks := insert_all
        (task_of_definition e (wf_ownerId w) (now r) children <$> wf_tasks w) (tasks db) }});
  _ ← emit r "execution.started" e
    (JObj [("workflowId", JStr (oid_str (wf_id w))); ("workflowVersion", JNum (wf_version w));
           ("taskCount", JNum (Z.of_nat (length (wf_tasks w))));
           ("triggeredBy", json_opt_str (oid_str <$> sp_triggeredBy p));
           ("trigger", JStr (trigger_str (sp_trigger p)))]);
  mret e.

Definition dag_error_str (c : DAG_ERROR) : string :=
  match c with
  | DUPLICATE_KEY => "DUPLICATE_KEY" | SELF_DEPENDENCY => "SELF_DEPENDENCY"
  | DUPLICATE_DEPENDENCY => "DUPLICATE_DEPENDENCY" | UNKNOWN_DEPENDENCY => "UNKNOWN_DEPENDENCY"
  | CYCLE => "CYCLE"
  end.

(** An error of [validateDag], as the [details] of the response. *)
Definition graph_error_json (err : DagError) : json :=
  let field {A} (name : string) (f : A → json) (o : option A) : list (string * json) :=
    match o with Some a => [(name, f a)] | None => [] end in
  JObj ([("code", JStr (dag_error_str (err_code err)))] ++ field "task" JStr (err_task err)
        ++ field "dependency" JStr (err_dependency err)
        ++ field "cycle" (λ c, JArr (JStr <$> c)) (err_cycle err)
        ++ [("message", JStr (err_message err))])%list.

(** [None] of [validateDag] would be missing fuel ([DagSpec] rules it out). *)
Definition startExecution (w : Workflow) (p : StartParams) : prog (World Q) oid :=
  match validateDag (dag_task <$> wf_tasks w) with
  | None => Throw (PlainErr "out of fuel")
  | Some (Exn e) => Throw e
  | Some (Ok check) =>
      if negb (valid check) then
        Throw (AppErr 400 "INVALID_WORKFLOW_GRAPH" "Workflow task graph is invalid"
                 (JArr (graph_error_json <$> errors check)))
      else
        children ← lift (dependents_of (wf_tasks w));
        e ← transaction (start_tx w p children);
        _ ← dispatchReady e;
        Ret e
  end.

(** *** Running a task *)

(** A report that a task finished.  Returns the execution when it applied. *)
Definition complete_tx (taskId : oid) (token : Z) (out : json) (r : Readings)
    : tx DB (option oid) :=
  let finishedAt := now r in
  won ← transitionTask taskId T_RUNNING T_COMPLETED
    (λ t, release_lease (t {{ output := out; t_completedAt := Some finishedAt }}))
    (λ t, bool_decide (leaseToken t = token));
  if negb won then mret None else
  task ← Task_findById taskId;
  _ ← Attempt_updateOne taskId (attempt task)
        (λ a, a {{ a_status := A_SUCCEEDED; a_finishedAt := Some finishedAt;
                   a_durationMs := durationMs task finishedAt }});
  _ ← afterTaskSucceeded r taskId task finishedAt;
  mret (Some (t_executionId task)).

Definition completeTask (taskId : oid) (token : Z) (out : json) : prog (World Q) bool :=
  applied ← transaction (complete_tx taskId token out);
  match applied with
  | None => Ret false
  | Some executionId => _ ← dispatchReady executionId; Ret true
  end.

(** The result of [failTask]: not applied, or the outcome, with the task and
    the delay when it will be retried. *)
Inductive fail_result : Type :=
| NotApplied
| Retrying (task : Task) (delayMs : Z)
| FailedForGood (outcome : TASK_STATUS).

Definition fail_tx (taskId : oid) (token : Z) (error : thrown) (r : Readings)
    : tx DB fail_result :=
  let message := error_message error in
  let retryable := isRetryable error in
  let finishedAt := now r in
  db ← tx_get;
  match findOne taskId (λ t, bool_decide (t_status t = T_RUNNING) &&
                             bool_decide (leaseToken t = token)) (tasks db) with
  | None => mret NotApplied
  | Some task =>
      _ ← Attempt_updateOne taskId (attempt task)
            (λ a, a {{ a_status := if is_timeout error then A_TIMED_OUT else A_FAILED;
                       a_finishedAt := Some finishedAt;
                       a_durationMs := durationMs task finishedAt;
                       a_error := Some (message, retryable) }});
      db ← tx_get;
      execution ← tx_lift (get_or_type_error (executions db !! t_executionId task));
      let attemptsLeft := bool_decide (attempt task < maxAttempts task)%Z in
      if retryable && attemptsLeft && live (x_status execution) then
        let delayMs := cfg_backoff cfg (random r) (attempt task) (baseDelayMs task) in
        won ← transitionTask taskId T_RUNNING T_RETRYING
          (λ t, (release_lease t) {{ t_error := Some message;
                                     retryAt := Some (finishedAt + delayMs)%Z }})
          (λ t, bool_decide (leaseToken t = token));
        if negb won then mret NotApplied else
        _ ← emit r "task.retrying" (t_executionId task)
          (JObj [("taskId", JStr (oid_str taskId)); ("key", JStr (t_key task));
                 ("attempt", JNum (attempt task)); ("delayMs", JNum delayMs);
                 ("error", JStr message)]);
        mret (Retrying task delayMs)
      else
        let outcome := if retryable && negb attemptsLeft then T_DEAD_LETTER else T_FAILED in
        won ← transitionTask taskId T_RUNNING T_FAILED
          (λ t, (release_lease t) {{ t_error := Some message; t_completedAt := Some finishedAt }})
          (λ t, bool_decide (leaseToken t = token));
        if negb won then mret NotApplied else
        _ ← (if bool_decide (outcome = T_DEAD_LETTER) then
               _ ← transitionTask taskId T_FAILED T_DEAD_LETTER (λ t, t) (λ _, true); mret tt
             else mret tt);
        _ ← afterTaskFailedForGood r taskId task outcome message retryable finishedAt;
        mret (FailedForGood outcome)
  end.

Definition failTask (taskId : oid) (token : Z) (error : thrown) : prog (World Q) fail_result :=
  result ← transaction (fail_tx taskId token error);
  _ ← match result with
      | Retrying task delayMs => enqueueRetrySafely taskId task delayMs
      | _ => Ret tt
      end;
  Ret result.

(** A worker picks up a task.  [None] means: skip it. *)
Record Claimed := mkClaimed {
  claimed_id : oid;
  claimed_task : Task;
  claimed_input : json;
  claimed_parents : gmap string json
}.

Definition abandon_attempts (taskId : oid) (before : Z) (r : Readings) : tx DB unit :=
  tx_modify (λ db, db {{ attempts := (updateMany
    (λ a, bool_decide (a_taskId a = taskId) && bool_decide (a_attempt a < before)%Z
          && bool_decide (a_status a = A_RUNNING))
    (λ a, a {{ a_status := A_ABANDONED; a_finishedAt := Some (now r) }}) (attempts db)).2 }}).

(** The unique index on (taskId, attempt) rejects a second record. *)
Definition create_attempt (taskId : oid) (task : Task) (workerId : string) (r : Readings)
    : tx DB unit :=
  db ← tx_get;
  match attempts db !! (taskId, attempt task) with
  | Some _ => tx_throw (DuplicateKey ["taskId"; "attempt"])
  | None =>
      tx_modify (λ db, db {{ attempts := <[(taskId, attempt task) :=
        {| a_taskId := taskId; a_executionId := t_executionId task; a_attempt := attempt task;
           a_workerId := workerId; a_leaseToken := leaseToken task; a_status := A_RUNNING;
           a_startedAt := now r; a_finishedAt := None; a_durationMs := None;
           a_error := None |}]> (attempts db) }})
  end.

Definition poison_message (task : Task) : string :=
  "Exceeded " +:+ pretty (maxAttempts task) +:+
  " attempts (previous attempts were abandoned by lost workers)".

Definition startTask (taskId : oid) (workerId : string) : prog (World Q) (option Claimed) :=
  claimed ← db_call (claimTask taskId workerId (cfg_leaseMs cfg));
  match claimed with
  | None => Ret None
  | Some task =>
      _ ← db_call (abandon_attempts taskId (attempt task));
      _ ← db_call (create_attempt taskId task workerId);
      _ ← db_call (λ r, emit r "task.started" (t_executionId task)
            (JObj [("taskId", JStr (oid_str taskId)); ("key", JStr (t_key task));
                   ("attempt", JNum (attempt task)); ("workerId", JStr workerId)]));
      if bool_decide (maxAttempts task < attempt task)%Z then
        _ ← failTask taskId (leaseToken task) (new_Error (poison_message task));
        Ret None
      else
        execution ← db_read (λ _ db, executions db !! t_executionId task);
        parents ← db_read (λ _ db,
          find (λ t, of_run (t_executionId task) t && key_in (dependsOn task) t) (tasks db));
        Ret (Some {| claimed_id := taskId; claimed_task := task;
                     claimed_input := match execution with Some x => x_input x | None => JObj [] end;
                     claimed_parents :=
                       list_to_map ((λ '(_, p), (t_key p, output p)) <$> parents) |})
  end.

(** *** Human approval *)

(** What a handler asks for ([AwaitApproval] of [workers/approval.js]). *)
Record ApprovalAsk := mkApprovalAsk {
  ask_title : string;
  ask_message : option string;
  ask_context : option json;
  ask_timeoutMs : Z
}.

Definition new_approval (i : oid) (task : Task) (ask : ApprovalAsk) (finishedAt : ms)
    : ApprovalRequest :=
  {| p_taskId := i; p_executionId := t_executionId task; p_ownerId := t_ownerId task;
     p_taskKey := t_key task; p_title := ask_title ask;
     p_message := default "" (ask_message ask); p_context := default (JObj []) (ask_context ask);
     p_status := P_PENDING; decidedBy := None; decidedAt := None; p_comment := None;
     expiresAt := (finishedAt + ask_timeoutMs ask)%Z |}.

(** [ApprovalRequest.create]: required strings, and one request per task. *)
Definition create_approval (p : ApprovalRequest) : tx DB oid :=
  db ← tx_get;
  if bool_decide (p_title p = "") || bool_decide (p_taskKey p = "")
  then tx_throw (PlainErr "ApprovalRequest validation failed")
  else if bool_decide (0 < mcount (λ p', bool_decide (p_taskId p' = p_taskId p)) (approvals db))%Z
  then tx_throw (DuplicateKey ["taskId"])
  else tx_state (λ db,
    let '(a, ps) := insert_new p (approvals db) in (a, db {{ approvals := ps }})).

Definition suspend_tx (taskId : oid) (token : Z) (ask : ApprovalAsk) (r : Readings) : tx DB bool :=
  let finishedAt := now r in
  won ← transitionTask taskId T_RUNNING T_WAITING_FOR_APPROVAL release_lease
          (λ t, bool_decide (leaseToken t = token));
  if negb won then mret false else
  task ← Task_findById taskId;
  _ ← Attempt_updateOne taskId (attempt task)
        (λ a, a {{ a_status := A_SUSPENDED; a_finishedAt := Some finishedAt;
                   a_durationMs := durationMs task finishedAt }});
  approvalId ← create_approval (new_approval taskId task ask finishedAt);
  _ ← emit r "approval.requested" (t_executionId task)
        (JObj [("approvalId", JStr (oid_str approvalId)); ("taskId", JStr (oid_str taskId));
               ("key", JStr (t_key task));
               ("expiresAt", JNum (finishedAt + ask_timeoutMs ask)%Z)]);
  mret true.

Definition suspendForApproval (taskId : oid) (token : Z) (ask : ApprovalAsk) : prog (World Q) bool :=
  if negb (cfg_approvals cfg) then Throw (PlainErr "approvals not configured")
  else transaction (suspend_tx taskId token ask).

Inductive DECISION : Type := APPROVED | REJECTED | EXPIRED.

Definition decision_status (d : DECISION) : APPROVAL_STATUS :=
  match d with APPROVED => P_APPROVED | REJECTED => P_REJECTED | EXPIRED => P_EXPIRED end.

Definition decision_event (d : DECISION) : string :=
  match d with
  | APPROVED => "approval.approved" | REJECTED => "approval.rejected" | EXPIRED => "approval.expired"
  end.

Definition is_approved (d : DECISION) : bool :=
  match d with APPROVED => true | _ => false end.

(** The [error] of a task whose request was not approved. *)
Definition rejection_error (d : DECISION) (comment : option string) : string :=
  match d with
  | EXPIRED => "Approval timed out"
  | _ => "Rejected by approver" +:+
         match comment with Some c => if bool_decide (c = "") then "" else ": " +:+ c | None => "" end
  end.

Record Decision_ := mkDecision {
  d_decision : DECISION;
  d_decidedBy : option oid;
  d_comment : option string
}.

Definition decided_output (d : Decision_) (at_ : ms) : json :=
  JObj [("approved", JBool true); ("decidedBy", json_opt_str (oid_str <$> d_decidedBy d));
        ("comment", json_opt_str (d_comment d)); ("decidedAt", JNum at_)].

Definition decided_task (d : Decision_) (at_ : ms) (t : Task) : Task :=
  if is_approved (d_decision d)
  then t {{ output := decided_output d at_; t_completedAt := Some at_ }}
  else t {{ t_error := Some (rejection_error (d_decision d) (d_comment d));
            t_completedAt := Some at_ }}.

(** Returns the execution when the decision was recorded. *)
Definition resolve_tx (approvalId : oid) (d : Decision_) (scope : ApprovalRequest → bool)
    (r : Readings) : tx DB (option oid) :=
  let at_ := now r in
  found ← tx_state (λ db,
    let '(p, ps) := findOneAndUpdate approvalId
      (λ p, bool_decide (p_status p = P_PENDING) && scope p)
      (λ p, p {{ p_status := decision_status (d_decision d); decidedBy := d_decidedBy d;
                 decidedAt := Some at_; p_comment := d_comment d }}) (approvals db) in
    (p, db {{ approvals := ps }}));
  match found with
  | None => mret None
  | Some approval =>
      let i := p_taskId approval in
      let approved := is_approved (d_decision d) in
      won ← transitionTask i T_WAITING_FOR_APPROVAL (if approved then T_COMPLETED else T_FAILED)
              (decided_task d at_) (λ _, true);
      if negb won then
        tx_throw (AppErr 409 "APPROVAL_NOT_ACTIONABLE"
                    "This task is no longer waiting for approval" JNull)
      else
        task ← Task_findById i;
        _ ← (if approved then afterTaskSucceeded r i task at_
             else afterTaskFailedForGood r i task T_FAILED (default "null" (t_error task)) false at_);
        _ ← emit r (decision_event (d_decision d)) (t_executionId task)
              (JObj [("approvalId", JStr (oid_str approvalId)); ("key", JStr (t_key task));
                     ("decidedBy", json_opt_str (oid_str <$> d_decidedBy d))]);
        mret (Some (t_executionId task))
  end.

Definition resolveApproval (approvalId : oid) (d : Decision_) (scope : ApprovalRequest → bool)
    : prog (World Q) (option DECISION) :=
  if negb (cfg_approvals cfg) then Throw (PlainErr "approvals not configured") else
  outcome ← transaction (resolve_tx approvalId d scope);
  match outcome with
  | None => Ret None
  | Some executionId =>
      _ ← (if is_approved (d_decision d) then dispatchReady executionId else Ret tt);
      Ret (Some (d_decision d))
  end.

(** *** The reconciler *)

Record Counts := mkCounts {
  n_ready : nat; n_queued : nat; n_running : nat; n_retrying : nat; n_expired : nat
}.

(** [{ $lt: cutoff }] of a query does not match null. *)
Definition older (o : option ms) (cutoff : ms) : bool :=
  match o with Some t => bool_decide (t < cutoff)%Z | None => false end.

Definition stuck_ready (cutoff : ms) (t : Task) : bool :=
  bool_decide (t_status t = T_READY) && older (readyAt t) cutoff.
Definition stale_queued (cutoff : ms) (t : Task) : bool :=
  bool_decide (t_status t = T_QUEUED) && older (queuedAt t) cutoff.
Definition expired_running (NOW : ms) (t : Task) : bool :=
  bool_decide (t_status t = T_RUNNING) && lease_expired t NOW.
Definition overdue_retry (cutoff : ms) (t : Task) : bool :=
  bool_decide (t_status t = T_RETRYING) && older (retryAt t) cutoff.
Definition overdue_approval (now : ms) (p : ApprovalRequest) : bool :=
  bool_decide (p_status p = P_PENDING) && bool_decide (expiresAt p < now)%Z.

(** The status of the execution of a stuck task, read once per execution. *)
Definition status_of (known : gmap oid (option EXECUTION_STATUS)) (e : oid)
    : prog (World Q) (option EXECUTION_STATUS * gmap oid (option EXECUTION_STATUS)) :=
  match known !! e with
  | Some s => Ret (s, known)
  | None =>
      s ← db_read (λ _ db, (x_status <$> (executions db !! e) : option EXECUTION_STATUS));
      Ret (s, <[e := s]> known)
  end.

Definition redispatch (acc : gmap oid (option EXECUTION_STATUS) * nat) (it : oid * Task)
    : prog (World Q) (gmap oid (option EXECUTION_STATUS) * nat) :=
  let '(known, n) := acc in
  let '(i, t) := it in
  got ← status_of known (t_executionId t);
  let '(s, known) := got in
  if bool_decide (s ≠ Some E_RUNNING) then Ret (known, n) else
  sent ← dispatchTask i t;
  Ret (known, if sent : bool then S n else n).

Definition reenqueue (n : nat) (it : oid * Task) : prog (World Q) nat :=
  sent ← enqueueSafely it.1 it.2;
  Ret (if sent : bool then S n else n).

Definition expire (n : nat) (it : oid * ApprovalRequest) : prog (World Q) nat :=
  catch
    (outcome ← resolveApproval it.1 (mkDecision EXPIRED None None) (λ _, true);
     Ret (match outcome with Some _ => S n | None => n end))
    (λ _, Ret n).

Definition reconcile (staleMs : Z) (limit : nat) : prog (World Q) Counts :=
  cutoff ← db_read (λ r _, (now r - staleMs)%Z);
  stuckReady ← db_read (λ _ db, limit_to limit (find (stuck_ready cutoff) (tasks db)));
  ready ← for_fold stuckReady (∅, 0) redispatch;
  staleQueued ← db_read (λ _ db, limit_to limit (find (stale_queued cutoff) (tasks db)));
  queued ← for_fold staleQueued 0 reenqueue;
  expiredRunning ← db_read (λ r db, limit_to limit (find (expired_running (NOW r)) (tasks db)));
  running ← for_fold expiredRunning 0 reenqueue;
  overdueRetries ← db_read (λ _ db, limit_to limit (find (overdue_retry cutoff) (tasks db)));
  retrying ← for_fold overdueRetries 0 reenqueue;
  expired ← (if cfg_approvals cfg then
               overdue ← db_read (λ r db, limit_to limit (find (overdue_approval (now r)) (approvals db)));
               for_fold overdue 0 expire
             else Ret 0);
  Ret (mkCounts ready.2 queued running retrying expired).

(** ** Everything other processes may call *)

(** Any of the engine's functions with any arguments, its result ignored. *)
Inductive api : prog (World Q) unit → Prop :=
| api_dispatchReady e : api (dispatchReady e)
| api_renewLease i tok : api (_ ← renewLease i tok; Ret tt)
| api_pause e : api (_ ← pauseExecution e; Ret tt)
| api_resume e : api (_ ← resumeExecution e; Ret tt)
| api_cancel e : api (_ ← cancelExecution e; Ret tt)
| api_start wf p : api (_ ← startExecution wf p; Ret tt)
| api_startTask i wk : api (_ ← startTask i wk; Ret tt)
| api_complete i tok out : api (_ ← completeTask i tok out; Ret tt)
| api_fail i tok err : api (_ ← failTask i tok err; Ret tt)
| api_suspend i tok ask : api (_ ← suspendForApproval i tok ask; Ret tt)
| api_resolve a d scope : api (_ ← resolveApproval a d scope; Ret tt)
| api_reconcile stale limit : api (_ ← reconcile stale limit; Ret tt).
End engine.

(** What happens outside the engine: the queue changes in any way (workers claim
    and acknowledge, Redis fails, loses everything or recovers), the database
    clock moves, and the next step is taken by a process with some other clock
    and random draw.  Only the engine writes to the database. *)
Definition outside {Q} (w w' : World Q) : Prop := w_db w' = w_db w.

(** The world before the first run. *)
Definition initial {Q} (q : Q) : World Q := mkWorld empty_db q 0 0 0.
