(* ===== verification/RunInv.v ===== *)
(** * The invariant of one run

    A run is an execution document [x] with the map [m] of its task documents.
    [static_ok] says that the tasks are the copy of a valid graph, [run_inv]
    relates their statuses and counters to the execution.  The lemmas of this
    file show that each kind of update the engine makes preserves [run_inv]:
    they are about values, the transactions that make the updates are in
    [EngineInv]. *)

From S2P Require Import Prelude States Dag Models TaskRepo Engine.

Implicit Types (m : gmap oid Task) (t u : Task) (x : WorkflowExecution).

(** The part of a task that is copied from the definition and never changes. *)
Definition snapshot (t : Task) :=
  (t_executionId t, t_ownerId t, t_key t, t_type t, t_config t, dependsOn t, dependents t,
   maxAttempts t, baseDelayMs t, t_timeoutMs t).

Lemma snapshot_fields t t' : snapshot t' = snapshot t →
  t_key t' = t_key t ∧ dependsOn t' = dependsOn t ∧ dependents t' = dependents t ∧
  t_executionId t' = t_executionId t.
Proof. unfold snapshot. intros H. by simplify_eq. Qed.

Record static_ok (m : gmap oid Task) : Prop := {
  so_keys i j t u : m !! i = Some t → m !! j = Some u → t_key t = t_key u → i = j;
  so_deps i t d : m !! i = Some t → d ∈ dependsOn t → ∃ j u, m !! j = Some u ∧ t_key u = d;
  so_dependents i j t u : m !! i = Some t → m !! j = Some u →
    t_key u ∈ dependents t ↔ t_key t ∈ dependsOn u;
  so_rank : ∃ rk : string → nat, ∀ i t d, m !! i = Some t → d ∈ dependsOn t → rk d < rk (t_key t)
}.

Definition unfinished t : bool := negb (task_finished (t_status t)).

(** [u] is a dependency of [t] that has not completed. *)
Definition unmet_dep t u : bool :=
  key_in (dependsOn t) u && negb (bool_decide (t_status u = T_COMPLETED)).

Definition deps_done m t : Prop :=
  ∀ j u, m !! j = Some u → t_key u ∈ dependsOn t → t_status u = T_COMPLETED.

Definition failed_status (s : TASK_STATUS) : bool :=
  match s with T_FAILED | T_DEAD_LETTER | T_CANCELLED => true | _ => false end.

Record run_inv x m : Prop := {
  ri_count : taskCount x = Z.of_nat (size m);
  ri_pending : pendingTasks x = mcount unfinished m;
  ri_deps i t : m !! i = Some t → t_status t ≠ T_PENDING → t_status t ≠ T_CANCELLED → deps_done m t;
  ri_remaining i t : live (x_status x) = true → m !! i = Some t →
    remainingDeps t = mcount (unmet_dep t) m;
  ri_live i t : live (x_status x) = true → m !! i = Some t → failed_status (t_status t) = false;
  ri_running i t : x_status x = E_RUNNING → m !! i = Some t → promotable t = false;
  ri_stuck : x_status x = E_RUNNING → pendingTasks x = 0%Z → m = ∅;
  ri_completed i t : x_status x = E_COMPLETED → m !! i = Some t → t_status t = T_COMPLETED;
  ri_failed i t : x_status x = E_FAILED → m !! i = Some t → status_in unstarted (t_status t) = false;
  ri_cancelled i t : x_status x = E_CANCELLED → m !! i = Some t → task_finished (t_status t) = true;
  ri_status : x_status x ≠ E_PENDING ∧ x_status x ≠ E_WAITING_FOR_APPROVAL
}.

(** ** Reading the counters *)

Lemma remaining_zero m t : mcount (unmet_dep t) m = 0%Z → deps_done m t.
Proof.
  intros H0 j u Hj Hd. apply (proj1 (mcount_zero _ _) H0) in Hj.
  unfold unmet_dep, key_in in Hj. rewrite bool_decide_eq_true_2 in Hj by done.
  by apply negb_false_iff, bool_decide_eq_true in Hj.
Qed.

Lemma deps_done_remaining m t : deps_done m t → mcount (unmet_dep t) m = 0%Z.
Proof.
  intros Hd. apply mcount_zero. intros j u Hj. unfold unmet_dep, key_in.
  case_bool_decide as Hk; [|done]. by rewrite (Hd j u Hj Hk).
Qed.

(** An unfinished task keeps the counter of its run positive. *)
Lemma pending_positive x m i t :
  run_inv x m → m !! i = Some t → unfinished t = true → (0 < pendingTasks x)%Z.
Proof.
  intros Hx Hi Hu. rewrite (ri_pending _ _ Hx). pose proof (mcount_nonneg unfinished m).
  assert (mcount unfinished m ≠ 0%Z); [|lia]. intros H0.
  by rewrite (proj1 (mcount_zero _ _) H0 i t Hi) in Hu.
Qed.

(** ** Updates that only look at statuses

    [same_marks t t']: no difference that the counters or the dependency
    conditions can see. *)
Definition same_marks t t' : Prop :=
  snapshot t' = snapshot t ∧ unfinished t' = unfinished t ∧
  bool_decide (t_status t' = T_COMPLETED) = bool_decide (t_status t = T_COMPLETED).

Lemma same_marks_unmet t0 t t' : same_marks t t' → unmet_dep t0 t' = unmet_dep t0 t.
Proof.
  intros (Hs & _ & Hc). unfold unmet_dep, key_in. by rewrite Hc, (proj1 (snapshot_fields _ _ Hs)).
Qed.

Lemma unmet_dep_snapshot t t' u : snapshot t' = snapshot t → unmet_dep t' u = unmet_dep t u.
Proof. intros Hs. unfold unmet_dep. by destruct (snapshot_fields _ _ Hs) as (_ & -> & _). Qed.

Lemma mcount_unmet_snapshot t t' m :
  snapshot t' = snapshot t → mcount (unmet_dep t') m = mcount (unmet_dep t) m.
Proof. intros Hs. apply mcount_ext. intros ???. by apply unmet_dep_snapshot. Qed.

(** Maps that agree up to [R]. *)
Definition map_rel (R : Task → Task → Prop) m m' : Prop :=
  ∀ i, option_Forall2 R (m !! i) (m' !! i).

Lemma map_rel_lookup R m m' i t : map_rel R m m' → m !! i = Some t →
  ∃ t', m' !! i = Some t' ∧ R t t'.
Proof. intros HR Hi. specialize (HR i). rewrite Hi in HR. inversion HR; subst. eauto. Qed.

Lemma map_rel_lookup_r R m m' i t' : map_rel R m m' → m' !! i = Some t' →
  ∃ t, m !! i = Some t ∧ R t t'.
Proof. intros HR Hi. specialize (HR i). rewrite Hi in HR. inversion HR; subst. eauto. Qed.

Lemma map_rel_insert (R : Task → Task → Prop) m i t t' :
  (∀ u, R u u) → m !! i = Some t → R t t' → map_rel R m (<[i:=t']> m).
Proof.
  intros Hr Hi HR j. destruct (decide (i = j)) as [<-|Hne].
  - rewrite lookup_insert_eq, Hi. by constructor.
  - rewrite lookup_insert_ne by done. destruct (m !! j); constructor; auto.
Qed.

Lemma map_rel_fmap (R : Task → Task → Prop) m f :
  (∀ i t, m !! i = Some t → R t (f t)) → map_rel R m (f <$> m).
Proof.
  intros HR i. rewrite lookup_fmap. destruct (m !! i) eqn:Hi; constructor. eauto.
Qed.

Lemma map_rel_trans (R1 R2 R3 : Task → Task → Prop) m1 m2 m3 :
  (∀ t u v, R1 t u → R2 u v → R3 t v) → map_rel R1 m1 m2 → map_rel R2 m2 m3 → map_rel R3 m1 m3.
Proof.
  intros HR H1 H2 i. specialize (H1 i). specialize (H2 i).
  destruct H1 as [t u Htu|]; inversion H2; subst; constructor; eauto.
Qed.

Lemma map_rel_size R m m' : map_rel R m m' → size m' = size m.
Proof.
  intros HR. rewrite <- !size_dom. f_equal. apply set_eq. intros i.
  rewrite !elem_of_dom. specialize (HR i). destruct HR; split; eauto; by intros [? ?].
Qed.

(** The static part only depends on the snapshots. *)
Lemma static_ok_rel m m' : map_rel (λ t t', snapshot t' = snapshot t) m m' → static_ok m → static_ok m'.
Proof.
  intros HR [Hk Hd Hb [rk Hrk]].
  assert (Hl : ∀ i t', m' !! i = Some t' → ∃ t, m !! i = Some t ∧ t_key t' = t_key t ∧
            dependsOn t' = dependsOn t ∧ dependents t' = dependents t).
  { intros i t' (t & Ht & Hs)%(map_rel_lookup_r _ _ _ _ _ HR). exists t.
    apply snapshot_fields in Hs as (? & ? & ? & _). done. }
  split.
  - intros i j t u (t0 & ? & -> & _)%Hl (u0 & ? & -> & _)%Hl. eauto.
  - intros i t d (t0 & Ht & _ & -> & _)%Hl Hd'.
    destruct (Hd i t0 d Ht Hd') as (j & u & Hj & Hu).
    destruct (map_rel_lookup _ _ _ _ _ HR Hj) as (u' & ? & Hs). exists j, u'.
    apply snapshot_fields in Hs as (? & _). split; congruence.
  - intros i j t u (t0 & ? & -> & _ & ->)%Hl (u0 & ? & -> & -> & _)%Hl. eauto.
  - exists rk. intros i t d (t0 & ? & -> & -> & _)%Hl. eauto.
Qed.

(** Counting over related maps. *)
Lemma mcount_rel (R : Task → Task → Prop) (p q : Task → bool) m m' :
  map_rel R m m' → (∀ t t', R t t' → q t' = p t) → mcount q m' = mcount p m.
Proof.
  revert m'. induction m as [|i t m Hi IH] using map_ind; intros m' HR Hpq.
  - assert (m' = ∅) as ->; [|by rewrite !mcount_empty].
    apply map_empty. intros j. specialize (HR j). rewrite lookup_empty in HR. by inversion HR.
  - destruct (map_rel_lookup _ _ _ i t HR (lookup_insert_eq _ _ _)) as (t' & Ht' & Htt).
    rewrite mcount_insert_new by done. rewrite (mcount_delete q m' i t') by done.
    rewrite (IH (delete i m')); [by rewrite (Hpq t t')| |done].
    intros j. destruct (decide (i = j)) as [<-|Hne].
    + rewrite Hi, lookup_delete_eq. constructor.
    + rewrite lookup_delete_ne by done. specialize (HR j). by rewrite lookup_insert_ne in HR.
Qed.

Lemma deps_done_rel m m' t t' :
  map_rel (λ u u', snapshot u' = snapshot u ∧ (t_status u = T_COMPLETED → t_status u' = T_COMPLETED)) m m' →
  snapshot t' = snapshot t → deps_done m t → deps_done m' t'.
Proof.
  intros HR Hs Hd j u' Hj Hk. destruct (map_rel_lookup_r _ _ _ _ _ HR Hj) as (u & Hu & Hsu & Hc).
  apply Hc, (Hd j u Hu). apply snapshot_fields in Hs as (_ & ? & _), Hsu as (? & _). congruence.
Qed.

(** ** One active task changes its status *)

Definition active (s : TASK_STATUS) : bool :=
  match s with
  | T_READY | T_QUEUED | T_RUNNING | T_RETRYING | T_WAITING_FOR_APPROVAL => true
  | _ => false
  end.

Lemma active_unfinished t : active (t_status t) = true → unfinished t = true.
Proof. unfold unfinished. by destruct (t_status t). Qed.

(** A lookup in [<[i:=t']> m] is the new task or an old one. *)
Ltac lookup_cases H :=
  apply lookup_insert_Some in H as [[<- <-]|[? H]].

Lemma run_inv_quiet x m i t t' :
  run_inv x m → m !! i = Some t → snapshot t' = snapshot t → remainingDeps t' = remainingDeps t →
  active (t_status t) = true → active (t_status t') = true →
  (x_status x = E_FAILED → status_in unstarted (t_status t') = false) →
  run_inv x (<[i := t']> m).
Proof.
  intros Hx Hi Hs Hrem Ha Ha' Hf.
  assert (HR : map_rel same_marks m (<[i:=t']> m)).
  { eapply map_rel_insert; [done|done|]. split; [done|]. unfold unfinished.
    by destruct (t_status t), (t_status t'). }
  assert (Hdd : ∀ u u', snapshot u' = snapshot u → deps_done m u → deps_done (<[i:=t']> m) u').
  { intros u u'. apply deps_done_rel. clear -HR. intros j. destruct (HR j); constructor.
    destruct H as (? & _ & Hc). split; [done|]. intros Hcc. rewrite Hcc in Hc.
    by apply bool_decide_eq_true in Hc. }
  destruct Hx. split.
  - by rewrite (map_rel_size _ _ _ HR).
  - by rewrite (mcount_rel _ unfinished unfinished _ _ HR) by (by intros ?? (_ & ? & _)).
  - intros j u Hj ??. lookup_cases Hj; [|by eapply Hdd; eauto].
    eapply Hdd; [exact Hs|]. apply (ri_deps0 _ _ Hi); intros Hst; by rewrite Hst in Ha.
  - intros j u Hl Hj.
    rewrite (mcount_rel _ (unmet_dep u) (unmet_dep u) _ _ HR)
      by (intros; by apply same_marks_unmet).
    lookup_cases Hj; [|by apply (ri_remaining0 j)].
    rewrite Hrem, (mcount_unmet_snapshot t t') by done. by eapply ri_remaining0.
  - intros j u Hl Hj. lookup_cases Hj; [by destruct (t_status t')|by eapply ri_live0].
  - intros j u Hl Hj. lookup_cases Hj; [|by eapply ri_running0].
    unfold promotable. by destruct (t_status t').
  - intros Hr Hp. apply (ri_stuck0 Hr) in Hp. by rewrite Hp, lookup_empty in Hi.
  - intros j u Hl Hj. pose proof (ri_completed0 i t Hl Hi) as Hc. by rewrite Hc in Ha.
  - intros j u Hl Hj. lookup_cases Hj; [auto|by eapply ri_failed0].
  - intros j u Hl Hj. pose proof (ri_cancelled0 i t Hl Hi) as Hc. by destruct (t_status t).
  - done.
Qed.

(** ** A task succeeds *)

Section success.
Context (x : WorkflowExecution) (m : gmap oid Task) (i : oid) (t t' : Task) (at_ : ms).
Context (Hx : run_inv x m) (Hm : static_ok m) (Hi : m !! i = Some t).
Context (Ha : t_status t = T_RUNNING ∨ t_status t = T_WAITING_FOR_APPROVAL).
Context (Hs : snapshot t' = snapshot t) (Hc : t_status t' = T_COMPLETED)
  (Hrem : remainingDeps t' = remainingDeps t).

(** What [afterTaskSucceeded] does to each task of the run. *)
Definition notify_child (u : Task) : Task :=
  if live (x_status x) && key_in (dependents t) u then dec_remaining u else u.
Definition promote_child (u : Task) : Task :=
  if is_execution E_RUNNING x && (key_in (dependents t) u && promotable u)
  then make_ready at_ u else u.
Definition after_success (u : Task) : Task := promote_child (notify_child u).

Definition completes : bool :=
  is_execution E_RUNNING x && bool_decide (pendingTasks x - 1 = 0)%Z.
Definition succeeded_execution : WorkflowExecution :=
  if completes then finish_execution E_COMPLETED at_ (dec_pending 1 x) else dec_pending 1 x.

Let m1 := <[i := t']> m.
Let m' := after_success <$> m1.

Lemma notify_status u : t_status (notify_child u) = t_status u.
Proof. unfold notify_child. by destruct (_ && _). Qed.

Lemma notify_snapshot u : snapshot (notify_child u) = snapshot u.
Proof. unfold notify_child. by destruct (_ && _). Qed.

Lemma after_success_snapshot u : snapshot (after_success u) = snapshot u.
Proof.
  unfold after_success, promote_child. destruct (_ && _); [|apply notify_snapshot].
  transitivity (snapshot (notify_child u)); [done|apply notify_snapshot].
Qed.

Lemma after_success_status u :
  t_status (after_success u) = t_status u ∨
  (t_status u = T_PENDING ∧ t_status (after_success u) = T_READY ∧
   x_status x = E_RUNNING ∧ remainingDeps (after_success u) = 0%Z).
Proof.
  unfold after_success, promote_child, is_execution.
  destruct (bool_decide_reflect (x_status x = E_RUNNING)); simpl; [|left; apply notify_status].
  destruct (key_in _ _); simpl; [|left; apply notify_status].
  destruct (promotable (notify_child u)) eqn:Hp; [|left; apply notify_status]. right.
  unfold promotable in Hp. rewrite notify_status in Hp.
  apply andb_true_iff in Hp as [?%bool_decide_eq_true ?%bool_decide_eq_true]. done.
Qed.

Lemma after_success_remaining u :
  remainingDeps (after_success u) =
  (remainingDeps u - b2z (live (x_status x) && key_in (dependents t) u))%Z.
Proof.
  unfold after_success, promote_child, notify_child, b2z.
  destruct (live (x_status x) && key_in (dependents t) u);
    match goal with |- context [if ?b then make_ready _ _ else _] => destruct b end; rewrite ?Z.sub_0_r; done.
Qed.

Lemma success_marks : map_rel same_marks m1 m'.
Proof.
  apply map_rel_fmap. intros j u _. split; [apply after_success_snapshot|]. unfold unfinished.
  destruct (after_success_status u) as [->|(-> & -> & _)]; done.
Qed.

Lemma success_insert_unmet u :
  mcount (unmet_dep u) m1 = (mcount (unmet_dep u) m - b2z (key_in (dependsOn u) t))%Z.
Proof.
  subst m1. rewrite (mcount_insert _ _ _ _ _ Hi). unfold unmet_dep, b2z.
  destruct (snapshot_fields _ _ Hs) as (Hk & _). unfold key_in. rewrite Hk, Hc.
  assert (bool_decide (t_status t = T_COMPLETED) = false) as ->
    by (apply bool_decide_eq_false; by destruct Ha as [->| ->]).
  simpl. rewrite andb_false_r, andb_true_r. lia.
Qed.

Lemma success_unmet u :
  mcount (unmet_dep u) m' = (mcount (unmet_dep u) m - b2z (key_in (dependsOn u) t))%Z.
Proof.
  rewrite (mcount_rel _ (unmet_dep u) (unmet_dep u) _ _ success_marks).
  - apply success_insert_unmet.
  - intros v v' Hv. by apply same_marks_unmet.
Qed.

Lemma success_child u j : m !! j = Some u →
  key_in (dependents t) u = key_in (dependsOn u) t.
Proof.
  intros Hj. unfold key_in. apply bool_decide_ext. by apply (so_dependents _ Hm i j).
Qed.

(** Looking up in [m']: the finished task or another task of the run. *)
Lemma success_lookup j u' : m' !! j = Some u' →
  (j = i ∧ u' = after_success t') ∨ (∃ u, j ≠ i ∧ m !! j = Some u ∧ u' = after_success u).
Proof.
  unfold m', m1. rewrite lookup_fmap. intros (u & Hu & ->)%fmap_Some.
  lookup_cases Hu; [by left|right; eauto].
Qed.

Lemma success_deps u u' : deps_done m u → snapshot u' = snapshot u → deps_done m' u'.
Proof.
  intros Hd Hsn. apply (deps_done_rel m m' u u'); [|done|done].
  apply (map_rel_trans (λ v v', snapshot v' = snapshot v ∧
           (t_status v = T_COMPLETED → t_status v' = T_COMPLETED)) same_marks _ m m1 m');
    [|eapply map_rel_insert; [done|exact Hi|by rewrite Hc]|apply success_marks].
  intros v1 v2 v3 [? H1] (H2 & _ & H3). split; [congruence|]. intros Hv.
  rewrite (bool_decide_eq_true_2 _ (H1 Hv)) in H3. by apply bool_decide_eq_true in H3.
Qed.

Lemma success_not_completed : x_status x ≠ E_COMPLETED.
Proof. intros Hst. pose proof (ri_completed _ _ Hx i t Hst Hi) as Hf. by destruct Ha as [He|He]; rewrite He in Hf. Qed.

Lemma success_not_cancelled : x_status x ≠ E_CANCELLED.
Proof.
  intros Hst. pose proof (ri_cancelled _ _ Hx i t Hst Hi) as Hf.
  destruct Ha as [He|He]; by rewrite He in Hf.
Qed.

(** The status of the execution after the success. *)
Lemma succeeded_status :
  (x_status x = E_RUNNING ∧ pendingTasks x = 1%Z ∧ x_status succeeded_execution = E_COMPLETED) ∨
  (x_status succeeded_execution = x_status x ∧ (x_status x = E_RUNNING → pendingTasks x ≠ 1%Z)).
Proof.
  unfold succeeded_execution, completes, is_execution.
  destruct (bool_decide_reflect (x_status x = E_RUNNING)) as [Hr|Hr]; simpl; [|by right].
  case_bool_decide; [left|right]; split_and!; (done || lia || (intros; lia)).
Qed.

Lemma succeeded_pending : pendingTasks succeeded_execution = (pendingTasks x - 1)%Z.
Proof. unfold succeeded_execution. by destruct completes. Qed.

Lemma succeeded_live :
  live (x_status succeeded_execution) = true → live (x_status x) = true ∧
  x_status succeeded_execution = x_status x.
Proof. destruct succeeded_status as [(_ & _ & ->)|[-> _]]; done. Qed.

Lemma success_pending : mcount unfinished m' = (pendingTasks x - 1)%Z.
Proof.
  rewrite (mcount_rel _ unfinished unfinished _ _ success_marks) by (by intros ?? (_ & ? & _)).
  subst m1. rewrite (mcount_insert _ _ _ _ _ Hi), <- (ri_pending _ _ Hx).
  unfold unfinished. rewrite Hc. destruct Ha as [-> | ->]; simpl; by rewrite Z.add_0_r.
Qed.

Lemma success_remaining j u' : live (x_status x) = true → m' !! j = Some u' →
  remainingDeps u' = mcount (unmet_dep u') m'.
Proof.
  intros Hl Hj. rewrite success_unmet.
  assert (Hone : ∀ u v, m !! j = Some u → snapshot v = snapshot u → remainingDeps v = remainingDeps u →
    remainingDeps (after_success v) =
      (mcount (unmet_dep (after_success v)) m - b2z (key_in (dependsOn (after_success v)) t))%Z).
  { intros u v Hu Hsv Hrv. rewrite after_success_remaining, Hl, Hrv. simpl.
    rewrite (ri_remaining _ _ Hx j u Hl Hu).
    assert (snapshot (after_success v) = snapshot u) as Hsn
      by (by rewrite after_success_snapshot).
    rewrite (mcount_unmet_snapshot _ _ m Hsn).
    destruct (snapshot_fields _ _ Hsn) as (_ & -> & _).
    rewrite <- (success_child u j Hu). unfold key_in.
    by destruct (snapshot_fields _ _ Hsv) as (-> & _). }
  destruct (success_lookup j u' Hj) as [[-> ->]|(u & _ & Hu & ->)]; [|by apply (Hone u u)].
  by apply (Hone t t').
Qed.

Lemma run_inv_success : run_inv succeeded_execution m'.
Proof.
  split.
  - rewrite (map_rel_size _ _ _ success_marks). unfold m1. rewrite map_size_insert_Some by eauto.
    rewrite <- (ri_count _ _ Hx). unfold succeeded_execution. by destruct completes.
  - by rewrite success_pending, succeeded_pending.
  - intros j u' Hj Hp Hcc. destruct (success_lookup j u' Hj) as [[-> ->]|(u & Hne & Hu & ->)].
    + apply (success_deps t); [|by rewrite after_success_snapshot].
      apply (ri_deps _ _ Hx i t Hi); by destruct Ha as [-> | ->].
    + destruct (after_success_status u) as [Hst|(_ & _ & Hr & H0)].
      * apply (success_deps u); [|by rewrite after_success_snapshot]. rewrite Hst in Hp, Hcc.
        by apply (ri_deps _ _ Hx j u Hu).
      * apply remaining_zero. rewrite <- (success_remaining j); [done|by rewrite Hr|done].
  - intros j u' Hl Hj. apply succeeded_live in Hl as [Hl _]. by eapply success_remaining.
  - intros j u' Hl Hj. apply succeeded_live in Hl as [Hl _].
    destruct (success_lookup j u' Hj) as [[-> ->]|(u & Hne & Hu & ->)].
    + destruct (after_success_status t') as [->|(_ & -> & _)]; [by rewrite Hc|done].
    + pose proof (ri_live _ _ Hx j u Hl Hu). by destruct (after_success_status u) as [->|(_ & -> & _)].
  - intros j u' Hr Hj.
    assert (x_status x = E_RUNNING) as Hrx.
    { destruct succeeded_status as [(? & _)|[<- _]]; done. }
    destruct (success_lookup j u' Hj) as [[-> ->]|(u & Hne & Hu & ->)].
    + unfold promotable. by destruct (after_success_status t') as [->|(_ & -> & _)]; [rewrite Hc|].
    + pose proof (ri_running _ _ Hx j u Hrx Hu) as Hnp.
      unfold after_success, promote_child, is_execution. rewrite bool_decide_eq_true_2 by done. simpl.
      unfold notify_child. rewrite Hrx. simpl. destruct (key_in (dependents t) u) eqn:Hk; simpl.
      * assert (key_in (dependents t) (dec_remaining u) = true) as -> by done. simpl.
        by destruct (promotable (dec_remaining u)) eqn:Hp.
      * by rewrite Hk.
  - intros Hr Hp. destruct succeeded_status as [(_ & _ & He)|[He Hne]]; [by rewrite He in Hr|].
    rewrite succeeded_pending in Hp. rewrite He in Hr. specialize (Hne Hr). lia.
  - intros j u' Hr Hj. destruct succeeded_status as [(Hrx & H1 & _)|[He _]].
    2: { rewrite He in Hr. by destruct success_not_completed. }
    pose proof success_pending as H0. rewrite H1 in H0. simpl in H0.
    pose proof (proj1 (mcount_zero _ _) H0 j u' Hj) as Hf.
    assert (live (x_status x) = true) as Hl by (by rewrite Hrx).
    unfold unfinished in Hf.
    destruct (success_lookup j u' Hj) as [[-> ->]|(u & Hne & Hu & ->)].
    + destruct (after_success_status t') as [Hst|(Hst & _)]; [by rewrite Hst|congruence].
    + pose proof (ri_live _ _ Hx j u Hl Hu) as Hnf.
      destruct (after_success_status u) as [Hst|(_ & Hst & _)]; rewrite Hst in *; [|done].
      by destruct (t_status u).
  - intros j u' Hr Hj. destruct succeeded_status as [(_ & _ & He)|[He _]]; [by rewrite He in Hr|].
    rewrite He in Hr.
    destruct (success_lookup j u' Hj) as [[-> ->]|(u & Hne & Hu & ->)].
    + destruct (after_success_status t') as [->|(Hst & _)]; [by rewrite Hc|congruence].
    + destruct (after_success_status u) as [->|(_ & _ & Hst & _)]; [|congruence].
      by apply (ri_failed _ _ Hx j u).
  - intros j u' Hr _. destruct succeeded_status as [(_ & _ & He)|[He _]]; rewrite He in Hr; [done|].
    by destruct success_not_cancelled.
  - destruct succeeded_status as [(_ & _ & ->)|[-> _]]; [done|apply Hx].
Qed.
End success.

(** ** A task fails for good *)

Definition unstarted_task u : bool := status_in unstarted (t_status u).

Lemma unstarted_unfinished u : unstarted_task u = true → unfinished u = true.
Proof. unfold unstarted_task, unfinished. by destruct (t_status u). Qed.

(** Cancelling the tasks that satisfy [p] takes them out of the counter. *)
Lemma mcount_unfinished_update (p : Task → bool) (f : Task → Task) m :
  (∀ u, p u = true → unfinished u = true) → (∀ u, p u = true → unfinished (f u) = false) →
  mcount unfinished ((λ u, if p u then f u else u) <$> m) = (mcount unfinished m - mcount p m)%Z.
Proof.
  intros Hp Hf. rewrite mcount_fmap, (mcount_split unfinished p m).
  rewrite (mcount_ext (λ u, unfinished u && p u) p m).
  2: { intros j u _. destruct (p u) eqn:Hpu; [by rewrite (Hp u)|apply andb_false_r]. }
  rewrite Z.add_simpl_l. apply mcount_ext. intros j u _. unfold compose.
  destruct (p u) eqn:Hpu; simpl; [by rewrite (Hf u), andb_false_r|by rewrite andb_true_r].
Qed.

(** The execution document after a task failed and [n] tasks were cancelled. *)
Definition fail_run x (n : Z) (at_ : ms) (error : option string) : WorkflowExecution :=
  if live (x_status x)
  then (dec_pending n (finish_execution E_FAILED at_ (dec_pending 1 x))) {{ x_error := error }}
  else dec_pending 1 x.

(** The execution document after a cancellation of [n] tasks. *)
Definition cancel_run x (n : Z) (at_ : ms) : WorkflowExecution :=
  (dec_pending n (finish_execution E_CANCELLED at_ x)) {{ x_error := Some "Cancelled by user"%string }}.

Section failure.
Context (x : WorkflowExecution) (m : gmap oid Task) (i : oid) (t t' : Task) (at_ : ms).
Context (error : option string).
Context (Hx : run_inv x m) (Hi : m !! i = Some t).
Context (Ha : t_status t = T_RUNNING ∨ t_status t = T_WAITING_FOR_APPROVAL).
Context (Hs : snapshot t' = snapshot t) (Hc : t_status t' = T_FAILED ∨ t_status t' = T_DEAD_LETTER).

(** What [afterTaskFailedForGood] does to each task of the run. *)
Definition fail_fast (u : Task) : Task :=
  if live (x_status x) && unstarted_task u then cancel_task at_ u else u.

Let m1 := <[i := t']> m.
Let m' := fail_fast <$> m1.

Definition failed_execution : WorkflowExecution :=
  fail_run x (mcount unstarted_task m1) at_ error.

Lemma fail_fast_snapshot u : snapshot (fail_fast u) = snapshot u.
Proof. unfold fail_fast. by destruct (_ && _). Qed.

Lemma failure_rel : map_rel (λ v v', snapshot v' = snapshot v ∧
  (t_status v = T_COMPLETED → t_status v' = T_COMPLETED)) m m'.
Proof.
  apply (map_rel_trans (λ v v', snapshot v' = snapshot v ∧
    (t_status v = T_COMPLETED → t_status v' = T_COMPLETED))
    (λ v v', snapshot v' = snapshot v ∧
    (t_status v = T_COMPLETED → t_status v' = T_COMPLETED)) _ m m1 m').
  - intros v1 v2 v3 [? ?] [? ?]. split; [congruence|auto].
  - eapply map_rel_insert; [done|exact Hi|]. split; [done|]. by destruct Ha as [-> | ->].
  - apply map_rel_fmap. intros j u _. split; [apply fail_fast_snapshot|].
    unfold fail_fast, unstarted_task. intros Hu. rewrite Hu. by destruct (live _).
Qed.

Lemma failure_pending : mcount unfinished m' = pendingTasks failed_execution.
Proof.
  assert (mcount unfinished m1 = pendingTasks x - 1)%Z as H1.
  { unfold m1. rewrite (mcount_insert _ _ _ _ _ Hi), <- (ri_pending _ _ Hx).
    unfold unfinished. by destruct Ha as [-> | ->], Hc as [-> | ->]; simpl; rewrite Z.add_0_r. }
  unfold failed_execution, fail_run, m', fail_fast. destruct (live (x_status x)); simpl.
  - rewrite (mcount_unfinished_update unstarted_task (cancel_task at_)), H1; [done| |done].
    apply unstarted_unfinished.
  - rewrite <- H1. rewrite mcount_fmap. by apply mcount_ext.
Qed.

Lemma failed_status_cases :
  x_status failed_execution = E_FAILED ∨
  (x_status failed_execution = x_status x ∧ live (x_status x) = false).
Proof. unfold failed_execution, fail_run. destruct (live (x_status x)); [by left|by right]. Qed.

Lemma run_inv_failure : run_inv failed_execution m'.
Proof.
  assert (Hst : x_status failed_execution = E_FAILED).
  { destruct failed_status_cases as [|[-> Hl]]; [done|]. destruct (ri_status _ _ Hx) as [Hp Hw].
    destruct (x_status x) eqn:Hxs; try discriminate Hl; [done|done| |done|].
    - pose proof (ri_completed _ _ Hx i t Hxs Hi) as Hf. by destruct Ha as [He|He]; rewrite He in Hf.
    - pose proof (ri_cancelled _ _ Hx i t Hxs Hi) as Hf. by destruct Ha as [He|He]; rewrite He in Hf. }
  assert (Hlk : ∀ j u', m' !! j = Some u' →
    u' = fail_fast t' ∨ ∃ u, m !! j = Some u ∧ u' = fail_fast u).
  { intros j u'. unfold m', m1. rewrite lookup_fmap. intros (u & Hu & ->)%fmap_Some.
    lookup_cases Hu; eauto. }
  assert (Hff : ∀ u, t_status (fail_fast u) = t_status u ∨ t_status (fail_fast u) = T_CANCELLED).
  { intros u. unfold fail_fast. destruct (_ && _); auto. }
  split; rewrite ?Hst; try done.
  - rewrite (map_rel_size _ _ _ failure_rel), <- (ri_count _ _ Hx).
    unfold failed_execution, fail_run. by destruct (live _).
  - by rewrite failure_pending.
  - intros j u' Hj Hp Hcc. destruct (Hlk j u' Hj) as [->|(u & Hu & ->)].
    + apply (deps_done_rel m m' t); [apply failure_rel|by rewrite fail_fast_snapshot|].
      apply (ri_deps _ _ Hx i t Hi); by destruct Ha as [-> | ->].
    + destruct (Hff u) as [He|]; [|done]. rewrite He in *.
      apply (deps_done_rel m m' u); [apply failure_rel|by rewrite fail_fast_snapshot|].
      by apply (ri_deps _ _ Hx j u Hu).
  - intros j u' _ Hj. destruct (Hlk j u' Hj) as [->|(u & Hu & ->)].
    + destruct (Hff t') as [-> | ->]; [|done]. by destruct Hc as [-> | ->].
    + destruct (unstarted_task u) eqn:Hun.
      * unfold fail_fast. rewrite Hun. destruct (live (x_status x)) eqn:Hl; simpl; [done|].
        apply (ri_failed _ _ Hx j u); [|done]. by destruct failed_status_cases as [|[<- _]];
          unfold failed_execution, fail_run in *; rewrite Hl in *.
      * destruct (Hff u) as [-> | ->]; done.
Qed.
End failure.

(** ** Pause, resume, cancel *)

Lemma run_inv_pause x m :
  run_inv x m → x_status x = E_RUNNING → run_inv (set_execution E_PAUSED x) m.
Proof.
  intros [] Hr. split; try done. - intros i t _. by apply ri_remaining0; rewrite Hr.
  - intros i t _. apply ri_live0. by rewrite Hr.
Qed.

Section resume.
Context (x : WorkflowExecution) (m : gmap oid Task) (at_ : ms).
Context (Hx : run_inv x m) (Hp : x_status x = E_PAUSED).

Definition promote (u : Task) : Task := if promotable u then make_ready at_ u else u.

Definition resumed_execution : WorkflowExecution :=
  if bool_decide (pendingTasks x = 0%Z) then finish_execution E_COMPLETED at_ (set_execution E_RUNNING x)
  else set_execution E_RUNNING x.

Lemma promote_marks u : same_marks u (promote u).
Proof.
  unfold promote. destruct (promotable u) eqn:Hu; [|done].
  unfold promotable in Hu. apply andb_true_iff in Hu as [Hu%bool_decide_eq_true _].
  split; [done|]. unfold unfinished. by rewrite Hu.
Qed.

Lemma promote_rel : map_rel same_marks m (promote <$> m).
Proof. apply map_rel_fmap. intros. apply promote_marks. Qed.

Lemma promote_deps u u' : deps_done m u → snapshot u' = snapshot u → deps_done (promote <$> m) u'.
Proof.
  intros Hd Hs. apply (deps_done_rel m _ u u'); [|done|done]. intros j.
  destruct (promote_rel j) as [v v' (? & _ & Hc)|]; constructor. split; [done|]. intros Hv.
  rewrite (bool_decide_eq_true_2 _ Hv) in Hc. by apply bool_decide_eq_true in Hc.
Qed.

Lemma promote_remaining j u : m !! j = Some u →
  remainingDeps (promote u) = mcount (unmet_dep (promote u)) (promote <$> m).
Proof.
  intros Hj. rewrite (mcount_rel _ (unmet_dep (promote u)) _ _ _ promote_rel)
    by (intros; by apply same_marks_unmet).
  rewrite (mcount_unmet_snapshot u _ m) by apply promote_marks.
  rewrite <- (ri_remaining _ _ Hx j u) by (done || by rewrite Hp).
  unfold promote. by destruct (promotable u).
Qed.

Lemma promote_status u :
  t_status (promote u) = t_status u ∨
  (t_status u = T_PENDING ∧ t_status (promote u) = T_READY ∧ remainingDeps u = 0%Z).
Proof.
  unfold promote. destruct (promotable u) eqn:Hu; [right|by left].
  unfold promotable in Hu. by apply andb_true_iff in Hu as [?%bool_decide_eq_true ?%bool_decide_eq_true].
Qed.

Lemma resumed_status :
  (pendingTasks x = 0%Z ∧ x_status resumed_execution = E_COMPLETED) ∨
  (pendingTasks x ≠ 0%Z ∧ x_status resumed_execution = E_RUNNING).
Proof. unfold resumed_execution. case_bool_decide; auto. Qed.

Lemma resumed_fields :
  pendingTasks resumed_execution = pendingTasks x ∧ taskCount resumed_execution = taskCount x.
Proof. unfold resumed_execution. by case_bool_decide. Qed.

Lemma run_inv_resume : run_inv resumed_execution (promote <$> m).
Proof.
  assert (Hlk : ∀ j u', (promote <$> m) !! j = Some u' → ∃ u, m !! j = Some u ∧ u' = promote u).
  { intros j u'. rewrite lookup_fmap. intros (u & ? & ->)%fmap_Some. eauto. }
  assert (live (x_status x) = true) as Hl by (by rewrite Hp).
  assert (Hpr : ∀ u, promotable (promote u) = false).
  { intros u. unfold promote. by destruct (promotable u) eqn:Hu. }
  destruct resumed_fields as [Hpe Hco]. split.
  - by rewrite Hco, (map_rel_size _ _ _ promote_rel), (ri_count _ _ Hx).
  - rewrite Hpe, (ri_pending _ _ Hx). symmetry.
    apply (mcount_rel _ unfinished unfinished _ _ promote_rel). by intros ?? (_ & ? & _).
  - intros j u' (u & Hj & ->)%Hlk Hnp Hnc. destruct (promote_status u) as [Hst|(Hst & _ & H0)].
    + rewrite Hst in *. apply (promote_deps u); [|apply promote_marks].
      by apply (ri_deps _ _ Hx j u Hj).
    + apply (promote_deps u); [|apply promote_marks].
      apply remaining_zero. by rewrite <- (ri_remaining _ _ Hx j u).
  - intros j u' _ (u & Hj & ->)%Hlk. by apply (promote_remaining j).
  - intros j u' _ (u & Hj & ->)%Hlk. pose proof (ri_live _ _ Hx j u Hl Hj).
    by destruct (promote_status u) as [->|(_ & -> & _)].
  - intros j u' _ (u & Hj & ->)%Hlk. apply Hpr.
  - intros Hr H0. rewrite Hpe in H0. destruct resumed_status as [[_ He]|[? _]]; [|done].
    by rewrite He in Hr.
  - intros j u' Hr (u & Hj & ->)%Hlk. destruct resumed_status as [[H0 _]|[_ He]]; [|by rewrite He in Hr].
    rewrite (ri_pending _ _ Hx) in H0. pose proof (proj1 (mcount_zero _ _) H0 j u Hj) as Hf.
    pose proof (ri_live _ _ Hx j u Hl Hj) as Hnf. unfold unfinished in Hf.
    destruct (promote_status u) as [->|(Hst & _)]; [by destruct (t_status u)|by rewrite Hst in Hf].
  - intros j u' Hr. by destruct resumed_status as [[_ He]|[_ He]]; rewrite He in Hr.
  - intros j u' Hr. by destruct resumed_status as [[_ He]|[_ He]]; rewrite He in Hr.
  - by destruct resumed_status as [[_ ->]|[_ ->]].
Qed.
End resume.

Section cancel.
Context (x : WorkflowExecution) (m : gmap oid Task) (at_ : ms).
Context (Hx : run_inv x m) (Hl : live (x_status x) = true).

Definition cancellable_task (u : Task) : bool := status_in cancellable (t_status u).
Definition cancel_one (u : Task) : Task :=
  if cancellable_task u then release_lease (cancel_task at_ u) else u.

Definition cancelled_execution : WorkflowExecution :=
  cancel_run x (mcount cancellable_task m) at_.

Lemma cancellable_unfinished u : cancellable_task u = unfinished u.
Proof. unfold cancellable_task, unfinished. by destruct (t_status u). Qed.

Lemma cancel_one_snapshot u : snapshot (cancel_one u) = snapshot u.
Proof. unfold cancel_one. by destruct (cancellable_task u). Qed.

Lemma cancel_one_finished u : task_finished (t_status (cancel_one u)) = true.
Proof.
  unfold cancel_one. destruct (cancellable_task u) eqn:Hc; [done|].
  rewrite cancellable_unfinished in Hc. by apply negb_false_iff in Hc.
Qed.

Lemma run_inv_cancel : run_inv cancelled_execution (cancel_one <$> m).
Proof.
  assert (Hlk : ∀ j u', (cancel_one <$> m) !! j = Some u' → ∃ u, m !! j = Some u ∧ u' = cancel_one u).
  { intros j u'. rewrite lookup_fmap. intros (u & ? & ->)%fmap_Some. eauto. }
  split; try done.
  - rewrite map_size_fmap. apply Hx.
  - transitivity (pendingTasks x - mcount cancellable_task m)%Z; [done|].
    unfold cancel_one. rewrite (ri_pending _ _ Hx).
    rewrite (mcount_unfinished_update cancellable_task); [done| |done].
    intros u. by rewrite cancellable_unfinished.
  - intros j u' (u & Hj & ->)%Hlk Hnp Hnc.
    assert (Hu : cancel_one u = u).
    { unfold cancel_one in *. by destruct (cancellable_task u). }
    rewrite Hu in *. apply (deps_done_rel m _ u u); [|done|by apply (ri_deps _ _ Hx j u Hj)].
    apply map_rel_fmap. intros k v _. split; [apply cancel_one_snapshot|].
    intros Hv. unfold cancel_one. rewrite cancellable_unfinished. unfold unfinished. by rewrite Hv.
  - intros j u' _ (u & Hj & ->)%Hlk. apply cancel_one_finished.
Qed.
End cancel.

(** ** A run that has just been created *)

Lemma run_inv_created x m :
  taskCount x = Z.of_nat (size m) → pendingTasks x = taskCount x → x_status x = E_RUNNING →
  (∀ i t, m !! i = Some t →
     t_status t = (if bool_decide (dependsOn t = []) then T_READY else T_PENDING) ∧
     remainingDeps t = Z.of_nat (length (dependsOn t)) ∧
     mcount (key_in (dependsOn t)) m = Z.of_nat (length (dependsOn t))) →
  run_inv x m.
Proof.
  intros Hc Hp Hr Ht.
  assert (Hu : ∀ i t, m !! i = Some t → t_status t = T_READY ∨ t_status t = T_PENDING).
  { intros i t (-> & _)%Ht. case_bool_decide; auto. }
  split; rewrite ?Hr; try done.
  - rewrite Hp, Hc. unfold mcount. do 2 f_equal. symmetry. apply map_filter_id.
    intros i t [Hst|Hst]%Hu; simpl; unfold unfinished; by rewrite Hst.
  - intros i t Hi Hnp _ j u Hj Hk. destruct (Ht i t Hi) as (Hst & _).
    case_bool_decide as Hd; [|done]. rewrite Hd in Hk. by apply not_elem_of_nil in Hk.
  - intros i t _ Hi. destruct (Ht i t Hi) as (_ & -> & <-). apply mcount_ext.
    intros j u Hj. unfold unmet_dep. destruct (Hu j u Hj) as [-> | ->]; by rewrite andb_true_r.
  - intros i t _ Hi. by destruct (Hu i t Hi) as [-> | ->].
  - intros i t _ Hi. destruct (Ht i t Hi) as (Hst & Hrem & _). unfold promotable. rewrite Hst, Hrem.
    case_bool_decide as Hd; [done|]. simpl. apply bool_decide_eq_false. by destruct (dependsOn t).
  - intros _ H0. apply map_size_empty_iff. lia.
Qed.
