(* ===== verification/EngineTx.v ===== *)
(** * The transactions of the engine as state changes

    Each transaction body of [Engine] is a sequence of MongoDB calls.  The
    lemmas of this file give, for each, the database it commits: the execution
    document, what happens to every task document, the approval requests and
    the events appended to the outbox.  [EngineInv] and [EngineSpec] use them
    instead of the bodies. *)

From S2P Require Import Prelude States Dag Models Retry TaskRepo Dispatcher Engine RunInv.

(** ** Sequencing *)

Lemma tx_bind_step {S A B} (m : tx S A) (k : A → tx S B) s a s1 :
  m s = Ok (a, s1) → (m ≫= k) s = k a s1.
Proof. unfold mbind, tx_bind. by intros ->. Qed.

Lemma tx_bind_throw {S A B} (m : tx S A) (k : A → tx S B) s e :
  m s = Exn e → (m ≫= k) s = Exn e.
Proof. unfold mbind, tx_bind. by intros ->. Qed.

(** Run the first call of a body whose result is claimed to exist. *)
Lemma tx_exists_step {S A B} (m : tx S A) (k : A → tx S B) s a s1 b (P : S → Prop) :
  m s = Ok (a, s1) →
  (∃ s', k a s1 = Ok (b, s') ∧ P s') → ∃ s', (m ≫= k) s = Ok (b, s') ∧ P s'.
Proof. intros Hm Hk. by rewrite (tx_bind_step _ _ _ _ _ Hm). Qed.

Lemma tx_lift_get {S A} (o : option A) (s : S) a :
  o = Some a → tx_lift (get_or_type_error o) s = Ok (a, s).
Proof. by intros ->. Qed.

Ltac tx_step H := eapply tx_exists_step; [eapply H|cbv beta iota].

Lemma Execution_findOneAndUpdate_hit e p u db x :
  executions db !! e = Some x → p x = true →
  Execution_findOneAndUpdate e p u db =
    Ok (Some (u x), db {{ executions := <[e := u x]> (executions db) }}).
Proof.
  intros Hx Hp. unfold Execution_findOneAndUpdate, tx_state, findOneAndUpdate. by rewrite Hx, Hp.
Qed.

Lemma Execution_updateOne_hit e p u db x :
  executions db !! e = Some x → p x = true →
  Execution_updateOne e p u db = Ok (1%Z, db {{ executions := <[e := u x]> (executions db) }}).
Proof.
  intros Hx Hp. unfold Execution_updateOne, tx_state. by rewrite (updateOne_hit _ _ _ _ _ Hx Hp).
Qed.

Lemma Execution_updateOne_miss e p u db :
  (∀ x, executions db !! e = Some x → p x = false) →
  Execution_updateOne e p u db = Ok (0%Z, db).
Proof.
  intros Hp. unfold Execution_updateOne, tx_state. rewrite updateOne_miss by done. by destruct db.
Qed.

Lemma Execution_findOneAndUpdate_miss e p u db :
  (∀ x, executions db !! e = Some x → p x = false) →
  Execution_findOneAndUpdate e p u db = Ok (None, db).
Proof.
  intros Hp. unfold Execution_findOneAndUpdate, tx_state, findOneAndUpdate.
  destruct (executions db !! e) as [x|] eqn:Hx; [rewrite (Hp x) by done|]; by destruct db.
Qed.

Lemma Task_updateMany_eq p u db :
  Task_updateMany p u db =
    Ok (mcount p (tasks db), db {{ tasks := (λ t, if p t then u t else t) <$> tasks db }}).
Proof. done. Qed.

Lemma Task_findById_eq i db t :
  tasks db !! i = Some t → Task_findById i db = Ok (t, db).
Proof. intros Ht. unfold Task_findById, mbind, tx_bind, tx_get, tx_lift. by rewrite Ht. Qed.

Definition with_executions (db : DB) (xs : gmap oid WorkflowExecution) : DB :=
  db {{ executions := xs }}.
Definition with_tasks (db : DB) (ts : gmap oid Task) : DB := db {{ tasks := ts }}.

Definition with_approvals (db : DB) (ps : gmap oid ApprovalRequest) : DB :=
  db {{ approvals := ps }}.

(** ** The outbox *)

(** Events were appended, each with an id that was never used. *)
Definition log_extends (db db' : DB) : Prop :=
  ∃ evs, outbox db' = outbox db ++ evs ∧ eventId <$> evs = seq (uuids db) (length evs) ∧
    uuids db' = uuids db + length evs.

#[export] Instance log_extends_preorder : PreOrder log_extends.
Proof.
  split.
  - intros db. exists []. split_and!; [by rewrite app_nil_r|done|simpl; lia].
  - intros db1 db2 db3 (l1 & Ho1 & H1 & Hu1) (l2 & Ho2 & H2 & Hu2). exists (l1 ++ l2).
    rewrite fmap_app, length_app, seq_app, H1, H2, Ho2, Ho1, Hu2, Hu1, app_assoc.
    split_and!; [done..|lia].
Qed.

(** The executions and tasks become [xs] and [ts], events are appended, and the
    approval requests stay. *)
Record effect (db db' : DB) (xs : gmap oid WorkflowExecution) (ts : gmap oid Task) : Prop := {
  ef_executions : executions db' = xs;
  ef_tasks : tasks db' = ts;
  ef_approvals : approvals db' = approvals db;
  ef_log : log_extends db db'
}.

Lemma effect_trans db1 db2 db3 xs ts xs' ts' :
  effect db1 db2 xs ts → effect db2 db3 xs' ts' → effect db1 db3 xs' ts'.
Proof. intros [] []. split; [done..|congruence|by etrans]. Qed.

(** Only the approval requests and the outbox of the first store matter. *)
Lemma effect_from db0 db db' xs ts :
  effect db0 db' xs ts → approvals db0 = approvals db → outbox db0 = outbox db →
  uuids db0 = uuids db → effect db db' xs ts.
Proof.
  intros [He Ht Ha Hl] Hap Hou Huu. split; [done|done|by rewrite Ha|].
  destruct Hl as (evs & Ho & Hs & Hu). exists evs. by rewrite <- Hou, <- Huu.
Qed.

Lemma emit_effect cfg r ty e pl db :
  ∃ db', emit cfg r ty e pl db = Ok (tt, db') ∧ effect db db' (executions db) (tasks db).
Proof.
  unfold emit. destruct (cfg_outbox cfg); eexists; (split; [done|]);
    split; try done.
  eexists [_]. split_and!; [done|done|]. simpl. by rewrite Nat.add_1_r.
Qed.

Lemma effect_refl db : effect db db (executions db) (tasks db).
Proof. by split. Qed.

(** [emit]s at the end, or behind a condition. *)
Ltac run_emit_with cfg r ty e pl db :=
  let db' := fresh "db" in let H := fresh "Hemit" in let Hf := fresh "Heff" in
  destruct (emit_effect cfg r ty e pl db) as (db' & H & Hf).
Ltac run_emit :=
  match goal with
  | |- context [emit ?cfg ?r ?ty ?e ?pl ?db] => run_emit_with cfg r ty e pl db
  | |- context [(emit ?cfg ?r ?ty ?e ?pl ≫= _) ?db] =>
      run_emit_with cfg r ty e pl db;
      match goal with H : emit _ _ _ _ _ db = _ |- _ => tx_step H end
  end.

(** ** What follows a task that finished *)

(** Every task of run [e] is updated by [f]. *)
Definition on_run (e : oid) (f : Task → Task) (ts : gmap oid Task) : gmap oid Task :=
  (λ t, if of_run e t then f t else t) <$> ts.

Lemma on_run_compose e f g h ts :
  (∀ t, of_run e (f t) = of_run e t) →
  (∀ t, of_run e t = true → g (f t) = h t) →
  on_run e g (on_run e f ts) = on_run e h ts.
Proof.
  intros Hf Hh. unfold on_run. rewrite <- map_fmap_compose. apply map_fmap_ext. intros i t _. simpl.
  destruct (of_run e t) eqn:He; [by rewrite Hf, He, Hh|by rewrite He].
Qed.

Lemma on_run_id e ts : on_run e (λ t, t) ts = ts.
Proof.
  unfold on_run. rewrite <- (map_fmap_id ts) at 2. apply map_fmap_ext.
  intros i t _. by destruct (of_run e t).
Qed.

Lemma on_run_if e (p : Task → bool) (u : Task → Task) ts :
  (λ t, if of_run e t && p t then u t else t) <$> ts = on_run e (λ t, if p t then u t else t) ts.
Proof.
  unfold on_run. apply map_fmap_ext. intros i t _. by destruct (of_run e t), (p t).
Qed.

Section after_success.
Context (cfg : EngineConfig) (r : Readings) (i : oid) (t : Task) (x : WorkflowExecution) (db : DB).
Let e := t_executionId t.
Context (Hx : executions db !! e = Some x).

(** The two updates of the children. *)
Lemma notify_and_promote_eq :
  on_run e (after_success x t (now r)) (tasks db) =
  if live (x_status x) && bool_decide (0 < length (dependents t)) then
    if is_execution E_RUNNING x
    then on_run e (λ u, if key_in (dependents t) u && promotable u then make_ready (now r) u else u)
           (on_run e (λ u, if key_in (dependents t) u then dec_remaining u else u) (tasks db))
    else on_run e (λ u, if key_in (dependents t) u then dec_remaining u else u) (tasks db)
  else tasks db.
Proof.
  assert (Hnone : dependents t = [] → ∀ u, after_success x t (now r) u = u).
  { intros Hd u. unfold after_success, promote_child, notify_child, key_in. rewrite Hd. simpl.
    by rewrite !andb_false_r. }
  unfold is_execution.
  destruct (live (x_status x)) eqn:Hl; simpl.
  - case_bool_decide as Hd.
    + case_bool_decide as Hr.
      * symmetry. apply on_run_compose; [intros u; by destruct (key_in _ _)|].
        intros u _. unfold after_success, promote_child, notify_child, is_execution.
        rewrite Hl, bool_decide_eq_true_2 by done. simpl. by destruct (key_in (dependents t) u).
      * unfold on_run. apply map_fmap_ext. intros j u _.
        unfold after_success, promote_child, notify_child, is_execution.
        by rewrite Hl, bool_decide_eq_false_2 by done.
    + rewrite <- (on_run_id e (tasks db)) at 2. unfold on_run. apply map_fmap_ext. intros j u _.
      rewrite Hnone; [done|]. destruct (dependents t); [done|simpl in Hd; lia].
  - rewrite <- (on_run_id e (tasks db)) at 2. unfold on_run. apply map_fmap_ext. intros j u _.
    unfold after_success, promote_child, notify_child, is_execution. rewrite Hl.
    by rewrite bool_decide_eq_false_2 by (intros Hr; by rewrite Hr in Hl).
Qed.

(** The step that updates the children. *)
Lemma notify_step db1 :
  tasks db1 = tasks db →
  (if live (x_status (dec_pending 1 x)) && bool_decide (0 < length (dependents t)) then
     _ ← Task_updateMany (λ t0, of_run e t0 && key_in (dependents t) t0) dec_remaining;
     if is_execution E_RUNNING (dec_pending 1 x) then
       _ ← tx_lift (assertTask T_PENDING T_READY);
       _ ← Task_updateMany (λ t0, of_run e t0 && key_in (dependents t) t0 && promotable t0)
             (make_ready (now r));
       mret tt
     else mret tt
   else mret tt) db1 =
  Ok (tt, with_tasks db1 (on_run e (after_success x t (now r)) (tasks db))).
Proof.
  intros Ht. rewrite notify_and_promote_eq, <- Ht.
  change (x_status (dec_pending 1 x)) with (x_status x).
  change (is_execution E_RUNNING (dec_pending 1 x)) with (is_execution E_RUNNING x).
  destruct (live (x_status x) && _); [|by destruct db1].
  rewrite (tx_bind_step _ _ _ _ _ (Task_updateMany_eq _ _ _)), on_run_if.
  destruct (is_execution E_RUNNING x); [|done].
  erewrite tx_bind_step by (unfold tx_lift; by rewrite assertTask_spec).
  rewrite (tx_bind_step _ _ _ _ _ (Task_updateMany_eq _ _ _)).
  unfold mret, tx_ret, with_tasks. simpl. do 3 f_equal. rewrite <- on_run_if.
  apply map_fmap_ext. intros j u _. by destruct (of_run e u).
Qed.

(** The step that completes the execution when no task is left. *)
Lemma complete_step db1 :
  executions db1 = <[e := dec_pending 1 x]> (executions db) →
  ∃ db2,
    (if is_execution E_RUNNING (dec_pending 1 x) && bool_decide (pendingTasks (dec_pending 1 x) = 0%Z)
     then
       _ ← tx_lift (assertExecution E_RUNNING E_COMPLETED);
       _ ← Execution_updateOne e (is_execution E_RUNNING) (finish_execution E_COMPLETED (now r));
       emit cfg r "execution.completed" e (JObj [])
     else mret tt) db1 = Ok (tt, db2) ∧
    effect db1 db2 (<[e := succeeded_execution x (now r)]> (executions db)) (tasks db1).
Proof.
  intros Hx1. unfold succeeded_execution, completes.
  change (is_execution E_RUNNING (dec_pending 1 x)) with (is_execution E_RUNNING x).
  change (pendingTasks (dec_pending 1 x)) with (pendingTasks x - 1)%Z.
  destruct (is_execution E_RUNNING x && _) eqn:Hc.
  - apply andb_true_iff in Hc as [Hr _].
    erewrite tx_bind_step by (unfold tx_lift; by rewrite assertExecution_spec).
    assert (executions db1 !! e = Some (dec_pending 1 x)) as Hl by (by rewrite Hx1, lookup_insert_eq).
    rewrite (tx_bind_step _ _ _ _ _ (Execution_updateOne_hit _ _ _ _ _ Hl Hr)). run_emit.
    eexists. split; [done|]. apply (effect_from _ db1) in Heff; [|done..].
    simpl in Heff. by rewrite Hx1, insert_insert_eq in Heff.
  - exists db1. split; [done|]. rewrite <- Hx1. apply effect_refl.
Qed.

Lemma afterTaskSucceeded_effect :
  ∃ db', afterTaskSucceeded cfg r i t (now r) db = Ok (tt, db') ∧
    effect db db' (<[e := succeeded_execution x (now r)]> (executions db))
      (on_run e (after_success x t (now r)) (tasks db)).
Proof.
  unfold afterTaskSucceeded. fold e.
  tx_step Execution_findOneAndUpdate_hit; [exact Hx|done|].
  eapply tx_exists_step; [done|].
  tx_step notify_step; [done|].
  destruct (complete_step (with_tasks (with_executions db (<[e := dec_pending 1 x]> (executions db)))
    (on_run e (after_success x t (now r)) (tasks db))) eq_refl) as (db2 & Hs & Heff).
  tx_step Hs. run_emit. exists db0. split; [done|].
  apply (effect_from _ db) in Heff; [|done..]. apply (effect_trans _ _ _ _ _ _ _ Heff) in Heff0.
  by rewrite (ef_executions _ _ _ _ Heff), (ef_tasks _ _ _ _ Heff) in Heff0.
Qed.
End after_success.

Section after_failure.
Context (cfg : EngineConfig) (r : Readings) (i : oid) (t : Task) (x : WorkflowExecution) (db : DB).
Context (outcome : TASK_STATUS) (message : string) (retryable : bool).
Let e := t_executionId t.
Context (Hx : executions db !! e = Some x).

Lemma fail_fast_eq :
  live (x_status x) = true →
  on_run e (λ u, if unstarted_task u then cancel_task (now r) u else u) (tasks db) =
  on_run e (fail_fast x (now r)) (tasks db).
Proof.
  intros Hl. unfold on_run. apply map_fmap_ext. intros j u _. unfold fail_fast. by rewrite Hl.
Qed.

Lemma fail_fast_dead :
  live (x_status x) = false → on_run e (fail_fast x (now r)) (tasks db) = tasks db.
Proof.
  intros Hl. rewrite <- (on_run_id e (tasks db)) at 2. unfold on_run. apply map_fmap_ext.
  intros j u _. unfold fail_fast. by rewrite Hl.
Qed.

Let n := mcount (λ u, of_run e u && unstarted_task u) (tasks db).
Let error := Some (failure_message outcome t message).

Lemma afterTaskFailedForGood_effect :
  ∃ db', afterTaskFailedForGood cfg r i t outcome message retryable (now r) db = Ok (tt, db') ∧
    effect db db' (<[e := fail_run x n (now r) error]> (executions db))
      (on_run e (fail_fast x (now r)) (tasks db)).
Proof.
  unfold afterTaskFailedForGood. fold e.
  tx_step Execution_findOneAndUpdate_hit; [exact Hx|done|].
  eapply tx_exists_step; [done|].
  change (x_status (dec_pending 1 x)) with (x_status x). unfold fail_run.
  destruct (live (x_status x)) eqn:Hl.
  - set (db1 := with_tasks (with_executions db (<[e := dec_pending 1 x]> (executions db)))
                  (on_run e (fail_fast x (now r)) (tasks db))).
    set (x' := (dec_pending n (finish_execution E_FAILED (now r) (dec_pending 1 x)))
                 {{ x_error := error }}).
    destruct (emit_effect cfg r "execution.failed" e
      (JObj [("failedTask", JStr (t_key t)); ("error", JStr message)]%string)
      (with_executions db1 (<[e := x']> (executions db1)))) as (db2 & Hs & Heff).
    eapply tx_exists_step.
    { rewrite (tx_bind_step _ _ _ _ _ (Task_updateMany_eq _ _ _)).
      etrans; [apply tx_bind_step; unfold tx_lift; rewrite assertExecution_spec|].
      { by destruct (x_status x). }
      etrans; [apply tx_bind_step; eapply Execution_updateOne_hit|].
      { apply lookup_insert_eq. }
      { by apply bool_decide_eq_true. }
      etrans; [|exact Hs]. f_equal. unfold db1, with_executions, with_tasks. simpl.
      rewrite <- fail_fast_eq, <- on_run_if by done. done. }
    run_emit. exists db0. split; [done|].
    apply (effect_from _ db) in Heff; [|done..]. apply (effect_trans _ _ _ _ _ _ _ Heff) in Heff0.
    rewrite (ef_executions _ _ _ _ Heff), (ef_tasks _ _ _ _ Heff) in Heff0.
    unfold db1 in Heff0. simpl in Heff0. by rewrite insert_insert_eq in Heff0.
  - eapply tx_exists_step; [done|]. run_emit. exists db0. split; [done|].
    apply (effect_from _ db) in Heff; [|done..]. by rewrite (fail_fast_dead Hl).
Qed.
End after_failure.

(** ** Reports of a running task *)

(** Worker-held lease: the task is RUNNING under this fencing token. *)
Definition holds_lease (db : DB) (i : oid) (token : Z) (t : Task) : Prop :=
  tasks db !! i = Some t ∧ t_status t = T_RUNNING ∧ leaseToken t = token.

Definition no_lease (db : DB) (i : oid) (token : Z) : Prop := ∀ t, ¬ holds_lease db i token t.

Lemma holds_lease_dec db i token : (∃ t, holds_lease db i token t) ∨ no_lease db i token.
Proof.
  unfold no_lease, holds_lease. destruct (tasks db !! i) as [t|]; [|by right; intros ? (? & _)].
  destruct (decide (t_status t = T_RUNNING)), (decide (leaseToken t = token));
    [by left; eauto|right..]; by intros ? ([= <-] & ? & ?).
Qed.

Lemma transitionTask_hit db i token b set t :
  task_edge T_RUNNING b = true → holds_lease db i token t →
  transitionTask i T_RUNNING b set (λ t, bool_decide (leaseToken t = token)) db =
    Ok (true, with_tasks db (<[i := (set t) {{ t_status := b }}]> (tasks db))).
Proof.
  intros Hb (Ht & Hst & Htk). rewrite transitionTask_spec, Ht by done.
  by rewrite !bool_decide_eq_true_2.
Qed.

Lemma transitionTask_miss db i token b set :
  task_edge T_RUNNING b = true → no_lease db i token →
  transitionTask i T_RUNNING b set (λ t, bool_decide (leaseToken t = token)) db = Ok (false, db).
Proof.
  intros Hb Hn. rewrite transitionTask_spec by done. destruct (tasks db !! i) as [t|] eqn:Ht; [|done].
  destruct (bool_decide_reflect (leaseToken t = token)), (bool_decide_reflect (t_status t = T_RUNNING));
    try done. by destruct (Hn t).
Qed.

(** [findOne({ _id, status: RUNNING, leaseToken })]. *)
Lemma findOne_lease db i token :
  (∀ t, holds_lease db i token t →
     findOne i (λ t, bool_decide (t_status t = T_RUNNING) && bool_decide (leaseToken t = token))
       (tasks db) = Some t) ∧
  (no_lease db i token →
     findOne i (λ t, bool_decide (t_status t = T_RUNNING) && bool_decide (leaseToken t = token))
       (tasks db) = None).
Proof.
  split.
  - intros t (Ht & ? & ?). apply findOne_Some. by rewrite !bool_decide_eq_true_2.
  - intros Hn. apply findOne_None. intros t Ht.
    destruct (bool_decide_reflect (t_status t = T_RUNNING)), (bool_decide_reflect (leaseToken t = token));
      try done. by destruct (Hn t).
Qed.

(** The task as a report leaves it. *)
Definition completed_task (out : json) (at_ : ms) (t : Task) : Task :=
  (release_lease (t {{ output := out; t_completedAt := Some at_ }})) {{ t_status := T_COMPLETED }}.
Definition retrying_task (message : string) (at_ delayMs : Z) (t : Task) : Task :=
  ((release_lease t) {{ t_error := Some message; retryAt := Some (at_ + delayMs)%Z }})
    {{ t_status := T_RETRYING }}.
Definition failed_task (outcome : TASK_STATUS) (message : string) (at_ : ms) (t : Task) : Task :=
  ((release_lease t) {{ t_error := Some message; t_completedAt := Some at_ }})
    {{ t_status := outcome }}.
Definition suspended_task (t : Task) : Task :=
  (release_lease t) {{ t_status := T_WAITING_FOR_APPROVAL }}.

Section reports.
Context (cfg : EngineConfig) (r : Readings) (i : oid) (token : Z) (db : DB).

Lemma complete_tx_stale out : no_lease db i token → complete_tx cfg i token out r db = Ok (None, db).
Proof.
  intros Hn. unfold complete_tx.
  by erewrite tx_bind_step by (by apply transitionTask_miss).
Qed.

Lemma fail_tx_stale error : no_lease db i token → fail_tx cfg i token error r db = Ok (NotApplied, db).
Proof.
  intros Hn. unfold fail_tx. erewrite tx_bind_step by done.
  by rewrite (proj2 (findOne_lease db i token) Hn).
Qed.

Lemma suspend_tx_stale ask : no_lease db i token → suspend_tx cfg i token ask r db = Ok (false, db).
Proof.
  intros Hn. unfold suspend_tx.
  by erewrite tx_bind_step by (by apply transitionTask_miss).
Qed.

Context (t : Task) (x : WorkflowExecution).
Context (Ht : holds_lease db i token t) (Hx : executions db !! t_executionId t = Some x).

Lemma complete_tx_applies out :
  let t' := completed_task out (now r) t in
  ∃ db', complete_tx cfg i token out r db = Ok (Some (t_executionId t), db') ∧
    effect db db' (<[t_executionId t := succeeded_execution x (now r)]> (executions db))
      (on_run (t_executionId t) (after_success x t (now r)) (<[i := t']> (tasks db))).
Proof.
  intros t'. unfold complete_tx.
  tx_step transitionTask_hit; [done|exact Ht|]. cbn [negb].
  tx_step Task_findById_eq; [apply lookup_insert_eq|].
  eapply tx_exists_step; [done|].
  match goal with |- ∃ _, (afterTaskSucceeded _ _ _ ?t1 _ ≫= _) ?db1 = _ ∧ _ =>
    destruct (afterTaskSucceeded_effect cfg r i t1 x db1 Hx) as (db2 & Hs & Heff) end.
  tx_step Hs. exists db2. split; [done|]. by apply (effect_from _ db) in Heff.
Qed.

Definition may_retry (error : thrown) : bool :=
  isRetryable error && bool_decide (attempt t < maxAttempts t)%Z && live (x_status x).
Definition fail_outcome (error : thrown) : TASK_STATUS :=
  if isRetryable error && negb (bool_decide (attempt t < maxAttempts t)%Z) then T_DEAD_LETTER
  else T_FAILED.

Lemma fail_tx_retries error :
  may_retry error = true →
  let delayMs := cfg_backoff cfg (random r) (attempt t) (baseDelayMs t) in
  ∃ db', fail_tx cfg i token error r db = Ok (Retrying t delayMs, db') ∧
    effect db db' (executions db)
      (<[i := retrying_task (error_message error) (now r) delayMs t]> (tasks db)).
Proof.
  intros Hr delayMs. unfold fail_tx. eapply tx_exists_step; [done|]. cbv beta.
  rewrite (proj1 (findOne_lease db i token) t Ht).
  eapply tx_exists_step; [done|]. eapply tx_exists_step; [done|]. cbv beta.
  eapply tx_exists_step; [apply tx_lift_get, Hx|]. cbv beta.
  unfold may_retry in Hr. rewrite Hr.
  tx_step transitionTask_hit; [done|exact Ht|]. cbn [negb].
  run_emit. exists db0. split; [done|]. by apply (effect_from _ db) in Heff.
Qed.

(** A dead-lettered task goes through FAILED in the same transaction. *)
Lemma dead_letter_step outcome message at_ ts db1 :
  outcome = T_FAILED ∨ outcome = T_DEAD_LETTER →
  tasks db1 = <[i := failed_task T_FAILED message at_ t]> ts →
  (if bool_decide (outcome = T_DEAD_LETTER) then
     _ ← transitionTask i T_FAILED T_DEAD_LETTER (λ t, t) (λ _, true); mret tt
   else mret tt) db1 =
  Ok (tt, with_tasks db1 (<[i := failed_task outcome message at_ t]> ts)).
Proof.
  intros [-> | ->] Hts.
  - unfold mret, tx_ret. simpl. do 2 f_equal. unfold with_tasks. by destruct db1; simpl in *; subst.
  - rewrite bool_decide_eq_true_2 by done. erewrite tx_bind_step; [done|].
    rewrite transitionTask_spec, Hts, lookup_insert_eq by done. simpl.
    by rewrite insert_insert_eq.
Qed.

Lemma fail_outcome_cases error : fail_outcome error = T_FAILED ∨ fail_outcome error = T_DEAD_LETTER.
Proof. unfold fail_outcome. destruct (_ && _); auto. Qed.

Lemma fail_tx_fails error :
  may_retry error = false →
  let outcome := fail_outcome error in
  let t' := failed_task outcome (error_message error) (now r) t in
  ∃ db', fail_tx cfg i token error r db = Ok (FailedForGood outcome, db') ∧
    effect db db'
      (<[t_executionId t := fail_run x (mcount (λ u, of_run (t_executionId t) u && unstarted_task u)
           (<[i := t']> (tasks db))) (now r) (Some (failure_message outcome t (error_message error)))]>
         (executions db))
      (on_run (t_executionId t) (fail_fast x (now r)) (<[i := t']> (tasks db))).
Proof.
  intros Hr outcome t'. unfold fail_tx. eapply tx_exists_step; [done|]. cbv beta.
  rewrite (proj1 (findOne_lease db i token) t Ht).
  eapply tx_exists_step; [done|]. eapply tx_exists_step; [done|]. cbv beta.
  eapply tx_exists_step; [apply tx_lift_get, Hx|]. cbv beta.
  unfold may_retry in Hr. rewrite Hr.
  tx_step transitionTask_hit; [done|exact Ht|]. cbn [negb].
  fold (fail_outcome error). fold outcome.
  tx_step dead_letter_step; [apply fail_outcome_cases|done|].
  match goal with |- ∃ _, (afterTaskFailedForGood _ _ _ ?t1 ?o ?m ?re _ ≫= _) ?db1 = _ ∧ _ =>
    destruct (afterTaskFailedForGood_effect cfg r i t1 x db1 o m re Hx) as (db2 & Hs & Heff) end.
  tx_step Hs. exists db2. split; [done|]. by apply (effect_from _ db) in Heff.
Qed.

Lemma create_approval_ok p db1 :
  p_title p ≠ "" → p_taskKey p ≠ "" → (∀ a q, approvals db1 !! a = Some q → p_taskId q ≠ p_taskId p) →
  create_approval p db1 =
    Ok (fresh (dom (approvals db1)),
        with_approvals db1 (<[fresh (dom (approvals db1)) := p]> (approvals db1))).
Proof.
  intros H1 H2 Hnew. unfold create_approval. erewrite tx_bind_step by done.
  rewrite !bool_decide_eq_false_2; [done| |done|done].
  assert (mcount (λ p', bool_decide (p_taskId p' = p_taskId p)) (approvals db1) = 0%Z) as ->; [|lia].
  apply mcount_zero. intros a q Hq. by apply bool_decide_eq_false, (Hnew a).
Qed.

Lemma create_approval_inv p db1 res :
  create_approval p db1 = Ok res →
  p_title p ≠ "" ∧ p_taskKey p ≠ "" ∧ (∀ a q, approvals db1 !! a = Some q → p_taskId q ≠ p_taskId p).
Proof.
  unfold create_approval. erewrite tx_bind_step by done.
  destruct (bool_decide_reflect (p_title p = "")), (bool_decide_reflect (p_taskKey p = ""));
    simpl; try done.
  case_bool_decide as Hc; [done|]. intros _. split_and!; [done..|]. intros a q Hq Heq.
  apply Hc. pose proof (mcount_nonneg (λ p', bool_decide (p_taskId p' = p_taskId p)) (approvals db1)).
  enough (mcount (λ p', bool_decide (p_taskId p' = p_taskId p)) (approvals db1) ≠ 0%Z) by lia.
  intros H0. pose proof (proj1 (mcount_zero _ _) H0 a q Hq) as Hf.
  by apply bool_decide_eq_false in Hf.
Qed.

(** A suspension commits exactly when the request can be created. *)
Definition request_ok (ask : ApprovalAsk) : Prop :=
  ask_title ask ≠ "" ∧ t_key t ≠ "" ∧ ∀ a q, approvals db !! a = Some q → p_taskId q ≠ i.

Lemma suspend_tx_applies ask :
  request_ok ask →
  let a := fresh (dom (approvals db)) in
  ∃ db', suspend_tx cfg i token ask r db = Ok (true, db') ∧
    effect (with_approvals db (<[a := new_approval i t ask (now r)]> (approvals db))) db'
      (executions db) (<[i := suspended_task t]> (tasks db)).
Proof.
  intros (H1 & H2 & H3) a. unfold suspend_tx.
  tx_step transitionTask_hit; [done|exact Ht|]. cbn [negb].
  tx_step Task_findById_eq; [apply lookup_insert_eq|].
  eapply tx_exists_step; [done|].
  eapply tx_exists_step; [by apply create_approval_ok|]. cbv beta.
  run_emit. exists db0. split; [done|].
  by apply (effect_from _ (with_approvals db (<[a := new_approval i t ask (now r)]> (approvals db)))) in Heff.
Qed.

Lemma suspend_tx_inv ask b db' : suspend_tx cfg i token ask r db = Ok (b, db') → request_ok ask.
Proof.
  unfold suspend_tx. erewrite tx_bind_step by (by apply transitionTask_hit). cbn [negb].
  erewrite tx_bind_step by (apply Task_findById_eq, lookup_insert_eq).
  erewrite tx_bind_step by done. intros H. apply tx_bind_ok in H as (a & db1 & Hc & _).
  by apply create_approval_inv in Hc.
Qed.
End reports.

(** ** Decisions about a waiting task *)

(** The request and the task as a decision leaves them. *)
Definition decided (d : Decision_) (at_ : ms) (p : ApprovalRequest) : ApprovalRequest :=
  p {{ p_status := decision_status (d_decision d); decidedBy := d_decidedBy d;
       decidedAt := Some at_; p_comment := d_comment d }}.

Definition resolved_task (d : Decision_) (at_ : ms) (t : Task) : Task :=
  (decided_task d at_ t) {{ t_status := if is_approved (d_decision d) then T_COMPLETED else T_FAILED }}.

(** The first call of [resolve_tx]. *)
Definition decide_request (a : oid) (d : Decision_) (scope : ApprovalRequest → bool) (at_ : ms)
    : tx DB (option ApprovalRequest) :=
  tx_state (λ db,
    let '(p, ps) := findOneAndUpdate a (λ p, bool_decide (p_status p = P_PENDING) && scope p)
      (decided d at_) (approvals db) in
    (p, db {{ approvals := ps }})).

Section resolve.
Context (cfg : EngineConfig) (r : Readings) (a : oid) (d : Decision_).
Context (scope : ApprovalRequest → bool) (db : DB).

(** The request is still undecided and the caller may decide it. *)
Definition decidable (p : ApprovalRequest) : Prop :=
  approvals db !! a = Some p ∧ p_status p = P_PENDING ∧ scope p = true.

Lemma decidable_dec : (∃ p, decidable p) ∨ ∀ p, ¬ decidable p.
Proof.
  unfold decidable. destruct (approvals db !! a) as [p|]; [|by right; intros ? (? & _)].
  destruct (decide (p_status p = P_PENDING)), (scope p) eqn:?;
    [by left; eauto|right..]; intros ? ([= <-] & ? & ?); congruence.
Qed.

Lemma resolve_tx_miss : (∀ p, ¬ decidable p) → resolve_tx cfg a d scope r db = Ok (None, db).
Proof.
  intros Hn. unfold resolve_tx. etrans; [apply (tx_bind_step _ _ db None db)|done].
  unfold tx_state, findOneAndUpdate.
  destruct (approvals db !! a) as [p|] eqn:Hp; [|by destruct db].
  destruct (bool_decide_reflect (p_status p = P_PENDING)), (scope p) eqn:?; try (by destruct db).
  by destruct (Hn p).
Qed.

Context (p : ApprovalRequest) (t : Task) (x : WorkflowExecution).
Context (Hp : decidable p) (Ht : tasks db !! p_taskId p = Some t).
Let i := p_taskId p.
Let e := t_executionId t.
Let db0 := with_approvals db (<[a := decided d (now r) p]> (approvals db)).

Lemma resolve_first_step :
  decide_request a d scope (now r) db = Ok (Some (decided d (now r) p), db0).
Proof.
  destruct Hp as (Ha & Hs & Hsc). unfold decide_request, tx_state, findOneAndUpdate.
  by rewrite Ha, Hs, Hsc.
Qed.

(** The task was cancelled meanwhile: nothing is recorded. *)
Lemma resolve_tx_conflict :
  t_status t ≠ T_WAITING_FOR_APPROVAL →
  resolve_tx cfg a d scope r db =
    Exn (AppErr 409 "APPROVAL_NOT_ACTIONABLE" "This task is no longer waiting for approval" JNull).
Proof.
  intros Hst. unfold resolve_tx. etrans; [apply tx_bind_step, resolve_first_step|]. cbv beta iota.
  etrans; [apply (tx_bind_step _ _ db0 false db0)|done].
  rewrite transitionTask_spec by (by destruct (is_approved _)).
  change (tasks db0) with (tasks db). change (p_taskId (decided d (now r) p)) with (p_taskId p).
  by rewrite Ht, (bool_decide_eq_false_2 _ Hst).
Qed.

Context (Hw : t_status t = T_WAITING_FOR_APPROVAL) (Hx : executions db !! e = Some x).

Lemma resolve_second_step :
  transitionTask (p_taskId (decided d (now r) p)) T_WAITING_FOR_APPROVAL
    (if is_approved (d_decision d) then T_COMPLETED else T_FAILED)
    (decided_task d (now r)) (λ _, true) db0 =
  Ok (true, with_tasks db0 (<[i := resolved_task d (now r) t]> (tasks db))).
Proof.
  rewrite transitionTask_spec by (by destruct (is_approved _)).
  change (tasks db0) with (tasks db). change (p_taskId (decided d (now r) p)) with (p_taskId p).
  by rewrite Ht, (bool_decide_eq_true_2 _ Hw).
Qed.

Lemma resolved_run : t_executionId (resolved_task d (now r) t) = e.
Proof. unfold resolved_task, decided_task. by destruct (is_approved _). Qed.

Lemma after_success_resolved :
  after_success x (resolved_task d (now r) t) (now r) = after_success x t (now r).
Proof.
  unfold resolved_task, decided_task. by destruct (is_approved _).
Qed.

Lemma resolve_tx_applies :
  ∃ db', resolve_tx cfg a d scope r db = Ok (Some e, db') ∧
    (if is_approved (d_decision d) then
       effect db0 db' (<[e := succeeded_execution x (now r)]> (executions db))
         (on_run e (after_success x t (now r)) (<[i := resolved_task d (now r) t]> (tasks db)))
     else
       ∃ error, effect db0 db'
         (<[e := fail_run x (mcount (λ u, of_run e u && unstarted_task u)
                               (<[i := resolved_task d (now r) t]> (tasks db))) (now r) error]>
            (executions db))
         (on_run e (fail_fast x (now r)) (<[i := resolved_task d (now r) t]> (tasks db)))).
Proof.
  unfold resolve_tx. tx_step resolve_first_step. tx_step resolve_second_step. cbn [negb].
  tx_step Task_findById_eq; [apply lookup_insert_eq|].
  assert (Hx' : executions db !! t_executionId (resolved_task d (now r) t) = Some x)
    by (by rewrite resolved_run).
  assert (Hrun : t_executionId (resolved_task d (now r) t) = e) by apply resolved_run.
  destruct (is_approved (d_decision d)) eqn:Hap.
  - destruct (afterTaskSucceeded_effect cfg r i _ x
      (with_tasks db0 (<[i := resolved_task d (now r) t]> (tasks db))) Hx') as (db2 & Hs & Heff).
    tx_step Hs. run_emit. eexists. split; [by rewrite Hrun|].
    rewrite Hrun, after_success_resolved in Heff.
    apply (effect_from _ db0) in Heff; [|done..].
    apply (effect_trans _ _ _ _ _ _ _ Heff) in Heff0.
    by rewrite (ef_executions _ _ _ _ Heff), (ef_tasks _ _ _ _ Heff) in Heff0.
  - destruct (afterTaskFailedForGood_effect cfg r i (resolved_task d (now r) t) x
      (with_tasks db0 (<[i := resolved_task d (now r) t]> (tasks db))) T_FAILED
      (default "null" (t_error (resolved_task d (now r) t))) false Hx') as (db2 & Hs & Heff).
    tx_step Hs. run_emit. eexists. split; [by rewrite Hrun|].
    eexists. rewrite Hrun in Heff.
    apply (effect_from _ db0) in Heff; [|done..].
    apply (effect_trans _ _ _ _ _ _ _ Heff) in Heff0.
    by rewrite (ef_executions _ _ _ _ Heff), (ef_tasks _ _ _ _ Heff) in Heff0.
Qed.
End resolve.

(** ** Controlling a run *)

(** The requests of a cancelled run are closed. *)
Definition close_request (e : oid) (at_ : ms) (p : ApprovalRequest) : ApprovalRequest :=
  if bool_decide (p_executionId p = e) && bool_decide (p_status p = P_PENDING)
  then p {{ p_status := P_CANCELLED; decidedAt := Some at_ }} else p.
Definition close_requests (cfg : EngineConfig) (e : oid) (at_ : ms) (ps : gmap oid ApprovalRequest)
    : gmap oid ApprovalRequest :=
  if cfg_approvals cfg then close_request e at_ <$> ps else ps.

Section control.
Context (cfg : EngineConfig) (r : Readings) (e : oid) (db : DB).

Definition has_status (s : EXECUTION_STATUS → bool) : Prop :=
  ∃ x, executions db !! e = Some x ∧ s (x_status x) = true.

Lemma pause_tx_miss :
  (∀ x, executions db !! e = Some x → x_status x ≠ E_RUNNING) → pause_tx cfg e r db = Ok (false, db).
Proof.
  intros Hn. unfold pause_tx. erewrite tx_bind_step; [|apply Execution_updateOne_miss]; [done|].
  intros x Hx. by apply bool_decide_eq_false, Hn.
Qed.

Lemma resume_tx_miss :
  (∀ x, executions db !! e = Some x → x_status x ≠ E_PAUSED) → resume_tx cfg e r db = Ok (false, db).
Proof.
  intros Hn. unfold resume_tx. erewrite tx_bind_step by done.
  erewrite tx_bind_step; [|apply Execution_findOneAndUpdate_miss]; [done|].
  intros x Hx. by apply bool_decide_eq_false, Hn.
Qed.

Lemma cancel_tx_miss :
  (∀ x, executions db !! e = Some x → live (x_status x) = false) → cancel_tx cfg e r db = Ok (false, db).
Proof.
  intros Hn. unfold cancel_tx. erewrite tx_bind_step by done.
  by rewrite (proj2 (findOne_None e (λ x, live (x_status x)) (executions db)) Hn).
Qed.

Context (x : WorkflowExecution) (Hx : executions db !! e = Some x).

Lemma pause_tx_applies :
  x_status x = E_RUNNING →
  ∃ db', pause_tx cfg e r db = Ok (true, db') ∧
    effect db db' (<[e := set_execution E_PAUSED x]> (executions db)) (tasks db).
Proof.
  intros Hr. unfold pause_tx.
  tx_step Execution_updateOne_hit; [exact Hx|by apply bool_decide_eq_true|].
  rewrite bool_decide_eq_false_2 by lia.
  run_emit. exists db0. split; [done|]. by apply (effect_from _ db) in Heff.
Qed.

Lemma resume_tx_applies :
  x_status x = E_PAUSED →
  ∃ db', resume_tx cfg e r db = Ok (true, db') ∧
    effect db db' (<[e := resumed_execution x (now r)]> (executions db))
      (on_run e (promote (now r)) (tasks db)).
Proof.
  intros Hp. unfold resume_tx. eapply tx_exists_step; [done|].
  tx_step Execution_findOneAndUpdate_hit; [exact Hx|by apply bool_decide_eq_true|].
  run_emit. apply (effect_from _ db) in Heff; [|done..]. simpl in Heff.
  destruct Heff as [Hxs Hts Hap Hlog].
  eapply tx_exists_step; [apply Task_updateMany_eq|]. rewrite Hts, on_run_if.
  change (pendingTasks (set_execution E_RUNNING x)) with (pendingTasks x). unfold resumed_execution.
  case_bool_decide as H0.
  - match goal with |- ∃ _, ((Execution_updateOne ?e ?p ?u ≫= _) ≫= _) ?db1 = _ ∧ _ =>
      destruct (emit_effect cfg r "execution.completed" e (JObj [])
        (with_executions db1 (<[e := u (set_execution E_RUNNING x)]> (executions db1))))
        as (db3 & Hs3 & Heff3) end.
    eapply tx_exists_step.
    { etrans; [apply tx_bind_step; eapply Execution_updateOne_hit|exact Hs3]; [|done].
      etrans; [exact (f_equal (lookup e) Hxs)|apply lookup_insert_eq]. }
    exists db3. split; [done|]. apply (effect_trans db db0 db3 _ _ _ _ (Build_effect _ _ _ _ Hxs Hts Hap Hlog)).
    apply (effect_from _ db0) in Heff3; [|done..].
    rewrite <- (insert_insert_eq (executions db) e _ (set_execution E_RUNNING x)), <- Hxs. exact Heff3.
  - eapply tx_exists_step; [done|]. eexists. split; [done|]. by split.
Qed.

Lemma cancel_tx_applies :
  live (x_status x) = true →
  let n := mcount (λ u, of_run e u && cancellable_task u) (tasks db) in
  let ps := close_requests cfg e (now r) (approvals db) in
  ∃ db', cancel_tx cfg e r db = Ok (true, db') ∧
    effect (with_approvals db ps) db' (<[e := cancel_run x n (now r)]> (executions db))
      (on_run e (cancel_one (now r)) (tasks db)).
Proof.
  intros Hl n ps. unfold cancel_tx. eapply tx_exists_step; [done|]. cbv beta.
  rewrite (proj2 (findOne_Some e (λ x, live (x_status x)) (executions db) x) (conj Hx Hl)).
  eapply tx_exists_step; [unfold tx_lift; rewrite assertExecution_spec; by destruct (x_status x)|].
  eapply tx_exists_step; [apply Task_updateMany_eq|]. cbv beta. rewrite on_run_if.
  tx_step Execution_updateOne_hit; [exact Hx|by apply bool_decide_eq_true|].
  eapply tx_exists_step; [instantiate (1 := with_approvals _ ps); unfold ps, close_requests; by destruct (cfg_approvals cfg)|].
  run_emit. exists db0. split; [done|].
  by apply (effect_from _ (with_approvals db ps)) in Heff.
Qed.
End control.

(** ** Starting a run *)

Section start.
Context (cfg : EngineConfig) (r : Readings) (w : Workflow) (p : StartParams).
Context (children : gmap string (list string)) (db : DB).

Lemma start_tx_duplicate :
  idempotency_clash p db = true →
  start_tx cfg w p children r db = Exn (DuplicateKey ["triggeredBy"; "idempotencyKey"]).
Proof. intros Hc. unfold start_tx. erewrite tx_bind_step by done. by rewrite Hc. Qed.

Lemma start_tx_invalid :
  idempotency_clash p db = false → forallb definition_ok (wf_tasks w) = false →
  start_tx cfg w p children r db = Exn (PlainErr "Task validation failed").
Proof.
  intros Hc Hd. unfold start_tx. erewrite tx_bind_step by done. rewrite Hc.
  erewrite tx_bind_step by done. by rewrite Hd.
Qed.

Lemma start_tx_applies :
  idempotency_clash p db = false → forallb definition_ok (wf_tasks w) = true →
  let e := fresh (dom (executions db)) in
  ∃ db', start_tx cfg w p children r db = Ok (e, db') ∧
    effect db db' (<[e := new_execution w p (now r)]> (executions db))
      (insert_all (task_of_definition e (wf_ownerId w) (now r) children <$> wf_tasks w) (tasks db)).
Proof.
  intros Hc Hd e. unfold start_tx. eapply tx_exists_step; [done|]. cbv beta. rewrite Hc.
  eapply tx_exists_step; [done|]. cbv beta iota. rewrite Hd. cbn [negb].
  eapply tx_exists_step; [done|]. cbv beta.
  run_emit. exists db0. split; [done|]. by apply (effect_from _ db) in Heff.
Qed.
End start.
