(* ===== verification/EngineInv.v ===== *)
(** * What holds in every reachable world

    [db_inv] is the invariant of the database: every run satisfies [run_inv],
    its tasks are the copy of a valid graph, leases and approval requests agree
    with the statuses.  [db_guar] is what one atomic step may change.  Both are
    proved for every atomic step of every function of the engine, and so hold
    under any interleaving, any crash and any behaviour of the queue. *)

From S2P Require Import Prelude Program States Dag DagFacts DagSpec Models Retry TaskRepo.
From S2P Require Import Dispatcher Engine RunInv EngineTx.

(** ** The tasks of one run *)

Definition run_tasks (ts : gmap oid Task) (e : oid) : gmap oid Task :=
  filter (λ kv : oid * Task, t_executionId kv.2 = e) ts.

Lemma run_tasks_Some ts e i t :
  run_tasks ts e !! i = Some t ↔ ts !! i = Some t ∧ t_executionId t = e.
Proof. apply map_lookup_filter_Some. Qed.

Lemma run_tasks_insert ts e i t t' :
  ts !! i = Some t → t_executionId t = e → t_executionId t' = e →
  run_tasks (<[i := t']> ts) e = <[i := t']> (run_tasks ts e).
Proof. intros _ _ He. unfold run_tasks. by rewrite map_filter_insert_True. Qed.

Lemma run_tasks_insert_other ts e i t t' :
  ts !! i = Some t → t_executionId t ≠ e → t_executionId t' ≠ e →
  run_tasks (<[i := t']> ts) e = run_tasks ts e.
Proof.
  intros Hi Ht Ht'. unfold run_tasks. apply map_eq. intros j. apply option_eq. intros u.
  rewrite !map_lookup_filter_Some. destruct (decide (i = j)) as [<-|Hne].
  - rewrite lookup_insert_eq, Hi. split; intros [[= <-] ?]; done.
  - by rewrite lookup_insert_ne.
Qed.

Lemma run_tasks_on_run ts e f :
  (∀ t, t_executionId (f t) = t_executionId t) → run_tasks (on_run e f ts) e = f <$> run_tasks ts e.
Proof.
  intros Hf. apply map_eq. intros j. apply option_eq. intros u.
  rewrite run_tasks_Some, lookup_fmap, fmap_Some. unfold on_run. rewrite lookup_fmap, fmap_Some.
  unfold of_run. split.
  - intros [(t & Ht & ->) He]. exists t. rewrite run_tasks_Some.
    case_bool_decide as Hr; [done|]. done.
  - intros (t & [Ht He]%run_tasks_Some & ->). split; [|by rewrite Hf].
    exists t. by rewrite bool_decide_eq_true_2.
Qed.

Lemma run_tasks_on_run_other ts e e' f :
  (∀ t, t_executionId (f t) = t_executionId t) → e' ≠ e →
  run_tasks (on_run e f ts) e' = run_tasks ts e'.
Proof.
  intros Hf Hne. unfold run_tasks, on_run. apply map_eq. intros j. apply option_eq. intros u.
  rewrite !map_lookup_filter_Some, lookup_fmap, fmap_Some. unfold of_run. split.
  - intros [(t & Ht & ->) He]. simpl in He. case_bool_decide as Hr; [|done].
    rewrite Hf in He. congruence.
  - intros [Ht He]. simpl in He. split; [|done]. exists u. split; [done|].
    by rewrite bool_decide_eq_false_2 by congruence.
Qed.

Lemma mcount_of_run ts e p : mcount (λ t, of_run e t && p t) ts = mcount p (run_tasks ts e).
Proof.
  unfold mcount, run_tasks. rewrite map_filter_filter. do 2 f_equal. apply map_filter_ext.
  intros i t _. simpl. unfold of_run. rewrite andb_true_iff, bool_decide_eq_true. tauto.
Qed.

(** ** The invariant *)

(** The lease fields agree with the status, and every claim is one attempt. *)
Definition lease_ok (t : Task) : Prop :=
  attempt t = leaseToken t ∧ (0 ≤ leaseToken t)%Z ∧
  (t_status t = T_RUNNING ↔ is_Some (leaseExpiresAt t)) ∧
  (t_status t = T_RUNNING ↔ is_Some (leaseOwner t)).

(** An undecided request belongs to a waiting task, a decided one to a finished task. *)
Definition approval_ok (p : ApprovalRequest) (t : Task) : Prop :=
  t_executionId t = p_executionId p ∧
  if bool_decide (p_status p = P_PENDING) then t_status t = T_WAITING_FOR_APPROVAL
  else task_finished (t_status t) = true.

Record approvals_inv (ps : gmap oid ApprovalRequest) (ts : gmap oid Task) : Prop := {
  ai_task a p : ps !! a = Some p → ∃ t, ts !! p_taskId p = Some t ∧ approval_ok p t;
  ai_unique a b p q : ps !! a = Some p → ps !! b = Some q → p_taskId p = p_taskId q → a = b;
  ai_waiting i t : ts !! i = Some t → t_status t = T_WAITING_FOR_APPROVAL →
    ∃ a p, ps !! a = Some p ∧ p_taskId p = i ∧ p_status p = P_PENDING
}.

Definition outbox_inv (db : DB) : Prop :=
  NoDup (eventId <$> outbox db) ∧ ∀ ev, ev ∈ outbox db → eventId ev < uuids db.

(** The partial unique index on (triggeredBy, idempotencyKey). *)
Definition keys_unique (xs : gmap oid WorkflowExecution) : Prop :=
  ∀ e e' x x' k, xs !! e = Some x → xs !! e' = Some x' → triggeredBy x = triggeredBy x' →
    idempotencyKey x = Some k → idempotencyKey x' = Some k → e = e'.

Record db_inv (cfg : EngineConfig) (db : DB) : Prop := {
  di_exec i t : tasks db !! i = Some t → is_Some (executions db !! t_executionId t);
  di_static e : static_ok (run_tasks (tasks db) e);
  di_run e x : executions db !! e = Some x → run_inv x (run_tasks (tasks db) e);
  di_lease i t : tasks db !! i = Some t → lease_ok t;
  di_approvals : approvals_inv (approvals db) (tasks db);
  di_configured : cfg_approvals cfg = false → approvals db = ∅;
  di_outbox : outbox_inv db;
  di_keys : keys_unique (executions db)
}.

(** ** What one step may change *)

Record task_step (t t' : Task) : Prop := {
  ts_snapshot : snapshot t' = snapshot t;
  ts_move : task_move (t_status t) (t_status t');
  ts_token : (leaseToken t ≤ leaseToken t')%Z;
  ts_spent : leaseToken t' = leaseToken t → t_status t ≠ T_RUNNING → t_status t' ≠ T_RUNNING;
  ts_finished : task_finished (t_status t) = true → t' = t
}.

(** The part of an execution that never changes. *)
Definition run_snapshot (x : WorkflowExecution) :=
  (x_workflowId x, x_ownerId x, x_workflowVersion x, x_input x, taskCount x, triggeredBy x,
   trigger x, idempotencyKey x, requestHash x, x_startedAt x).

Record execution_step (x x' : WorkflowExecution) : Prop := {
  xs_snapshot : run_snapshot x' = run_snapshot x;
  xs_move : execution_move (x_status x) (x_status x');
  xs_pending : (pendingTasks x' ≤ pendingTasks x)%Z
}.

Record approval_step (p p' : ApprovalRequest) : Prop := {
  ps_task : p_taskId p' = p_taskId p;
  ps_decided : p_status p ≠ P_PENDING → p' = p
}.

Record db_guar (db db' : DB) : Prop := {
  dg_tasks i t : tasks db !! i = Some t → ∃ t', tasks db' !! i = Some t' ∧ task_step t t';
  dg_executions e x : executions db !! e = Some x →
    ∃ x', executions db' !! e = Some x' ∧ execution_step x x';
  dg_approvals a p : approvals db !! a = Some p →
    ∃ p', approvals db' !! a = Some p' ∧ approval_step p p';
  dg_log : log_extends db db'
}.

#[export] Instance task_step_refl : Reflexive task_step.
Proof. intros t. split; auto with wf; lia. Qed.
#[export] Instance execution_step_refl : Reflexive execution_step.
Proof. intros x. split; auto with wf; lia. Qed.
#[export] Instance approval_step_refl : Reflexive approval_step.
Proof. by intros p. Qed.
#[export] Instance db_guar_refl : Reflexive db_guar.
Proof. intros db. split; [intros; eexists; by split..|done]. Qed.

(** ** One run at a time *)

Definition one_step (t t' : Task) : Prop := task_step t t' ∧ (lease_ok t → lease_ok t').

(** A step of run [e] leaves the tasks of other runs alone. *)
Definition run_step (e : oid) (t t' : Task) : Prop :=
  one_step t t' ∧ (t_executionId t ≠ e → t' = t).

#[export] Instance one_step_refl : Reflexive one_step.
Proof. by intros t. Qed.

Lemma task_step_run t t' : task_step t t' → t_executionId t' = t_executionId t.
Proof. intros Hs. apply (snapshot_fields _ _ (ts_snapshot _ _ Hs)). Qed.

Lemma run_step_other e e' ts ts' :
  map_rel (run_step e) ts ts' → e' ≠ e → run_tasks ts' e' = run_tasks ts e'.
Proof.
  intros HR Hne. apply map_eq. intros j. apply option_eq. intros u. rewrite !run_tasks_Some.
  specialize (HR j). destruct HR as [t t' [[Hs _] Ho]|]; [|done]. apply task_step_run in Hs.
  split; intros [[= <-] He]; [rewrite <- (Ho ltac:(congruence))|rewrite (Ho ltac:(congruence))]; done.
Qed.

Lemma map_rel_impl (R1 R2 : Task → Task → Prop) ts ts' :
  (∀ t t', R1 t t' → R2 t t') → map_rel R1 ts ts' → map_rel R2 ts ts'.
Proof. intros HR H i. destruct (H i); constructor; auto. Qed.

(** The tasks after an update of task [i] and then of every task of its run. *)
Lemma run_step_on_run e f i t t' ts :
  ts !! i = Some t → t_executionId t = e → t_executionId t' = e → one_step t (f t') →
  (∀ j u, j ≠ i → ts !! j = Some u → t_executionId u = e → one_step u (f u)) →
  map_rel (run_step e) ts (on_run e f (<[i := t']> ts)).
Proof.
  intros Hi Ht Ht' Hone Hall j. unfold on_run. rewrite lookup_fmap.
  destruct (decide (i = j)) as [<-|Hne].
  - rewrite lookup_insert_eq, Hi. simpl. constructor. unfold of_run.
    rewrite bool_decide_eq_true_2 by done. by split.
  - rewrite lookup_insert_ne by done. destruct (ts !! j) as [u|] eqn:Hj; simpl; constructor.
    unfold of_run. case_bool_decide; split; try done. by apply (Hall j).
Qed.

Lemma run_step_insert e i t t' ts :
  ts !! i = Some t → t_executionId t = e → one_step t t' → map_rel (run_step e) ts (<[i := t']> ts).
Proof.
  intros Hi Ht Hone. apply (map_rel_insert _ _ _ t); [|done|by split].
  intros u. split; [reflexivity|done].
Qed.

Lemma run_step_fmap e f ts :
  (∀ j u, ts !! j = Some u → t_executionId u = e → one_step u (f u)) →
  map_rel (run_step e) ts (on_run e f ts).
Proof.
  intros Hall. apply map_rel_fmap. intros j u Hj. unfold of_run.
  case_bool_decide; (split; [|done]); [by eapply Hall|reflexivity].
Qed.

Lemma outbox_inv_extends db db' : log_extends db db' → outbox_inv db → outbox_inv db'.
Proof.
  intros (evs & Ho & Hids & Hu) [Hnd Hlt]. split.
  - rewrite Ho, fmap_app, NoDup_app. split_and!; [done| |rewrite Hids; apply NoDup_seq].
    intros n (ev & -> & Hev)%list_elem_of_fmap. apply Hlt in Hev. rewrite Hids, elem_of_seq. lia.
  - intros ev. rewrite Ho, Hu, elem_of_app. intros [Hev%Hlt|Hev]; [lia|].
    assert (eventId ev ∈ eventId <$> evs) as Hin by (apply list_elem_of_fmap; eauto).
    rewrite Hids, elem_of_seq in Hin. lia.
Qed.

Lemma run_snapshot_keys x x' :
  run_snapshot x' = run_snapshot x → triggeredBy x' = triggeredBy x ∧ idempotencyKey x' = idempotencyKey x.
Proof. unfold run_snapshot. intros H. by simplify_eq. Qed.

Lemma keys_unique_insert xs e x x' :
  xs !! e = Some x → run_snapshot x' = run_snapshot x → keys_unique xs → keys_unique (<[e := x']> xs).
Proof.
  intros Hx [Ht Hk]%run_snapshot_keys Hu e1 e2 y1 y2 k H1 H2 Htr H1k H2k.
  apply lookup_insert_Some in H1 as [[<- <-]|[Hne1 H1]], H2 as [[<- <-]|[Hne2 H2]]; [done|..].
  - apply (Hu e e2 x y2 k); congruence.
  - apply (Hu e1 e y1 x k); congruence.
  - by apply (Hu e1 e2 y1 y2 k).
Qed.

Section step.
Context (cfg : EngineConfig) (db db' : DB) (ps : gmap oid ApprovalRequest).
Context (Hdb : db_inv cfg db).

(** A step that changes the tasks of run [e], its execution and the requests. *)
Lemma db_step_run e x x' ts' :
  executions db !! e = Some x →
  effect (with_approvals db ps) db' (<[e := x']> (executions db)) ts' →
  map_rel (run_step e) (tasks db) ts' → run_inv x' (run_tasks ts' e) →
  approvals_inv ps ts' → (cfg_approvals cfg = false → ps = ∅) →
  execution_step x x' →
  (∀ a p, approvals db !! a = Some p → ∃ p', ps !! a = Some p' ∧ approval_step p p') →
  db_inv cfg db' ∧ db_guar db db'.
Proof.
  intros Hx [Hxs Hts Hps Hlog] HR Hrun Hai Hconf Hxstep Hpstep. subst ts'.
  assert (Hother : ∀ e', e' ≠ e → run_tasks (tasks db') e' = run_tasks (tasks db) e').
  { intros e'. by apply run_step_other. }
  split; split.
  - intros i t' Ht'. destruct (map_rel_lookup_r _ _ _ _ _ HR Ht') as (t & Ht & [[Hs _] _]).
    rewrite Hxs, (task_step_run _ _ Hs). destruct (decide (e = t_executionId t)) as [->|Hne].
    + rewrite lookup_insert_eq. eauto.
    + rewrite lookup_insert_ne by done. by apply (di_exec _ _ Hdb i).
  - intros e'. destruct (decide (e' = e)) as [->|Hne].
    + apply (static_ok_rel (run_tasks (tasks db) e)); [|apply Hdb].
      intros j. pose proof (HR j) as Hj. unfold run_tasks. rewrite !map_lookup_filter.
      destruct Hj as [t t' [[Hs _] _]|]; simpl; [|constructor].
      pose proof (task_step_run _ _ Hs) as He. case_guard; case_guard; simpl; try congruence;
        constructor. apply Hs.
    + rewrite Hother by done. apply Hdb.
  - intros e' y. rewrite Hxs. destruct (decide (e = e')) as [<-|Hne].
    + rewrite lookup_insert_eq. by intros [= <-].
    + rewrite lookup_insert_ne, Hother by done. apply Hdb.
  - intros i t' Ht'. destruct (map_rel_lookup_r _ _ _ _ _ HR Ht') as (t & Ht & [[_ Hl] _]).
    apply Hl. by apply (di_lease _ _ Hdb i).
  - by rewrite Hps.
  - by rewrite Hps.
  - apply (outbox_inv_extends (with_approvals db ps)); [done|apply Hdb].
  - rewrite Hxs. apply (keys_unique_insert _ _ x); [done|apply Hxstep|apply Hdb].
  - intros i t Ht. destruct (map_rel_lookup _ _ _ _ _ HR Ht) as (t' & Ht' & [[? _] _]). eauto.
  - intros e' y Hy. rewrite Hxs. destruct (decide (e = e')) as [<-|Hne].
    + rewrite lookup_insert_eq. eexists; split; [done|]. by simplify_eq.
    + rewrite lookup_insert_ne by done. eexists; split; [done|reflexivity].
  - intros a p Hp. rewrite Hps. by apply Hpstep.
  - done.
Qed.
End step.

(** ** Requests and waiting tasks *)

(** The status does not enter or leave WAITING_FOR_APPROVAL. *)
Definition waiting_kept (t t' : Task) : Prop :=
  t_status t = T_WAITING_FOR_APPROVAL ↔ t_status t' = T_WAITING_FOR_APPROVAL.

Lemma approval_ok_step p t t' :
  task_step t t' → waiting_kept t t' → approval_ok p t → approval_ok p t'.
Proof.
  intros Hs Hw [He Hp]. split; [by rewrite (task_step_run _ _ Hs)|].
  case_bool_decide; [by apply Hw|]. by rewrite (ts_finished _ _ Hs Hp).
Qed.

Lemma approvals_inv_kept ps ts ts' :
  map_rel (λ t t', task_step t t' ∧ waiting_kept t t') ts ts' →
  approvals_inv ps ts → approvals_inv ps ts'.
Proof.
  intros HR [Hat Hu Hw]. split; [|done|].
  - intros a p Hp. destruct (Hat a p Hp) as (t & Ht & Hok).
    destruct (map_rel_lookup _ _ _ _ _ HR Ht) as (t' & Ht' & Hs & Hk).
    exists t'. split; [done|]. by eapply approval_ok_step.
  - intros i t' Ht' Hst. destruct (map_rel_lookup_r _ _ _ _ _ HR Ht') as (t & Ht & Hs & Hk).
    by apply (Hw i t), Hk.
Qed.

(** Request [a] is decided and its task leaves the waiting state. *)
Lemma approvals_inv_decided ps ts ts' a p p' t' :
  approvals_inv ps ts → ps !! a = Some p → p_status p = P_PENDING →
  p_taskId p' = p_taskId p → p_executionId p' = p_executionId p → p_status p' ≠ P_PENDING →
  ts' !! p_taskId p = Some t' → task_finished (t_status t') = true →
  t_executionId t' = p_executionId p →
  (∀ j, j ≠ p_taskId p → option_Forall2 (λ t t', task_step t t' ∧ waiting_kept t t') (ts !! j) (ts' !! j)) →
  approvals_inv (<[a := p']> ps) ts'.
Proof.
  intros [Hat Hu Hw] Ha Hp Htk Hex Hdec Ht' Hfin Hrun HR. split.
  - intros b q Hq. apply lookup_insert_Some in Hq as [[<- <-]|[Hne Hq]].
    + rewrite Htk. exists t'. split; [done|]. split; [congruence|].
      by rewrite bool_decide_eq_false_2.
    + assert (p_taskId q ≠ p_taskId p) as Hneq by (intros He; by apply Hne, (Hu a b p q)).
      destruct (Hat b q Hq) as (t & Ht & Hok). pose proof (HR _ Hneq) as Hj. rewrite Ht in Hj.
      inversion Hj as [? u [? ?]|]; subst. exists u. split; [done|]. by eapply approval_ok_step.
  - intros b c q q' Hq Hq' He.
    apply lookup_insert_Some in Hq as [[<- <-]|[Hb Hq]], Hq' as [[? ?]|[Hc Hq']]; subst; [done|..].
    + apply (Hu a c p q'); [done..|congruence].
    + apply (Hu b c q p); [done..|congruence].
    + by apply (Hu b c q q').
  - intros i t Ht Hst. destruct (decide (i = p_taskId p)) as [->|Hne].
    { rewrite Ht' in Ht. injection Ht as <-. by rewrite Hst in Hfin. }
    pose proof (HR _ Hne) as Hj. rewrite Ht in Hj. inversion Hj as [u ? [_ Hk]|]; subst.
    destruct (Hw i u) as (b & q & Hq & Hqi & Hqs); [done|by apply Hk|].
    exists b, q. rewrite lookup_insert_ne; [done|]. intros <-. simplify_eq.
Qed.

(** A request for task [i] is created and the task starts waiting. *)
Lemma approvals_inv_requested ps ts a p t t' :
  approvals_inv ps ts → ps !! a = None → (∀ b q, ps !! b = Some q → p_taskId q ≠ p_taskId p) →
  ts !! p_taskId p = Some t → t_status t' = T_WAITING_FOR_APPROVAL →
  t_executionId t' = p_executionId p → p_status p = P_PENDING →
  approvals_inv (<[a := p]> ps) (<[p_taskId p := t']> ts).
Proof.
  intros [Hat Hu Hw] Ha Hnew Ht Hst Hrun Hp. split.
  - intros b q Hq. apply lookup_insert_Some in Hq as [[<- <-]|[Hne Hq]].
    + exists t'. rewrite lookup_insert_eq. split; [done|]. split; [done|].
      by rewrite bool_decide_eq_true_2.
    + rewrite lookup_insert_ne by (intros He; by apply (Hnew b q)). by apply (Hat b).
  - intros b c q q' Hq Hq' He.
    apply lookup_insert_Some in Hq as [[<- <-]|[Hb Hq]], Hq' as [[? ?]|[Hc Hq']]; subst; [done|..].
    + by destruct (Hnew c q').
    + by destruct (Hnew b q).
    + by apply (Hu b c q q').
  - intros i u Hi Hui. apply lookup_insert_Some in Hi as [[<- <-]|[Hne Hi]].
    + exists a, p. by rewrite lookup_insert_eq.
    + destruct (Hw i u Hi Hui) as (b & q & Hq & Hqi & Hqs). exists b, q.
      rewrite lookup_insert_ne; [done|]. intros <-. congruence.
Qed.

(** The requests of run [e] are closed and its tasks finished. *)
Lemma approvals_inv_closed ps ts ts' e at_ :
  approvals_inv ps ts →
  (∀ j, option_Forall2 (λ t t', task_step t t' ∧ (t_executionId t ≠ e → t' = t) ∧
     (t_executionId t = e → task_finished (t_status t') = true)) (ts !! j) (ts' !! j)) →
  approvals_inv (close_request e at_ <$> ps) ts'.
Proof.
  intros [Hat Hu Hw] HR. split.
  - intros a q Hq. rewrite lookup_fmap in Hq. apply fmap_Some in Hq as (p & Hp & ->).
    destruct (Hat a p Hp) as (t & Ht & Hrun & Hok). pose proof (HR (p_taskId p)) as Hj.
    rewrite Ht in Hj. inversion Hj as [? u (Hs & Ho & Hf)|]; subst. exists u.
    assert (p_taskId (close_request e at_ p) = p_taskId p) as -> by (unfold close_request; by destruct (_ && _)).
    split; [done|]. unfold close_request, approval_ok.
    destruct (bool_decide_reflect (p_executionId p = e)) as [He|He]; simpl.
    + rewrite <- Hrun in He. rewrite (task_step_run _ _ Hs).
      destruct (bool_decide_reflect (p_status p = P_PENDING)) as [Hps|Hps]; simpl; [by auto|].
      rewrite bool_decide_eq_false_2 by done. auto.
    + rewrite Ho by congruence. done.
  - intros a b p q Hp Hq. rewrite lookup_fmap in Hp, Hq.
    apply fmap_Some in Hp as (p0 & Hp & ->), Hq as (q0 & Hq & ->).
    intros He. apply (Hu a b p0 q0); [done..|]. revert He. unfold close_request.
    by repeat case_match.
  - intros i u Hi Hst. pose proof (HR i) as Hj. rewrite Hi in Hj.
    inversion Hj as [t ? (Hs & Ho & Hf) Hti|]; subst.
    destruct (decide (t_executionId t = e)) as [He|He].
    { specialize (Hf He). by rewrite Hst in Hf. }
    rewrite (Ho He) in Hst. destruct (Hw i t) as (a & p & Hp & Hpi & Hps); [done|done|].
    exists a, p. rewrite lookup_fmap, Hp. simpl. split_and!; [|done..]. unfold close_request.
    destruct (Hat a p Hp) as (t2 & Ht2 & Hrun & _). rewrite Hpi in Ht2.
    rewrite bool_decide_eq_false_2; [done|]. simplify_eq. congruence.
Qed.

(** ** The functions that update the tasks of a run *)

Lemma lease_ok_same t t' :
  attempt t' = attempt t → leaseToken t' = leaseToken t → leaseExpiresAt t' = leaseExpiresAt t →
  leaseOwner t' = leaseOwner t → (t_status t' = T_RUNNING ↔ t_status t = T_RUNNING) →
  lease_ok t → lease_ok t'.
Proof. unfold lease_ok. intros -> -> -> -> Hst. by rewrite Hst. Qed.

(** An unfinished task moves without being claimed or released. *)
Lemma one_step_move t t' :
  snapshot t' = snapshot t → task_move (t_status t) (t_status t') →
  attempt t' = attempt t → leaseToken t' = leaseToken t → leaseExpiresAt t' = leaseExpiresAt t →
  leaseOwner t' = leaseOwner t → (t_status t' = T_RUNNING ↔ t_status t = T_RUNNING) →
  task_finished (t_status t) = false → one_step t t'.
Proof.
  intros Hs Hm Ha Htk Hl Ho Hr Hf. split.
  - split; [done|done|by rewrite Htk|by rewrite Hr|congruence].
  - by apply lease_ok_same.
Qed.

(** A report or a cancellation releases the lease. *)
Lemma one_step_release t t' :
  snapshot t' = snapshot t → task_move (t_status t) (t_status t') →
  attempt t' = attempt t → leaseToken t' = leaseToken t → leaseExpiresAt t' = None →
  leaseOwner t' = None → t_status t' ≠ T_RUNNING → task_finished (t_status t) = false →
  one_step t t'.
Proof.
  intros Hs Hm Ha Htk Hl Ho Hr Hf. split.
  - split; [done|done|by rewrite Htk|done|congruence].
  - unfold lease_ok. rewrite Ha, Htk, Hl, Ho. intros (? & ? & _).
    split_and!; [done|done|..]; (split; [done|by intros [? ?]]).
Qed.

Section run_updates.
Context (x : WorkflowExecution) (m : gmap oid Task) (at_ : ms).
Context (Hx : run_inv x m) (Hm : static_ok m).

(** A task waits for its dependencies in vain only if it never starts: the
    children of an unfinished task are unfinished, in a live run. *)
Lemma child_unfinished i t j u :
  live (x_status x) = true → m !! i = Some t → t_status t ≠ T_COMPLETED → m !! j = Some u →
  key_in (dependents t) u = true → task_finished (t_status u) = false.
Proof.
  intros Hl Hi Ht Hj Hk. apply bool_decide_eq_true in Hk. apply (so_dependents _ Hm i j) in Hk; [|done..].
  destruct (task_finished (t_status u)) eqn:Hf; [|done]. destruct Ht.
  pose proof (ri_live _ _ Hx j u Hl Hj) as Hnf.
  apply (ri_deps _ _ Hx j u Hj) with i; [by intros He; rewrite He in Hf|by intros He; rewrite He in Hnf|done|done].
Qed.

Lemma after_success_one_step i t j u :
  m !! i = Some t → t_status t ≠ T_COMPLETED → m !! j = Some u →
  one_step u (after_success x t at_ u) ∧ waiting_kept u (after_success x t at_ u).
Proof.
  intros Hi Ht Hj. destruct (live (x_status x) && key_in (dependents t) u) eqn:Hk.
  - apply andb_true_iff in Hk as [Hl Hk]. pose proof (child_unfinished _ _ _ _ Hl Hi Ht Hj Hk) as Hf.
    assert (Hfields : attempt (after_success x t at_ u) = attempt u ∧
      leaseToken (after_success x t at_ u) = leaseToken u ∧
      leaseExpiresAt (after_success x t at_ u) = leaseExpiresAt u ∧
      leaseOwner (after_success x t at_ u) = leaseOwner u).
    { unfold after_success, promote_child, notify_child. by repeat case_match. }
    destruct Hfields as (? & ? & ? & ?). unfold waiting_kept.
    destruct (after_success_status x t at_ u) as [Hst|(Hp & Hst & _)]; rewrite Hst; split; try done.
    + apply one_step_move; rewrite ?Hst; auto with wf. apply after_success_snapshot.
    + apply one_step_move; rewrite ?Hst, ?Hp; auto with wf; [apply after_success_snapshot|by split].
    + rewrite Hp. by split.
  - assert (after_success x t at_ u = u) as ->; [|split; [reflexivity|done]].
    unfold after_success, promote_child, notify_child. rewrite Hk. unfold is_execution.
    destruct (bool_decide_reflect (x_status x = E_RUNNING)) as [Hr|]; [|done]. simpl.
    rewrite Hr in Hk. simpl in Hk. by rewrite Hk.
Qed.

Lemma fail_fast_one_step u : one_step u (fail_fast x at_ u) ∧ waiting_kept u (fail_fast x at_ u).
Proof.
  unfold fail_fast. destruct (live (x_status x) && unstarted_task u) eqn:Hk; [|split; [reflexivity|done]].
  apply andb_true_iff in Hk as [_ Hk]. unfold unstarted_task in Hk. unfold waiting_kept. split.
  - apply one_step_move; try done; destruct (t_status u) eqn:Hu; try done; simpl; rewrite ?Hu;
      auto with wf; by split.
  - destruct (t_status u); (done || by split).
Qed.

Lemma promote_one_step u : one_step u (promote at_ u) ∧ waiting_kept u (promote at_ u).
Proof.
  unfold promote. destruct (promotable u) eqn:Hk; [|split; [reflexivity|done]].
  unfold promotable in Hk. apply andb_true_iff in Hk as [Hk%bool_decide_eq_true _].
  unfold waiting_kept. split.
  - apply one_step_move; try done; rewrite ?Hk; simpl; auto with wf; by split.
  - rewrite Hk. by split.
Qed.

Lemma cancel_one_one_step u : one_step u (cancel_one at_ u).
Proof.
  unfold cancel_one. destruct (cancellable_task u) eqn:Hk; [|reflexivity].
  unfold cancellable_task in Hk. apply one_step_release; try done; destruct (t_status u) eqn:Hu; try done;
    simpl; auto with wf.
Qed.
End run_updates.

(** ** Transactions preserve the invariant *)

Definition tx_good (cfg : EngineConfig) {A} (body : Readings → tx DB A) : Prop :=
  ∀ r db a db', db_inv cfg db → body r db = Ok (a, db') → db_inv cfg db' ∧ db_guar db db'.

Section good.
Context (cfg : EngineConfig) (db db' : DB) (Hdb : db_inv cfg db).

Lemma db_good_refl : db_inv cfg db ∧ db_guar db db.
Proof. split; [done|reflexivity]. Qed.

(** What a transaction about task [i] can use. *)
Lemma task_context i t :
  tasks db !! i = Some t →
  ∃ x, executions db !! t_executionId t = Some x ∧
    run_inv x (run_tasks (tasks db) (t_executionId t)) ∧
    run_tasks (tasks db) (t_executionId t) !! i = Some t.
Proof.
  intros Ht. destruct (di_exec _ _ Hdb i t Ht) as [x Hx]. exists x.
  split_and!; [done|by apply Hdb|]. by apply run_tasks_Some.
Qed.

Lemma effect_same xs ts :
  effect db db' xs ts → effect (with_approvals db (approvals db)) db' xs ts.
Proof. intros H. by apply (effect_from db). Qed.

Lemma approvals_kept_step a p :
  approvals db !! a = Some p → ∃ p', approvals db !! a = Some p' ∧ approval_step p p'.
Proof. intros Hp. exists p. split; [done|reflexivity]. Qed.

(** One task of a run is updated, then all of them by [f]; no task starts or
    stops waiting for approval. *)
Lemma db_step_task i t t' x x' f :
  let e := t_executionId t in
  tasks db !! i = Some t → executions db !! e = Some x →
  effect db db' (<[e := x']> (executions db)) (on_run e f (<[i := t']> (tasks db))) →
  t_executionId t' = e → (∀ u, t_executionId (f u) = t_executionId u) →
  one_step t (f t') ∧ waiting_kept t (f t') →
  (∀ j u, run_tasks (tasks db) e !! j = Some u → j ≠ i → one_step u (f u) ∧ waiting_kept u (f u)) →
  run_inv x' (f <$> <[i := t']> (run_tasks (tasks db) e)) →
  execution_step x x' → db_inv cfg db' ∧ db_guar db db'.
Proof.
  intros e Ht Hx Heff He Hf [Ho Hk] Hall Hrun Hxs.
  apply (db_step_run cfg db db' (approvals db) Hdb e x x' _ Hx (effect_same _ _ Heff)).
  - apply (run_step_on_run e f i t); [done|done|done|done|].
    intros j u Hne Hj Hu. by apply (Hall j u); [apply run_tasks_Some|].
  - rewrite run_tasks_on_run by done. by rewrite (run_tasks_insert _ e i t).
  - apply (approvals_inv_kept _ (tasks db)); [|apply Hdb]. intros j. unfold on_run.
    rewrite lookup_fmap. destruct (decide (i = j)) as [<-|Hne].
    + rewrite lookup_insert_eq, Ht. simpl. constructor. unfold of_run.
      rewrite bool_decide_eq_true_2 by done. by split; [apply Ho|].
    + rewrite lookup_insert_ne by done. destruct (tasks db !! j) as [u|] eqn:Hj; simpl; constructor.
      unfold of_run. case_bool_decide as Hr; [|by split]. split; [|apply (Hall j u)]; try done;
        [apply (Hall j u); [|done]|]; by apply run_tasks_Some.
  - apply Hdb.
  - done.
  - apply approvals_kept_step.
Qed.

(** The same without [f] and with the execution unchanged. *)
Lemma db_step_one i t t' x :
  let e := t_executionId t in
  tasks db !! i = Some t → executions db !! e = Some x →
  effect db db' (executions db) (<[i := t']> (tasks db)) →
  one_step t t' → waiting_kept t t' →
  run_inv x (<[i := t']> (run_tasks (tasks db) e)) → db_inv cfg db' ∧ db_guar db db'.
Proof.
  intros e Ht Hx Heff Ho Hk Hrun.
  apply (db_step_task i t t' x x (λ u, u)); try done.
  - fold e. rewrite insert_id, on_run_id by done. done.
  - by apply task_step_run, Ho.
  - by rewrite map_fmap_id.
Qed.

(** Only run [e] changes, and every task of it by [f]. *)
Lemma db_step_all e x x' f :
  executions db !! e = Some x →
  effect db db' (<[e := x']> (executions db)) (on_run e f (tasks db)) →
  (∀ u, t_executionId (f u) = t_executionId u) →
  (∀ u, one_step u (f u) ∧ waiting_kept u (f u)) →
  run_inv x' (f <$> run_tasks (tasks db) e) → execution_step x x' →
  db_inv cfg db' ∧ db_guar db db'.
Proof.
  intros Hx Heff Hf Hall Hrun Hxs.
  apply (db_step_run cfg db db' (approvals db) Hdb e x x' _ Hx (effect_same _ _ Heff)).
  - apply run_step_fmap. intros j u _ _. apply Hall.
  - by rewrite run_tasks_on_run.
  - apply (approvals_inv_kept _ (tasks db)); [|apply Hdb]. apply map_rel_fmap. intros j u _.
    destruct (of_run e u); [|by split]. split; apply Hall.
  - apply Hdb.
  - done.
  - apply approvals_kept_step.
Qed.
End good.

Lemma tx_good_read cfg {A} (f : Readings → DB → A) : tx_good cfg (λ r, db ← tx_get; mret (f r db)).
Proof. intros r db a db' Hdb [= <- <-]. by apply db_good_refl. Qed.

(** ** The executions move along their machine *)

Lemma sub_le (a n : Z) : (0 ≤ n)%Z → (a - n ≤ a)%Z.
Proof. lia. Qed.

Lemma succeeded_step x at_ : execution_step x (succeeded_execution x at_).
Proof.
  split.
  - unfold succeeded_execution. by destruct completes.
  - destruct (succeeded_status x at_) as [(-> & _ & ->)|[-> _]]; auto with wf.
  - rewrite succeeded_pending. by apply sub_le.
Qed.

Lemma failed_step x n at_ error : (0 ≤ n)%Z → execution_step x (fail_run x n at_ error).
Proof.
  intros Hn. unfold fail_run. destruct (live (x_status x)) eqn:Hl; split; try done; simpl; auto with wf.
  - destruct (x_status x) eqn:Hs; try done; auto with wf.
  - transitivity (pendingTasks x - 1)%Z; [by apply (sub_le (pendingTasks x - 1))|by apply sub_le].
  - by apply (sub_le (pendingTasks x)).
Qed.

Lemma cancelled_step x n at_ :
  (0 ≤ n)%Z → live (x_status x) = true → execution_step x (cancel_run x n at_).
Proof.
  intros Hn Hl. unfold cancel_run. split; try done; simpl.
  - destruct (x_status x) eqn:Hs; try done; auto with wf.
  - by apply (sub_le (pendingTasks x)).
Qed.

Lemma resumed_step x at_ : x_status x = E_PAUSED → execution_step x (resumed_execution x at_).
Proof.
  intros Hp. unfold resumed_execution. case_bool_decide; split; try done; simpl; rewrite ?Hp.
  - by apply (emove_compound E_PAUSED E_RUNNING E_COMPLETED).
  - auto with wf.
Qed.

(** ** Each transaction is good *)

Lemma lease_fields t :
  lease_ok t → t_status t = T_RUNNING ∨ t_status t = T_WAITING_FOR_APPROVAL →
  task_finished (t_status t) = false.
Proof. by intros _ [-> | ->]. Qed.

(** A report by the lease holder: the lease is released. *)
Lemma report_one_step t t' b :
  t_status t = T_RUNNING ∨ t_status t = T_WAITING_FOR_APPROVAL → lease_ok t →
  snapshot t' = snapshot t → t_status t' = b → task_move (t_status t) b → b ≠ T_RUNNING →
  attempt t' = attempt t → leaseToken t' = leaseToken t →
  (t_status t = T_RUNNING → leaseExpiresAt t' = None ∧ leaseOwner t' = None) →
  (t_status t = T_WAITING_FOR_APPROVAL →
     leaseExpiresAt t' = leaseExpiresAt t ∧ leaseOwner t' = leaseOwner t) →
  one_step t t'.
Proof.
  intros Hst Hl Hs <- Hm Hb Ha Htk Hr Hw.
  apply one_step_release; try done; [..|by destruct Hst as [-> | ->]];
    destruct Hst as [Hst|Hst]; try by apply Hr.
  - destruct (Hw Hst) as [-> _]. destruct Hl as (_ & _ & He & _). rewrite Hst in He.
    destruct (leaseExpiresAt t); [|done]. by destruct He as [_ He]; discriminate He.
  - destruct (Hw Hst) as [_ ->]. destruct Hl as (_ & _ & _ & He). rewrite Hst in He.
    destruct (leaseOwner t); [|done]. by destruct He as [_ He]; discriminate He.
Qed.

(** A finished task is left alone by what follows, whatever [f] does. *)
Lemma after_success_finished x t at_ u :
  task_finished (t_status u) = true → task_finished (t_status t) = false →
  one_step t u → one_step t (after_success x t at_ u).
Proof.
  intros Hf Hft [Hs Hl].
  assert (Hfields : attempt (after_success x t at_ u) = attempt u ∧
    leaseToken (after_success x t at_ u) = leaseToken u ∧
    leaseExpiresAt (after_success x t at_ u) = leaseExpiresAt u ∧
    leaseOwner (after_success x t at_ u) = leaseOwner u).
  { unfold after_success, promote_child, notify_child. by repeat case_match. }
  destruct Hfields as (Ha & Htk & Hle & Ho).
  assert (t_status (after_success x t at_ u) = t_status u) as Hst.
  { destruct (after_success_status x t at_ u) as [?|(Hp & _)]; [done|]. by rewrite Hp in Hf. }
  split.
  - destruct Hs as [H1 H2 H3 H4 H5]. split; rewrite ?Hst, ?Htk; try done.
    + by rewrite after_success_snapshot.
    + by rewrite Hft.
  - intros Hlt. apply (lease_ok_same u); auto. by rewrite Hst.
Qed.

Definition was_active t : Prop := t_status t = T_RUNNING ∨ t_status t = T_WAITING_FOR_APPROVAL.

Lemma was_active_unfinished t : was_active t → task_finished (t_status t) = false.
Proof. by intros [-> | ->]. Qed.

Lemma was_active_not_completed t : was_active t → t_status t ≠ T_COMPLETED.
Proof. by intros [-> | ->]. Qed.

(** *** A task succeeds or fails, by a report or by a decision *)

Section outcome.
Context (cfg : EngineConfig) (db db' : DB) (Hdb : db_inv cfg db) (at_ : ms).
Context (i : oid) (t t' : Task) (x : WorkflowExecution).
Let e := t_executionId t.
Context (Ht : tasks db !! i = Some t) (Ha : was_active t).
Context (Hs : snapshot t' = snapshot t) (Ho : one_step t t').

Lemma outcome_run : t_executionId t' = e.
Proof. apply (snapshot_fields _ _ Hs). Qed.

Section success.
Context (Hx : executions db !! e = Some x) (Hc : t_status t' = T_COMPLETED).
Context (Hrem : remainingDeps t' = remainingDeps t).

Let ts' := on_run e (after_success x t at_) (<[i := t']> (tasks db)).

Lemma success_executionId u : t_executionId (after_success x t at_ u) = t_executionId u.
Proof. apply (snapshot_fields u), after_success_snapshot. Qed.

Lemma success_one_step : one_step t (after_success x t at_ t').
Proof.
  apply after_success_finished; [by rewrite Hc|by apply was_active_unfinished|done].
Qed.

Lemma success_others j u :
  run_tasks (tasks db) e !! j = Some u →
  one_step u (after_success x t at_ u) ∧ waiting_kept u (after_success x t at_ u).
Proof.
  intros Hu. destruct (task_context cfg db Hdb i t Ht) as (y & Hy & Hrun & Hti).
  fold e in Hy. rewrite Hx in Hy. injection Hy as <-.
  apply (after_success_one_step x _ at_ Hrun (di_static _ _ Hdb e) i t j u Hti);
    [by apply was_active_not_completed|done].
Qed.

Lemma success_run_inv :
  run_inv (succeeded_execution x at_) (after_success x t at_ <$> <[i := t']> (run_tasks (tasks db) e)).
Proof.
  destruct (task_context cfg db Hdb i t Ht) as (y & Hy & Hrun & Hti).
  fold e in Hy. rewrite Hx in Hy. injection Hy as <-.
  by apply run_inv_success; [|apply Hdb|..].
Qed.

Lemma success_completed : t_status (after_success x t at_ t') = T_COMPLETED.
Proof. destruct (after_success_status x t at_ t') as [->|(Hp & _)]; congruence. Qed.
End success.
End outcome.

Section reports_good.
Context (cfg : EngineConfig) (i : oid) (token : Z).

Lemma complete_tx_good out : tx_good cfg (complete_tx cfg i token out).
Proof.
  intros r db a db' Hdb H. destruct (holds_lease_dec db i token) as [[t Hl]|Hn].
  2: { rewrite complete_tx_stale in H by done. injection H as <- <-. by apply db_good_refl. }
  destruct Hl as (Ht & Hst & Htk). pose proof (di_lease _ _ Hdb i t Ht) as Hlo.
  destruct (task_context cfg db Hdb i t Ht) as (x & Hx & Hrun & Hti).
  set (t' := completed_task out (now r) t).
  assert (was_active t) as Ha by (by left).
  assert (one_step t t') as Ho.
  { apply (report_one_step t t' T_COMPLETED); try done; [rewrite Hst; auto with wf|].
    by rewrite Hst. }
  destruct (complete_tx_applies cfg r i token db t x (conj Ht (conj Hst Htk)) Hx out)
    as (db2 & Hok & Heff). rewrite Hok in H. injection H as <- <-.
  apply (db_step_task cfg db db2 Hdb i t t' x (succeeded_execution x (now r))
           (after_success x t (now r))); try done.
  - intros u. apply success_executionId.
  - split; [by apply success_one_step|]. unfold waiting_kept.
    rewrite success_completed by done. by rewrite Hst.
  - intros j u Hu _. by eapply success_others.
  - by apply (success_run_inv cfg db Hdb).
  - apply succeeded_step.
Qed.

Lemma failure_executionId x at_ u : t_executionId (fail_fast x at_ u) = t_executionId u.
Proof. apply (snapshot_fields u), fail_fast_snapshot. Qed.

Lemma fail_fast_finished x at_ u : task_finished (t_status u) = true → fail_fast x at_ u = u.
Proof.
  intros Hf. unfold fail_fast. assert (unstarted_task u = false) as ->.
  { unfold unstarted_task. by destruct (t_status u). }
  by rewrite andb_false_r.
Qed.

(** The update of a run whose task [i] failed for good. *)
Lemma failure_run_inv db t t' x at_ error :
  db_inv cfg db → tasks db !! i = Some t → was_active t → snapshot t' = snapshot t →
  t_status t' = T_FAILED ∨ t_status t' = T_DEAD_LETTER →
  executions db !! t_executionId t = Some x →
  run_inv
    (fail_run x (mcount (λ u, of_run (t_executionId t) u && unstarted_task u) (<[i := t']> (tasks db)))
       at_ error)
    (fail_fast x at_ <$> <[i := t']> (run_tasks (tasks db) (t_executionId t))).
Proof.
  intros Hdb Ht Ha Hs Hc Hx. destruct (task_context cfg db Hdb i t Ht) as (y & Hy & Hrun & Hti).
  rewrite Hx in Hy. injection Hy as <-.
  rewrite mcount_of_run, (run_tasks_insert _ _ i t) by (done || apply (snapshot_fields _ _ Hs)).
  by eapply (run_inv_failure x _ i t t' at_ error).
Qed.

Lemma fail_tx_good error : tx_good cfg (fail_tx cfg i token error).
Proof.
  intros r db a db' Hdb H. destruct (holds_lease_dec db i token) as [[t Hl]|Hn].
  2: { rewrite fail_tx_stale in H by done. injection H as <- <-. by apply db_good_refl. }
  pose proof Hl as (Ht & Hst & Htk). pose proof (di_lease _ _ Hdb i t Ht) as Hlo.
  destruct (task_context cfg db Hdb i t Ht) as (x & Hx & Hrun & Hti).
  assert (was_active t) as Ha by (by left).
  destruct (may_retry t x error) eqn:Hr.
  - destruct (fail_tx_retries cfg r i token db t x Hl Hx error Hr) as (db2 & Hok & Heff).
    rewrite Hok in H. injection H as <- <-.
    apply (db_step_one cfg db db2 Hdb i t _ x Ht Hx Heff).
    + eapply (report_one_step t _ T_RETRYING); try done; [rewrite Hst; auto with wf|by rewrite Hst].
    + unfold waiting_kept. by rewrite Hst.
    + apply (run_inv_quiet _ _ i t); try done; [by rewrite Hst|].
      intros Hf. unfold may_retry in Hr. rewrite Hf in Hr. by rewrite andb_false_r in Hr.
  - destruct (fail_tx_fails cfg r i token db t x Hl Hx error Hr) as (db2 & Hok & Heff).
    rewrite Hok in H. injection H as <- <-.
    set (t' := failed_task (fail_outcome t error) (error_message error) (now r) t) in *.
    assert (Hc : t_status t' = T_FAILED ∨ t_status t' = T_DEAD_LETTER) by apply fail_outcome_cases.
    assert (Hf : task_finished (t_status t') = true) by (by destruct Hc as [-> | ->]).
    eapply (db_step_task cfg db db2 Hdb i t t' x _ (fail_fast x (now r)) Ht Hx Heff); try done.
    + intros u. apply failure_executionId.
    + rewrite fail_fast_finished by done. split.
      * eapply (report_one_step t t' _ Ha Hlo); try done; [|by destruct Hc as [-> | ->]|by rewrite Hst].
        rewrite Hst. destruct Hc as [-> | ->]; [auto with wf|].
        by apply (move_compound T_RUNNING T_FAILED T_DEAD_LETTER).
      * unfold waiting_kept. rewrite Hst. by destruct Hc as [-> | ->].
    + intros j u _ _. apply fail_fast_one_step.
    + by apply failure_run_inv.
    + apply failed_step, mcount_nonneg.
Qed.
End reports_good.

(** *** Suspension and decisions *)

Lemma suspend_tx_good cfg i token ask :
  cfg_approvals cfg = true → tx_good cfg (suspend_tx cfg i token ask).
Proof.
  intros Hcfg r db b db' Hdb H. destruct (holds_lease_dec db i token) as [[t Hl]|Hn].
  2: { rewrite suspend_tx_stale in H by done. injection H as <- <-. by apply db_good_refl. }
  pose proof Hl as (Ht & Hst & Htk). pose proof (di_lease _ _ Hdb i t Ht) as Hlo.
  destruct (task_context cfg db Hdb i t Ht) as (x & Hx & Hrun & Hti).
  assert (was_active t) as Ha by (by left).
  pose proof (suspend_tx_inv cfg r i token db t Hl ask _ _ H) as Hok.
  destruct (suspend_tx_applies cfg r i token db t Hl ask Hok) as (db2 & H2 & Heff).
  rewrite H2 in H. injection H as <- <-. destruct Hok as (_ & _ & Hnew).
  set (a := fresh (dom (approvals db))) in *.
  assert (approvals db !! a = None) as Hfresh by (apply not_elem_of_dom, is_fresh).
  eapply (db_step_run cfg db db2 _ Hdb (t_executionId t) x x); [done| | | | | | |].
  - rewrite insert_id by done. exact Heff.
  - apply (run_step_insert _ i t); [done|done|].
    eapply (report_one_step t _ T_WAITING_FOR_APPROVAL); try done; [rewrite Hst; auto with wf|by rewrite Hst].
  - rewrite (run_tasks_insert _ _ i t) by done. apply (run_inv_quiet _ _ i t); try done. by rewrite Hst.
  - apply (approvals_inv_requested _ _ a (new_approval i t ask (now r)) t); try done. apply Hdb.
  - by rewrite Hcfg.
  - reflexivity.
  - intros c p Hp. exists p. rewrite lookup_insert_ne by (intros ->; congruence).
    split; [done|reflexivity].
Qed.

Lemma resolved_snapshot d at_ t : snapshot (resolved_task d at_ t) = snapshot t.
Proof. unfold resolved_task, decided_task. by destruct (is_approved _). Qed.

Lemma resolved_one_step d at_ t :
  lease_ok t → t_status t = T_WAITING_FOR_APPROVAL → one_step t (resolved_task d at_ t).
Proof.
  intros Hlo Hw. eapply (report_one_step t); try done; [by right|apply resolved_snapshot|..];
    unfold resolved_task, decided_task; try (by destruct (is_approved _)).
  - rewrite Hw. destruct (is_approved _); auto with wf.
  - by rewrite Hw.
Qed.

(** A decision about task [p_taskId p], whatever follows it. *)
Section decision.
Context (cfg : EngineConfig) (db db' : DB) (Hdb : db_inv cfg db) (a : oid) (d : Decision_) (at_ : ms).
Context (p : ApprovalRequest) (t : Task) (x : WorkflowExecution).
Context (Hap : approvals db !! a = Some p) (Hps : p_status p = P_PENDING).
Context (Ht : tasks db !! p_taskId p = Some t) (Hrunp : t_executionId t = p_executionId p).
Let e := t_executionId t.
Context (Hx : executions db !! e = Some x).
Let ps := <[a := decided d at_ p]> (approvals db).
Let t' := resolved_task d at_ t.

Lemma decided_not_pending : p_status (decided d at_ p) ≠ P_PENDING.
Proof. simpl. by destruct (d_decision d). Qed.

Lemma decided_steps c q :
  approvals db !! c = Some q → ∃ q', ps !! c = Some q' ∧ approval_step q q'.
Proof.
  intros Hq. unfold ps. destruct (decide (a = c)) as [<-|Hne].
  - rewrite lookup_insert_eq. eexists; split; [done|]. rewrite Hap in Hq. injection Hq as <-.
    by split.
  - rewrite lookup_insert_ne by done. exists q. split; [done|reflexivity].
Qed.

Lemma decision_step x' f :
  effect (with_approvals db ps) db' (<[e := x']> (executions db))
    (on_run e f (<[p_taskId p := t']> (tasks db))) →
  (∀ u, t_executionId (f u) = t_executionId u) → one_step t (f t') →
  task_finished (t_status (f t')) = true →
  (∀ j u, run_tasks (tasks db) e !! j = Some u → one_step u (f u) ∧ waiting_kept u (f u)) →
  run_inv x' (f <$> <[p_taskId p := t']> (run_tasks (tasks db) e)) →
  execution_step x x' → db_inv cfg db' ∧ db_guar db db'.
Proof.
  intros He Hf Ho Hfin Hall Hri Hxs.
  assert (Hrunt : t_executionId t' = e) by apply (snapshot_fields t), resolved_snapshot.
  apply (db_step_run cfg db db' _ Hdb _ x x' _ Hx He); try done.
  - apply (run_step_on_run _ f _ t); try done. intros j u _ Hj Hu.
    by apply (Hall j u), run_tasks_Some.
  - rewrite run_tasks_on_run by done. by rewrite (run_tasks_insert _ _ _ t).
  - apply (approvals_inv_decided (approvals db) (tasks db) _ a p _ (f t')); try done.
    + apply Hdb.
    + apply decided_not_pending.
    + unfold on_run. rewrite lookup_fmap, lookup_insert_eq. simpl. unfold of_run.
      by rewrite bool_decide_eq_true_2.
    + by rewrite Hf, Hrunt.
    + intros j Hne. unfold on_run. rewrite lookup_fmap, lookup_insert_ne by done.
      destruct (tasks db !! j) as [u|] eqn:Hj; simpl; constructor. unfold of_run.
      case_bool_decide as Hr; [|by split].
      destruct (Hall j u) as [[? _] ?]; [by apply run_tasks_Some|done].
  - intros Hc. rewrite (di_configured _ _ Hdb Hc), lookup_empty in Hap. done.
  - apply decided_steps.
Qed.
End decision.

Lemma resolve_tx_good cfg a d scope : tx_good cfg (resolve_tx cfg a d scope).
Proof.
  intros r db b db' Hdb H. destruct (decidable_dec a scope db) as [[p Hp]|Hn].
  2: { rewrite resolve_tx_miss in H by done. injection H as <- <-. by apply db_good_refl. }
  pose proof Hp as (Hap & Hps & Hsc).
  destruct (ai_task _ _ (di_approvals _ _ Hdb) a p Hap) as (t & Ht & Hrunp & Hw).
  rewrite bool_decide_eq_true_2 in Hw by done.
  destruct (task_context cfg db Hdb _ t Ht) as (x & Hx & Hrun & Hti).
  pose proof (di_lease _ _ Hdb _ t Ht) as Hlo. assert (was_active t) as Ha by (by right).
  destruct (resolve_tx_applies cfg r a d scope db p t x Hp Ht Hw Hx) as (db2 & Hok & Heff).
  rewrite Hok in H. injection H as <- <-.
  pose proof (resolved_one_step d (now r) t Hlo Hw) as Hone.
  pose proof (resolved_snapshot d (now r) t) as Hsn.
  assert (Hc : t_status (resolved_task d (now r) t) =
    if is_approved (d_decision d) then T_COMPLETED else T_FAILED) by done.
  destruct (is_approved (d_decision d)) eqn:Happ.
  - apply (decision_step cfg db db2 Hdb a d (now r) p t x Hap Hps Ht Hrunp Hx _ _ Heff).
    + intros u. apply success_executionId.
    + apply after_success_finished; [by rewrite Hc|by apply was_active_unfinished|done].
    + destruct (after_success_status x t (now r) (resolved_task d (now r) t)) as [->|(Hq & _)];
        [by rewrite Hc|congruence].
    + intros j u Hu. by apply (success_others cfg db Hdb _ (p_taskId p) t x Ht Ha Hx j).
    + apply (success_run_inv cfg db Hdb); try done.
      unfold resolved_task, decided_task. by destruct (is_approved _).
    + apply succeeded_step.
  - destruct Heff as [error Heff].
    assert (Hf : fail_fast x (now r) (resolved_task d (now r) t) = resolved_task d (now r) t)
      by (apply fail_fast_finished; by rewrite Hc).
    apply (decision_step cfg db db2 Hdb a d (now r) p t x Hap Hps Ht Hrunp Hx _ _ Heff).
    + intros u. apply failure_executionId.
    + by rewrite Hf.
    + by rewrite Hf, Hc.
    + intros j u _. apply fail_fast_one_step.
    + apply (failure_run_inv cfg (p_taskId p) db t); try done. by left.
    + apply failed_step, mcount_nonneg.
Qed.

(** *** Pause, resume, cancel *)

Lemma on_run_same e ts : ts = on_run e (λ t, t) ts.
Proof. by rewrite on_run_id. Qed.

Lemma execution_cases db e (p : WorkflowExecution → Prop) `{∀ x, Decision (p x)} :
  (∃ x, executions db !! e = Some x ∧ p x) ∨ (∀ x, executions db !! e = Some x → ¬ p x).
Proof.
  destruct (executions db !! e) as [x|]; [|by right].
  destruct (decide (p x)); [left; eauto|right]. by intros ? [= <-].
Qed.

Lemma pause_tx_good cfg e : tx_good cfg (pause_tx cfg e).
Proof.
  intros r db b db' Hdb H.
  destruct (execution_cases db e (λ x, x_status x = E_RUNNING)) as [(x & Hx & Hr)|Hn].
  2: { rewrite pause_tx_miss in H by done. injection H as <- <-. by apply db_good_refl. }
  destruct (pause_tx_applies cfg r e db x Hx Hr) as (db2 & Hok & Heff).
  rewrite Hok in H. injection H as <- <-. rewrite (on_run_same e (tasks db)) in Heff.
  apply (db_step_all cfg db db2 Hdb e x _ (λ t, t) Hx Heff); try done.
  - rewrite map_fmap_id. apply run_inv_pause; [by apply Hdb|done].
  - split; try done. simpl. rewrite Hr. auto with wf.
Qed.

Lemma promote_executionId at_ u : t_executionId (promote at_ u) = t_executionId u.
Proof. unfold promote. by destruct (promotable u). Qed.

Lemma resume_tx_good cfg e : tx_good cfg (resume_tx cfg e).
Proof.
  intros r db b db' Hdb H.
  destruct (execution_cases db e (λ x, x_status x = E_PAUSED)) as [(x & Hx & Hp)|Hn].
  2: { rewrite resume_tx_miss in H by done. injection H as <- <-. by apply db_good_refl. }
  destruct (resume_tx_applies cfg r e db x Hx Hp) as (db2 & Hok & Heff).
  rewrite Hok in H. injection H as <- <-.
  apply (db_step_all cfg db db2 Hdb e x _ _ Hx Heff).
  - apply promote_executionId.
  - apply promote_one_step.
  - apply run_inv_resume; [by apply Hdb|done].
  - by apply resumed_step.
Qed.

Lemma cancel_executionId at_ u : t_executionId (cancel_one at_ u) = t_executionId u.
Proof. apply (snapshot_fields u), cancel_one_snapshot. Qed.

Lemma close_requests_step cfg e at_ ps a p :
  ps !! a = Some p → ∃ p', close_requests cfg e at_ ps !! a = Some p' ∧ approval_step p p'.
Proof.
  intros Hp. unfold close_requests. destruct (cfg_approvals cfg); [|exists p; by split].
  rewrite lookup_fmap, Hp. simpl. eexists; split; [done|]. unfold close_request.
  destruct (bool_decide_reflect (p_status p = P_PENDING)); [|by rewrite andb_false_r].
  destruct (bool_decide _); by split.
Qed.

Lemma cancel_tx_good cfg e : tx_good cfg (cancel_tx cfg e).
Proof.
  intros r db b db' Hdb H.
  destruct (execution_cases db e (λ x, live (x_status x) = true)) as [(x & Hx & Hl)|Hn].
  2: { rewrite cancel_tx_miss in H; [injection H as <- <-; by apply db_good_refl|].
       intros x Hx. by apply not_true_is_false, Hn. }
  destruct (cancel_tx_applies cfg r e db x Hx Hl) as (db2 & Hok & Heff).
  rewrite Hok in H. injection H as <- <-.
  assert (Hai : approvals_inv (close_request e (now r) <$> approvals db)
                  (on_run e (cancel_one (now r)) (tasks db))).
  { apply (approvals_inv_closed _ (tasks db)); [apply Hdb|]. intros j. unfold on_run.
    rewrite lookup_fmap. destruct (tasks db !! j) as [u|]; simpl; constructor.
    unfold of_run. case_bool_decide; split_and!; try done.
    - apply cancel_one_one_step.
    - intros _. apply cancel_one_finished. }
  apply (db_step_run cfg db db2 _ Hdb e x _ _ Hx Heff).
  - apply run_step_fmap. intros j u _ _. apply cancel_one_one_step.
  - rewrite run_tasks_on_run by apply cancel_executionId. rewrite mcount_of_run.
    by apply run_inv_cancel, Hdb.
  - unfold close_requests. destruct (cfg_approvals cfg) eqn:Hc; [done|].
    rewrite (di_configured _ _ Hdb Hc) in *. by rewrite fmap_empty in Hai.
  - intros Hc. unfold close_requests. rewrite Hc. by apply (di_configured _ _ Hdb).
  - apply cancelled_step; [apply mcount_nonneg|done].
  - intros a p. apply close_requests_step.
Qed.

(** *** Updates of one task *)

Lemma effect_tasks db ts : effect db (with_tasks db ts) (executions db) ts.
Proof. split; try done. unfold log_extends. exists []. by rewrite app_nil_r, Nat.add_0_r. Qed.

Lemma claim_tx_good cfg i wk ls : tx_good cfg (claimTask i wk ls).
Proof.
  intros r db b db' Hdb H. rewrite claimTask_spec in H.
  destruct (tasks db !! i) as [t|] eqn:Ht; [|injection H as <- <-; by apply db_good_refl].
  destruct (claimable (NOW r) t) eqn:Hc; injection H as <- <-; [|by apply db_good_refl].
  destruct (task_context cfg db Hdb _ t Ht) as (x & Hx & Hrun & Hti).
  assert (Hst : t_status t = T_QUEUED ∨ t_status t = T_RETRYING ∨ t_status t = T_RUNNING).
  { unfold claimable in Hc. destruct (t_status t); auto; done. }
  pose proof (di_lease _ _ Hdb i t Ht) as Hlo.
  apply (db_step_one cfg db _ Hdb i t (claim_update wk ls (NOW r) t) x Ht Hx); [apply effect_tasks| | |].
  - split; [split; try done|].
    + destruct Hst as [-> | [-> | ->]]; simpl; [auto with wf| |auto with wf].
      by apply (move_compound T_RETRYING T_QUEUED T_RUNNING).
    + apply Z.le_succ_diag_r.
    + intros He. by apply Z.neq_succ_diag_l in He.
    + by destruct Hst as [-> | [-> | ->]].
    + intros (Ha & H0 & _). unfold lease_ok. split_and!; [by apply (f_equal Z.succ)| |..];
        [by apply Z.le_le_succ_r|split; eauto; done..].
  - unfold waiting_kept. by destruct Hst as [-> | [-> | ->]].
  - apply (run_inv_quiet _ _ i t); try done. by destruct Hst as [-> | [-> | ->]].
Qed.

Lemma renew_tx_good cfg i tok ls : tx_good cfg (renewTaskLease i tok ls).
Proof.
  intros r db b db' Hdb H. rewrite renewTaskLease_spec in H.
  destruct (tasks db !! i) as [t|] eqn:Ht; [|injection H as <- <-; by apply db_good_refl].
  destruct (_ && _) eqn:Hc; injection H as <- <-; [|by apply db_good_refl].
  apply andb_true_iff in Hc as [Hst%bool_decide_eq_true _].
  destruct (task_context cfg db Hdb _ t Ht) as (x & Hx & Hrun & Hti).
  pose proof (di_lease _ _ Hdb i t Ht) as Hlo.
  eapply (db_step_one cfg db _ Hdb i t _ x Ht Hx); [apply effect_tasks| | |].
  - split; [split; try done; auto with wf|].
    + by rewrite Hst.
    + intros (? & ? & ? & ?). split_and!; try done.
  - by unfold waiting_kept.
  - apply (run_inv_quiet _ _ i t); try done; [by rewrite Hst|etrans; [exact (f_equal active Hst)|done]|].
    intros _. exact (f_equal (status_in unstarted) Hst).
Qed.

Lemma dispatch_tx_good cfg i :
  tx_good cfg (λ r, transitionTask i T_READY T_QUEUED (λ t, t {{ queuedAt := Some (now r) }}) (λ _, true)).
Proof.
  intros r db b db' Hdb H. rewrite transitionTask_spec in H by done.
  destruct (tasks db !! i) as [t|] eqn:Ht; [|injection H as <- <-; by apply db_good_refl].
  simpl in H. case_bool_decide as Hst; injection H as <- <-; [|by apply db_good_refl].
  destruct (task_context cfg db Hdb _ t Ht) as (x & Hx & Hrun & Hti).
  eapply (db_step_one cfg db _ Hdb i t _ x Ht Hx); [apply effect_tasks| | |].
  - apply one_step_move; try done; simpl; rewrite Hst; auto with wf; by split.
  - unfold waiting_kept. by rewrite Hst.
  - apply (run_inv_quiet _ _ i t); try done; [by rewrite Hst|].
    intros Hf. pose proof (ri_failed _ _ Hrun i t Hf Hti) as Hu. by rewrite Hst in Hu.
Qed.

(** *** Steps that leave the tasks alone *)

Lemma quiet_good cfg db db' :
  executions db' = executions db → tasks db' = tasks db → approvals db' = approvals db →
  log_extends db db' → db_inv cfg db → db_inv cfg db' ∧ db_guar db db'.
Proof.
  intros Hxs Hts Hps Hlog Hdb. split; split; rewrite ?Hxs, ?Hts, ?Hps; try apply Hdb.
  - by apply (outbox_inv_extends db), Hdb.
  - intros i t Ht. by exists t.
  - intros e x Hx. by exists x.
  - intros a p Hp. by exists p.
  - done.
Qed.

Lemma emit_good cfg ty e pl : tx_good cfg (λ r, emit cfg r ty e pl).
Proof.
  intros r db [] db' Hdb H. destruct (emit_effect cfg r ty e pl db) as (db2 & Hok & []).
  rewrite Hok in H. injection H as <-. by apply quiet_good.
Qed.

Lemma abandon_good cfg i n : tx_good cfg (abandon_attempts i n).
Proof.
  intros r db b db' Hdb [= <- <-]. apply (quiet_good cfg db); [done..| |done].
  exists []. by rewrite app_nil_r, Nat.add_0_r.
Qed.

Lemma create_attempt_good cfg i t wk : tx_good cfg (create_attempt i t wk).
Proof.
  intros r db b db' Hdb H. unfold create_attempt in H. tx_inv.
  destruct (attempts _ !! _); [done|]. tx_inv. apply (quiet_good cfg); [done..| |done].
  exists []. by rewrite app_nil_r, Nat.add_0_r.
Qed.
