(* ===== verification/EngineStart.v ===== *)
(** * A new run satisfies the invariant

    [startExecution] builds the children lists and one task document per
    definition.  For a graph that [validateDag] accepts, the lists are the
    inverse of the dependency lists and the new run satisfies [run_inv]. *)

From S2P Require Import Prelude Program States Dag DagFacts DagSpec Models Retry TaskRepo.
From S2P Require Import Dispatcher Engine RunInv EngineTx EngineInv.

(** ** The children lists *)

Lemma push_dependents_spec k deps (m : gmap string (list string)) :
  (∀ d, d ∈ deps → is_Some (m !! d)) →
  ∃ m', foldl (push_dependent k) (Ok m) deps = Ok m' ∧
    ∀ q, m' !! q = (λ l, l ++ ((λ _, k) <$> filter (q =.) deps)) <$> m !! q.
Proof.
  revert m. induction deps as [|d deps IH]; intros m Hd.
  - exists m. split; [done|]. intros q. simpl. destruct (m !! q); simpl; by rewrite ?app_nil_r.
  - destruct (Hd d) as [l Hl]; [left|]. simpl. rewrite Hl. simpl.
    destruct (IH (<[d := l ++ [k]]> m)) as (m' & -> & Hm').
    { intros q Hq. destruct (decide (d = q)) as [<-|]; [rewrite lookup_insert_eq; eauto|].
      rewrite lookup_insert_ne by done. apply Hd. by right. }
    exists m'. split; [done|]. intros q. rewrite Hm', filter_cons.
    destruct (decide (q = d)) as [->|Hne].
    + rewrite lookup_insert_eq, Hl. simpl. by rewrite <- app_assoc.
    + by rewrite lookup_insert_ne.
Qed.

(** The keys of the definitions that list [q], once per occurrence. *)
Definition children_list (defs : list TaskDefinition) (q : string) : list string :=
  mjoin ((λ d, (λ _, td_key d) <$> filter (q =.) (td_dependsOn d)) <$> defs).

Lemma elem_of_children_list defs q k :
  k ∈ children_list defs q ↔ ∃ d, d ∈ defs ∧ td_key d = k ∧ q ∈ td_dependsOn d.
Proof.
  unfold children_list. rewrite list_elem_of_join. split.
  - intros (l & Hk & (d & -> & Hd)%list_elem_of_fmap).
    apply list_elem_of_fmap in Hk as (q' & -> & Hq). apply list_elem_of_filter in Hq as [<- Hq]. eauto.
  - intros (d & Hd & <- & Hq). eexists. split; [|apply list_elem_of_fmap; eauto].
    apply list_elem_of_fmap. exists q. split; [done|]. by apply list_elem_of_filter.
Qed.

Lemma dependents_fold_spec defs (m : gmap string (list string)) :
  (∀ d q, d ∈ defs → q ∈ td_dependsOn d → is_Some (m !! q)) →
  ∃ m', foldl (λ m d, foldl (push_dependent (td_key d)) m (td_dependsOn d)) (Ok m) defs = Ok m' ∧
    ∀ q, m' !! q = (λ l, l ++ children_list defs q) <$> m !! q.
Proof.
  revert m. induction defs as [|d defs IH]; intros m Hd.
  - exists m. split; [done|]. intros q. simpl. unfold children_list. simpl.
    destruct (m !! q); simpl; by rewrite ?app_nil_r.
  - simpl. destruct (push_dependents_spec (td_key d) (td_dependsOn d) m) as (m1 & -> & Hm1).
    { intros q. apply Hd. left. }
    destruct (IH m1) as (m' & -> & Hm').
    { intros d' q Hd' Hq. rewrite Hm1. destruct (Hd d' q) as [l ->]; [by right|done|]. simpl. eauto. }
    exists m'. split; [done|]. intros q. rewrite Hm', Hm1. destruct (m !! q); simpl; [|done].
    unfold children_list. simpl. by rewrite <- app_assoc.
Qed.

Lemma keys_defs defs : keys (dag_task <$> defs) = td_key <$> defs.
Proof. unfold keys. by rewrite <- list_fmap_compose. Qed.

Lemma depends_defs defs k q :
  depends (dag_task <$> defs) k q ↔ ∃ d, d ∈ defs ∧ td_key d = k ∧ q ∈ td_dependsOn d.
Proof.
  unfold depends. split.
  - intros (t & (d & -> & Hd)%list_elem_of_fmap & Hk & Hq). eauto.
  - intros (d & Hd & Hk & Hq). exists (dag_task d). split; [|done]. apply list_elem_of_fmap. eauto.
Qed.

Lemma dependents_of_spec defs :
  sound (dag_task <$> defs) →
  ∃ m, dependents_of defs = Ok m ∧
    ∀ d, d ∈ defs → default [] (m !! td_key d) = children_list defs (td_key d).
Proof.
  intros Hs. set (m0 := list_to_map ((λ d, (td_key d, [])) <$> defs) : gmap string (list string)).
  assert (Hm0 : ∀ d, d ∈ defs → m0 !! td_key d = Some []).
  { intros d Hd. apply elem_of_list_to_map.
    - rewrite <- list_fmap_compose. pose proof (sound_keys _ Hs) as Hnd. unfold keys in Hnd.
      by rewrite <- list_fmap_compose in Hnd.
    - apply list_elem_of_fmap. eauto. }
  destruct (dependents_fold_spec defs m0) as (m & Hm & Hlk).
  - intros d q Hd Hq. assert (q ∈ td_key <$> defs) as (d' & -> & Hd')%list_elem_of_fmap.
    { rewrite <- keys_defs. apply (sound_known _ Hs (td_key d)). apply depends_defs. eauto. }
    rewrite Hm0 by done. eauto.
  - exists m. split; [done|]. intros d Hd. by rewrite Hlk, Hm0.
Qed.

(** ** Inserting the task documents *)

Section insert_all.
Context {A : Type} (l : list A) (m : gmap oid A).

Definition new_map : gmap oid A := list_to_map (zip (fresh_list (length l) (dom m)) l).

Lemma new_ids : NoDup (zip (fresh_list (length l) (dom m)) l).*1.
Proof. rewrite fst_zip by (by rewrite length_fresh_list). apply NoDup_fresh_list. Qed.

Lemma new_map_Some i x :
  new_map !! i = Some x ↔ (i, x) ∈ zip (fresh_list (length l) (dom m)) l.
Proof. unfold new_map. symmetry. apply elem_of_list_to_map, new_ids. Qed.

Lemma new_map_elem i x : new_map !! i = Some x → x ∈ l.
Proof. intros H%new_map_Some. by apply elem_of_zip_r in H. Qed.

Lemma new_map_of x : x ∈ l → ∃ i, new_map !! i = Some x.
Proof.
  intros (n & Hn)%list_elem_of_lookup.
  destruct (lookup_lt_is_Some_2 (fresh_list (length l) (dom m)) n) as [i Hi].
  { rewrite length_fresh_list. by eapply lookup_lt_Some. }
  exists i. apply new_map_Some, list_elem_of_lookup. exists n. apply lookup_zip_Some. done.
Qed.

Lemma new_map_fresh i x : new_map !! i = Some x → m !! i = None.
Proof.
  intros H%new_map_Some. apply elem_of_zip_l in H. apply not_elem_of_dom.
  by eapply fresh_list_is_fresh.
Qed.

Lemma insert_all_Some i x :
  insert_all l m !! i = Some x ↔ new_map !! i = Some x ∨ m !! i = Some x.
Proof.
  unfold insert_all. fold new_map. rewrite lookup_union_Some_raw. split.
  - intros [?|[_ ?]]; auto.
  - intros [?|Hi]; [auto|]. destruct (new_map !! i) as [y|] eqn:Hy; [|auto].
    apply new_map_fresh in Hy. congruence.
Qed.

Lemma mcount_new_map (p : A → bool) :
  mcount p new_map = Z.of_nat (length (filter (λ x, p x = true) l)).
Proof.
  unfold new_map. pose proof new_ids as Hnd. revert Hnd.
  generalize (length_fresh_list (length l) (dom m)).
  generalize (fresh_list (length l) (dom m)) as ids. induction l as [|x l' IH]; intros ids Hlen Hnd.
  - destruct ids; [|done]. simpl. by rewrite mcount_empty.
  - destruct ids as [|i ids]; [done|]. simpl in *. apply NoDup_cons in Hnd as [Hni Hnd].
    rewrite mcount_insert_new by (by apply not_elem_of_list_to_map).
    rewrite IH by (done || lia). rewrite filter_cons. unfold b2z.
    destruct (p x); simpl; lia.
Qed.

Lemma size_new_map : size new_map = length l.
Proof.
  unfold new_map. rewrite map_size_list_to_map by apply new_ids.
  rewrite length_zip_with_l_eq; [by rewrite length_fresh_list|by rewrite length_fresh_list].
Qed.

Lemma new_map_inj i j x y (f : A → string) :
  NoDup (f <$> l) → new_map !! i = Some x → new_map !! j = Some y → f x = f y → i = j.
Proof.
  intros Hnd Hi%new_map_Some Hj%new_map_Some Hf.
  apply list_elem_of_lookup in Hi as (n & Hi), Hj as (k & Hj).
  apply lookup_zip_Some in Hi as [Hi Hx], Hj as [Hj Hy].
  assert (n = k) as <-; [|congruence].
  apply (NoDup_lookup (f <$> l) n k (f x)); [done|..]; rewrite list_lookup_fmap.
  - by rewrite Hx.
  - by rewrite Hy, Hf.
Qed.
End insert_all.

(** ** The new run *)

Section created.
Context (w : Workflow) (p : StartParams) (children : gmap string (list string)) (e : oid) (at_ : ms).
Let defs := wf_tasks w.
Context (Hs : sound (dag_task <$> defs)).
Context (Hrank : ∃ rk : string → nat, ∀ k d, depends (dag_task <$> defs) k d → rk d < rk k).
Context (Hch : ∀ d, d ∈ defs → default [] (children !! td_key d) = children_list defs (td_key d)).
Context (ts : gmap oid Task).

Let doc := task_of_definition e (wf_ownerId w) at_ children.
Let m := new_map (doc <$> defs) ts.

Lemma def_keys_NoDup : NoDup (td_key <$> defs).
Proof. rewrite <- keys_defs. apply Hs. Qed.

Lemma def_key_inj d d' : d ∈ defs → d' ∈ defs → td_key d = td_key d' → d = d'.
Proof.
  intros (i & Hi)%list_elem_of_lookup (j & Hj)%list_elem_of_lookup Hk.
  assert (i = j) as <-; [|congruence].
  apply (NoDup_lookup (td_key <$> defs) i j (td_key d)); [apply def_keys_NoDup|..];
    rewrite list_lookup_fmap; [by rewrite Hi|by rewrite Hj, Hk].
Qed.

Lemma def_deps_NoDup d : d ∈ defs → NoDup (td_dependsOn d).
Proof.
  intros Hd. apply (sound_deps _ Hs (dag_task d)). apply list_elem_of_fmap. eauto.
Qed.

Lemma def_known d q : d ∈ defs → q ∈ td_dependsOn d → ∃ d', d' ∈ defs ∧ td_key d' = q.
Proof.
  intros Hd Hq. assert (q ∈ td_key <$> defs) as (d' & -> & Hd')%list_elem_of_fmap; [|eauto].
  rewrite <- keys_defs. apply (sound_known _ Hs (td_key d)). apply depends_defs. eauto.
Qed.

Lemma created_lookup i t : m !! i = Some t → ∃ d, d ∈ defs ∧ t = doc d.
Proof. intros (d & -> & Hd)%new_map_elem%list_elem_of_fmap. eauto. Qed.

Lemma created_keys : t_key <$> (doc <$> defs) = td_key <$> defs.
Proof. by rewrite <- list_fmap_compose. Qed.

Lemma created_static : static_ok m.
Proof.
  split.
  - intros i j t u Hi Hj. apply (new_map_inj (doc <$> defs) ts i j t u t_key); [|done..].
    rewrite created_keys. apply def_keys_NoDup.
  - intros i t q Hi Hq. destruct (created_lookup i t Hi) as (d & Hd & ->).
    destruct (def_known d q Hd Hq) as (d' & Hd' & <-).
    destruct (new_map_of (doc <$> defs) ts (doc d')) as [j Hj]; [apply list_elem_of_fmap; eauto|].
    by exists j, (doc d').
  - intros i j t u Hi Hj. destruct (created_lookup i t Hi) as (d & Hd & ->).
    destruct (created_lookup j u Hj) as (d' & Hd' & ->). simpl. rewrite (Hch d Hd).
    rewrite elem_of_children_list. split.
    + intros (d2 & Hd2 & Hk & Hq). by rewrite <- (def_key_inj d2 d').
    + intros Hq. by exists d'.
  - destruct Hrank as [rk Hrk]. exists rk. intros i t q Hi Hq.
    destruct (created_lookup i t Hi) as (d & Hd & ->). apply Hrk, depends_defs. eauto.
Qed.

(** Every listed dependency is one task of the run. *)
Lemma created_dep_count d :
  d ∈ defs → mcount (key_in (td_dependsOn d)) m = Z.of_nat (length (td_dependsOn d)).
Proof.
  intros Hd. unfold m. rewrite mcount_new_map. f_equal.
  transitivity (length (filter (.∈ td_dependsOn d) (td_key <$> defs))).
  - rewrite <- created_keys. generalize (doc <$> defs) as l. intros l. induction l as [|t l IH]; [done|].
    rewrite fmap_cons, !filter_cons. unfold key_in.
    destruct (decide (t_key t ∈ td_dependsOn d)) as [Hin|Hin].
    + rewrite decide_True by (by apply bool_decide_eq_true). simpl. by f_equal.
    + rewrite decide_False by (by rewrite bool_decide_eq_false_2). done.
  - apply Permutation_length, NoDup_Permutation.
    + apply NoDup_filter, def_keys_NoDup.
    + by apply def_deps_NoDup.
    + intros q. rewrite list_elem_of_filter. split; [by intros [? _]|]. intros Hq. split; [done|].
      destruct (def_known d q Hd Hq) as (d' & Hd' & <-). apply list_elem_of_fmap. eauto.
Qed.

Lemma created_run_inv : run_inv (new_execution w p at_) m.
Proof.
  apply run_inv_created; try done.
  - unfold m. rewrite size_new_map, length_fmap. done.
  - intros i t (d & Hd & ->)%created_lookup. split_and!; [|done|by apply created_dep_count].
    simpl. apply (f_equal (λ b : bool, if b then T_READY else T_PENDING)), bool_decide_ext.
    by destruct (td_dependsOn d).
Qed.
End created.

(** ** The transaction is good *)

Definition startable (w : Workflow) (children : gmap string (list string)) : Prop :=
  sound (dag_task <$> wf_tasks w) ∧
  (∃ rk : string → nat, ∀ k d, depends (dag_task <$> wf_tasks w) k d → rk d < rk k) ∧
  (∀ d, d ∈ wf_tasks w → default [] (children !! td_key d) = children_list (wf_tasks w) (td_key d)).

(** The graphs [validateDag] accepts are startable, and the children lists never throw. *)
Lemma valid_startable w r :
  validateDag (dag_task <$> wf_tasks w) = Some (Ok r) → valid r = true →
  ∃ children, dependents_of (wf_tasks w) = Ok children ∧ startable w children.
Proof.
  intros Hv Hok. destruct (validateDag_rank _ _ Hv Hok) as [Hs Hrk].
  destruct (dependents_of_spec _ Hs) as (children & Hm & Hch). by exists children.
Qed.

Lemma run_tasks_created ts e new :
  (∀ i t, ts !! i = Some t → t_executionId t ≠ e) → (∀ t, t ∈ new → t_executionId t = e) →
  run_tasks (insert_all new ts) e = new_map new ts.
Proof.
  intros Hold Hnew. apply map_eq. intros i. apply option_eq. intros t.
  rewrite run_tasks_Some, insert_all_Some. split.
  - intros [[?|Hi] He]; [done|]. by destruct (Hold i t Hi).
  - intros Hi. split; [by left|]. by eapply Hnew, new_map_elem.
Qed.

Lemma run_tasks_created_other ts e e' new :
  (∀ t, t ∈ new → t_executionId t = e) → e' ≠ e →
  run_tasks (insert_all new ts) e' = run_tasks ts e'.
Proof.
  intros Hnew Hne. apply map_eq. intros i. apply option_eq. intros t.
  rewrite !run_tasks_Some, insert_all_Some. split.
  - intros [[Hi|Hi] He]; [|done]. apply new_map_elem in Hi. by rewrite Hnew in He.
  - intros [Hi He]. auto.
Qed.

Lemma definition_task_ok e owner at_ children d :
  let t := task_of_definition e owner at_ children d in
  lease_ok t ∧ t_status t ≠ T_WAITING_FOR_APPROVAL.
Proof.
  simpl. split; [|by destruct (bool_decide _)].
  assert (Hn : ∀ b : bool, (if b then T_READY else T_PENDING) ≠ T_RUNNING) by (by intros []).
  split_and!; try done; (split; [by intros ?%Hn|by intros [? ?]]).
Qed.

(** A new run [e] is added to the database. *)
Section new_run.
Context (cfg : EngineConfig) (db db' : DB) (Hdb : db_inv cfg db) (e : oid) (x : WorkflowExecution).
Context (new : list Task) (He : executions db !! e = None).
Context (Heff : effect db db' (<[e := x]> (executions db)) (insert_all new (tasks db))).
Context (Hnew : ∀ t, t ∈ new → t_executionId t = e ∧ lease_ok t ∧ t_status t ≠ T_WAITING_FOR_APPROVAL).
Context (Hfree : keys_unique (<[e := x]> (executions db))).
Context (Hst : static_ok (new_map new (tasks db))) (Hrun : run_inv x (new_map new (tasks db))).

Lemma new_run_lookup i t : tasks db' !! i = Some t → t ∈ new ∨ tasks db !! i = Some t.
Proof.
  rewrite (ef_tasks _ _ _ _ Heff), insert_all_Some. intros [Hi|]; [left|by right].
  by eapply new_map_elem.
Qed.

Lemma new_run_keeps i t : tasks db !! i = Some t → tasks db' !! i = Some t.
Proof. rewrite (ef_tasks _ _ _ _ Heff), insert_all_Some. by right. Qed.

Lemma new_run_tasks e' :
  run_tasks (tasks db') e' =
  if decide (e' = e) then new_map new (tasks db) else run_tasks (tasks db) e'.
Proof.
  rewrite (ef_tasks _ _ _ _ Heff). destruct (decide (e' = e)) as [->|Hne].
  - apply run_tasks_created; [|intros t Ht; by apply Hnew].
    intros i t Ht Heq. destruct (di_exec _ _ Hdb i t Ht) as [y Hy]. congruence.
  - apply (run_tasks_created_other _ e); [|done]. intros t Ht. by apply Hnew.
Qed.

Lemma new_run_approvals : approvals_inv (approvals db') (tasks db').
Proof.
  rewrite (ef_approvals _ _ _ _ Heff). destruct (di_approvals _ _ Hdb) as [Hat Hu Hw]. split.
  - intros a p Hp. destruct (Hat a p Hp) as (t & Ht & Hok). exists t.
    split; [by apply new_run_keeps|done].
  - done.
  - intros i t Ht Hwt. destruct (new_run_lookup i t Ht) as [Hin|Hi]; [|by apply (Hw i t)].
    by destruct (Hnew t Hin) as (_ & _ & ?).
Qed.

Lemma new_run_good : db_inv cfg db' ∧ db_guar db db'.
Proof.
  pose proof Heff as [Hxs Hts Hps Hlog]. split; split.
  - intros i t Ht. rewrite Hxs. destruct (new_run_lookup i t Ht) as [Hin|Hi].
    + destruct (Hnew t Hin) as (-> & _). rewrite lookup_insert_eq. eauto.
    + apply lookup_insert_is_Some'. right. by apply (di_exec _ _ Hdb i).
  - intros e'. rewrite new_run_tasks. destruct (decide _); [done|apply Hdb].
  - intros e' y. rewrite Hxs, new_run_tasks. destruct (decide (e' = e)) as [->|Hne].
    + rewrite lookup_insert_eq. by intros [= <-].
    + rewrite lookup_insert_ne by done. apply Hdb.
  - intros i t Ht. destruct (new_run_lookup i t Ht) as [Hin|Hi]; [by apply Hnew|].
    by apply (di_lease _ _ Hdb i).
  - apply new_run_approvals.
  - rewrite Hps. apply Hdb.
  - by apply (outbox_inv_extends db), Hdb.
  - by rewrite Hxs.
  - intros i t Ht. exists t. split; [by apply new_run_keeps|reflexivity].
  - intros e' y Hy. exists y. rewrite Hxs, lookup_insert_ne by congruence. split; [done|reflexivity].
  - intros a p Hp. exists p. rewrite Hps. split; [done|reflexivity].
  - done.
Qed.
End new_run.

(** The index rejects a second run under the same key. *)
Lemma start_keys_unique cfg db e w p at_ :
  db_inv cfg db → idempotency_clash p db = false →
  keys_unique (<[e := new_execution w p at_]> (executions db)).
Proof.
  intros Hdb Hc.
  assert (Hno : ∀ e' y k, executions db !! e' = Some y → triggeredBy y = sp_triggeredBy p →
    idempotencyKey y = Some k → sp_idempotencyKey p ≠ Some k).
  { intros e' y k Hy Ht Hk Hpk. unfold idempotency_clash in Hc. rewrite Hpk in Hc.
    apply bool_decide_eq_false in Hc. apply Hc.
    match goal with |- (0 < ?n)%Z => assert (n ≠ 0%Z) end; [|pose proof (mcount_nonneg
      (λ x, bool_decide (triggeredBy x = sp_triggeredBy p) && bool_decide (idempotencyKey x = Some k))
      (executions db)); lia].
    intros H0. pose proof (proj1 (mcount_zero _ _) H0 e' y Hy) as Hf.
    cbv beta in Hf. by rewrite (bool_decide_eq_true_2 _ Ht), (bool_decide_eq_true_2 _ Hk) in Hf. }
  intros e1 e2 y1 y2 k H1 H2 Htr H1k H2k.
  apply lookup_insert_Some in H1 as [[<- <-]|[Hne1 H1]], H2 as [[<- <-]|[Hne2 H2]]; [done|..].
  - by destruct (Hno e2 y2 k H2).
  - by destruct (Hno e1 y1 k H1).
  - by apply (di_keys _ _ Hdb e1 e2 y1 y2 k).
Qed.

Lemma start_tx_good cfg w p children :
  startable w children → tx_good cfg (start_tx cfg w p children).
Proof.
  intros (Hs & Hrk & Hch) r db a db' Hdb H.
  destruct (idempotency_clash p db) eqn:Hc; [by rewrite start_tx_duplicate in H|].
  destruct (forallb definition_ok (wf_tasks w)) eqn:Hd; [|by rewrite start_tx_invalid in H].
  destruct (start_tx_applies cfg r w p children db Hc Hd) as (db2 & Hok & Heff).
  rewrite Hok in H. injection H as <- <-.
  apply (new_run_good cfg db db2 Hdb (fresh (dom (executions db))) _ _
           ltac:(apply not_elem_of_dom, is_fresh) Heff).
  - intros t (d & -> & _)%list_elem_of_fmap. split; [done|]. apply definition_task_ok.
  - by apply (start_keys_unique cfg).
  - by apply (created_static w children _ _ Hs).
  - by apply created_run_inv.
Qed.
