(* ===== verification/EngineSafety.v ===== *)
(** * Safety of the engine under every interleaving

    [engine_ok]: every function of the engine is made of steps that preserve
    [db_inv] and stay within [db_guar].  The properties at the end follow for
    every world that any number of processes can reach by calling the engine
    concurrently, with crashes at any point, arbitrary clocks and an arbitrary
    queue. *)

From S2P Require Import Prelude Program States Dag DagFacts DagSpec Models Retry TaskRepo.
From S2P Require Import Dispatcher Engine RunInv EngineTx EngineInv EngineStart.

Section safety.
Context {Q : Type} `{!Dispatcher Q} (cfg : EngineConfig).

Definition world_inv (w : World Q) : Prop := db_inv cfg (w_db w).
Definition world_guar (w w' : World Q) : Prop := db_guar (w_db w) (w_db w').

Notation ok := (steps_ok world_inv world_guar).

Lemma ok_db_call {A} (body : Readings → tx DB A) : tx_good cfg body → ok (db_call body).
Proof.
  intros Hb. apply steps_ok_await. intros w Hw. unfold db_step.
  destruct (body (readings w) (w_db w)) as [[a db]|e] eqn:He; simpl.
  - by apply (Hb _ _ _ _ Hw He).
  - split; [done|]. unfold world_guar. reflexivity.
Qed.

Lemma ok_db_read {A} (f : Readings → DB → A) : ok (db_read f).
Proof. apply ok_db_call, tx_good_read. Qed.

Lemma ok_queue_call {A} (f : Q → res A * Q) : ok (queue_call f).
Proof.
  apply steps_ok_await. intros w Hw. destruct (f (w_q w)) as [a q]. simpl.
  split; [done|]. unfold world_guar. reflexivity.
Qed.

Lemma ok_ret {A} (a : A) : ok (Ret a).
Proof. done. Qed.
Lemma ok_throw {A} e : ok (Throw (A := A) e).
Proof. done. Qed.

Hint Resolve ok_db_call ok_db_read ok_queue_call ok_ret ok_throw : wf.
Hint Resolve complete_tx_good fail_tx_good suspend_tx_good resolve_tx_good pause_tx_good
  resume_tx_good cancel_tx_good claim_tx_good renew_tx_good dispatch_tx_good emit_good
  abandon_good create_attempt_good start_tx_good : wf.

(** Take a program apart. *)
Ltac ok_step :=
  match goal with
  | |- steps_ok _ _ (_ ≫= _) => apply steps_ok_bind; [|intros]
  | |- steps_ok _ _ (catch _ _) => apply steps_ok_catch; [|intros]
  | |- steps_ok _ _ (for_each _ _) => apply steps_ok_for_each; intros
  | |- steps_ok _ _ (for_fold _ _ _) => apply steps_ok_for_fold; intros
  | |- steps_ok _ _ (lift _) => apply steps_ok_lift
  | |- steps_ok _ _ (match ?b with _ => _ end) => destruct b
  end.
Ltac ok_steps := repeat (ok_step || solve [eauto with wf]).

Lemma ok_enqueueSafely i t : ok (enqueueSafely i t).
Proof. unfold enqueueSafely. ok_steps. Qed.
Lemma ok_enqueueRetrySafely i t d : ok (enqueueRetrySafely cfg i t d).
Proof. unfold enqueueRetrySafely. ok_steps. Qed.
Hint Resolve ok_enqueueSafely ok_enqueueRetrySafely : wf.

Lemma ok_dispatchTask i t : ok (dispatchTask i t).
Proof. unfold dispatchTask. ok_steps. Qed.
Hint Resolve ok_dispatchTask : wf.

Lemma ok_dispatchReady e : ok (dispatchReady e).
Proof. unfold dispatchReady. ok_steps. Qed.
Hint Resolve ok_dispatchReady : wf.

Lemma ok_failTask i token error : ok (failTask cfg i token error).
Proof. unfold failTask, transaction. ok_steps. Qed.
Hint Resolve ok_failTask : wf.

(** The claim of a task and its records, with which [startTask] begins. *)
Definition begin_task (i : oid) (wk : string) : prog (World Q) unit :=
  claimed ← db_call (claimTask i wk (cfg_leaseMs cfg));
  match claimed with
  | None => Ret tt
  | Some task =>
      _ ← db_call (abandon_attempts i (attempt task));
      _ ← db_call (create_attempt i task wk);
      _ ← db_call (λ r, emit cfg r "task.started" (t_executionId task)
            (JObj [("taskId", JStr (oid_str i)); ("key", JStr (t_key task));
                   ("attempt", JNum (attempt task)); ("workerId", JStr wk)]%string));
      Ret tt
  end.

Lemma ok_begin_task i wk : ok (begin_task i wk).
Proof. unfold begin_task. ok_steps. Qed.

Lemma ok_startTask i wk : ok (startTask cfg i wk).
Proof. unfold startTask. ok_steps. Qed.

Lemma ok_completeTask i token out : ok (completeTask cfg i token out).
Proof. unfold completeTask, transaction. ok_steps. Qed.

Lemma ok_suspendForApproval i token ask : ok (suspendForApproval cfg i token ask).
Proof.
  unfold suspendForApproval, transaction. destruct (cfg_approvals cfg) eqn:Hc; simpl; [|done].
  by apply ok_db_call, suspend_tx_good.
Qed.

Lemma ok_resolveApproval a d scope : ok (resolveApproval cfg a d scope).
Proof. unfold resolveApproval, transaction. ok_steps. Qed.
Hint Resolve ok_resolveApproval : wf.

Lemma ok_startExecution w p : ok (startExecution cfg w p).
Proof.
  unfold startExecution, transaction.
  destruct (validateDag (dag_task <$> wf_tasks w)) as [[check|]|] eqn:Hv; [|done..].
  destruct (valid check) eqn:Hok; simpl; [|done].
  destruct (valid_startable w check Hv Hok) as (children & -> & Hst).
  change (ok (e ← db_call (start_tx cfg w p children); _ ← dispatchReady e; Ret e)).
  apply steps_ok_bind; [by apply ok_db_call, start_tx_good|]. intros e. ok_steps.
Qed.

Lemma ok_redispatch acc it : ok (redispatch acc it).
Proof. destruct acc, it. unfold redispatch, status_of. ok_steps. Qed.
Lemma ok_reenqueue n it : ok (reenqueue n it).
Proof. unfold reenqueue. ok_steps. Qed.
Lemma ok_expire n it : ok (expire cfg n it).
Proof. unfold expire. ok_steps. Qed.
Hint Resolve ok_redispatch ok_reenqueue ok_expire : wf.

Lemma ok_reconcile stale limit : ok (reconcile cfg stale limit).
Proof. unfold reconcile. ok_steps. Qed.

Lemma ok_pauseExecution e : ok (pauseExecution cfg e).
Proof. unfold pauseExecution, transaction. ok_steps. Qed.
Lemma ok_resumeExecution e : ok (resumeExecution cfg e).
Proof. unfold resumeExecution, transaction. ok_steps. Qed.
Lemma ok_cancelExecution e : ok (cancelExecution cfg e).
Proof. apply ok_db_call, cancel_tx_good. Qed.
Lemma ok_renewLease i token : ok (renewLease cfg i token).
Proof. apply ok_db_call, renew_tx_good. Qed.
Hint Resolve ok_pauseExecution ok_resumeExecution ok_cancelExecution ok_renewLease ok_startExecution
  ok_startTask ok_completeTask ok_suspendForApproval ok_reconcile : wf.

Lemma engine_ok p : api cfg p → ok p.
Proof. destruct 1; try (apply steps_ok_bind; [|done]); auto with wf. Qed.

Lemma outside_ok w w' : outside w w' → world_inv w → world_inv w' ∧ world_guar w w'.
Proof.
  unfold outside, world_inv, world_guar. intros ->. intros Hw. split; [done|reflexivity].
Qed.

Lemma empty_run e : run_tasks (tasks empty_db) e = ∅.
Proof. apply map_filter_empty. Qed.

Lemma initial_inv q : world_inv (initial q).
Proof.
  assert (Hx : ∀ e x, executions empty_db !! e = Some x → False) by (intros e x; exact (lookup_empty_Some e x)).
  assert (Ht : ∀ i t, tasks empty_db !! i = Some t → False) by (intros i t; exact (lookup_empty_Some i t)).
  assert (Hp : ∀ a p, approvals empty_db !! a = Some p → False) by (intros a p; exact (lookup_empty_Some a p)).
  change (db_inv cfg empty_db). split.
  - intros i t Hi. by destruct (Ht i t).
  - intros e. rewrite empty_run.
    split; [intros ????|intros ???|intros ????|exists (λ _, 0); intros ???]; by rewrite lookup_empty.
  - intros e x He. by destruct (Hx e x).
  - intros i t Hi. by destruct (Ht i t).
  - split; [intros a p Ha; by destruct (Hp a p)|intros a b p q' Ha; by destruct (Hp a p)|].
    intros i t Hi. by destruct (Ht i t).
  - done.
  - split; [constructor|]. intros ev H. by apply not_elem_of_nil in H.
  - intros e e' x x' k He. by destruct (Hx e x).
Qed.

Lemma reachable_world_inv q w : reachable (api cfg) outside (initial q) w → world_inv w.
Proof.
  apply (reachable_inv (api cfg) outside world_inv world_guar);
    [apply engine_ok|apply outside_ok|apply initial_inv].
Qed.

Lemma history_world_guar q w w' :
  history (api cfg) outside (initial q) w w' → rtc world_guar w w'.
Proof.
  apply (history_guarantee (api cfg) outside world_inv world_guar);
    [apply engine_ok|apply outside_ok|apply initial_inv].
Qed.
End safety.
