(* ===== verification/EngineProps.v ===== *)
(** * What the engine guarantees in every reachable world

    The properties of this file are about any world reachable from an empty
    database by concurrent calls of the engine's functions (see
    [Engine.api] and [Engine.outside]).  They are consequences of
    [EngineSafety].  The module [Demo] runs the engine on a small workflow; the
    witnesses use its worlds. *)

From S2P Require Import Prelude Program States Dag DagFacts DagSpec Models Retry TaskRepo.
From S2P Require Import Dispatcher Engine RunInv EngineTx EngineInv EngineStart.
From S2P Require Import EngineSafety.

(** ** From steps to histories *)

Lemma guar_task db db' i t :
  rtc db_guar db db' → tasks db !! i = Some t →
  ∃ t', tasks db' !! i = Some t' ∧ rtc task_step t t'.
Proof.
  intros Hr. revert t. induction Hr as [db0|db1 db2 db3 H12 _ IH]; intros t Ht; [eauto using rtc_refl|].
  destruct (dg_tasks _ _ H12 i t Ht) as (t2 & Ht2 & Hs). destruct (IH t2 Ht2) as (t3 & ? & ?).
  exists t3. split; [done|]. by eapply rtc_l.
Qed.

Lemma guar_execution db db' e x :
  rtc db_guar db db' → executions db !! e = Some x →
  ∃ x', executions db' !! e = Some x' ∧ rtc execution_step x x'.
Proof.
  intros Hr. revert x. induction Hr as [db0|db1 db2 db3 H12 _ IH]; intros x Hx; [eauto using rtc_refl|].
  destruct (dg_executions _ _ H12 e x Hx) as (x2 & Hx2 & Hs). destruct (IH x2 Hx2) as (x3 & ? & ?).
  exists x3. split; [done|]. by eapply rtc_l.
Qed.

Lemma guar_approval db db' a p :
  rtc db_guar db db' → approvals db !! a = Some p →
  ∃ p', approvals db' !! a = Some p' ∧ p_taskId p' = p_taskId p ∧ (p_status p ≠ P_PENDING → p' = p).
Proof.
  intros Hr. revert p. induction Hr as [db0|db1 db2 db3 H12 _ IH]; intros p Hp; [eauto|].
  destruct (dg_approvals _ _ H12 a p Hp) as (p2 & Hp2 & [Htk Hd]).
  destruct (IH p2 Hp2) as (p3 & Hp3 & Htk3 & Hd3). exists p3. split_and!; [done|congruence|].
  intros Hne. rewrite (Hd Hne) in *. auto.
Qed.

Lemma guar_log db db' : rtc db_guar db db' → log_extends db db'.
Proof. induction 1 as [db0|db1 db2 db3 [] _ IH]; [reflexivity|by etrans]. Qed.

(** What a sequence of steps leaves of a task. *)
Record task_later (t t' : Task) : Prop := {
  tl_snapshot : snapshot t' = snapshot t;
  tl_path : task_path (t_status t) (t_status t');
  tl_token : (leaseToken t ≤ leaseToken t')%Z;
  tl_spent : leaseToken t' = leaseToken t → t_status t ≠ T_RUNNING → t_status t' ≠ T_RUNNING;
  tl_finished : task_finished (t_status t) = true → t' = t
}.

Lemma task_steps_later t t' : rtc task_step t t' → task_later t t'.
Proof.
  induction 1 as [t|t1 t2 t3 [Hs1 Hm1 Htk1 Hsp1 Hf1] _ [Hs2 Hm2 Htk2 Hsp2 Hf2]].
  - split; try done.
  - split.
    + congruence.
    + etrans; [by apply task_move_path|done].
    + lia.
    + intros Heq Hr. apply Hsp2; [lia|]. apply Hsp1; [lia|done].
    + intros Hf. specialize (Hf1 Hf). subst t2. auto.
Qed.

Record execution_later (x x' : WorkflowExecution) : Prop := {
  xl_snapshot : run_snapshot x' = run_snapshot x;
  xl_path : execution_path (x_status x) (x_status x');
  xl_pending : (pendingTasks x' ≤ pendingTasks x)%Z
}.

Lemma execution_steps_later x x' : rtc execution_step x x' → execution_later x x'.
Proof.
  induction 1 as [x|x1 x2 x3 [Hs1 Hm1 Hp1] _ [Hs2 Hm2 Hp2]].
  - by split.
  - split; [congruence|etrans; [by apply execution_move_path|done]|lia].
Qed.

(** ** A run is never stuck *)

Lemma run_not_stuck x m :
  run_inv x m → static_ok m → x_status x = E_RUNNING →
  (∃ i t, m !! i = Some t ∧ unfinished t = true) →
  ∃ i t, m !! i = Some t ∧ active (t_status t) = true.
Proof.
  intros Hx [_ Hdeps _ [rk Hrk]] Hr (i & t & Hi & Hu).
  remember (rk (t_key t)) as n eqn:Hn. revert i t Hi Hu Hn.
  induction n as [n IH] using lt_wf_ind. intros i t Hi Hu ->.
  destruct (active (t_status t)) eqn:Ha; [eauto|].
  assert (t_status t = T_PENDING) as Hp by (unfold unfinished in Hu; by destruct (t_status t)).
  assert (live (x_status x) = true) as Hl by (by rewrite Hr).
  pose proof (ri_running _ _ Hx i t Hr Hi) as Hnp. unfold promotable in Hnp.
  rewrite Hp, bool_decide_eq_true_2 in Hnp by done. apply bool_decide_eq_false in Hnp.
  rewrite (ri_remaining _ _ Hx i t Hl Hi) in Hnp.
  apply mcount_exists in Hnp as (j & u & Hj & Hun).
  apply andb_true_iff in Hun as [Hk%bool_decide_eq_true Hc%negb_true_iff].
  apply bool_decide_eq_false in Hc.
  apply (IH (rk (t_key u))) with (i := j) (t := u); [by apply (Hrk i t)|done| |done].
  pose proof (ri_live _ _ Hx j u Hl Hj) as Hf. unfold unfinished. by destruct (t_status u).
Qed.

(** ** A task's report is accepted at most once per lease *)

(** The lease [token] of task [i] is over: the task was claimed again or is no
    longer running. *)
Definition lease_over (db : DB) (i : oid) (token : Z) : Prop :=
  ∃ t, tasks db !! i = Some t ∧
    ((token < leaseToken t)%Z ∨ leaseToken t = token ∧ t_status t ≠ T_RUNNING).

Lemma lease_over_no_lease db i token : lease_over db i token → no_lease db i token.
Proof.
  intros (t & Ht & H) u (Hu & Hst & Htk). rewrite Ht in Hu. injection Hu as <-.
  destruct H as [?|[_ ?]]; [lia|done].
Qed.

Lemma lease_over_later db db' i token :
  rtc db_guar db db' → lease_over db i token → lease_over db' i token.
Proof.
  intros Hr (t & Ht & H). destruct (guar_task _ _ _ _ Hr Ht) as (t' & Ht' & Hs).
  apply task_steps_later in Hs as [_ _ Htk Hsp _]. exists t'. split; [done|].
  destruct H as [?|[<- Hst]]; [left; lia|].
  destruct (decide (leaseToken t' = leaseToken t)); [right; auto|left; lia].
Qed.

(** ** What a decision leaves *)

Lemma on_run_lookup e f ts i t :
  ts !! i = Some t → on_run e f ts !! i = Some (if of_run e t then f t else t).
Proof. intros Ht. unfold on_run. by rewrite lookup_fmap, Ht. Qed.

Lemma resolve_decides cfg r a d scope db p t x :
  approvals db !! a = Some p → p_status p = P_PENDING → scope p = true →
  tasks db !! p_taskId p = Some t → t_status t = T_WAITING_FOR_APPROVAL →
  executions db !! t_executionId t = Some x →
  ∃ db', resolve_tx cfg a d scope r db = Ok (Some (t_executionId t), db') ∧
    (∃ p', approvals db' !! a = Some p' ∧ p_status p' = decision_status (d_decision d)) ∧
    ∃ t', tasks db' !! p_taskId p = Some t' ∧
      t_status t' = if is_approved (d_decision d) then T_COMPLETED else T_FAILED.
Proof.
  intros Hp Hst Hsc Ht Hw Hx.
  destruct (resolve_tx_applies cfg r a d scope db p t x) as (db' & Hok & Heff); [done..|].
  exists db'. split; [done|].
  assert (Hrun : of_run (t_executionId t) (resolved_task d (now r) t) = true).
  { apply bool_decide_eq_true. by apply (snapshot_fields t), resolved_snapshot. }
  destruct (is_approved (d_decision d)) eqn:Ha.
  - destruct Heff as [_ Hts Hps _]. rewrite Hps, Hts. split.
    + eexists. split; [apply lookup_insert_eq|done].
    + eexists. split; [apply on_run_lookup, lookup_insert_eq|]. rewrite Hrun.
      assert (t_status (resolved_task d (now r) t) = T_COMPLETED) as Hc
        by (unfold resolved_task; by rewrite Ha).
      destruct (after_success_status x t (now r) (resolved_task d (now r) t)) as [->|(Hp' & _)]; congruence.
  - destruct Heff as [error [_ Hts Hps _]]. rewrite Hps, Hts. split.
    + eexists. split; [apply lookup_insert_eq|done].
    + eexists. split; [apply on_run_lookup, lookup_insert_eq|]. rewrite Hrun.
      assert (t_status (resolved_task d (now r) t) = T_FAILED) as Hc
        by (unfold resolved_task; by rewrite Ha).
      by rewrite fail_fast_finished by (by rewrite Hc).
Qed.

(** ** The demonstration runs *)

Module Demo.

#[export] Instance unit_dispatcher : Dispatcher unit := {
  enqueue _ q := (Ok tt, q);
  enqueueDelayed _ _ q := (Ok tt, q)
}.

Local Open Scope string_scope.

(** A; B and C after A; D after B and C. *)
Definition def (k : string) (deps : list string) : TaskDefinition :=
  mkTaskDefinition k "noop" deps JNull (Some 3%Z) (Some 1000%Z) (Some 30000%Z).
Definition diamond : Workflow :=
  mkWorkflow 7 1 1 [def "A" []; def "B" ["A"]; def "C" ["A"]; def "D" ["B"; "C"]].
Definition params : StartParams := mkStartParams JNull (Some 1) TRIGGER_manual (Some "key-1") None.

Definition cfg : EngineConfig := default_config.
Definition call := prog (World unit) unit.

Definition start : call := _ ← startExecution cfg diamond params; Ret tt.
Definition claim (i : oid) : call := _ ← startTask cfg i "worker-1"; Ret tt.
Definition complete (i : oid) (token : Z) : call := _ ← completeTask cfg i token (JNum 42); Ret tt.
Definition fail (i : oid) (token : Z) (err : thrown) : call := _ ← failTask cfg i token err; Ret tt.
Definition suspend (i : oid) (token : Z) : call :=
  _ ← suspendForApproval cfg i token (mkApprovalAsk "Ship it?" None None 60000); Ret tt.
Definition resolve (a : oid) (d : DECISION) : call :=
  _ ← resolveApproval cfg a (mkDecision d (Some 1) None) (λ _, true); Ret tt.
Definition pause (e : oid) : call := _ ← pauseExecution cfg e; Ret tt.
Definition cancel (e : oid) : call := _ ← cancelExecution cfg e; Ret tt.

Definition calls (ps : list call) (w : World unit) : World unit :=
  foldl (λ w p, (run p w).2) w ps.

Lemma calls_reachable ps w0 w :
  Forall (api cfg) ps → reachable (api cfg) outside w0 w → reachable (api cfg) outside w0 (calls ps w).
Proof.
  intros Hps. revert w. induction Hps as [|p ps Hp _ IH]; intros w Hw; [done|]. simpl.
  apply IH. by apply reachable_run.
Qed.

Lemma calls_history ps ps' w0 :
  Forall (api cfg) ps → Forall (api cfg) ps' →
  history (api cfg) outside w0 (calls ps w0) (calls ps' (calls ps w0)).
Proof.
  intros Hps Hps'.
  assert (Hgen : ∀ l (w : World unit) pool, Forall (api cfg) l →
    ∃ pool', rtc (pool_step (api cfg) outside) (w, pool) (calls l w, pool')).
  { intros l w pool Hl. revert w pool. induction Hl as [|p l Hp _ IH]; intros w pool; [eexists; done|].
    simpl. destruct (pool_run (api cfg) outside p w pool) as [p' Hp'].
    destruct (IH (run p w).2 (p' :: pool)) as [pool' Hpool']. exists pool'.
    eapply rtc_l; [by apply step_call|]. by etrans. }
  destruct (Hgen ps w0 []) as [pool Hpool]; [done|].
  destruct (Hgen ps' (calls ps w0) pool) as [pool' Hpool']; [done|].
  by exists pool, pool'.
Qed.

Ltac api_calls := repeat (constructor; [solve [eauto using api]|]); constructor.

Definition w0 : World unit := initial tt.
(** A started, then A completed, then B waiting for approval. *)
Definition first_calls : list call := [start; claim 0; complete 0 1; claim 1; suspend 1 1].
Definition w1 : World unit := calls first_calls w0.
(** Everything completes. *)
Definition last_calls : list call :=
  [resolve 0 APPROVED; claim 2; complete 2 1; claim 3; complete 3 1].
Definition w2 : World unit := calls last_calls w1.
(** C fails for good instead. *)
Definition w_failed : World unit :=
  calls (first_calls ++ [claim 2; fail 2 1 (NonRetryableError "bad input")]) w0.

Lemma first_api : Forall (api cfg) first_calls.
Proof. api_calls. Qed.
Lemma last_api : Forall (api cfg) last_calls.
Proof. api_calls. Qed.

Lemma w1_reachable : reachable (api cfg) outside w0 w1.
Proof. apply calls_reachable; [apply first_api|apply reachable_refl]. Qed.
Lemma w2_reachable : reachable (api cfg) outside w0 w2.
Proof. apply calls_reachable; [apply last_api|apply w1_reachable]. Qed.
Lemma w_failed_reachable : reachable (api cfg) outside w0 w_failed.
Proof.
  apply calls_reachable; [|apply reachable_refl].
  apply Forall_app. split; [apply first_api|api_calls].
Qed.
Lemma w12_history : history (api cfg) outside w0 w1 w2.
Proof. apply calls_history; [apply first_api|apply last_api]. Qed.

(** The documents of these worlds. *)
Definition the_execution (w : World unit) : WorkflowExecution :=
  default (new_execution diamond params 0) (executions (w_db w) !! 0).
Definition the_task (w : World unit) (i : oid) : Task :=
  default (task_of_definition 0 0 0 ∅ (def "" [])) (tasks (w_db w) !! i).

Example demo_statuses :
  x_status (the_execution w1) = E_RUNNING ∧ x_status (the_execution w2) = E_COMPLETED ∧
  x_status (the_execution w_failed) = E_FAILED ∧
  (λ i, t_status (the_task w1 i)) <$> [0; 1; 2; 3] =
    [T_COMPLETED; T_WAITING_FOR_APPROVAL; T_QUEUED; T_PENDING] ∧
  (λ i, t_status (the_task w_failed i)) <$> [0; 1; 2; 3] =
    [T_COMPLETED; T_WAITING_FOR_APPROVAL; T_FAILED; T_CANCELLED].
Proof. vm_compute. auto. Qed.

End Demo.

(** ** Properties *)

Section properties.
Context {Q : Type} `{!Dispatcher Q}.

Lemma reachable_run_inv (cfg : EngineConfig) (q : Q) w e x :
  reachable (api cfg) outside (initial q) w → executions (w_db w) !! e = Some x →
  run_inv x (run_tasks (tasks (w_db w)) e) ∧ static_ok (run_tasks (tasks (w_db w)) e).
Proof.
  intros Hr Hx. apply reachable_world_inv in Hr. split; [by apply Hr|apply Hr].
Qed.

(** C2: [pendingTasks] is exact in every reachable world: it is the number of
    tasks of the run that are not COMPLETED, FAILED, DEAD_LETTER or CANCELLED.
    [taskCount] is the number of its tasks. *)
Theorem pending_counter_exact (cfg : EngineConfig) (q : Q) (w : World Q) (e : oid)
    (x : WorkflowExecution)
    (Hr : reachable (api cfg) outside (initial q) w) (Hx : executions (w_db w) !! e = Some x) :
  pendingTasks x = mcount (λ t, of_run e t && negb (task_finished (t_status t))) (tasks (w_db w)) ∧
  taskCount x = Z.of_nat (size (run_tasks (tasks (w_db w)) e)).
Proof.
  destruct (reachable_run_inv cfg q w e x Hr Hx) as [Hi _].
  split; [|apply Hi]. rewrite mcount_of_run. apply (ri_pending _ _ Hi).
Qed.

(** C1: no task starts before its dependencies: whenever a task is anything
    but PENDING or CANCELLED, every task it depends on is COMPLETED. *)
Theorem dependencies_before_start (cfg : EngineConfig) (q : Q) (w : World Q) (i j : oid) (t u : Task)
    (Hr : reachable (api cfg) outside (initial q) w)
    (Ht : tasks (w_db w) !! i = Some t) (Hu : tasks (w_db w) !! j = Some u)
    (Hrun : t_executionId u = t_executionId t) (Hdep : t_key u ∈ dependsOn t)
    (Hst : t_status t ≠ T_PENDING ∧ t_status t ≠ T_CANCELLED) :
  t_status u = T_COMPLETED.
Proof.
  pose proof (reachable_world_inv cfg q w Hr) as Hdb.
  destruct (di_exec _ _ Hdb i t Ht) as [x Hx].
  apply (ri_deps _ _ (di_run _ _ Hdb _ x Hx) i t) with j; try apply Hst; [|by apply run_tasks_Some|done].
  by apply run_tasks_Some.
Qed.

(** A run becomes COMPLETED exactly when its last task does. *)
Lemma completed_iff_all_completed (cfg : EngineConfig) (q : Q) (w : World Q) (e : oid)
    (x : WorkflowExecution)
    (Hr : reachable (api cfg) outside (initial q) w) (Hx : executions (w_db w) !! e = Some x)
    (Hst : x_status x = E_RUNNING ∨ x_status x = E_COMPLETED) (Hn : taskCount x ≠ 0%Z) :
  x_status x = E_COMPLETED ↔
  ∀ i t, tasks (w_db w) !! i = Some t → t_executionId t = e → t_status t = T_COMPLETED.
Proof.
  destruct (reachable_run_inv cfg q w e x Hr Hx) as [Hi _]. split.
  - intros Hc i t Ht He. apply (ri_completed _ _ Hi i t Hc). by apply run_tasks_Some.
  - intros Hall. destruct Hst as [Hrun|]; [|done]. exfalso. apply Hn.
    rewrite (ri_count _ _ Hi). rewrite (ri_stuck _ _ Hi Hrun); [done|].
    rewrite (ri_pending _ _ Hi). apply mcount_zero. intros i t [Ht He]%run_tasks_Some.
    unfold unfinished. by rewrite (Hall i t).
Qed.

(** FAILED and CANCELLED runs start nothing any more. *)
Lemma ended_run_starts_nothing (cfg : EngineConfig) (q : Q) (w : World Q) (i : oid) (t : Task)
    (x : WorkflowExecution)
    (Hr : reachable (api cfg) outside (initial q) w)
    (Ht : tasks (w_db w) !! i = Some t) (Hx : executions (w_db w) !! t_executionId t = Some x) :
  (x_status x = E_FAILED → t_status t ∉ [T_PENDING; T_READY; T_QUEUED; T_RETRYING]) ∧
  (x_status x = E_CANCELLED → task_finished (t_status t) = true).
Proof.
  destruct (reachable_run_inv cfg q w _ x Hr Hx) as [Hi _].
  assert (run_tasks (tasks (w_db w)) (t_executionId t) !! i = Some t) as Hti
    by (by apply run_tasks_Some).
  split; intros Hs; [|by apply (ri_cancelled _ _ Hi i t)].
  pose proof (ri_failed _ _ Hi i t Hs Hti) as Hu. by apply bool_decide_eq_false in Hu.
Qed.


(** C4: a RUNNING run with unfinished tasks is never stuck: one of its tasks is
    READY, QUEUED, RUNNING, RETRYING or WAITING_FOR_APPROVAL.  (The dependency
    graph is acyclic and promotion never misses a task.) *)
Theorem running_never_stuck (cfg : EngineConfig) (q : Q) (w : World Q) (e i : oid) (t : Task)
    (x : WorkflowExecution)
    (Hr : reachable (api cfg) outside (initial q) w) (Hx : executions (w_db w) !! e = Some x)
    (Hrun : x_status x = E_RUNNING)
    (Ht : tasks (w_db w) !! i = Some t) (He : t_executionId t = e)
    (Hu : task_finished (t_status t) = false) :
  ∃ j u, tasks (w_db w) !! j = Some u ∧ t_executionId u = e ∧
    t_status u ∈ [T_READY; T_QUEUED; T_RUNNING; T_RETRYING; T_WAITING_FOR_APPROVAL].
Proof.
  destruct (reachable_run_inv cfg q w e x Hr Hx) as [Hi Hs].
  destruct (run_not_stuck x _ Hi Hs Hrun) as (j & u & [Hj Hue]%run_tasks_Some & Ha).
  - exists i, t. rewrite run_tasks_Some. unfold unfinished. by rewrite Hu.
  - exists j, u. split_and!; [done..|]. revert Ha.
    destruct (t_status u); try done; intros _; apply list_elem_of_In; simpl; tauto.
Qed.

(** C16: between any two moments, a task only moved along [TASK_TRANSITIONS],
    its definition part never changed, its fencing token never decreased, and if
    it was finished it is exactly as it was: outputs are never overwritten. *)
Theorem task_history (cfg : EngineConfig) (q : Q) (w w' : World Q) (i : oid) (t : Task)
    (Hh : history (api cfg) outside (initial q) w w') (Ht : tasks (w_db w) !! i = Some t) :
  ∃ t', tasks (w_db w') !! i = Some t' ∧ snapshot t' = snapshot t ∧
    task_path (t_status t) (t_status t') ∧ (leaseToken t ≤ leaseToken t')%Z ∧
    (task_finished (t_status t) = true → t' = t).
Proof.
  apply (history_world_guar cfg) in Hh.
  assert (rtc db_guar (w_db w) (w_db w')) as Hg by (eapply rtc_congruence; [|exact Hh]; done).
  destruct (guar_task _ _ i t Hg Ht) as (t' & Ht' & Hs).
  apply task_steps_later in Hs as []. by exists t'.
Qed.

(** between any two moments, an execution only moved along
    [EXECUTION_TRANSITIONS], so a COMPLETED, FAILED or CANCELLED run keeps its
    status for ever; its identity and input never change and [pendingTasks]
    never grows. *)
Theorem execution_history (cfg : EngineConfig) (q : Q) (w w' : World Q) (e : oid)
    (x : WorkflowExecution)
    (Hh : history (api cfg) outside (initial q) w w') (Hx : executions (w_db w) !! e = Some x) :
  ∃ x', executions (w_db w') !! e = Some x' ∧ run_snapshot x' = run_snapshot x ∧
    execution_path (x_status x) (x_status x') ∧ (pendingTasks x' ≤ pendingTasks x)%Z ∧
    (execution_terminal (x_status x) = true → x_status x' = x_status x).
Proof.
  apply (history_world_guar cfg) in Hh.
  assert (rtc db_guar (w_db w) (w_db w')) as Hg by (eapply rtc_congruence; [|exact Hh]; done).
  destruct (guar_execution _ _ e x Hg Hx) as (x' & Hx' & Hs).
  apply execution_steps_later in Hs as []. exists x'. split_and!; try done.
  intros Ht. by apply (execution_terminal_path (x_status x)).
Qed.

(** C7: fencing.  Once a lease is over, because its report was accepted, the
    task was cancelled or another worker took it over, every later report under
    its token, in any later world, is refused and changes nothing at all. *)
Theorem stale_reports_refused (cfg : EngineConfig) (q : Q) (w w' : World Q) (i : oid) (token : Z)
    (Hh : history (api cfg) outside (initial q) w w') (Hover : lease_over (w_db w) i token) :
  (∀ out, run (completeTask cfg i token out) w' = (Ok false, w')) ∧
  (∀ error, run (failTask cfg i token error) w' = (Ok NotApplied, w')) ∧
  (∀ ask, cfg_approvals cfg = true → run (suspendForApproval cfg i token ask) w' = (Ok false, w')) ∧
  run (renewLease cfg i token) w' = (Ok false, w').
Proof.
  apply (history_world_guar cfg) in Hh.
  assert (rtc db_guar (w_db w) (w_db w')) as Hg by (eapply rtc_congruence; [|exact Hh]; done).
  pose proof (lease_over_no_lease _ _ _ (lease_over_later _ _ _ _ Hg Hover)) as Hn.
  split_and!.
  - intros out. unfold completeTask, transaction. rewrite run_bind, run_db_call. unfold db_step.
    rewrite complete_tx_stale by done. by rewrite set_db_id.
  - intros error. unfold failTask, transaction. rewrite run_bind, run_db_call. unfold db_step.
    rewrite fail_tx_stale by done. by rewrite set_db_id.
  - intros ask Hc. unfold suspendForApproval, transaction. rewrite Hc. cbn [negb].
    rewrite run_db_call. unfold db_step. rewrite suspend_tx_stale by done. by rewrite set_db_id.
  - unfold renewLease. rewrite run_db_call. unfold db_step. rewrite renewTaskLease_spec.
    destruct (tasks (w_db w') !! i) as [t|] eqn:Ht; [|by rewrite set_db_id].
    destruct (bool_decide_reflect (t_status t = T_RUNNING)), (bool_decide_reflect (leaseToken t = token));
      simpl; rewrite ?set_db_id; try done. by destruct (Hn t).
Qed.

(** C28: human approval.  In every reachable world an undecided request belongs
    to exactly one task and that task is waiting for it, so a decision is always
    actionable: it is recorded and the task leaves the waiting state.  (The
    conflict error of [resolveApproval] is a second line of defence.) *)
Theorem pending_request_actionable (cfg : EngineConfig) (q : Q) (w : World Q) (a : oid)
    (p : ApprovalRequest) (d : Decision_) (scope : ApprovalRequest → bool)
    (Hr : reachable (api cfg) outside (initial q) w) (Hp : approvals (w_db w) !! a = Some p)
    (Hst : p_status p = P_PENDING) (Hsc : scope p = true) :
  (∃ t, tasks (w_db w) !! p_taskId p = Some t ∧ t_status t = T_WAITING_FOR_APPROVAL) ∧
  (∀ b p', approvals (w_db w) !! b = Some p' → p_taskId p' = p_taskId p → b = a) ∧
  ∃ db', db_step (resolve_tx cfg a d scope) w = (Ok (Some (p_executionId p)), set_db w db') ∧
    (∃ p', approvals db' !! a = Some p' ∧ p_status p' = decision_status (d_decision d)) ∧
    ∃ t', tasks db' !! p_taskId p = Some t' ∧
      t_status t' = if is_approved (d_decision d) then T_COMPLETED else T_FAILED.
Proof.
  pose proof (reachable_world_inv cfg q w Hr) as Hdb.
  destruct (ai_task _ _ (di_approvals _ _ Hdb) a p Hp) as (t & Ht & Hrun & Hw).
  rewrite bool_decide_eq_true_2 in Hw by done. split_and!; [eauto| |].
  - intros b p' Hb He. by apply (ai_unique _ _ (di_approvals _ _ Hdb) b a p' p).
  - destruct (task_context cfg (w_db w) Hdb _ t Ht) as (x & Hx & _).
    destruct (resolve_decides cfg (readings w) a d scope (w_db w) p t x) as (db' & Hok & Hps & Hts);
      [done..|].
    exists db'. unfold db_step. by rewrite Hok, Hrun.
Qed.

(** a decision is final: once a request is decided (or closed by a
    cancellation) no later decision is recorded, whoever takes it and whenever,
    and nothing changes. *)
Theorem decision_is_final (cfg : EngineConfig) (q : Q) (w w' : World Q) (a : oid)
    (p : ApprovalRequest) (d : Decision_) (scope : ApprovalRequest → bool)
    (Hh : history (api cfg) outside (initial q) w w') (Hp : approvals (w_db w) !! a = Some p)
    (Hst : p_status p ≠ P_PENDING) (Hc : cfg_approvals cfg = true) :
  approvals (w_db w') !! a = Some p ∧ run (resolveApproval cfg a d scope) w' = (Ok None, w').
Proof.
  apply (history_world_guar cfg) in Hh.
  assert (rtc db_guar (w_db w) (w_db w')) as Hg by (eapply rtc_congruence; [|exact Hh]; done).
  destruct (guar_approval _ _ a p Hg Hp) as (p' & Hp' & _ & Hd). specialize (Hd Hst). subst p'.
  split; [done|]. unfold resolveApproval, transaction. rewrite Hc. cbn [negb].
  rewrite run_bind, run_db_call. unfold db_step.
  rewrite resolve_tx_miss; [by rewrite set_db_id|]. intros p2 (Hp2 & Hst2 & _).
  rewrite Hp' in Hp2. injection Hp2 as <-. done.
Qed.

(** the outbox is append-only and its event ids never repeat, so a consumer
    can drop duplicates by [eventId] (rows are only removed by the TTL index,
    long after they were published). *)
Theorem outbox_append_only (cfg : EngineConfig) (q : Q) (w w' : World Q)
    (Hh : history (api cfg) outside (initial q) w w') :
  outbox (w_db w) `prefix_of` outbox (w_db w') ∧ NoDup (eventId <$> outbox (w_db w')).
Proof.
  pose proof (history_reachable _ _ _ _ _ Hh) as [_ Hr'].
  apply (history_world_guar cfg) in Hh.
  assert (rtc db_guar (w_db w) (w_db w')) as Hg by (eapply rtc_congruence; [|exact Hh]; done).
  split.
  - destruct (guar_log _ _ Hg) as (evs & He & _). by exists evs.
  - apply (di_outbox _ _ (reachable_world_inv cfg q w' Hr')).
Qed.

(** one run per idempotency key: in every reachable world two executions
    started by the same user under the same key are the same execution. *)
Theorem one_run_per_key (cfg : EngineConfig) (q : Q) (w : World Q) (e e' : oid)
    (x x' : WorkflowExecution) (k : string)
    (Hr : reachable (api cfg) outside (initial q) w)
    (Hx : executions (w_db w) !! e = Some x) (Hx' : executions (w_db w) !! e' = Some x')
    (Huser : triggeredBy x = triggeredBy x')
    (Hk : idempotencyKey x = Some k) (Hk' : idempotencyKey x' = Some k) :
  e = e'.
Proof. by apply (di_keys _ _ (reachable_world_inv cfg q w Hr) e e' x x' k). Qed.
End properties.

(** ** Witnesses *)

Import Demo.

Ltac by_computation := solve [vm_compute; reflexivity | vm_compute; discriminate | vm_compute; auto].

Lemma pending_counter_exact_witness :
  pendingTasks (the_execution w1) =
    mcount (λ t, of_run 0 t && negb (task_finished (t_status t))) (tasks (w_db w1)) ∧
  taskCount (the_execution w1) = Z.of_nat (size (run_tasks (tasks (w_db w1)) 0)).
Proof. apply (pending_counter_exact cfg tt w1 0); [apply w1_reachable|by_computation]. Defined.

Lemma dependencies_before_start_witness : t_status (the_task w1 0) = T_COMPLETED.
Proof.
  apply (dependencies_before_start cfg tt w1 1 0 (the_task w1 1));
    [apply w1_reachable|by_computation..|by apply (bool_decide_unpack _); vm_compute|].
  split; by_computation.
Defined.


Lemma running_never_stuck_witness :
  ∃ j u, tasks (w_db w1) !! j = Some u ∧ t_executionId u = 0 ∧
    t_status u ∈ [T_READY; T_QUEUED; T_RUNNING; T_RETRYING; T_WAITING_FOR_APPROVAL].
Proof.
  apply (running_never_stuck cfg tt w1 0 3 (the_task w1 3) (the_execution w1));
    [apply w1_reachable|by_computation..].
Defined.

Lemma task_history_witness :
  ∃ t', tasks (w_db w2) !! 0 = Some t' ∧ snapshot t' = snapshot (the_task w1 0) ∧
    task_path (t_status (the_task w1 0)) (t_status t') ∧
    (leaseToken (the_task w1 0) ≤ leaseToken t')%Z ∧
    (task_finished (t_status (the_task w1 0)) = true → t' = the_task w1 0).
Proof. apply (task_history cfg tt w1 w2 0); [apply w12_history|by_computation]. Defined.

Lemma execution_history_witness :
  ∃ x', executions (w_db w2) !! 0 = Some x' ∧ run_snapshot x' = run_snapshot (the_execution w1) ∧
    execution_path (x_status (the_execution w1)) (x_status x') ∧
    (pendingTasks x' ≤ pendingTasks (the_execution w1))%Z ∧
    (execution_terminal (x_status (the_execution w1)) = true → x_status x' = x_status (the_execution w1)).
Proof. apply (execution_history cfg tt w1 w2 0); [apply w12_history|by_computation]. Defined.

Lemma stale_reports_refused_witness :
  (∀ out, run (completeTask cfg 0 1 out) w2 = (Ok false, w2)) ∧
  (∀ error, run (failTask cfg 0 1 error) w2 = (Ok NotApplied, w2)) ∧
  (∀ ask, cfg_approvals cfg = true → run (suspendForApproval cfg 0 1 ask) w2 = (Ok false, w2)) ∧
  run (renewLease cfg 0 1) w2 = (Ok false, w2).
Proof.
  apply (stale_reports_refused cfg tt w1 w2); [apply w12_history|].
  exists (the_task w1 0). split; [by_computation|]. right. split; by_computation.
Defined.

Definition the_request (w : World unit) : ApprovalRequest :=
  default (mkApprovalRequest 0 0 0 "" "" "" JNull P_PENDING None None None 0) (approvals (w_db w) !! 0).

Lemma pending_request_actionable_witness :
  (∃ t, tasks (w_db w1) !! p_taskId (the_request w1) = Some t ∧ t_status t = T_WAITING_FOR_APPROVAL) ∧
  (∀ b p', approvals (w_db w1) !! b = Some p' → p_taskId p' = p_taskId (the_request w1) → b = 0) ∧
  ∃ db', db_step (resolve_tx cfg 0 (mkDecision REJECTED None None) (λ _, true)) w1 =
      (Ok (Some (p_executionId (the_request w1))), set_db w1 db') ∧
    (∃ p', approvals db' !! 0 = Some p' ∧ p_status p' = P_REJECTED) ∧
    ∃ t', tasks db' !! p_taskId (the_request w1) = Some t' ∧ t_status t' = T_FAILED.
Proof.
  apply (pending_request_actionable cfg tt w1 0 (the_request w1) (mkDecision REJECTED None None) (λ _, true));
    [apply w1_reachable|by_computation..].
Defined.

(** The approval of [w1] is decided in [w2]; nothing happens between [w2] and itself. *)
Lemma w22_history : history (api cfg) outside w0 w2 w2.
Proof.
  destruct w12_history as (ps & ps' & H1 & H2). exists ps', ps'. split; [by etrans|done].
Qed.

Lemma decision_is_final_witness :
  approvals (w_db w2) !! 0 = Some (the_request w2) ∧
  run (resolveApproval cfg 0 (mkDecision REJECTED None None) (λ _, true)) w2 = (Ok None, w2).
Proof.
  apply (decision_is_final cfg tt w2 w2); [apply w22_history|by_computation..].
Defined.

Lemma outbox_append_only_witness :
  outbox (w_db w1) `prefix_of` outbox (w_db w2) ∧ NoDup (eventId <$> outbox (w_db w2)).
Proof. apply (outbox_append_only cfg tt w1 w2), w12_history. Defined.

Lemma one_run_per_key_witness : 0 = 0.
Proof.
  apply (one_run_per_key cfg tt w2 0 0 (the_execution w2) (the_execution w2) "key-1"%string);
    [apply w2_reachable|by_computation..].
Defined.
