(* ===== verification/EngineSpec.v ===== *)
(** * What each function of the engine does

    The functional behaviour of the operations when they run to their end,
    whatever the queue does (it may fail at every call).  First the dispatcher
    loop, which ends every operation; then the properties. *)

From S2P Require Import Prelude Program States Dag DagFacts DagSpec Models Retry TaskRepo.
From S2P Require Import Dispatcher Engine RunInv EngineTx EngineInv EngineStart.
From S2P Require Import EngineSafety EngineProps.

(** ** Dispatching *)

(** The task as [dispatchTask] leaves it. *)
Definition queued_task (at_ : ms) (t : Task) : Task :=
  (t {{ queuedAt := Some at_ }}) {{ t_status := T_QUEUED }}.

Definition is_ready (t : Task) : bool := bool_decide (t_status t = T_READY).

(** What [dispatchReady] does to a task of the run. *)
Definition dispatched (at_ : ms) (t : Task) : Task := if is_ready t then queued_task at_ t else t.

Section dispatch.
Context {Q : Type} `{!Dispatcher Q}.
Implicit Types (w : World Q).

Definition enqueue_item (q : Q) (it : oid * Task) : Q :=
  (enqueue (mkItem it.1 (t_executionId it.2) (t_key it.2)) q).2.

(** The queue may refuse: the caller only learns whether it did. *)
Lemma run_enqueueSafely i t w :
  run (enqueueSafely i t) w =
  (Ok (is_ok (enqueue (mkItem i (t_executionId t) (t_key t)) (w_q w)).1),
   set_q w (enqueue_item (w_q w) (i, t))).
Proof.
  unfold enqueueSafely. rewrite run_catch, run_bind, run_queue_call. unfold enqueue_item. simpl.
  by destruct (enqueue _ (w_q w)) as [[[]|e] q].
Qed.

Definition dispatch_one w (it : oid * Task) : World Q :=
  set_q (set_db w (with_tasks (w_db w) (<[it.1 := queued_task (w_clock w) it.2]> (tasks (w_db w)))))
    (enqueue_item (w_q w) it).

Lemma run_dispatchTask i t t0 w :
  tasks (w_db w) !! i = Some t → t_executionId t0 = t_executionId t → t_key t0 = t_key t →
  run (dispatchTask i t0) w =
  if is_ready t then (Ok true, dispatch_one w (i, t)) else (Ok false, w).
Proof.
  intros Ht He Hk. unfold dispatchTask. rewrite run_bind, run_db_call. unfold db_step, is_ready.
  rewrite transitionTask_spec, Ht by done. cbn [andb].
  case_bool_decide as Hst; cbv beta iota; [|by rewrite set_db_id].
  rewrite run_bind, run_enqueueSafely. unfold dispatch_one, enqueue_item. simpl.
  by rewrite He, Hk.
Qed.

Lemma run_dispatch_list l w :
  NoDup l.*1 → (∀ i t, (i, t) ∈ l → tasks (w_db w) !! i = Some t ∧ is_ready t = true) →
  run (for_each l (λ '(i, t), _ ← dispatchTask i t; Ret tt)) w = (Ok tt, foldl dispatch_one w l).
Proof.
  revert w. induction l as [|[i t] l IH]; intros w Hnd Hl; [done|].
  apply NoDup_cons in Hnd as [Hni Hnd]. destruct (Hl i t) as [Ht Hr]; [left|]. cbn [for_each].
  rewrite !run_bind, (run_dispatchTask i t t w Ht), Hr by done. apply IH; [done|].
  intros j u Hj. assert (i ≠ j) by (intros ->; apply Hni, list_elem_of_fmap; by exists (j, u)).
  simpl. rewrite lookup_insert_ne by done. apply Hl. by right.
Qed.

(** The database and the queue after the loop. *)
Lemma dispatch_fold_fields l w :
  let w' := foldl dispatch_one w l in
  w_db w' = with_tasks (w_db w)
    (foldl (λ ts it, <[it.1 := queued_task (w_clock w) it.2]> ts) (tasks (w_db w)) l) ∧
  w_q w' = foldl enqueue_item (w_q w) l ∧ w_clock w' = w_clock w ∧ w_now w' = w_now w ∧
  w_random w' = w_random w.
Proof.
  revert w. induction l as [|it l IH]; intros w; simpl; [by destruct w as [[] ????]|].
  destruct (IH (dispatch_one w it)) as (-> & -> & -> & -> & ->). done.
Qed.

Lemma foldl_insert_lookup (l : list (oid * Task)) (f : Task → Task) (ts : gmap oid Task) i :
  NoDup l.*1 →
  foldl (λ (ts : gmap oid Task) it, <[it.1 := f it.2]> ts) ts l !! i =
  match (list_to_map l : gmap oid Task) !! i with Some t => Some (f t) | None => ts !! i end.
Proof.
  revert ts. induction l as [|[j t] l IH]; intros ts Hnd; simpl in *; [by rewrite lookup_empty|].
  apply NoDup_cons in Hnd as [Hni Hnd]. rewrite IH by done.
  destruct (decide (j = i)) as [<-|Hne].
  - rewrite lookup_insert_eq, (not_elem_of_list_to_map_1 l j) by done. by rewrite lookup_insert_eq.
  - rewrite (lookup_insert_ne (list_to_map l)) by done. destruct (_ !! i); [done|].
    by rewrite lookup_insert_ne.
Qed.

Lemma find_map (p : Task → bool) (ts : gmap oid Task) :
  NoDup (find p ts).*1 ∧
  ∀ i, (list_to_map (find p ts) : gmap oid Task) !! i =
    match ts !! i with Some t => if p t then Some t else None | None => None end.
Proof.
  unfold find. split; [apply NoDup_fst_map_to_list|]. intros i. rewrite list_to_map_to_list.
  rewrite map_lookup_filter. destruct (ts !! i) as [t|]; simpl; [|done].
  case_guard; destruct (p t); simpl in *; congruence.
Qed.

Definition ready_of (e : oid) (ts : gmap oid Task) : list (oid * Task) :=
  find (λ t, of_run e t && is_ready t) ts.

(** [dispatchReady] never throws.  In a RUNNING run it moves every READY task to
    QUEUED and hands each to the queue; otherwise it does nothing. *)
Lemma run_dispatchReady e w :
  ∃ w', run (dispatchReady e) w = (Ok tt, w') ∧
    if bool_decide (x_status <$> (executions (w_db w) !! e) = Some E_RUNNING)
    then w_db w' = with_tasks (w_db w) (on_run e (dispatched (w_clock w)) (tasks (w_db w))) ∧
         w_q w' = foldl enqueue_item (w_q w) (ready_of e (tasks (w_db w)))
    else w' = w.
Proof.
  unfold dispatchReady. rewrite run_bind, run_db_read. case_bool_decide as Hr; [|by exists w].
  rewrite run_bind, run_db_read. fold (ready_of e (tasks (w_db w))).
  destruct (find_map (λ t, of_run e t && is_ready t) (tasks (w_db w))) as [Hnd Hlk].
  exists (foldl dispatch_one w (ready_of e (tasks (w_db w)))). split.
  - apply run_dispatch_list; [done|]. intros i t Hin.
    apply elem_of_find in Hin as [Hi Hp]. by apply andb_true_iff in Hp as [_ Hp].
  - destruct (dispatch_fold_fields (ready_of e (tasks (w_db w))) w) as (-> & -> & _).
    split; [|done]. f_equal. apply map_eq. intros i. unfold ready_of at 1.
    rewrite (foldl_insert_lookup _ (queued_task (w_clock w))) by done. rewrite Hlk.
    unfold on_run. rewrite lookup_fmap. destruct (tasks (w_db w) !! i) as [t|]; simpl; [|done].
    unfold dispatched. by destruct (of_run e t), (is_ready t).
Qed.

Lemma dispatchReady_ok e w : ∃ w', run (dispatchReady e) w = (Ok tt, w').
Proof. destruct (run_dispatchReady e w) as (w' & -> & _). eauto. Qed.
End dispatch.

(** ** Completing a task *)

Section complete.
Context {Q : Type} `{!Dispatcher Q} (cfg : EngineConfig) (w : World Q).
Context (Hdb : db_inv cfg (w_db w)) (i : oid) (token : Z) (t : Task) (x : WorkflowExecution) (out : json).
Let e := t_executionId t.
Context (Hl : holds_lease (w_db w) i token t) (Hx : executions (w_db w) !! e = Some x).

Let t' := completed_task out (w_clock w) t.
Let x' := succeeded_execution x (w_clock w).
Let ts' := on_run e (after_success x t (w_clock w)) (<[i := t']> (tasks (w_db w))).

Lemma completeTask_commits :
  ∃ db' w', db_inv cfg db' ∧ executions db' = <[e := x']> (executions (w_db w)) ∧ tasks db' = ts' ∧
    run (completeTask cfg i token out) w = (Ok true, w') ∧
    executions (w_db w') = executions db' ∧
    tasks (w_db w') =
      (if bool_decide (x_status x' = E_RUNNING)
       then on_run e (dispatched (w_clock w)) ts' else ts') ∧
    w_q w' =
      (if bool_decide (x_status x' = E_RUNNING)
       then foldl enqueue_item (w_q w) (ready_of e ts') else w_q w).
Proof.
  destruct (complete_tx_applies cfg (readings w) i token (w_db w) t x Hl Hx out) as (db' & Hok & Heff).
  pose proof (complete_tx_good cfg i token out _ _ _ _ Hdb Hok) as [Hdb' _].
  destruct Heff as [Hxs Hts _ _].
  destruct (run_dispatchReady e (set_db w db')) as (w' & Hrun & Hw').
  assert (Hiff : x_status <$> (executions (w_db (set_db w db')) !! e) = Some E_RUNNING ↔
                 x_status x' = E_RUNNING).
  { change (executions (w_db (set_db w db'))) with (executions db'). rewrite Hxs. fold e x'.
    rewrite lookup_insert_eq. change (x_status <$> Some x') with (Some (x_status x')).
    split; [intros H; by injection H|intros H; exact (f_equal Some H)]. }
  rewrite (bool_decide_ext _ _ Hiff) in Hw'.
  exists db', w'. split_and!; [done..| | | |].
  - unfold completeTask, transaction. rewrite (run_db_bind _ _ w _ _ Hok).
    rewrite run_bind. fold e. by rewrite Hrun.
  - destruct (bool_decide _); [destruct Hw' as [-> _]|rewrite Hw']; done.
  - change ts' with (on_run (t_executionId t) (after_success x t (now (readings w)))
      (<[i := completed_task out (now (readings w)) t]> (tasks (w_db w)))).
    rewrite <- Hts. destruct (bool_decide _); [destruct Hw' as [-> _]|rewrite Hw']; done.
  - change ts' with (on_run (t_executionId t) (after_success x t (now (readings w)))
      (<[i := completed_task out (now (readings w)) t]> (tasks (w_db w)))).
    rewrite <- Hts. destruct (bool_decide _); [destruct Hw' as [_ ->]|rewrite Hw']; done.
Qed.

Lemma after_success_output u at_ : output (after_success x t at_ u) = output u.
Proof. unfold after_success, promote_child, notify_child. by repeat case_match. Qed.

Lemma complete_own_task : ∃ t1, ts' !! i = Some t1 ∧ t_status t1 = T_COMPLETED ∧ output t1 = out.
Proof.
  eexists. split; [apply on_run_lookup, lookup_insert_eq|].
  assert (of_run e t' = true) as -> by (by apply bool_decide_eq_true).
  rewrite after_success_output. split; [|done].
  destruct (after_success_status x t (w_clock w) t') as [->|(Hp & _)]; done.
Qed.

(** A child whose other dependencies are complete becomes READY. *)
Lemma complete_child db' j u :
  db_inv cfg db' → executions db' = <[e := x']> (executions (w_db w)) → tasks db' = ts' →
  x_status x = E_RUNNING →
  tasks (w_db w) !! j = Some u → t_executionId u = e → t_status u = T_PENDING →
  (∀ k v, tasks (w_db w) !! k = Some v → t_executionId v = e → t_key v ∈ dependsOn u →
     k = i ∨ t_status v = T_COMPLETED) →
  x_status x' = E_RUNNING ∧ ∃ u', ts' !! j = Some u' ∧ t_status u' = T_READY ∧ t_executionId u' = e.
Proof.
  intros Hdb' Hxs Hts Hr Hj He Hp Hdeps. destruct Hl as (Hi & Hst & _).
  assert (Hne : i ≠ j) by (intros <-; congruence).
  set (u' := after_success x t (w_clock w) u).
  assert (Hu' : ts' !! j = Some u').
  { unfold ts'. rewrite (on_run_lookup e _ _ j u) by (by rewrite lookup_insert_ne).
    unfold of_run. by rewrite bool_decide_eq_true_2. }
  assert (He' : t_executionId u' = e) by (unfold u'; by rewrite success_executionId).
  assert (Hrun : run_inv x' (run_tasks ts' e)).
  { rewrite <- Hts. apply (di_run _ _ Hdb'). by rewrite Hxs, lookup_insert_eq. }
  assert (Hju : run_tasks ts' e !! j = Some u') by (by apply run_tasks_Some).
  assert (Hstat : t_status u' = T_PENDING ∨ t_status u' = T_READY).
  { unfold u'. destruct (after_success_status x t (w_clock w) u) as [->|(_ & -> & _)]; auto. }
  assert (Hx' : x_status x' = E_RUNNING).
  { destruct (succeeded_status x (w_clock w)) as [(_ & _ & Hc)|[Hc _]]; [|by rewrite <- Hr].
    pose proof (ri_completed _ _ Hrun j u' Hc Hju). by destruct Hstat; congruence. }
  split; [done|]. exists u'. split_and!; [done| |done]. destruct Hstat as [Hsp|]; [|done].
  pose proof (ri_running _ _ Hrun j u' Hx' Hju) as Hnp. unfold promotable in Hnp.
  rewrite Hsp, bool_decide_eq_true_2 in Hnp by done. apply bool_decide_eq_false in Hnp.
  destruct Hnp. rewrite (ri_remaining _ _ Hrun j u') by (done || by rewrite Hx').
  apply deps_done_remaining. intros k v' [Hk Hv]%run_tasks_Some Hin.
  assert (Hkeys : dependsOn u' = dependsOn u).
  { by destruct (snapshot_fields u u' (after_success_snapshot x t _ u)) as (_ & ? & _). }
  rewrite Hkeys in Hin. unfold ts', on_run in Hk. rewrite lookup_fmap in Hk.
  apply fmap_Some in Hk as (v & Hkv & ->).
  assert (Hcompl : t_status v = T_COMPLETED).
  { apply lookup_insert_Some in Hkv as [[<- <-]|[Hki Hkv]]; [done|].
    assert (t_executionId v = e ∧ t_key v ∈ dependsOn u) as [Hve Hvk].
    { unfold of_run in *. case_bool_decide; [|done]. split; [done|].
      by destruct (snapshot_fields v _ (after_success_snapshot x t (w_clock w) v)) as (<- & _). }
    by destruct (Hdeps k v Hkv Hve Hvk) as [->|]. }
  destruct (of_run e v); [|done].
  by destruct (after_success_status x t (w_clock w) v) as [->|(Hpv & _)]; congruence.
Qed.
End complete.

(** ** Failing a task *)

Section fail.
Context {Q : Type} `{!Dispatcher Q} (cfg : EngineConfig).

Lemma run_enqueueRetrySafely i t d (w : World Q) :
  ∃ q, run (enqueueRetrySafely cfg i t d) w = (Ok tt, set_q w q) ∧
    (cfg_delayed cfg = true → q = (enqueueDelayed i d (w_q w)).2).
Proof.
  unfold enqueueRetrySafely. rewrite run_catch.
  destruct (cfg_delayed cfg); rewrite run_queue_call.
  - destruct (enqueueDelayed i d (w_q w)) as [[[]|] q]; by eexists.
  - destruct (enqueue _ (w_q w)) as [[[]|] q]; by eexists.
Qed.

Context (w : World Q) (i : oid) (token : Z) (t : Task) (x : WorkflowExecution) (error : thrown).
Let e := t_executionId t.
Context (Hl : holds_lease (w_db w) i token t) (Hx : executions (w_db w) !! e = Some x).

Lemma failTask_retries :
  may_retry t x error = true →
  let delayMs := cfg_backoff cfg (w_random w) (attempt t) (baseDelayMs t) in
  ∃ w', run (failTask cfg i token error) w = (Ok (Retrying t delayMs), w') ∧
    executions (w_db w') = executions (w_db w) ∧
    tasks (w_db w') = <[i := retrying_task (error_message error) (w_clock w) delayMs t]> (tasks (w_db w)) ∧
    (cfg_delayed cfg = true → w_q w' = (enqueueDelayed i delayMs (w_q w)).2).
Proof.
  intros Hr delayMs.
  destruct (fail_tx_retries cfg (readings w) i token (w_db w) t x Hl Hx error Hr)
    as (db' & Hok & [Hxs Hts _ _]).
  destruct (run_enqueueRetrySafely i t delayMs (set_db w db')) as (q & Hq & Hdel).
  exists (set_q (set_db w db') q). split; [|done].
  unfold failTask, transaction. rewrite (run_db_bind _ _ w _ _ Hok).
  rewrite run_bind. change (random (readings w)) with (w_random w). fold delayMs. by rewrite Hq.
Qed.

Lemma failTask_fails :
  may_retry t x error = false →
  let o := fail_outcome t error in
  let t' := failed_task o (error_message error) (w_clock w) t in
  ∃ w' n, run (failTask cfg i token error) w = (Ok (FailedForGood o), w') ∧
    executions (w_db w') = <[e := fail_run x n (w_clock w)
       (Some (failure_message o t (error_message error)))]> (executions (w_db w)) ∧
    tasks (w_db w') = on_run e (fail_fast x (w_clock w)) (<[i := t']> (tasks (w_db w))) ∧
    w_q w' = w_q w.
Proof.
  intros Hr o t'.
  destruct (fail_tx_fails cfg (readings w) i token (w_db w) t x Hl Hx error Hr)
    as (db' & Hok & [Hxs Hts _ _]).
  exists (set_db w db'). eexists. split; [|split_and!; [exact Hxs|exact Hts|done]].
  unfold failTask, transaction. by rewrite (run_db_bind _ _ w _ _ Hok).
Qed.

Lemma failed_own_task o m at_ ts :
  o = T_FAILED ∨ o = T_DEAD_LETTER →
  on_run e (fail_fast x at_) (<[i := failed_task o m at_ t]> ts) !! i = Some (failed_task o m at_ t).
Proof.
  intros Ho. rewrite (on_run_lookup _ _ _ i (failed_task o m at_ t)) by apply lookup_insert_eq.
  rewrite fail_fast_finished; [by destruct (of_run _ _)|]. by destruct Ho as [-> | ->].
Qed.
End fail.

(** ** Starting a task *)

Section start_task.
Context {Q : Type} `{!Dispatcher Q} (cfg : EngineConfig) (w : World Q) (i : oid) (wk : string) (t : Task).
Context (Ht : tasks (w_db w) !! i = Some t) (Hc : claimable (w_now w) t = true).
Context (Hnew : attempts (w_db w) !! (i, (attempt t + 1)%Z) = None).

(** The task as the claim leaves it. *)
Definition claimed_now : Task := claim_update wk (cfg_leaseMs cfg) (w_now w) t.

(** What runs after the claim and its records. *)
Definition after_claim : prog (World Q) (option Claimed) :=
  let task := claimed_now in
  if bool_decide (maxAttempts task < attempt task)%Z then
    _ ← failTask cfg i (leaseToken task) (new_Error (poison_message task));
    Ret None
  else
    execution ← db_read (λ _ db, executions db !! t_executionId task);
    parents ← db_read (λ _ db,
      find (λ t, of_run (t_executionId task) t && key_in (dependsOn task) t) (tasks db));
    Ret (Some {| claimed_id := i; claimed_task := task;
                 claimed_input := match execution with Some x => x_input x | None => JObj [] end;
                 claimed_parents :=
                   list_to_map ((λ '(_, p), (t_key p, output p)) <$> parents) |}).

Lemma run_startTask_keeps :
  ∃ w1, run (startTask cfg i wk) w = run after_claim w1 ∧
    executions (w_db w1) = executions (w_db w) ∧
    tasks (w_db w1) = <[i := claimed_now]> (tasks (w_db w)) ∧
    w1 = set_db w (w_db w1) ∧
    dom (attempts (w_db w1)) = {[(i, attempt claimed_now)]} ∪ dom (attempts (w_db w)) ∧
    (world_inv cfg w → world_inv cfg w1).
Proof.
  set (db1 := with_tasks (w_db w) (<[i := claimed_now]> (tasks (w_db w)))).
  set (r := readings w).
  destruct (abandon_attempts i (attempt claimed_now) r db1) as [[[] db2]|] eqn:H2; [|done].
  assert (Hn2 : attempts db2 !! (i, attempt claimed_now) = None).
  { injection H2 as <-. etrans; [apply lookup_fmap|]. exact (f_equal (fmap _) Hnew). }
  destruct (create_attempt i claimed_now wk r db2) as [[[] db3]|] eqn:H3.
  2: { unfold create_attempt in H3. erewrite tx_bind_step in H3 by done. by rewrite Hn2 in H3. }
  destruct (emit_effect cfg r "task.started" (t_executionId claimed_now)
    (JObj [("taskId", JStr (oid_str i)); ("key", JStr (t_key claimed_now));
           ("attempt", JNum (attempt claimed_now)); ("workerId", JStr wk)]%string) db3)
    as (db4 & H4 & [Hxs Hts _ _]).
  assert (H23 : executions db3 = executions (w_db w) ∧ tasks db3 = tasks db1).
  { unfold create_attempt in H3. erewrite tx_bind_step in H3 by done. rewrite Hn2 in H3.
    injection H3 as <-. by injection H2 as <-. }
  assert (Hd : dom (attempts db4) = {[(i, attempt claimed_now)]} ∪ dom (attempts (w_db w))).
  { assert (attempts db4 = attempts db3) as -> by (unfold emit in H4; destruct (cfg_outbox cfg); by injection H4 as <-).
    unfold create_attempt in H3. erewrite tx_bind_step in H3 by done. rewrite Hn2 in H3. injection H3 as <-.
    injection H2 as <-. unfold db1. cbn. by rewrite dom_insert_L, dom_fmap_L. }
  assert (claimTask i wk (cfg_leaseMs cfg) r (w_db w) = Ok (Some claimed_now, db1)) as H1.
  { rewrite claimTask_spec, Ht. change (NOW r) with (w_now w). by rewrite Hc. }
  exists (set_db w db4). split_and!;
    [|exact (eq_trans Hxs (proj1 H23))|exact (eq_trans Hts (proj2 H23))|done|exact Hd|].
  - unfold startTask. rewrite (run_db_bind _ _ w _ db1) by exact H1. cbv beta iota.
    rewrite (run_db_bind _ _ _ tt db2) by exact H2.
    rewrite (run_db_bind _ _ _ tt db3) by exact H3. by rewrite (run_db_bind _ _ _ tt db4) by exact H4.
  - intros Hw. pose proof (steps_ok_run _ _ _ w (ok_begin_task cfg i wk) Hw) as Hinv. unfold begin_task in Hinv.
    rewrite (run_db_bind _ _ w _ db1) in Hinv by exact H1. cbv beta iota in Hinv.
    rewrite (run_db_bind _ _ _ tt db2) in Hinv by exact H2.
    rewrite (run_db_bind _ _ _ tt db3) in Hinv by exact H3. by rewrite (run_db_bind _ _ _ tt db4) in Hinv by exact H4.
Qed.

Lemma run_startTask :
  ∃ w1, run (startTask cfg i wk) w = run after_claim w1 ∧
    executions (w_db w1) = executions (w_db w) ∧
    tasks (w_db w1) = <[i := claimed_now]> (tasks (w_db w)) ∧
    w1 = set_db w (w_db w1) ∧
    dom (attempts (w_db w1)) = {[(i, attempt claimed_now)]} ∪ dom (attempts (w_db w)).
Proof. destruct run_startTask_keeps as (w1 & ? & ? & ? & ? & ? & _). by exists w1. Qed.
End start_task.

(** A second record of the same attempt is refused, and the claim lapses. *)
Lemma run_startTask_duplicate {Q} `{!Dispatcher Q} cfg (w : World Q) i wk t a :
  tasks (w_db w) !! i = Some t → claimable (w_now w) t = true →
  attempts (w_db w) !! (i, (attempt t + 1)%Z) = Some a →
  ∃ w', run (startTask cfg i wk) w = (Exn (DuplicateKey ["taskId"%string; "attempt"%string]), w').
Proof.
  intros Ht Hc Ha. set (t1 := claimed_now cfg w wk t).
  set (db1 := with_tasks (w_db w) (<[i := t1]> (tasks (w_db w)))). set (r := readings w).
  destruct (abandon_attempts i (attempt t1) r db1) as [[[] db2]|] eqn:H2; [|done].
  assert (Hn2 : is_Some (attempts db2 !! (i, attempt t1))).
  { injection H2 as <-. eexists. etrans; [apply lookup_fmap|]. exact (f_equal (fmap _) Ha). }
  destruct Hn2 as [a2 Ha2]. eexists. unfold startTask. rewrite (run_db_bind _ _ w (Some t1) db1).
  2: { rewrite claimTask_spec, Ht. change (NOW (readings w)) with (w_now w). by rewrite Hc. }
  cbv beta iota. rewrite (run_db_bind _ _ _ tt db2) by exact H2. apply run_db_throw.
  unfold create_attempt. erewrite tx_bind_step by done. cbn [w_db set_db]. by rewrite Ha2.
Qed.

(** The outputs handed to a task, as a map from keys. *)
Definition parents_map (e : oid) (deps : list string) (ts : gmap oid Task) : gmap string json :=
  list_to_map ((λ '(_, p), (t_key p, output p)) <$> find (λ t, of_run e t && key_in deps t) ts).

Lemma parents_of_claim cfg db (Hdb : db_inv cfg db) i t t1 :
  tasks db !! i = Some t → snapshot t1 = snapshot t →
  t_status t ≠ T_PENDING → t_status t ≠ T_CANCELLED →
  let ps := parents_map (t_executionId t) (dependsOn t) (<[i := t1]> (tasks db)) in
  (∀ k, is_Some (ps !! k) ↔ k ∈ dependsOn t) ∧
  ∀ j u, tasks db !! j = Some u → t_executionId u = t_executionId t → t_key u ∈ dependsOn t →
    ps !! t_key u = Some (output u) ∧ t_status u = T_COMPLETED.
Proof.
  intros Ht Hsn Hp Hcn ps. set (e := t_executionId t).
  destruct (task_context cfg db Hdb i t Ht) as (x & Hx & Hrun & Hti).
  destruct (di_static _ _ Hdb e) as [Hkeys Hdeps _ [rk Hrk]].
  assert (Hself : t_key t ∉ dependsOn t) by (intros Hin; pose proof (Hrk i t _ Hti Hin); lia).
  apply snapshot_fields in Hsn as (Hk1 & _ & _ & He1).
  (* the tasks found are the dependencies in the store before the claim *)
  assert (Hfind : ∀ j u, (j, u) ∈ find (λ t0, of_run e t0 && key_in (dependsOn t) t0) (<[i := t1]> (tasks db)) ↔
    run_tasks (tasks db) e !! j = Some u ∧ t_key u ∈ dependsOn t).
  { intros j u. rewrite elem_of_find, run_tasks_Some, andb_true_iff. unfold of_run, key_in.
    rewrite !bool_decide_eq_true. destruct (decide (i = j)) as [<-|Hne].
    - rewrite lookup_insert_eq. split; [intros ([= <-] & _ & Hk); by rewrite Hk1 in Hk|].
      intros ([Hu _] & Hk). by simplify_eq.
    - rewrite lookup_insert_ne by done. tauto. }
  set (l := find (λ t0, of_run e t0 && key_in (dependsOn t) t0) (<[i := t1]> (tasks db))) in *.
  assert (Hnd : NoDup ((λ '(_, p), (t_key p, output p)) <$> l).*1).
  { rewrite <- list_fmap_compose. apply NoDup_fmap_2_strong.
    - intros [j u] [k v] Hj Hk Heq. apply Hfind in Hj as [Hj _], Hk as [Hk _].
      simpl in Heq. pose proof (Hkeys j k u v Hj Hk Heq). subst k. congruence.
    - apply (NoDup_fmap_1 fst), find_map. }
  assert (Hval : ∀ j u, run_tasks (tasks db) e !! j = Some u → t_key u ∈ dependsOn t →
    ps !! t_key u = Some (output u)).
  { intros j u Hj Hk. apply elem_of_list_to_map; [done|]. apply list_elem_of_fmap.
    exists (j, u). split; [done|]. by apply Hfind. }
  split.
  - intros k. split.
    + intros [o Ho]. apply elem_of_list_to_map in Ho; [|done].
      apply list_elem_of_fmap in Ho as ([j u] & [= -> ->] & Hu). by apply Hfind in Hu as [_ ?].
    + intros Hk. destruct (Hdeps i t k Hti Hk) as (j & u & Hj & <-). eauto.
  - intros j u Hj He Hk. assert (run_tasks (tasks db) e !! j = Some u) as Hj' by (by apply run_tasks_Some).
    split; [by eapply Hval|]. by apply (ri_deps _ _ Hrun i t Hti Hp Hcn j u).
Qed.

(** ** Properties *)

Section properties.
Context {Q : Type} `{!Dispatcher Q}.

(** C15: a report by the lease holder is applied exactly as documented, even
    when every call of the queue fails: the task is COMPLETED with this output,
    [pendingTasks] drops by one, the run becomes COMPLETED when that was its
    last task, and each PENDING child of a RUNNING run whose other dependencies
    are complete is promoted and dispatched. *)
Theorem completeTask_applies (cfg : EngineConfig) (q : Q) (w : World Q) (i : oid) (token : Z)
    (t : Task) (x : WorkflowExecution) (out : json)
    (Hr : reachable (api cfg) outside (initial q) w) (Hl : holds_lease (w_db w) i token t)
    (Hx : executions (w_db w) !! t_executionId t = Some x) :
  ∃ w', run (completeTask cfg i token out) w = (Ok true, w') ∧
    (∃ t', tasks (w_db w') !! i = Some t' ∧ t_status t' = T_COMPLETED ∧ output t' = out) ∧
    (∃ x', executions (w_db w') !! t_executionId t = Some x' ∧
       pendingTasks x' = (pendingTasks x - 1)%Z ∧
       x_status x' = if bool_decide (x_status x = E_RUNNING ∧ pendingTasks x = 1%Z)
                     then E_COMPLETED else x_status x) ∧
    ∀ j u, x_status x = E_RUNNING → tasks (w_db w) !! j = Some u →
      t_executionId u = t_executionId t → t_status u = T_PENDING →
      (∀ k v, tasks (w_db w) !! k = Some v → t_executionId v = t_executionId t →
         t_key v ∈ dependsOn u → k = i ∨ t_status v = T_COMPLETED) →
      ∃ u', tasks (w_db w') !! j = Some u' ∧ t_status u' = T_QUEUED.
Proof.
  pose proof (reachable_world_inv cfg q w Hr) as Hdb.
  destruct (completeTask_commits cfg w Hdb i token t x out Hl Hx)
    as (db' & w' & Hdb' & Hxs & Hts & Hrun & Hxs' & Hts' & _).
  exists w'. split_and!; [done| | |].
  - destruct (complete_own_task w i t x out) as (t1 & Ht1 & Hc & Ho).
    exists t1. split; [|done]. rewrite Hts'. case_bool_decide; [|done].
    rewrite (on_run_lookup _ _ _ i t1) by done. unfold dispatched, is_ready. rewrite Hc. simpl.
    by destruct (of_run _ t1).
  - exists (succeeded_execution x (w_clock w)). rewrite Hxs', Hxs, lookup_insert_eq.
    split_and!; [done|apply succeeded_pending|].
    destruct (succeeded_status x (w_clock w)) as [(H1 & H2 & H3)|[H3 Hne]].
    + by rewrite bool_decide_eq_true_2.
    + rewrite bool_decide_eq_false_2; [done|]. intros [H1 H2]. by destruct (Hne H1).
  - intros j u Hrn Hj He Hp Hdeps.
    destruct (complete_child cfg w i token t x out Hl db' j u) as (Hx' & u' & Hu' & Hst & He'); try done.
    rewrite Hts', bool_decide_eq_true_2 by done. eexists. split; [by apply on_run_lookup|].
    unfold of_run. rewrite bool_decide_eq_true_2 by done. unfold dispatched, is_ready.
    by rewrite Hst.
Qed.


(** the poison-pill guard: a claim that exceeds [maxAttempts], because
    earlier workers vanished, does not hand the task out; it dead-letters it. *)
Theorem poison_pill_dead_letters (cfg : EngineConfig) (q : Q) (w : World Q) (i : oid) (wk : string)
    (t : Task)
    (Hr : reachable (api cfg) outside (initial q) w)
    (Ht : tasks (w_db w) !! i = Some t) (Hc : claimable (w_now w) t = true)
    (Hnew : attempts (w_db w) !! (i, (attempt t + 1)%Z) = None)
    (Hmax : (maxAttempts t < attempt t + 1)%Z) :
  ∃ w' t', run (startTask cfg i wk) w = (Ok None, w') ∧ tasks (w_db w') !! i = Some t' ∧
    t_status t' = T_DEAD_LETTER.
Proof.
  destruct (di_exec _ _ (reachable_world_inv cfg q w Hr) i t Ht) as [x Hx].
  destruct (run_startTask cfg w i wk t Ht Hc Hnew) as (w1 & -> & Hxs & Hts & _).
  unfold after_claim. change (attempt (claimed_now cfg w wk t)) with (attempt t + 1)%Z.
  change (maxAttempts (claimed_now cfg w wk t)) with (maxAttempts t).
  rewrite bool_decide_eq_true_2 by done.
  set (t1 := claimed_now cfg w wk t) in *. set (err := new_Error (poison_message t1)).
  assert (Hl : holds_lease (w_db w1) i (leaseToken t1) t1).
  { split; [by rewrite Hts, lookup_insert_eq|done]. }
  assert (Hx1 : executions (w_db w1) !! t_executionId t1 = Some x) by (by rewrite Hxs).
  assert (Hatt : bool_decide (attempt t1 < maxAttempts t1)%Z = false).
  { apply bool_decide_eq_false. change (¬ (attempt t + 1 < maxAttempts t)%Z). lia. }
  destruct (failTask_fails cfg w1 i _ t1 x err Hl Hx1) as (w' & n & Hrun & _ & Hts' & _).
  { unfold may_retry. by rewrite Hatt. }
  assert (Ho : fail_outcome t1 err = T_DEAD_LETTER) by (unfold fail_outcome; by rewrite Hatt).
  exists w', (failed_task (fail_outcome t1 err) (error_message err) (w_clock w1) t1).
  rewrite run_bind, Hrun. split_and!; [done| |by rewrite <- Ho].
  rewrite Hts'. apply failed_own_task. rewrite Ho. by right.
Qed.

(** data flows along the dependency edges: a worker that starts a task gets
    the run's input and, for exactly the keys the task depends on, the outputs
    of those tasks, all of which are COMPLETED. *)
Theorem startTask_hands_over (cfg : EngineConfig) (q : Q) (w : World Q) (i : oid) (wk : string)
    (t : Task) (x : WorkflowExecution)
    (Hr : reachable (api cfg) outside (initial q) w)
    (Ht : tasks (w_db w) !! i = Some t) (Hx : executions (w_db w) !! t_executionId t = Some x)
    (Hc : claimable (w_now w) t = true)
    (Hnew : attempts (w_db w) !! (i, (attempt t + 1)%Z) = None)
    (Hmax : (attempt t + 1 ≤ maxAttempts t)%Z) :
  ∃ c w', run (startTask cfg i wk) w = (Ok (Some c), w') ∧
    claimed_task c = claim_update wk (cfg_leaseMs cfg) (w_now w) t ∧ claimed_input c = x_input x ∧
    (∀ k, is_Some (claimed_parents c !! k) ↔ k ∈ dependsOn t) ∧
    ∀ j u, tasks (w_db w) !! j = Some u → t_executionId u = t_executionId t →
      t_key u ∈ dependsOn t → claimed_parents c !! t_key u = Some (output u) ∧ t_status u = T_COMPLETED.
Proof.
  pose proof (reachable_world_inv cfg q w Hr) as Hdb.
  destruct (run_startTask cfg w i wk t Ht Hc Hnew) as (w1 & Hrun & Hxs & Hts & _).
  set (t1 := claimed_now cfg w wk t) in *.
  assert (Hact : t_status t ≠ T_PENDING ∧ t_status t ≠ T_CANCELLED).
  { unfold claimable in Hc. by destruct (t_status t). }
  destruct (parents_of_claim cfg (w_db w) Hdb i t t1 Ht eq_refl) as [Hdom Hval]; try apply Hact.
  rewrite <- Hts in Hdom, Hval.
  eexists _, w1. split_and!.
  - rewrite Hrun. unfold after_claim.
    rewrite bool_decide_eq_false_2 by (change (¬ (maxAttempts t < attempt t + 1)%Z); lia).
    rewrite run_bind, run_db_read, run_bind, run_db_read. done.
  - done.
  - change (match executions (w_db w1) !! t_executionId t with
            | Some x => x_input x | None => JObj [] end = x_input x). by rewrite Hxs, Hx.
  - exact Hdom.
  - exact Hval.
Qed.
End properties.

(** ** Witnesses *)

Import Demo.

(** C is claimed, and B waits for approval. *)
Definition w_claimed : World unit := calls (first_calls ++ [claim 2]) w0.

Lemma w_claimed_reachable : reachable (api cfg) outside w0 w_claimed.
Proof.
  apply calls_reachable; [|apply reachable_refl]. apply Forall_app. split; [apply first_api|api_calls].
Qed.

(** The clock of the database advanced by a minute: leases lapse. *)
Definition later (w : World unit) : World unit :=
  mkWorld (w_db w) (w_q w) (w_now w + 60000)%Z (w_clock w) (w_random w).

(** A was claimed three times by workers that vanished. *)
Definition w_poison : World unit :=
  later (calls [claim 0] (later (calls [claim 0] (later (calls [start; claim 0] w0))))).

Lemma later_reachable w w' : reachable (api cfg) outside w w' → reachable (api cfg) outside w (later w').
Proof. intros Hr. by apply (reachable_env _ _ _ w'). Qed.

Lemma w_poison_reachable : reachable (api cfg) outside w0 w_poison.
Proof.
  do 3 (apply later_reachable, calls_reachable; [api_calls|]). apply reachable_refl.
Qed.

Lemma completeTask_applies_witness :
  ∃ w', run (completeTask cfg 2 1 (JNum 7)) w_claimed = (Ok true, w') ∧
    (∃ t', tasks (w_db w') !! 2 = Some t' ∧ t_status t' = T_COMPLETED ∧ output t' = JNum 7).
Proof.
  destruct (completeTask_applies cfg tt w_claimed 2 1 (the_task w_claimed 2) (the_execution w_claimed)
              (JNum 7) w_claimed_reachable) as (w' & ? & ? & _);
    [split; [by_computation|split; by_computation]|by_computation|eauto].
Defined.


Lemma poison_pill_dead_letters_witness :
  ∃ w' t', run (startTask cfg 0 "worker-2") w_poison = (Ok None, w') ∧ tasks (w_db w') !! 0 = Some t' ∧
    t_status t' = T_DEAD_LETTER.
Proof.
  apply (poison_pill_dead_letters cfg tt w_poison 0 "worker-2" (the_task w_poison 0));
    [apply w_poison_reachable|by_computation..].
Defined.

Lemma startTask_hands_over_witness :
  ∃ c w', run (startTask cfg 2 "worker-2") w1 = (Ok (Some c), w') ∧
    claimed_parents c !! "A"%string = Some (JNum 42).
Proof.
  destruct (startTask_hands_over cfg tt w1 2 "worker-2" (the_task w1 2) (the_execution w1))
    as (c & w' & Hrun & _ & _ & _ & Hps); [apply w1_reachable|by_computation..|].
  exists c, w'. split; [exact Hrun|].
  destruct (Hps 0 (the_task w1 0)) as [Ho _]; [by_computation|by_computation| |exact Ho].
  apply (bool_decide_unpack _). vm_compute. exact I.
Defined.
