(* ===== verification/TaskQueue.v ===== *)
(** * The Redis task queue ([src/queues/taskQueue.js])

    The four keys of the queue and one definition per Lua script: Redis runs a
    script as one command, so each is one function on the state.  A sorted set
    is a map from ids to scores, and is read in the order Redis keeps it, by
    score and then by member.  Ids are ObjectIds: their hexadecimal form has a
    fixed width, so the order of the strings is the order of the ids. *)

From Stdlib Require Import Sorting.Sorted.
From S2P Require Import Prelude Models Dispatcher.

Set Primitive Projections.

(** [ready], [leases], [delayed], [members], the clock of the server ([TIME], in
    milliseconds), and whether it answers at all. *)
Record TaskQueue := mkTaskQueue {
  q_ready : list oid;
  q_leases : gmap oid Z;
  q_delayed : gmap oid Z;
  q_members : gset oid;
  q_time : Z;
  q_up : bool
}.

Unset Primitive Projections.

Definition empty_queue : TaskQueue := mkTaskQueue [] ∅ ∅ ∅ 0 true.

(** ** Sorted sets *)

(** The order of a sorted set: by score, then by member. *)
Definition zset_le (a b : oid * Z) : Prop := (a.2 < b.2)%Z ∨ (a.2 = b.2 ∧ a.1 ≤ b.1).

#[export] Instance zset_le_dec a b : Decision (zset_le a b).
Proof. unfold zset_le. apply _. Defined.

Fixpoint zset_insert (x : oid * Z) (l : list (oid * Z)) : list (oid * Z) :=
  match l with
  | [] => [x]
  | y :: l' => if decide (zset_le x y) then x :: l else y :: zset_insert x l'
  end.

Definition zset_sort (l : list (oid * Z)) : list (oid * Z) := foldr zset_insert [] l.

(** [ZRANGEBYSCORE key -inf max LIMIT 0 limit]. *)
Definition zrangebyscore (z : gmap oid Z) (max : Z) (limit : nat) : list oid :=
  take limit (zset_sort (filter (λ kv, kv.2 ≤ max)%Z (map_to_list z))).*1.

(** ** The scripts *)

(** [SADD members id; RPUSH ready id]. *)
Definition wfEnqueue (id : oid) (q : TaskQueue) : Z * TaskQueue :=
  if decide (id ∈ q_members q) then (0%Z, q)
  else (1%Z, q {{ q_members := {[id]} ∪ q_members q; q_ready := q_ready q ++ [id] }}).

(** A leased id moves from [leases] to [delayed]; any other is deduplicated. *)
Definition wfEnqueueDelayed (id : oid) (delay : Z) (q : TaskQueue) : Z * TaskQueue :=
  let wasLeased := bool_decide (is_Some (q_leases q !! id)) in
  let isNew := bool_decide (id ∉ q_members q) in
  let q := q {{ q_leases := delete id (q_leases q); q_members := {[id]} ∪ q_members q }} in
  if wasLeased || isNew
  then (1%Z, q {{ q_delayed := <[id := (q_time q + delay)%Z]> (q_delayed q) }})
  else (0%Z, q).

(** [LPOP ready], with a lease for the id. *)
Definition wfClaim (leaseMs : Z) (q : TaskQueue) : option oid * TaskQueue :=
  match q_ready q with
  | [] => (None, q)
  | id :: rest =>
      (Some id, q {{ q_ready := rest; q_leases := <[id := (q_time q + leaseMs)%Z]> (q_leases q) }})
  end.

Definition wfExtendLease (id : oid) (leaseMs : Z) (q : TaskQueue) : Z * TaskQueue :=
  match q_leases q !! id with
  | Some _ => (1%Z, q {{ q_leases := <[id := (q_time q + leaseMs)%Z]> (q_leases q) }})
  | None => (0%Z, q)
  end.

(** [ZREM leases id], and [SREM members id] only if the lease was there. *)
Definition wfAck (id : oid) (q : TaskQueue) : Z * TaskQueue :=
  match q_leases q !! id with
  | Some _ => (1%Z, q {{ q_leases := delete id (q_leases q); q_members := q_members q ∖ {[id]} }})
  | None => (0%Z, q)
  end.

(** The loops of the reaper and of the promoter: [ZREM] from the sorted set and,
    if it was there, [RPUSH] to the list. *)
Definition move_to_ready (acc : gmap oid Z * list oid) (id : oid) : gmap oid Z * list oid :=
  match acc.1 !! id with
  | Some _ => (delete id acc.1, acc.2 ++ [id])
  | None => acc
  end.

Definition wfRequeueExpired (limit : nat) (q : TaskQueue) : list oid * TaskQueue :=
  let ids := zrangebyscore (q_leases q) (q_time q) limit in
  let '(leases, ready) := foldl move_to_ready (q_leases q, q_ready q) ids in
  (ids, q {{ q_leases := leases; q_ready := ready }}).

Definition wfPromoteDue (limit : nat) (q : TaskQueue) : list oid * TaskQueue :=
  let ids := zrangebyscore (q_delayed q) (q_time q) limit in
  let '(delayed, ready) := foldl move_to_ready (q_delayed q, q_ready q) ids in
  (ids, q {{ q_delayed := delayed; q_ready := ready }}).

(** ** The queue's methods *)

(** A call fails without any effect when the server does not answer. *)
Definition redis {A} (f : TaskQueue → A * TaskQueue) (q : TaskQueue) : res A * TaskQueue :=
  if q_up q then let '(a, q') := f q in (Ok a, q') else (Exn (PlainErr "Redis unreachable"), q).

Definition returned_1 (f : TaskQueue → Z * TaskQueue) (q : TaskQueue) : bool * TaskQueue :=
  let '(n, q') := f q in (bool_decide (n = 1%Z), q').

Definition queue_enqueue (id : oid) : TaskQueue → res bool * TaskQueue :=
  redis (returned_1 (wfEnqueue id)).
(** [Math.max(0, Math.round(delayMs))]: the engine's delays are integers. *)
Definition queue_enqueueDelayed (id : oid) (delayMs : Z) : TaskQueue → res bool * TaskQueue :=
  redis (returned_1 (wfEnqueueDelayed id (Z.max 0 delayMs))).
Definition queue_claim (leaseMs : Z) : TaskQueue → res (option oid) * TaskQueue :=
  redis (wfClaim leaseMs).
Definition queue_extendLease (id : oid) (leaseMs : Z) : TaskQueue → res bool * TaskQueue :=
  redis (returned_1 (wfExtendLease id leaseMs)).
Definition queue_ack (id : oid) : TaskQueue → res bool * TaskQueue :=
  redis (returned_1 (wfAck id)).
Definition queue_requeueExpired (limit : nat) : TaskQueue → res (list oid) * TaskQueue :=
  redis (wfRequeueExpired limit).
Definition queue_promoteDue (limit : nat) : TaskQueue → res (list oid) * TaskQueue :=
  redis (wfPromoteDue limit).

(** [llen], [zcard], [zcard]. *)
Definition queue_stats : TaskQueue → res (nat * nat * nat) * TaskQueue :=
  redis (λ q, (length (q_ready q), size (q_leases q), size (q_delayed q), q)).

(** ** The invariant

    An id is in at most one of the three structures, at most once, and [members]
    is exactly their union. *)
Record queue_ok (q : TaskQueue) : Prop := {
  qo_ready : NoDup (q_ready q);
  qo_leased id : id ∈ q_ready q → q_leases q !! id = None ∧ q_delayed q !! id = None;
  qo_disjoint id : is_Some (q_leases q !! id) → q_delayed q !! id = None;
  qo_members id : id ∈ q_members q ↔
    id ∈ q_ready q ∨ is_Some (q_leases q !! id) ∨ is_Some (q_delayed q !! id)
}.

Lemma empty_queue_ok : queue_ok empty_queue.
Proof.
  split; simpl; [constructor|by intros ? ?%not_elem_of_nil|by intros id [? ?]|].
  intros id. rewrite elem_of_empty, elem_of_nil, !lookup_empty. split; [done|].
  by intros [[]|[[? ?]|[? ?]]].
Qed.

(** ** Sorted sets are read in order, once per member *)

Lemma zset_insert_perm x l : zset_insert x l ≡ₚ x :: l.
Proof.
  induction l as [|y l IH]; simpl; [done|]. case_decide; [done|]. by rewrite IH, Permutation_swap.
Qed.

Lemma zset_sort_perm l : zset_sort l ≡ₚ l.
Proof. induction l as [|x l IH]; simpl; [done|]. by rewrite zset_insert_perm, IH. Qed.

Lemma zset_le_total a b : ¬ zset_le a b → zset_le b a.
Proof. unfold zset_le. lia. Qed.

#[export] Instance zset_le_trans : Transitive zset_le.
Proof. intros a b c. unfold zset_le. lia. Qed.

Lemma zset_insert_sorted x l : StronglySorted zset_le l → StronglySorted zset_le (zset_insert x l).
Proof.
  induction 1 as [|y l Hl IH Hy]; simpl; [by repeat constructor|].
  case_decide as Hle.
  - constructor; [by constructor|]. constructor; [done|].
    eapply Forall_impl; [exact Hy|]. intros z ?. by transitivity y.
  - constructor; [done|]. rewrite zset_insert_perm. constructor; [by apply zset_le_total|done].
Qed.

Lemma zset_sort_sorted l : StronglySorted zset_le (zset_sort l).
Proof. induction l; simpl; [constructor|by apply zset_insert_sorted]. Qed.

(** The members of [zrangebyscore] before the limit. *)
Definition zrange_all (z : gmap oid Z) (max : Z) : list (oid * Z) :=
  zset_sort (filter (λ kv, kv.2 ≤ max)%Z (map_to_list z)).

Lemma zrange_all_elem z max i s : (i, s) ∈ zrange_all z max ↔ z !! i = Some s ∧ (s ≤ max)%Z.
Proof.
  unfold zrange_all. rewrite zset_sort_perm, list_elem_of_filter, elem_of_map_to_list. naive_solver.
Qed.

Lemma zrange_all_NoDup z max : NoDup (zrange_all z max).*1.
Proof.
  unfold zrange_all. rewrite zset_sort_perm.
  generalize (NoDup_fst_map_to_list z). generalize (map_to_list z). intros l.
  induction l as [|[k v] l IH]; csimpl; [done|]. intros [Hk Hl]%NoDup_cons.
  rewrite filter_cons. case_decide; csimpl; [|by apply IH].
  apply NoDup_cons. split; [|by apply IH]. intros ([? ?] & -> & Hin)%list_elem_of_fmap.
  apply list_elem_of_filter in Hin as [_ Hin]. apply Hk, list_elem_of_fmap. by eexists.
Qed.

Lemma zrangebyscore_take z max limit : zrangebyscore z max limit = take limit (zrange_all z max).*1.
Proof. done. Qed.

Lemma zrangebyscore_NoDup z max limit : NoDup (zrangebyscore z max limit).
Proof.
  rewrite zrangebyscore_take. pose proof (zrange_all_NoDup z max) as Hnd.
  rewrite <- (take_drop limit) in Hnd. by apply NoDup_app in Hnd as [? _].
Qed.

Lemma zrangebyscore_elem z max limit i :
  i ∈ zrangebyscore z max limit → ∃ s, z !! i = Some s ∧ (s ≤ max)%Z.
Proof.
  rewrite zrangebyscore_take. intros Hin%(subseteq_take limit).
  apply list_elem_of_fmap in Hin as ([? s] & -> & Hin%zrange_all_elem). eauto.
Qed.

(** ** Moving ids to the ready list *)

(** [z] without the members of [ids]. *)
Definition without (ids : list oid) (z : gmap oid Z) : gmap oid Z :=
  filter (λ kv : oid * Z, kv.1 ∉ ids) z.

Lemma without_lookup ids z i : without ids z !! i = if decide (i ∈ ids) then None else z !! i.
Proof.
  unfold without. case_decide as Hin.
  - apply map_lookup_filter_None. right. naive_solver.
  - destruct (z !! i) eqn:Hz; [by apply map_lookup_filter_Some|].
    apply map_lookup_filter_None. by left.
Qed.

Lemma foldl_move_to_ready ids : ∀ z r,
  NoDup ids → (∀ i, i ∈ ids → is_Some (z !! i)) →
  foldl move_to_ready (z, r) ids = (without ids z, r ++ ids).
Proof.
  induction ids as [|i ids IH]; intros z r Hnd Hz; csimpl.
  - rewrite app_nil_r. f_equal. apply map_eq. intros i. by rewrite without_lookup.
  - apply NoDup_cons in Hnd as [Hi Hnd]. unfold move_to_ready at 2; simpl.
    destruct (Hz i) as [s Hs]; [left|]. rewrite Hs. rewrite IH; [|done|].
    + rewrite <- app_assoc. f_equal. apply map_eq. intros j. rewrite !without_lookup.
      destruct (decide (j = i)) as [->|Hne].
      * rewrite lookup_delete_eq, (decide_False (P := i ∈ ids)) by done.
        rewrite decide_True; [done|left].
      * rewrite lookup_delete_ne by done. repeat case_decide; set_solver.
    + intros j Hj. rewrite lookup_delete_ne by (by intros ->). apply Hz. by right.
Qed.

Lemma foldl_zrange z r max limit :
  foldl move_to_ready (z, r) (zrangebyscore z max limit)
  = (without (zrangebyscore z max limit) z, r ++ zrangebyscore z max limit).
Proof.
  apply foldl_move_to_ready; [apply zrangebyscore_NoDup|].
  intros i (s & Hs & _)%zrangebyscore_elem. by eexists.
Qed.

Lemma wfRequeueExpired_eq limit q :
  let ids := zrangebyscore (q_leases q) (q_time q) limit in
  wfRequeueExpired limit q =
    (ids, q {{ q_leases := without ids (q_leases q); q_ready := q_ready q ++ ids }}).
Proof. intros ids. unfold wfRequeueExpired. by rewrite foldl_zrange. Qed.

Lemma wfPromoteDue_eq limit q :
  let ids := zrangebyscore (q_delayed q) (q_time q) limit in
  wfPromoteDue limit q =
    (ids, q {{ q_delayed := without ids (q_delayed q); q_ready := q_ready q ++ ids }}).
Proof. intros ids. unfold wfPromoteDue. by rewrite foldl_zrange. Qed.

(** ** Histories of the queue *)

(** The commands any number of processes send, and the passage of time. *)
Inductive command : Type :=
| Enqueue (id : oid)
| EnqueueDelayed (id : oid) (delay : Z)
| Claim (leaseMs : Z)
| ExtendLease (id : oid) (leaseMs : Z)
| Ack (id : oid)
| RequeueExpired (limit : nat)
| PromoteDue (limit : nat)
| Tick (dt : Z).

Definition exec (c : command) (q : TaskQueue) : TaskQueue :=
  match c with
  | Enqueue id => (wfEnqueue id q).2
  | EnqueueDelayed id delay => (wfEnqueueDelayed id delay q).2
  | Claim leaseMs => (wfClaim leaseMs q).2
  | ExtendLease id leaseMs => (wfExtendLease id leaseMs q).2
  | Ack id => (wfAck id q).2
  | RequeueExpired limit => (wfRequeueExpired limit q).2
  | PromoteDue limit => (wfPromoteDue limit q).2
  | Tick dt => q {{ q_time := (q_time q + dt)%Z }}
  end.

Definition exec_all (cs : list command) (q : TaskQueue) : TaskQueue :=
  foldl (λ q c, exec c q) q cs.

(** Where an id is. *)
Inductive place : Type := Ready | Leased (deadline : Z) | Delayed (due : Z).

#[export] Instance place_eq_dec : EqDecision place.
Proof. solve_decision. Defined.

Definition place_of (q : TaskQueue) (id : oid) : option place :=
  if decide (id ∈ q_ready q) then Some Ready
  else match q_leases q !! id with
       | Some d => Some (Leased d)
       | None => Delayed <$> q_delayed q !! id
       end.

(** What a command may do to the place [p] of the id [i]: the specification of
    the queue, one id at a time. *)
Definition moves (c : command) (now : Z) (i : oid) (p p' : option place) : Prop :=
  match c with
  | Enqueue j =>
      p' = (if decide (i = j) then Some (default Ready p) else p)
  | EnqueueDelayed j delay =>
      p' = (if decide (i = j) then match p with
              | None | Some (Leased _) => Some (Delayed (now + delay)%Z)
              | _ => p
              end else p)
  | Claim leaseMs =>
      p' = p ∨ p = Some Ready ∧ p' = Some (Leased (now + leaseMs)%Z)
  | ExtendLease j leaseMs =>
      p' = (if decide (i = j) then match p with
              | Some (Leased _) => Some (Leased (now + leaseMs)%Z)
              | _ => p
              end else p)
  | Ack j =>
      p' = (if decide (i = j) then match p with Some (Leased _) => None | _ => p end else p)
  | RequeueExpired _ =>
      p' = p ∨ ∃ d, p = Some (Leased d) ∧ (d ≤ now)%Z ∧ p' = Some Ready
  | PromoteDue _ =>
      p' = p ∨ ∃ d, p = Some (Delayed d) ∧ (d ≤ now)%Z ∧ p' = Some Ready
  | Tick _ => p' = p
  end.

Lemma place_ready q i : i ∈ q_ready q → place_of q i = Some Ready.
Proof. intros ?. unfold place_of. by rewrite decide_True. Qed.

Lemma place_leased q i d : queue_ok q → place_of q i = Some (Leased d) ↔ q_leases q !! i = Some d.
Proof.
  intros Hq. unfold place_of. case_decide as Hr.
  - split; [done|]. intros Hl. destruct (qo_leased q Hq i Hr). congruence.
  - destruct (q_leases q !! i), (q_delayed q !! i); naive_solver.
Qed.

Lemma place_delayed q i d : queue_ok q → place_of q i = Some (Delayed d) ↔ q_delayed q !! i = Some d.
Proof.
  intros Hq. unfold place_of. case_decide as Hr.
  - split; [done|]. intros Hl. destruct (qo_leased q Hq i Hr). congruence.
  - pose proof (qo_disjoint q Hq i) as Hd.
    destruct (q_leases q !! i), (q_delayed q !! i); naive_solver.
Qed.

Lemma place_member q i : queue_ok q → is_Some (place_of q i) ↔ i ∈ q_members q.
Proof.
  intros Hq. rewrite (qo_members q Hq i). unfold place_of. case_decide as Hr; [naive_solver|].
  destruct (q_leases q !! i), (q_delayed q !! i); naive_solver.
Qed.

(** *** Every command keeps the invariant *)

Ltac lookups :=
  repeat match goal with
  | H : context [<[?i:=_]> _ !! ?i] |- _ => rewrite lookup_insert_eq in H
  | |- context [<[?i:=_]> _ !! ?i] => rewrite lookup_insert_eq
  | H : context [delete ?i _ !! ?i] |- _ => rewrite lookup_delete_eq in H
  | |- context [delete ?i _ !! ?i] => rewrite lookup_delete_eq
  | Hne : ?i ≠ ?j, H : context [<[?i:=_]> _ !! ?j] |- _ => rewrite (lookup_insert_ne _ i j) in H by exact Hne
  | Hne : ?i ≠ ?j |- context [<[?i:=_]> _ !! ?j] => rewrite (lookup_insert_ne _ i j) by exact Hne
  | Hne : ?i ≠ ?j, H : context [delete ?i _ !! ?j] |- _ => rewrite (lookup_delete_ne _ i j) in H by exact Hne
  | Hne : ?i ≠ ?j |- context [delete ?i _ !! ?j] => rewrite (lookup_delete_ne _ i j) by exact Hne
  end.

(** The id [i] of a goal about the invariant against the id [j] of a command. *)
Ltac compare_ids j i := destruct (decide (j = i)) as [<-|?]; lookups.

Lemma wfEnqueue_ok id q : queue_ok q → queue_ok (wfEnqueue id q).2.
Proof.
  intros Hq. unfold wfEnqueue. case_decide as Hid; [done|].
  rewrite (qo_members q Hq) in Hid. destruct Hq as [Hnd Hr Hd Hm]. simpl.
  split; cbn.
  - apply NoDup_app. split_and!; [done| |apply NoDup_singleton]. set_solver.
  - intros i [Hi|Hi]%elem_of_app; [by apply Hr|]. apply list_elem_of_singleton in Hi as ->.
    rewrite !eq_None_not_Some. naive_solver.
  - done.
  - intros i. rewrite elem_of_union, elem_of_singleton, Hm, elem_of_app, list_elem_of_singleton.
    tauto.
Qed.

Lemma wfEnqueueDelayed_ok id delay q : queue_ok q → queue_ok (wfEnqueueDelayed id delay q).2.
Proof.
  intros Hq. pose proof (qo_members q Hq id) as Hmid. destruct Hq as [Hnd Hr Hd Hm].
  unfold wfEnqueueDelayed; simpl.
  destruct (bool_decide (is_Some (q_leases q !! id))) eqn:Hl;
    [apply bool_decide_eq_true in Hl as [d Hl]
    |apply bool_decide_eq_false in Hl; apply eq_None_not_Some in Hl]; simpl.
  - assert (id ∉ q_ready q) by (intros Hin; destruct (Hr id Hin); congruence).
    split; cbn; [done| | |].
    + intros i Hi. compare_ids id i; [done|by apply Hr].
    + intros i Hi. compare_ids id i; [by destruct Hi|by apply Hd].
    + intros i. compare_ids id i; [|rewrite <- Hm; set_solver]. set_solver.
  - assert (delete id (q_leases q) = q_leases q) as -> by by apply delete_id.
    destruct (bool_decide (id ∉ q_members q)) eqn:Hn;
      [apply bool_decide_eq_true in Hn|apply bool_decide_eq_false in Hn]; simpl.
    + assert (id ∉ q_ready q) by naive_solver. split; cbn; [done| | |].
      * intros i Hi. compare_ids id i; [done|by apply Hr].
      * intros i Hi. compare_ids id i; [|by apply Hd]. rewrite Hl in Hi. by destruct Hi.
      * intros i. compare_ids id i; [|rewrite <- Hm; set_solver]. set_solver.
    + split; cbn; [done..|]. intros i. rewrite <- Hm. apply dec_stable in Hn. set_solver.
Qed.

Lemma wfClaim_ok leaseMs q : queue_ok q → queue_ok (wfClaim leaseMs q).2.
Proof.
  intros Hq. unfold wfClaim. destruct (q_ready q) as [|id rest] eqn:Hrd; [done|].
  destruct Hq as [Hnd Hr Hd Hm]. rewrite Hrd in *. apply NoDup_cons in Hnd as [Hid Hnd]. simpl.
  split; cbn; [done| | |].
  - intros i Hi. compare_ids id i; [done|]. apply Hr. by right.
  - intros i Hi. compare_ids id i; [|by apply Hd]. apply Hr. left.
  - intros i. rewrite Hm, elem_of_cons. compare_ids id i; naive_solver.
Qed.

Lemma wfExtendLease_ok id leaseMs q : queue_ok q → queue_ok (wfExtendLease id leaseMs q).2.
Proof.
  intros Hq. unfold wfExtendLease. destruct (q_leases q !! id) as [d|] eqn:Hl; [|done].
  destruct Hq as [Hnd Hr Hd Hm]. simpl. split; cbn; [done| | |].
  - intros i Hi. destruct (Hr i Hi). compare_ids id i; [congruence|done].
  - intros i Hi. compare_ids id i; [|by apply Hd]. apply Hd. by rewrite Hl.
  - intros i. rewrite Hm. compare_ids id i; [|done]. rewrite Hl. naive_solver.
Qed.

Lemma wfAck_ok id q : queue_ok q → queue_ok (wfAck id q).2.
Proof.
  intros Hq. unfold wfAck. destruct (q_leases q !! id) as [d|] eqn:Hl; [|done].
  destruct Hq as [Hnd Hr Hd Hm]. simpl. split; cbn; [done| | |].
  - intros i Hi. destruct (Hr i Hi). compare_ids id i; done.
  - intros i Hi. compare_ids id i; [by destruct Hi|by apply Hd].
  - intros i. rewrite elem_of_difference, not_elem_of_singleton, Hm. compare_ids id i; [|naive_solver].
    pose proof (Hd id) as Hdi. rewrite Hl in Hdi. pose proof (Hr id) as Hri.
    split; [tauto|]. intros [Hi|[[? Hi]|[? Hi]]]; exfalso; [|done|]; naive_solver.
Qed.

Lemma without_is_Some ids z i : is_Some (without ids z !! i) ↔ i ∉ ids ∧ is_Some (z !! i).
Proof. rewrite without_lookup. case_decide; [|naive_solver]. split; [by intros [? ?]|tauto]. Qed.

Lemma wfRequeueExpired_ok limit q : queue_ok q → queue_ok (wfRequeueExpired limit q).2.
Proof.
  intros [Hnd Hr Hd Hm]. rewrite wfRequeueExpired_eq; simpl.
  pose proof (zrangebyscore_NoDup (q_leases q) (q_time q) limit) as Hids.
  assert (∀ i, i ∈ zrangebyscore (q_leases q) (q_time q) limit → is_Some (q_leases q !! i)) as Hin
    by (intros i (s & Hs & _)%zrangebyscore_elem; by eexists).
  revert Hids Hin. generalize (zrangebyscore (q_leases q) (q_time q) limit). intros ids Hids Hin.
  split; cbn.
  - apply NoDup_app. split_and!; [done| |done]. intros i Hi Hi'. destruct (Hr i Hi), (Hin i Hi').
    congruence.
  - intros i Hi. rewrite without_lookup. apply elem_of_app in Hi as [Hi|Hi].
    + destruct (Hr i Hi). by case_decide.
    + rewrite decide_True by done. auto.
  - intros i [_ Hi]%without_is_Some. by apply Hd.
  - intros i. rewrite Hm, elem_of_app, without_is_Some.
    destruct (decide (i ∈ ids)); naive_solver.
Qed.

Lemma wfPromoteDue_ok limit q : queue_ok q → queue_ok (wfPromoteDue limit q).2.
Proof.
  intros [Hnd Hr Hd Hm]. rewrite wfPromoteDue_eq; simpl.
  pose proof (zrangebyscore_NoDup (q_delayed q) (q_time q) limit) as Hids.
  assert (∀ i, i ∈ zrangebyscore (q_delayed q) (q_time q) limit → is_Some (q_delayed q !! i)) as Hin
    by (intros i (s & Hs & _)%zrangebyscore_elem; by eexists).
  revert Hids Hin. generalize (zrangebyscore (q_delayed q) (q_time q) limit). intros ids Hids Hin.
  split; cbn.
  - apply NoDup_app. split_and!; [done| |done]. intros i Hi Hi'. destruct (Hr i Hi), (Hin i Hi').
    congruence.
  - intros i Hi. rewrite without_lookup. apply elem_of_app in Hi as [Hi|Hi].
    + destruct (Hr i Hi). by case_decide.
    + rewrite decide_True by done. split; [|done].
      destruct (q_leases q !! i) eqn:Hl; [|done]. pose proof (Hin i Hi) as Hde.
      rewrite Hd in Hde by (by rewrite Hl). by destruct Hde.
  - intros i Hi. rewrite without_lookup. case_decide; [done|]. by apply Hd.
  - intros i. rewrite Hm, elem_of_app, without_is_Some.
    destruct (decide (i ∈ ids)); naive_solver.
Qed.

#[export] Hint Resolve wfEnqueue_ok wfEnqueueDelayed_ok wfClaim_ok wfExtendLease_ok wfAck_ok
  wfRequeueExpired_ok wfPromoteDue_ok empty_queue_ok : wf.

Lemma exec_ok c q : queue_ok q → queue_ok (exec c q).
Proof. destruct c; simpl; auto with wf. by intros [Hnd Hr Hd Hm]. Qed.

Lemma exec_all_ok cs : ∀ q, queue_ok q → queue_ok (exec_all cs q).
Proof. induction cs as [|c cs IH]; intros q Hq; [done|]. by apply IH, exec_ok. Qed.

(** *** Every command moves ids as specified *)

(** Three facts that determine the place of an id. *)
Lemma place_of_eq q i :
  place_of q i = if decide (i ∈ q_ready q) then Some Ready
    else match q_leases q !! i with
         | Some d => Some (Leased d)
         | None => Delayed <$> q_delayed q !! i
         end.
Proof. done. Qed.

Lemma requeue_moves ids z q i :
  queue_ok q → z = q_leases q → (∀ j, j ∈ ids → ∃ d, z !! j = Some d ∧ (d ≤ q_time q)%Z) →
  place_of (q {{ q_leases := without ids z; q_ready := q_ready q ++ ids }}) i =
    if decide (i ∈ ids) then Some Ready else place_of q i.
Proof.
  intros Hq -> Hids. rewrite !place_of_eq; cbn. rewrite without_lookup.
  destruct (decide (i ∈ ids)); [by rewrite decide_True by set_solver|].
  destruct (decide (i ∈ q_ready q)); [by rewrite decide_True by set_solver|].
  by rewrite decide_False by set_solver.
Qed.

Lemma promote_moves ids z q i :
  queue_ok q → z = q_delayed q → (∀ j, j ∈ ids → ∃ d, z !! j = Some d ∧ (d ≤ q_time q)%Z) →
  place_of (q {{ q_delayed := without ids z; q_ready := q_ready q ++ ids }}) i =
    if decide (i ∈ ids) then Some Ready else place_of q i.
Proof.
  intros Hq -> Hids. rewrite !place_of_eq; cbn. rewrite without_lookup.
  destruct (decide (i ∈ ids)); [by rewrite decide_True by set_solver|].
  destruct (decide (i ∈ q_ready q)); [by rewrite decide_True by set_solver|].
  by rewrite decide_False by set_solver.
Qed.

Lemma place_RequeueExpired limit q i :
  queue_ok q →
  place_of (exec (RequeueExpired limit) q) i =
    if decide (i ∈ zrangebyscore (q_leases q) (q_time q) limit) then Some Ready else place_of q i.
Proof.
  intros Hq. cbn [exec]. rewrite wfRequeueExpired_eq. apply requeue_moves; [done..|].
  by intros j Hj%zrangebyscore_elem.
Qed.

Lemma place_PromoteDue limit q i :
  queue_ok q →
  place_of (exec (PromoteDue limit) q) i =
    if decide (i ∈ zrangebyscore (q_delayed q) (q_time q) limit) then Some Ready else place_of q i.
Proof.
  intros Hq. cbn [exec]. rewrite wfPromoteDue_eq. apply promote_moves; [done..|].
  by intros j Hj%zrangebyscore_elem.
Qed.

Lemma moves_Enqueue id q i : queue_ok q →
  moves (Enqueue id) (q_time q) i (place_of q i) (place_of (exec (Enqueue id) q) i).
Proof.
  intros Hq. pose proof (place_member q id Hq) as Hm. cbn. unfold wfEnqueue.
  case_decide as Hid; cbn.
  - case_decide; subst; [|done]. apply Hm in Hid as [p Hp]. by rewrite Hp.
  - destruct (decide (i = id)) as [->|Hne]; rewrite !place_of_eq; cbn.
    + rewrite decide_True by set_solver. rewrite <- place_of_eq. f_equal.
      destruct (place_of q id) eqn:Hp; [|done]. destruct Hid. rewrite <- Hm. by eexists.
    + destruct (decide (i ∈ q_ready q)); [by rewrite decide_True by set_solver|].
      by rewrite decide_False by set_solver.
Qed.

Lemma moves_EnqueueDelayed id delay q i : queue_ok q →
  moves (EnqueueDelayed id delay) (q_time q) i (place_of q i)
    (place_of (exec (EnqueueDelayed id delay) q) i).
Proof.
  intros Hq. pose proof (place_member q id Hq) as Hm. pose proof (qo_leased q Hq id) as Hrl.
  cbn. unfold wfEnqueueDelayed; cbn zeta.
  destruct (bool_decide (is_Some (q_leases q !! id))) eqn:Hl;
    [apply bool_decide_eq_true in Hl as [d Hl]
    |apply bool_decide_eq_false in Hl; apply eq_None_not_Some in Hl]; cbn.
  - destruct (decide (i = id)) as [->|Hne]; rewrite !place_of_eq; cbn; lookups.
    + rewrite Hl. rewrite !decide_False; [done|..]; intros Hin%Hrl; destruct Hin; congruence.
    + rewrite lookup_delete_ne, lookup_insert_ne by done. done.
  - assert (delete id (q_leases q) = q_leases q) as Hdel by by apply delete_id.
    destruct (bool_decide (id ∉ q_members q)) eqn:Hn;
      [apply bool_decide_eq_true in Hn|apply bool_decide_eq_false in Hn]; cbn.
    + destruct (decide (i = id)) as [->|Hne]; rewrite !place_of_eq; cbn; rewrite Hdel; lookups.
      * assert (place_of q id = None) as Hp
          by (destruct (place_of q id) eqn:E; [destruct Hn; rewrite <- Hm; by eexists|done]).
        rewrite place_of_eq in Hp. destruct (decide (id ∈ q_ready q)); [done|].
        by rewrite Hl in *; destruct (q_delayed q !! id).
      * by rewrite lookup_insert_ne by done.
    + apply dec_stable, Hm in Hn as [p Hp]. rewrite Hdel.
      destruct (decide (i = id)) as [->|]; [|done].
      rewrite !place_of_eq in *; cbn. destruct (decide (id ∈ q_ready q)); [done|].
      rewrite Hl in *. by destruct (q_delayed q !! id).
Qed.

Lemma moves_Claim leaseMs q i : queue_ok q →
  moves (Claim leaseMs) (q_time q) i (place_of q i) (place_of (exec (Claim leaseMs) q) i).
Proof.
  intros Hq. pose proof (qo_ready q Hq) as Hnd. cbn. unfold wfClaim.
  destruct (q_ready q) as [|id rest] eqn:Hr; cbn; [by left|].
  apply NoDup_cons in Hnd as [Hid _].
  destruct (decide (i = id)) as [->|Hne]; rewrite !place_of_eq, Hr; cbn; lookups.
  - right. rewrite decide_True by left. by rewrite decide_False.
  - left. rewrite lookup_insert_ne by done. destruct (decide (i ∈ rest)).
    + by rewrite decide_True by (by right).
    + by rewrite decide_False by set_solver.
Qed.

Lemma moves_ExtendLease id leaseMs q i : queue_ok q →
  moves (ExtendLease id leaseMs) (q_time q) i (place_of q i)
    (place_of (exec (ExtendLease id leaseMs) q) i).
Proof.
  intros Hq. pose proof (qo_leased q Hq id) as Hrl. cbn. unfold wfExtendLease.
  destruct (q_leases q !! id) as [d|] eqn:Hl; cbn.
  - case_decide; subst; rewrite !place_of_eq; cbn; lookups.
    + rewrite Hl. rewrite !decide_False; [done|..]; intros Hin%Hrl; destruct Hin; congruence.
    + by rewrite lookup_insert_ne by done.
  - case_decide; subst; [|done]. rewrite !place_of_eq, Hl. case_decide; [done|].
    by destruct (q_delayed q !! id).
Qed.

Lemma moves_Ack id q i : queue_ok q →
  moves (Ack id) (q_time q) i (place_of q i) (place_of (exec (Ack id) q) i).
Proof.
  intros Hq. pose proof (qo_leased q Hq id) as Hrl. pose proof (qo_disjoint q Hq id) as Hd.
  cbn. unfold wfAck.
  destruct (q_leases q !! id) as [d|] eqn:Hl; cbn.
  - case_decide; subst; rewrite !place_of_eq; cbn; lookups.
    + rewrite Hl. rewrite !decide_False; [|intros Hin%Hrl; destruct Hin; congruence..].
      change (Delayed <$> q_delayed q !! id = None). by rewrite Hd.
    + by rewrite lookup_delete_ne by done.
  - case_decide; subst; [|done]. rewrite !place_of_eq, Hl. case_decide; [done|].
    by destruct (q_delayed q !! id).
Qed.

Lemma moves_zrange z q max limit i (C : Z → place) :
  (∀ j d, z !! j = Some d → place_of q j = Some (C d)) →
  (i ∈ zrangebyscore z max limit → ∃ d, place_of q i = Some (C d) ∧ (d ≤ max)%Z).
Proof. intros Hz (d & Hd & ?)%zrangebyscore_elem. eauto. Qed.

#[export] Hint Resolve moves_Enqueue moves_EnqueueDelayed moves_Claim moves_ExtendLease moves_Ack : wf.

Lemma exec_moves c q i :
  queue_ok q → moves c (q_time q) i (place_of q i) (place_of (exec c q) i).
Proof.
  intros Hq. destruct c as [| | | | |limit|limit|]; auto with wf; [| |done].
  - rewrite place_RequeueExpired by done. cbn. case_decide as Hin; [|by left]. right.
    apply (moves_zrange _ q _ _ _ Leased) in Hin as (d & Hp & ?); [eauto|].
    intros j d. by apply place_leased.
  - rewrite place_PromoteDue by done. cbn. case_decide as Hin; [|by left]. right.
    apply (moves_zrange _ q _ _ _ Delayed) in Hin as (d & Hp & ?); [eauto|].
    intros j d. by apply place_delayed.
Qed.

(** *** What a bounded range returns *)

Lemma zrangebyscore_limit z max limit j dj :
  z !! j = Some dj → (dj ≤ max)%Z → j ∉ zrangebyscore z max limit →
  length (zrangebyscore z max limit) = limit ∧
  ∀ i di, i ∈ zrangebyscore z max limit → z !! i = Some di → (di ≤ dj)%Z.
Proof.
  intros Hj Hle Hout. rewrite zrangebyscore_take in *.
  assert ((j, dj) ∈ zrange_all z max) as Hin by by apply zrange_all_elem.
  rewrite <- fmap_take in *. rewrite <- (take_drop limit (zrange_all z max)) in Hin.
  apply elem_of_app in Hin as [Hin|Hin].
  { destruct Hout. apply list_elem_of_fmap. by exists (j, dj). }
  split.
  - rewrite length_fmap, length_take. apply Nat.min_l. apply Nat.lt_le_incl.
    assert (drop limit (zrange_all z max) ≠ []) as Hne by (intros E; rewrite E in Hin; by apply elem_of_nil in Hin).
    destruct (decide (limit < length (zrange_all z max))); [done|].
    destruct Hne. apply drop_ge. lia.
  - intros i di ([i' s] & -> & Hi)%list_elem_of_fmap Hdi. simpl in *.
    pose proof (zset_sort_sorted (filter (λ kv, kv.2 ≤ max)%Z (map_to_list z))) as Hs.
    fold (zrange_all z max) in Hs. pose proof (subseteq_take limit _ _ Hi) as Hi'.
    apply zrange_all_elem in Hi' as [? _]. simplify_eq.
    rewrite <- (take_drop limit (zrange_all z max)) in Hs.
    enough (zset_le (i', di) (j, dj)) as Hle' by (unfold zset_le in Hle'; simpl in Hle'; lia).
    revert Hs Hi Hin. generalize (take limit (zrange_all z max)), (drop limit (zrange_all z max)).
    intros l1 l2 Hs. induction l1 as [|x l1 IH]; [by intros ?%elem_of_nil|].
    inversion Hs as [|? ? Hs' Hx]; subst. intros [<-|Hi]%elem_of_cons Hin; [|by apply IH].
    rewrite Forall_forall in Hx. apply Hx. apply elem_of_app. by right.
Qed.

(** ** Claims *)

Fixpoint claims (n : nat) (leaseMs : Z) (q : TaskQueue) : list oid * TaskQueue :=
  match n with
  | 0 => ([], q)
  | S n =>
      match wfClaim leaseMs q with
      | (None, q) => ([], q)
      | (Some id, q) => let '(ids, q) := claims n leaseMs q in (id :: ids, q)
      end
  end.

Lemma claims_take n leaseMs : ∀ q, (claims n leaseMs q).1 = take n (q_ready q).
Proof.
  induction n as [|n IH]; intros q; simpl; [done|]. unfold wfClaim.
  destruct (q_ready q) as [|id rest]; [done|]. cbn.
  specialize (IH (q {{ q_ready := rest; q_leases := <[id := (q_time q + leaseMs)%Z]> (q_leases q) }})).
  cbn in IH. rewrite <- IH. by destruct (claims n leaseMs _).
Qed.

Lemma enqueue_new_all ids : ∀ q,
  NoDup ids → (∀ i, i ∈ ids → i ∉ q_members q) →
  q_ready (exec_all (Enqueue <$> ids) q) = q_ready q ++ ids.
Proof.
  induction ids as [|i ids IH]; intros q Hnd Hnew; csimpl; [by rewrite app_nil_r|].
  apply NoDup_cons in Hnd as [Hi Hnd]. unfold exec_all; cbn [foldl]. fold (exec_all (Enqueue <$> ids)).
  cbn [exec]. unfold wfEnqueue. rewrite decide_False by (apply Hnew; left). cbn [snd].
  etrans; [apply IH; [done|]|cbn; by rewrite <- app_assoc].
  intros j Hj. cbn. apply not_elem_of_union. split; [set_solver|]. apply Hnew. by right.
Qed.

(** ** The theorems *)

(** after any sequence of commands, interleaved in any way by any number
    of processes and whatever the clock does, an id is in at most one of
    [ready], [leases] and [delayed], at most once, and [members] is exactly
    their union. *)
Theorem queue_invariant cs : queue_ok (exec_all cs empty_queue).
Proof. apply exec_all_ok, empty_queue_ok. Qed.



(** enqueueing is idempotent, and workers claim in the order of enqueueing. *)
Theorem claims_are_fifo q ids n leaseMs :
  NoDup ids → (∀ i, i ∈ ids → i ∉ q_members q) →
  let q' := exec_all (Enqueue <$> ids) q in
  (claims n leaseMs q').1 = take n (q_ready q ++ ids) ∧
  ∀ i, i ∈ ids → q_members q' = q_members (exec (Enqueue i) q') ∧ wfEnqueue i q' = (0%Z, q').
Proof.
  intros Hnd Hnew q'. split; [rewrite claims_take; exact (f_equal (take n) (enqueue_new_all ids q Hnd Hnew))|].
  intros i Hi. assert (i ∈ q_members q') as Hm.
  { subst q'. clear Hnd Hnew. unfold exec_all.
    assert (∀ l q, i ∈ q_members q → i ∈ q_members (foldl (λ q c, exec c q) q (Enqueue <$> l))) as Hkeep.
    { induction l as [|j l IH]; intros q0 Hin; [done|]. csimpl. apply IH.
      unfold wfEnqueue. case_decide; [done|]. cbn. by apply elem_of_union_r. }
    revert q. induction ids as [|j l IH]; intros q; [by apply elem_of_nil in Hi|].
    csimpl. apply elem_of_cons in Hi as [<-|Hi]; [|by apply IH]. apply Hkeep.
    unfold wfEnqueue. case_decide; [done|]. cbn. by apply elem_of_union_l, elem_of_singleton. }
  cbn. unfold wfEnqueue. by rewrite decide_True by done.
Qed.

Lemma claims_are_fifo_witness :
  let q := exec_all [Enqueue 7] empty_queue in
  NoDup [3; 4] ∧ (claims 3 10 (exec_all (Enqueue <$> [3; 4]) q)).1 = [7; 3; 4].
Proof.
  intros q. assert (NoDup [3; 4]) as Hnd by (apply (bool_decide_unpack _); vm_compute; exact I).
  split; [exact Hnd|].
  apply (claims_are_fifo q [3; 4] 3 10 Hnd).
  intros i Hi. assert (¬ i ∈ q_members q ↔ i ≠ 7) as ->; [|set_solver].
  replace (q_members q) with ({[7]} ∪ ∅ : gset oid) by (vm_compute; reflexivity). set_solver.
Defined.


(** the reaper makes ready exactly the ids it returns: each had an expired
    lease; when it leaves out an expired lease it has reached its limit, and
    everything it returned had expired no later. *)
Theorem reaper_requeues_expired q limit ids q' :
  queue_ok q → wfRequeueExpired limit q = (ids, q') →
  (∀ i, i ∈ ids → place_of q' i = Some Ready ∧
     ∃ d, place_of q i = Some (Leased d) ∧ (d ≤ q_time q)%Z) ∧
  (∀ i, i ∉ ids → place_of q' i = place_of q i) ∧
  (∀ j dj, place_of q j = Some (Leased dj) → (dj ≤ q_time q)%Z → j ∉ ids →
     length ids = limit ∧
     ∀ i di, i ∈ ids → place_of q i = Some (Leased di) → (di ≤ dj)%Z).
Proof.
  intros Hq Hrun. assert (∀ i, place_of q' i = if decide (i ∈ ids) then Some Ready else place_of q i) as Hp.
  { intros i. pose proof (place_RequeueExpired limit q i Hq) as Hp. cbn [exec] in Hp.
    rewrite wfRequeueExpired_eq in Hrun, Hp. by injection Hrun as <- <-. }
  rewrite wfRequeueExpired_eq in Hrun. injection Hrun as Hids Hq'. split_and!.
  - intros i Hi. rewrite Hp, decide_True by done. split; [done|]. subst ids.
    apply zrangebyscore_elem in Hi as (d & Hd & ?). exists d. by rewrite place_leased.
  - intros i Hi. by rewrite Hp, decide_False.
  - intros j dj Hj Hle Hout. apply place_leased in Hj; [|done]. subst ids.
    destruct (zrangebyscore_limit _ _ _ j dj Hj Hle Hout) as [Hlen Hmin]. split; [done|].
    intros i di Hi Hdi. apply place_leased in Hdi; [|done]. eauto.
Qed.

Lemma reaper_requeues_expired_witness :
  let q := exec_all [Enqueue 1; Enqueue 2; Claim 10; Claim 99; Tick 20] empty_queue in
  wfRequeueExpired 100 q = ([1], (wfRequeueExpired 100 q).2) ∧
  place_of (wfRequeueExpired 100 q).2 1 = Some Ready ∧
  place_of (wfRequeueExpired 100 q).2 2 = place_of q 2.
Proof.
  intros q. assert (wfRequeueExpired 100 q = ([1], (wfRequeueExpired 100 q).2)) as Hrun
    by (vm_compute; reflexivity).
  split; [exact Hrun|].
  destruct (reaper_requeues_expired q 100 [1] _
              (exec_all_ok _ _ empty_queue_ok) Hrun) as (Hin & Hout & _).
  split; [apply Hin, list_elem_of_singleton; reflexivity|apply Hout]. by intros ?%list_elem_of_singleton.
Defined.

(** a worker whose task failed asks for a retry and then acknowledges: the
    retry survives the acknowledgement, which reports that the lease is gone. *)
Theorem retry_survives_ack q i d delay :
  queue_ok q → place_of q i = Some (Leased d) →
  let q' := (wfEnqueueDelayed i delay q).2 in
  (wfEnqueueDelayed i delay q).1 = 1%Z ∧
  wfAck i q' = (0%Z, q') ∧
  place_of q' i = Some (Delayed (q_time q + delay)%Z).
Proof.
  intros Hq Hp q'. pose proof (exec_moves (EnqueueDelayed i delay) q i Hq) as Hm.
  cbn in Hm. rewrite decide_True, Hp in Hm by done. fold q' in Hm.
  apply place_leased in Hp; [|done]. split_and!; [| |done].
  - unfold wfEnqueueDelayed. rewrite Hp. by rewrite bool_decide_true by by eexists.
  - unfold wfAck. destruct (q_leases q' !! i) as [d'|] eqn:Hl; [|done].
    apply place_leased in Hl; [|by apply wfEnqueueDelayed_ok]. congruence.
Qed.

Lemma retry_survives_ack_witness :
  let q := exec_all [Enqueue 1; Claim 10] empty_queue in
  place_of q 1 = Some (Leased 10) ∧
  place_of (wfEnqueueDelayed 1 500 q).2 1 = Some (Delayed 500).
Proof.
  intros q. assert (place_of q 1 = Some (Leased 10)) as Hp by (vm_compute; reflexivity).
  split; [exact Hp|].
  apply (retry_survives_ack q 1 10 500 (exec_all_ok _ _ empty_queue_ok) Hp).
Defined.

(** an acknowledgement is not fenced.  A worker that lost its lease (it
    expired, the reaper requeued the task and another worker claimed it) and
    acknowledges late removes the lease of the other worker: the id is then
    nowhere in the queue although its new owner still runs it. *)
Theorem late_ack_drops_new_lease i lease pause limit :
  (0 < lease ≤ pause)%Z → 0 < limit →
  let taken_over := [Enqueue i; Claim lease; Tick pause; RequeueExpired limit; Claim lease] in
  place_of (exec_all taken_over empty_queue) i = Some (Leased (pause + lease)%Z) ∧
  place_of (exec_all (taken_over ++ [Ack i]) empty_queue) i = None.
Proof.
  intros Hl Hlim taken_over. set (q1 := exec_all [Enqueue i; Claim lease; Tick pause] empty_queue).
  assert (q_ready q1 = [] ∧ q_leases q1 = {[i := lease]} ∧ q_time q1 = pause) as (Hr & Hls & Ht).
  { unfold q1, exec_all; cbn. unfold wfEnqueue. rewrite decide_False by set_solver. cbn.
    split; [done|]. rewrite insert_empty. split; f_equal; lia. }
  assert (queue_ok q1) as Hq1 by apply exec_all_ok, empty_queue_ok.
  assert (zrangebyscore (q_leases q1) (q_time q1) limit = [i]) as Hz.
  { rewrite Hls, Ht. unfold zrangebyscore. rewrite map_to_list_singleton.
    rewrite filter_cons, decide_True by (simpl; lia). simpl. destruct limit; [lia|by destruct limit]. }
  set (q2 := exec (RequeueExpired limit) q1).
  assert (q_ready q2 = [i] ∧ q_time q2 = pause) as [Hr2 Ht2].
  { unfold q2. cbn [exec]. rewrite wfRequeueExpired_eq, Hz. split; [exact (f_equal (λ l, l ++ [i]) Hr)|exact Ht]. }
  set (q3 := exec (Claim lease) q2).
  assert (queue_ok q3) as Hq3 by (do 2 apply exec_ok; exact Hq1).
  assert (place_of q3 i = Some (Leased (pause + lease)%Z)) as Hp3.
  { apply place_leased; [done|]. unfold q3. cbn [exec]. unfold wfClaim. rewrite Hr2. cbn.
    etrans; [apply lookup_insert_eq|exact (f_equal (λ t, Some (t + lease)%Z) Ht2)]. }
  split; [exact Hp3|]. change (place_of (exec (Ack i) q3) i = None).
  pose proof (exec_moves (Ack i) q3 i Hq3) as Hm. rewrite Hp3 in Hm. cbn [moves] in Hm.
  by rewrite decide_True in Hm by done.
Qed.

Lemma late_ack_drops_new_lease_witness :
  place_of (exec_all ([Enqueue 1; Claim 10; Tick 11; RequeueExpired 100; Claim 10] ++ [Ack 1])
              empty_queue) 1 = None.
Proof. apply (late_ack_drops_new_lease 1 10 11 100); lia. Defined.

(** ** The queue as the engine's dispatcher

    [server.js] and [worker.js] wire the engine to the queue by task id and
    ignore what the queue answers. *)

Definition answered {A} (r : res A * TaskQueue) : res unit * TaskQueue := ((λ _, tt) <$> r.1, r.2).

#[export] Instance TaskQueue_dispatcher : Dispatcher TaskQueue := {
  enqueue it q := answered (queue_enqueue (it_taskId it) q);
  enqueueDelayed i delayMs q := answered (queue_enqueueDelayed i delayMs q)
}.

Lemma wfEnqueue_members id q : q_members (wfEnqueue id q).2 = {[id]} ∪ q_members q.
Proof. unfold wfEnqueue. case_decide; [|done]. cbn. set_solver. Qed.

Lemma wfEnqueueDelayed_members id delay q :
  q_members (wfEnqueueDelayed id delay q).2 = {[id]} ∪ q_members q.
Proof. unfold wfEnqueueDelayed. cbn zeta. by destruct (_ || _). Qed.

Lemma queue_enqueue_members id q r q' :
  answered (queue_enqueue id q) = (r, q') →
  q_members q' = q_members q ∨ q_members q' = {[id]} ∪ q_members q.
Proof.
  unfold answered, queue_enqueue, redis, returned_1. rewrite <- wfEnqueue_members.
  destruct (q_up q); [|by intros [= _ <-]; left]. destruct (wfEnqueue id q). intros [= _ <-]. by right.
Qed.

Lemma queue_enqueueDelayed_members id delay q r q' :
  answered (queue_enqueueDelayed id delay q) = (r, q') →
  q_members q' = q_members q ∨ q_members q' = {[id]} ∪ q_members q.
Proof.
  unfold answered, queue_enqueueDelayed, redis, returned_1.
  rewrite <- (wfEnqueueDelayed_members id (Z.max 0 delay)).
  destruct (q_up q); [|by intros [= _ <-]; left].
  destruct (wfEnqueueDelayed _ _ q). intros [= _ <-]. by right.
Qed.

#[export, refine] Instance TaskQueue_laws : DispatcherLaws TaskQueue := {
  queued i q := i ∈ q_members q
}.
Proof.
  - intros it q q'. simpl. unfold answered, queue_enqueue, redis, returned_1.
    pose proof (wfEnqueue_members (it_taskId it) q) as Hm.
    destruct (q_up q); [|done]. destruct (wfEnqueue (it_taskId it) q). intros [= <-].
    simpl in Hm. rewrite Hm. set_solver.
  - intros it q r q' j Hrun%queue_enqueue_members. set_solver.
  - intros i d q q'. simpl. unfold answered, queue_enqueueDelayed, redis, returned_1.
    pose proof (wfEnqueueDelayed_members i (Z.max 0 d) q) as Hm.
    destruct (q_up q); [|done]. destruct (wfEnqueueDelayed _ _ q). intros [= <-].
    simpl in Hm. rewrite Hm. set_solver.
  - intros i d q r q' j Hrun%queue_enqueueDelayed_members. set_solver.
Defined.
