(* ===== verification/Recovery.v ===== *)
(** * Recovery: what one sweep of the reconciler repairs

    MongoDB is the source of truth and Redis may lose everything; the
    reconciler puts back what is missing.  Proved against the interface of the
    queue ([DispatcherLaws]), then instantiated with the Redis queue. *)

From S2P Require Import Prelude Program States Dag DagFacts DagSpec Models Retry TaskRepo.
From S2P Require Import Dispatcher Engine RunInv EngineTx EngineInv EngineStart.
From S2P Require Import EngineSafety EngineProps EngineSpec TaskQueue.

(** What the sweep looks for: overdue READY tasks of a RUNNING run, overdue
    QUEUED tasks, RUNNING tasks whose lease lapsed, and overdue retries. *)
Definition needs_dispatch {Q} (w : World Q) (staleMs : Z) (t : Task) : Prop :=
  let cutoff := (w_clock w - staleMs)%Z in
  stuck_ready cutoff t = true ∧ x_status <$> executions (w_db w) !! t_executionId t = Some E_RUNNING ∨
  stale_queued cutoff t = true ∨ expired_running (w_now w) t = true ∨ overdue_retry cutoff t = true.

Lemma limit_to_all {A} n (l : list A) : length l ≤ n → limit_to n l = l.
Proof. destruct n; [done|]. apply take_ge. Qed.

Lemma limit_to_elem {A} n (l : list A) x : x ∈ limit_to n l → x ∈ l.
Proof. destruct n; [done|]. apply subseteq_take. Qed.

Lemma find_length {A} (p : A → bool) (m : gmap oid A) : length (find p m) ≤ size m.
Proof. unfold find. rewrite length_map_to_list. apply map_size_filter. Qed.

(** The tasks of a query without an effective limit. *)
Lemma find_all {A} (p : A → bool) (m : gmap oid A) limit i x :
  size m ≤ limit → m !! i = Some x → p x = true → (i, x) ∈ limit_to limit (find p m).
Proof.
  intros Hs Hi Hp. rewrite limit_to_all by (etrans; [apply find_length|done]). by apply elem_of_find.
Qed.

Section recovery.
Context {Q : Type} `{!Dispatcher Q, !DispatcherLaws Q} (cfg : EngineConfig).

(** The queue answers. *)
Definition answers (q : Q) : Prop :=
  ∀ it, (enqueue it q).1 = Ok tt.

(** It still does, and has whatever other property a client asks for, after the
    id of a task was handed over. *)
Context (fine : oid → Prop) (up : Q → Prop) (up_answers : ∀ q, up q → answers q)
  (up_stays : ∀ it q, fine (it_taskId it) → up q → up (enqueue it q).2).
Implicit Types (w : World Q).

Lemma enqueue_item_queued q it : up q → queued it.1 (enqueue_item q it).
Proof.
  intros Hup. unfold enqueue_item. pose proof (up_answers q Hup (mkItem it.1 (t_executionId it.2) (t_key it.2))).
  destruct (enqueue _ q) as [r q'] eqn:He; simpl in *; subst r.
  by apply (enqueue_queued (mkItem it.1 (t_executionId it.2) (t_key it.2)) q q').
Qed.

Lemma enqueue_item_keeps q it j : queued j q → queued j (enqueue_item q it).
Proof. unfold enqueue_item. destruct (enqueue _ q) eqn:He. by eapply enqueue_keeps. Qed.

Lemma run_reenqueue_one n it w :
  up (w_q w) → run (reenqueue n it) w = (Ok (S n), set_q w (enqueue_item (w_q w) it)).
Proof.
  intros Hup. unfold reenqueue. rewrite run_bind, run_enqueueSafely. destruct it as [i t].
  cbn [fst snd]. by rewrite up_answers.
Qed.

(** One of the loops that enqueue again. *)
Lemma run_reenqueue l : ∀ n w, up (w_q w) → (∀ it, it ∈ l → fine it.1) →
  ∃ n' q', run (for_fold l n reenqueue) w = (Ok n', set_q w q') ∧ up q' ∧
    (∀ it, it ∈ l → queued it.1 q') ∧ ∀ j, queued j (w_q w) → queued j q'.
Proof.
  induction l as [|it l IH]; intros n w Hup Hfine.
  - exists n, (w_q w). rewrite set_q_id. split_and!; [done..|by intros ? ?%elem_of_nil|done].
  - cbn [for_fold].
    destruct (IH (S n) (set_q w (enqueue_item (w_q w) it))) as (n' & q' & Hl & Hup' & Hin & Hk).
    { apply up_stays; [apply (Hfine it); by left|done]. }
    { intros it' Hit'. apply Hfine. by right. }
    exists n', q'. split_and!; [|done| |].
    + by rewrite run_bind, run_reenqueue_one.
    + intros it' [->|Hit']%elem_of_cons; [|by apply Hin]. by apply Hk, enqueue_item_queued.
    + intros j Hj. by apply Hk, enqueue_item_keeps.
Qed.

(** The loop over READY tasks; [known] caches statuses of executions. *)
Definition cache_ok w (known : gmap oid (option EXECUTION_STATUS)) : Prop :=
  ∀ e s, known !! e = Some s → s = x_status <$> executions (w_db w) !! e.

Record swept w w' : Prop := {
  sw_executions : executions (w_db w') = executions (w_db w);
  sw_others i t : tasks (w_db w) !! i = Some t → is_ready t = false → tasks (w_db w') !! i = Some t;
  sw_size : size (tasks (w_db w')) = size (tasks (w_db w));
  sw_attempts : attempts (w_db w') = attempts (w_db w);
  sw_approvals : approvals (w_db w') = approvals (w_db w);
  sw_ready i t : tasks (w_db w) !! i = Some t → is_ready t = true →
    tasks (w_db w') !! i = Some t ∨ ∃ at_, tasks (w_db w') !! i = Some (queued_task at_ t);
  sw_clocks : w_clock w' = w_clock w ∧ w_now w' = w_now w ∧ w_random w' = w_random w;
  sw_up : up (w_q w) → up (w_q w');
  sw_queued j : queued j (w_q w) → queued j (w_q w')
}.

Lemma swept_refl w : swept w w.
Proof. split; auto. Qed.
Lemma swept_trans w1 w2 w3 : swept w1 w2 → swept w2 w3 → swept w1 w3.
Proof.
  intros [H1 H2 H3 Ha Hp Hr (H4 & H4' & H4'') H5 H6] [K1 K2 K3 Ka Kp Kr (K4 & K4' & K4'') K5 K6].
  split; [congruence|eauto|congruence..| |split_and!; congruence|auto|auto].
  intros i t Ht Hrd. destruct (Hr i t Ht Hrd) as [Ht'|[at_ Ht']]; [by apply Kr|right; exists at_; by apply K2].
Qed.

(** No task is lost, and none is new. *)
Lemma swept_dom w w' : swept w w' → dom (tasks (w_db w')) = dom (tasks (w_db w)).
Proof.
  intros Hsw. symmetry. apply set_subseteq_size_eq.
  - intros i [t Ht]%elem_of_dom. apply elem_of_dom. destruct (is_ready t) eqn:Hr.
    + destruct (sw_ready _ _ Hsw i t Ht Hr) as [?|[at_ ?]]; by eexists.
    + exists t. by apply (sw_others _ _ Hsw).
  - rewrite !size_dom, (sw_size _ _ Hsw). done.
Qed.

Lemma dispatch_one_swept w i t :
  fine i → tasks (w_db w) !! i = Some t → is_ready t = true → swept w (dispatch_one w (i, t)).
Proof.
  intros Hfine Ht Hr. split; try done; cbn.
  - intros j u Hj Hu. rewrite lookup_insert_ne; [done|]. intros <-. congruence.
  - by apply map_size_insert_Some; eexists.
  - intros j u Hj Hu. destruct (decide (i = j)) as [->|Hne]; [right; exists (w_clock w)|left; by rewrite lookup_insert_ne].
    rewrite lookup_insert_eq. rewrite Ht in Hj. by injection Hj as <-.
  - by apply up_stays.
  - apply enqueue_item_keeps.
Qed.

Lemma run_status_of w known e :
  cache_ok w known →
  ∃ known', run (status_of known e) w =
      (Ok (x_status <$> executions (w_db w) !! e, known'), w) ∧ cache_ok w known'.
Proof.
  intros Hc. unfold status_of. destruct (known !! e) as [s|] eqn:Hk.
  - exists known. by rewrite (Hc e s Hk).
  - eexists. rewrite run_bind, run_db_read. split; [done|].
    intros e' s. rewrite lookup_insert_Some. intros [[<- <-]|[_ ?]]; [done|by apply Hc].
Qed.

Lemma run_redispatch_one known known' n i t w :
  tasks (w_db w) !! i = Some t → is_ready t = true →
  run (status_of known (t_executionId t)) w =
    (Ok (x_status <$> executions (w_db w) !! t_executionId t, known'), w) →
  run (redispatch (known, n) (i, t)) w =
    if bool_decide (x_status <$> executions (w_db w) !! t_executionId t ≠ Some E_RUNNING)
    then (Ok (known', n), w) else (Ok (known', S n), dispatch_one w (i, t)).
Proof.
  intros Ht Hr Hst. unfold redispatch. rewrite run_bind, Hst. cbv beta iota.
  case_bool_decide; [done|]. by rewrite run_bind, (run_dispatchTask i t t w Ht), Hr.
Qed.

Lemma run_redispatch l : ∀ known n w,
  up (w_q w) → cache_ok w known → NoDup l.*1 → (∀ it, it ∈ l → fine it.1) →
  (∀ i t, (i, t) ∈ l → tasks (w_db w) !! i = Some t ∧ is_ready t = true) →
  ∃ acc w', run (for_fold l (known, n) redispatch) w = (Ok acc, w') ∧ swept w w' ∧
    ∀ i t, (i, t) ∈ l → x_status <$> executions (w_db w) !! t_executionId t = Some E_RUNNING →
      queued i (w_q w') ∧ ∃ at_, tasks (w_db w') !! i = Some (queued_task at_ t).
Proof.
  induction l as [|[i t] l IH]; intros known n w Hup Hc Hnd Hfine Hl.
  - exists (known, n), w. split_and!; [done|apply swept_refl|by intros ? ? ?%elem_of_nil].
  - apply NoDup_cons in Hnd as [Hni Hnd]. destruct (Hl i t) as [Ht Hr]; [left|].
    destruct (run_status_of w known (t_executionId t) Hc) as (known' & Hst & Hc').
    assert (∀ it, it ∈ l → fine it.1) as Hfine' by (intros it Hit; apply Hfine; by right).
    cbn [for_fold]. rewrite run_bind, (run_redispatch_one known known' n i t w) by done.
    case_bool_decide as Hrun.
    + (* the run is not RUNNING: the task waits *)
      destruct (IH known' n w Hup Hc' Hnd Hfine') as (acc & w' & Hrest & Hsw & Hq).
      { intros j u Hj. apply Hl. by right. }
      exists acc, w'. split_and!; [exact Hrest|done|].
      intros j u [[= -> ->]|Hj]%elem_of_cons Hs; [done|by eapply Hq].
    + pose proof (dispatch_one_swept w i t (Hfine (i, t) ltac:(by left)) Ht Hr) as Hone.
      destruct (IH known' (S n) (dispatch_one w (i, t))) as (acc & w' & Hrest & Hsw & Hq).
      * by apply Hone.
      * exact Hc'.
      * done.
      * done.
      * intros j u Hj. assert (i ≠ j) by (intros ->; apply Hni, list_elem_of_fmap; by exists (j, u)).
        cbn. rewrite lookup_insert_ne by done. apply Hl. by right.
      * exists acc, w'.
        split_and!; [exact Hrest|by eapply swept_trans|].
        intros j u [[= -> ->]|Hj]%elem_of_cons Hs; [|by eapply Hq]. split.
        -- apply Hsw. cbn. by apply (enqueue_item_queued (w_q w) (i, t)).
        -- exists (w_clock w). apply (sw_others _ _ Hsw); [apply lookup_insert_eq|done].
Qed.

(** Expiring approvals never throws and never touches the queue. *)
Lemma run_expire_one n it w : ∃ n' db', run (expire cfg n it) w = (Ok n', set_db w db').
Proof.
  unfold expire. rewrite run_catch, run_bind. unfold resolveApproval.
  destruct (cfg_approvals cfg); cbn [negb]; [|exists n, (w_db w); by rewrite set_db_id].
  unfold transaction. rewrite run_bind, run_db_call. unfold db_step.
  destruct (resolve_tx cfg _ _ _ _ _) as [[[e|] db]|err]; cbv beta iota; cbn; eauto.
Qed.

Lemma run_expire l : ∀ n w, ∃ n' db', run (for_fold l n (expire cfg)) w = (Ok n', set_db w db').
Proof.
  induction l as [|[a p] l IH]; intros n w; [exists n, (w_db w); by rewrite set_db_id|].
  cbn [for_fold]. rewrite run_bind. destruct (run_expire_one n (a, p) w) as (n1 & db1 & ->).
  destruct (IH n1 (set_db w db1)) as (n' & db' & ->). by exists n', db'.
Qed.

Lemma find_after w w' (p : Task → bool) i t limit :
  swept w w' → size (tasks (w_db w)) ≤ limit → tasks (w_db w) !! i = Some t → is_ready t = false →
  p t = true → (i, t) ∈ limit_to limit (find p (tasks (w_db w'))).
Proof.
  intros Hsw Hs Ht Hr Hp. apply find_all; [by rewrite (sw_size _ _ Hsw)| |done].
  by apply (sw_others _ _ Hsw).
Qed.

(** The last loop of the sweep. *)
Lemma run_sweep_approvals limit n1 n2 n3 n4 w :
  ∃ c db', run (expired ← (if cfg_approvals cfg then
               overdue ← db_read (λ r db, limit_to limit (find (overdue_approval (now r)) (approvals db)));
               for_fold overdue 0 (expire cfg)
             else Ret 0);
           Ret (mkCounts n1 n2 n3 n4 expired)) w = (Ok c, set_db w db') ∧
    (find (overdue_approval (w_clock w)) (approvals (w_db w)) = [] → db' = w_db w).
Proof.
  rewrite run_bind. destruct (cfg_approvals cfg); [|by exists (mkCounts n1 n2 n3 n4 0), (w_db w); rewrite set_db_id].
  rewrite run_bind, run_db_read. cbv beta iota. change (now (readings w)) with (w_clock w).
  destruct (find (overdue_approval (w_clock w)) (approvals (w_db w))) as [|ap l] eqn:Hf.
  - assert (limit_to limit (@nil (oid * ApprovalRequest)) = []) as -> by (by destruct limit).
    exists (mkCounts n1 n2 n3 n4 0), (w_db w). by rewrite set_db_id.
  - destruct (run_expire (limit_to limit (ap :: l)) 0 w) as (n5 & db5 & ->). by exists (mkCounts n1 n2 n3 n4 n5), db5.
Qed.

(** Once the READY tasks are dispatched, the other loops change only the queue,
    and approvals that are overdue. *)
Lemma reconcile_sweeps w staleMs limit :
  up (w_q w) → (∀ i, is_Some (tasks (w_db w) !! i) → fine i) → size (tasks (w_db w)) ≤ limit →
  ∃ c w1 db' q', run (reconcile cfg staleMs limit) w = (Ok c, set_q (set_db w1 db') q') ∧ swept w w1 ∧ up q' ∧
    (find (overdue_approval (w_clock w)) (approvals (w_db w)) = [] → db' = w_db w1) ∧
    (∀ j, queued j (w_q w) → queued j q') ∧
    (∀ i t, tasks (w_db w) !! i = Some t → needs_dispatch w staleMs t → queued i q') ∧
    ∀ i t, tasks (w_db w) !! i = Some t → stuck_ready (w_clock w - staleMs) t = true →
      x_status <$> executions (w_db w) !! t_executionId t = Some E_RUNNING →
      ∃ at_, tasks (w_db w1) !! i = Some (queued_task at_ t).
Proof.
  intros Hup Hfine Hsize. unfold reconcile. set (cutoff := (w_clock w - staleMs)%Z).
  rewrite run_bind, run_db_read. cbv beta iota. change (now (readings w) - staleMs)%Z with cutoff.
  rewrite run_bind, run_db_read. cbv beta iota.
  set (stuck := limit_to limit (find (stuck_ready cutoff) (tasks (w_db w)))).
  assert (Hstuck : stuck = find (stuck_ready cutoff) (tasks (w_db w))).
  { apply limit_to_all. etrans; [apply find_length|done]. }
  destruct (run_redispatch stuck ∅ 0 w) as (acc & w1 & Hr1 & Hsw & Hq1); [done| | | | |].
  { intros e s. by rewrite lookup_empty. }
  { rewrite Hstuck. apply find_map. }
  { rewrite Hstuck. intros [i t] [Ht _]%elem_of_find. apply Hfine. by eexists. }
  { rewrite Hstuck. intros i t [Ht Hp]%elem_of_find. split; [done|].
    by apply andb_true_iff in Hp as [? _]. }
  rewrite run_bind, Hr1. cbv beta iota. pose proof (sw_clocks _ _ Hsw) as (Hck & Hnow & _).
  assert (∀ p it, it ∈ limit_to limit (find p (tasks (w_db w1))) → fine it.1) as Hfine1.
  { intros p [i t] Hin. apply limit_to_elem, elem_of_find in Hin as [Ht _]. apply Hfine, elem_of_dom.
    rewrite <- (swept_dom _ _ Hsw). apply elem_of_dom. by eexists. }
  rewrite run_bind, run_db_read. cbv beta iota.
  set (l2 := limit_to limit (find (stale_queued cutoff) (tasks (w_db w1)))).
  destruct (run_reenqueue l2 0 w1) as (n2 & q2 & Hr2 & Hup2 & Hin2 & Hk2); [by apply Hsw|by apply Hfine1|].
  rewrite run_bind, Hr2. cbv beta iota. rewrite run_bind, run_db_read. cbv beta iota.
  cbn [w_db set_q]. change (NOW (readings (set_q w1 q2))) with (w_now w1). rewrite Hnow.
  set (l3 := limit_to limit (find (expired_running (w_now w)) (tasks (w_db w1)))).
  destruct (run_reenqueue l3 0 (set_q w1 q2)) as (n3 & q3 & Hr3 & Hup3 & Hin3 & Hk3); [done|by apply Hfine1|].
  rewrite run_bind, Hr3. cbv beta iota. rewrite run_bind, run_db_read. cbv beta iota.
  cbn [w_db set_q].
  set (l4 := limit_to limit (find (overdue_retry cutoff) (tasks (w_db w1)))).
  destruct (run_reenqueue l4 0 (set_q (set_q w1 q2) q3)) as (n4 & q4 & Hr4 & Hup4 & Hin4 & Hk4); [done|by apply Hfine1|].
  rewrite run_bind, Hr4. cbv beta iota.
  destruct (run_sweep_approvals limit acc.2 n2 n3 n4 (set_q (set_q (set_q w1 q2) q3) q4)) as (c & db' & Hlast & Hdb').
  exists c, w1, db', q4. split_and!; [exact Hlast|done|done| | | |].
  - intros Hn. apply Hdb'. cbn [w_clock w_db set_q]. by rewrite Hck, (sw_approvals _ _ Hsw).
  - intros j Hj. apply Hk4, Hk3, Hk2. by apply Hsw.
  - intros i t Ht Hneed. destruct Hneed as [[Hs He]|[Hs|[Hs|Hs]]].
    + apply Hk4, Hk3, Hk2. apply (Hq1 i t); [|done]. rewrite Hstuck. by apply elem_of_find.
    + apply Hk4, Hk3. apply (Hin2 (i, t)). apply (find_after w w1); try done.
      unfold stale_queued in Hs. unfold is_ready. by destruct (t_status t).
    + apply Hk4. apply (Hin3 (i, t)). apply (find_after w w1); try done.
      unfold expired_running in Hs. unfold is_ready. by destruct (t_status t).
    + apply (Hin4 (i, t)). apply (find_after w w1); try done.
      unfold overdue_retry in Hs. unfold is_ready. by destruct (t_status t).
  - intros i t Ht Hs He. apply (Hq1 i t); [|done]. rewrite Hstuck. by apply elem_of_find.
Qed.

Lemma reconcile_spec w staleMs limit :
  up (w_q w) → (∀ i, is_Some (tasks (w_db w) !! i) → fine i) → size (tasks (w_db w)) ≤ limit →
  ∃ c w', run (reconcile cfg staleMs limit) w = (Ok c, w') ∧
    (∀ j, queued j (w_q w) → queued j (w_q w')) ∧
    ∀ i t, tasks (w_db w) !! i = Some t → needs_dispatch w staleMs t → queued i (w_q w').
Proof.
  intros Hup Hfine Hsize. destruct (reconcile_sweeps w staleMs limit Hup Hfine Hsize) as (c & w1 & db' & q' & Hrun & _ & _ & _ & Hk & Hn & _).
  by eexists _, _.
Qed.
End recovery.

(** ** Starvation *)

Section starvation.
Context {Q : Type} `{!Dispatcher Q} (cfg : EngineConfig).
Implicit Types (w : World Q).

(** A loop over tasks of runs that are not RUNNING does nothing. *)
Lemma run_redispatch_idle l : ∀ known n w,
  cache_ok w known →
  (∀ i t, (i, t) ∈ l → x_status <$> executions (w_db w) !! t_executionId t ≠ Some E_RUNNING) →
  ∃ known', run (for_fold l (known, n) redispatch) w = (Ok (known', n), w).
Proof.
  induction l as [|[i t] l IH]; intros known n w Hc Hl; [by exists known|].
  destruct (run_status_of w known (t_executionId t) Hc) as (known' & Hst & Hc').
  cbn [for_fold]. rewrite run_bind. unfold redispatch at 1. rewrite run_bind, Hst. cbv beta iota.
  rewrite bool_decide_eq_true_2 by (apply (Hl i t); left). cbn [run].
  apply (IH known' n w Hc'). intros j u Hj. apply (Hl j u). by right.
Qed.

(** The loops that enqueue again never throw. *)
Lemma run_reenqueue_any l : ∀ n w, ∃ n' q', run (for_fold l n reenqueue) w = (Ok n', set_q w q').
Proof.
  induction l as [|it l IH]; intros n w; [exists n, (w_q w); by rewrite set_q_id|].
  cbn [for_fold]. rewrite run_bind.
  assert (∃ n1 q1, run (reenqueue n it) w = (Ok n1, set_q w q1)) as (n1 & q1 & ->).
  { unfold reenqueue. rewrite run_bind, run_enqueueSafely. by eexists _, _. }
  destruct (IH n1 (set_q w q1)) as (n' & q' & ->). by exists n', q'.
Qed.

Lemma reconcile_idle w staleMs limit :
  let cutoff := (w_clock w - staleMs)%Z in
  (∀ i t, (i, t) ∈ limit_to limit (find (stuck_ready cutoff) (tasks (w_db w))) →
     x_status <$> executions (w_db w) !! t_executionId t ≠ Some E_RUNNING) →
  find (overdue_approval (w_clock w)) (approvals (w_db w)) = [] →
  ∃ c q', run (reconcile cfg staleMs limit) w = (Ok c, set_q w q') ∧ n_ready c = 0.
Proof.
  intros cutoff Hidle Hap. unfold reconcile.
  rewrite run_bind, run_db_read. cbv beta iota. change (now (readings w) - staleMs)%Z with cutoff.
  rewrite run_bind, run_db_read. cbv beta iota.
  edestruct (run_redispatch_idle (limit_to limit (find (stuck_ready cutoff) (tasks (w_db w)))) ∅ 0 w)
    as (known & Hr1); [by intros e s; rewrite lookup_empty|exact Hidle|].
  rewrite run_bind, Hr1. cbv beta iota. rewrite run_bind, run_db_read. cbv beta iota.
  edestruct run_reenqueue_any as (n2 & q2 & Hr2). rewrite run_bind, Hr2. cbv beta iota.
  rewrite run_bind, run_db_read. cbv beta iota.
  edestruct run_reenqueue_any as (n3 & q3 & Hr3). rewrite run_bind, Hr3. cbv beta iota.
  rewrite run_bind, run_db_read. cbv beta iota.
  edestruct run_reenqueue_any as (n4 & q4 & Hr4). rewrite run_bind, Hr4. cbv beta iota.
  rewrite run_bind. destruct (cfg_approvals cfg).
  - rewrite run_bind, run_db_read. cbv beta iota. cbn [w_db set_q].
    change (now (readings _)) with (w_clock w). rewrite Hap. exists (mkCounts 0 n2 n3 n4 0), q4.
    by destruct limit.
  - by exists (mkCounts 0 n2 n3 n4 0), q4.
Qed.
End starvation.

(** ** Properties *)

Section properties.
Context {Q : Type} `{!Dispatcher Q}.

(** recovery of the queue.  When the queue answers, one sweep (whose limit
    is not exceeded) leaves every overdue READY task of a RUNNING run, every
    overdue QUEUED task, every RUNNING task with a lapsed lease and every
    overdue retry in the queue, whatever the queue had lost; and loses nothing. *)
Theorem reconcile_heals `{!DispatcherLaws Q} (cfg : EngineConfig) (up : Q → Prop) (w : World Q)
    (staleMs : Z) (limit : nat)
    (Hup : ∀ q it, up q → (enqueue it q).1 = Ok tt ∧ up (enqueue it q).2)
    (Hw : up (w_q w)) (Hlimit : size (tasks (w_db w)) ≤ limit) :
  ∃ c w', run (reconcile cfg staleMs limit) w = (Ok c, w') ∧
    (∀ j, queued j (w_q w) → queued j (w_q w')) ∧
    ∀ i t, tasks (w_db w) !! i = Some t → needs_dispatch w staleMs t → queued i (w_q w').
Proof.
  apply (reconcile_spec cfg (λ _, True) up); [|by intros it q _; apply Hup|done..].
  intros q Hq it. by apply Hup.
Qed.

(** A task nobody has touched for long enough. *)
Definition overdue (w : World Q) (staleMs : Z) (t : Task) : bool :=
  let cutoff := (w_clock w - staleMs)%Z in
  match t_status t with
  | T_READY => older (readyAt t) cutoff
  | T_QUEUED => older (queuedAt t) cutoff
  | T_RUNNING => lease_expired t (w_now w)
  | T_RETRYING => older (retryAt t) cutoff
  | _ => true
  end.


(** the limit can starve the sweep.  The query for stuck READY tasks does
    not look at the status of their runs: when the first [limit] tasks it finds
    belong to PAUSED runs, the sweep dispatches nothing and writes nothing to
    the database, so the next one finds the same tasks, and a stuck task of a
    RUNNING run behind them waits until those runs are resumed. *)
Theorem paused_runs_starve_sweep (cfg : EngineConfig) (w : World Q) (staleMs : Z) (limit : nat)
    (Hpaused : ∀ i t,
       (i, t) ∈ limit_to limit (find (stuck_ready (w_clock w - staleMs)) (tasks (w_db w))) →
       x_status <$> executions (w_db w) !! t_executionId t = Some E_PAUSED)
    (Happrovals : find (overdue_approval (w_clock w)) (approvals (w_db w)) = []) :
  ∃ c w', run (reconcile cfg staleMs limit) w = (Ok c, w') ∧ n_ready c = 0 ∧ w_db w' = w_db w.
Proof.
  destruct (reconcile_idle cfg w staleMs limit) as (c & q' & Hrun & Hc); [|done|].
  - intros i t Hin. by rewrite (Hpaused i t Hin).
  - exists c, (set_q w q'). by split_and!.
Qed.
End properties.

(** ** Witnesses *)

Import Demo.

(** The world [w1] of [EngineProps], in which A is COMPLETED, B waits for
    approval and C is QUEUED, two minutes later and with a Redis that lost
    everything. *)
Definition redis_lost : World TaskQueue :=
  mkWorld (w_db w1) empty_queue (w_now w1 + 120000)%Z (w_clock w1 + 120000)%Z 0.

Lemma redis_up q it : q_up q = true → (enqueue it q).1 = Ok tt ∧ q_up (enqueue it q).2 = true.
Proof.
  intros Hup. simpl. unfold answered, queue_enqueue, redis, returned_1. rewrite Hup.
  unfold wfEnqueue. by case_decide.
Qed.

Lemma reconcile_heals_witness :
  t_status (the_task w1 2) = T_QUEUED ∧
  ∃ c w', run (reconcile cfg 30000 100) redis_lost = (Ok c, w') ∧ 2 ∈ q_members (w_q w').
Proof.
  split; [by_computation|].
  destruct (reconcile_heals cfg (λ q, q_up q = true) redis_lost 30000 100 redis_up)
    as (c & w' & Hrun & _ & Hq); [by_computation|apply (bool_decide_unpack _); by_computation|].
  exists c, w'. split; [exact Hrun|]. apply (Hq 2 (the_task w1 2)); [by_computation|].
  right; left. by_computation.
Defined.

(** A run started on the Redis queue; then Redis loses everything and two minutes pass. *)
Definition start_redis : prog (World TaskQueue) unit := _ ← startExecution cfg diamond params; Ret tt.
Definition w_started : World TaskQueue := (run start_redis (initial empty_queue)).2.
Definition w_lost : World TaskQueue :=
  mkWorld (w_db w_started) empty_queue (w_now w_started + 120000)%Z (w_clock w_started + 120000)%Z 0.

Lemma w_lost_reachable : reachable (api cfg) outside (initial empty_queue) w_lost.
Proof.
  apply (reachable_env _ _ _ w_started); [done|].
  apply reachable_run; [solve [eauto using api]|apply reachable_refl].
Qed.

Definition started_task (i : oid) : Task :=
  default (task_of_definition 0 0 0 ∅ (def "" [])) (tasks (w_db w_lost) !! i).
Definition started_execution : WorkflowExecution :=
  default (new_execution diamond params 0) (executions (w_db w_lost) !! 0).

(** All tasks but the root wait for it, and the root has been QUEUED for two minutes. *)
Lemma w_lost_overdue :
  map_Forall (λ _ u, overdue w_lost 30000 u = true) (tasks (w_db w_lost)).
Proof. apply (bool_decide_unpack _). vm_compute. exact I. Qed.


(** Two runs whose starters crashed before dispatching; then the second is paused. *)
Definition start_only (key : string) (w : World unit) : World unit :=
  match dependents_of (wf_tasks diamond) with
  | Ok children =>
      (db_step (start_tx cfg diamond
         (mkStartParams JNull (Some 1) TRIGGER_manual (Some key) None) children) w).2
  | Exn _ => w
  end.
Definition w_paused : World unit :=
  let w := calls [pause 1] (start_only "second" (start_only "first" w0)) in
  mkWorld (w_db w) tt 120000 120000 0.

Lemma paused_runs_starve_sweep_witness :
  (λ i, t_status (the_task w_paused i)) <$> [0; 4] = [T_READY; T_READY] ∧
  x_status <$> executions (w_db w_paused) !! 0 = Some E_RUNNING ∧
  ∃ c w', run (reconcile cfg 30000 1) w_paused = (Ok c, w') ∧ n_ready c = 0 ∧ w_db w' = w_db w_paused.
Proof.
  split_and!; [by_computation..|].
  apply (paused_runs_starve_sweep cfg w_paused 30000 1); [|by_computation].
  assert (limit_to 1 (find (stuck_ready (w_clock w_paused - 30000)) (tasks (w_db w_paused))) =
            [(4, the_task w_paused 4)]) as -> by (vm_compute; reflexivity).
  intros i t [[= -> ->]|[]%elem_of_nil]%elem_of_cons. vm_compute. reflexivity.
Defined.
