(* ===== verification/Worker.v ===== *)
(** * The queue worker ([src/workers/runTask.js], [src/workers/queueWorker.js])

    A worker takes ids from the Redis queue, runs their handlers and reports to
    the engine.  Here a handler is any function of its arguments and of the
    world, with any timing; [Handlers] models those of the program.
    [WorkerProps] proves what a worker achieves; here are its programs, on a
    world whose queue is the Redis queue. *)

From S2P Require Import Prelude Program States Dag Models Retry TaskRepo Dispatcher Engine TaskQueue.

Local Open Scope string_scope.

(** ** Waiting with a timeout ([src/utils/withTimeout.js]) *)

Inductive settled (A : Type) : Type :=
| Resolved (a : A)
| Rejected (err : thrown).
Arguments Resolved {A} a.
Arguments Rejected {A} err.

(** A promise: when it settles, counted from the start of the wait, and how;
    [None] when it never does. *)
Definition promise (A : Type) : Type := option (ms * settled A).

(** [Promise.race([promise, timeout])].  A promise that has not settled when the
    timer fires is abandoned. *)
Definition withTimeout {A} (p : promise A) (duration : ms) (label : string) : settled A :=
  match p with
  | Some (elapsed, s) => if bool_decide (elapsed < duration)%Z then s else Rejected (TimeoutError label duration)
  | None => Rejected (TimeoutError label duration)
  end.

(** ** Running one task *)

(** What a handler resolves to: an output ([None] for [undefined] or [null]) or
    an [AwaitApproval]. *)
Inductive handler_output : Type :=
| Output (out : option json)
| AwaitApproval (request : ApprovalAsk).

(** The argument of a handler, without its abort signal. *)
Record HandlerArgs := mkHandlerArgs {
  ha_config : json;
  ha_input : json;
  ha_parents : gmap string json;
  ha_attempt : Z;
  ha_ownerId : string
}.

(** [config ?? {}]. *)
Definition or_empty_object (j : json) : json := match j with JNull => JObj [] | _ => j end.

Definition handler_args (c : Claimed) : HandlerArgs :=
  {| ha_config := or_empty_object (t_config (claimed_task c)); ha_input := claimed_input c;
     ha_parents := claimed_parents c; ha_attempt := attempt (claimed_task c);
     ha_ownerId := oid_str (t_ownerId (claimed_task c)) |}.

Definition missing_handler (type : string) : thrown :=
  NonRetryableError ("No handler registered for task type " +:+ quote type).

(** [interval(Math.max(50, Math.floor(leaseMs / 3)))]. *)
Definition renewEveryMs (leaseMs : Z) : Z := Z.max 50 (leaseMs / 3).

Section worker.
Context (cfg : EngineConfig).

(** A handler may look at anything and take any time; what it does elsewhere
    (HTTP calls, other collections) is outside of the modelled world. *)
Definition Handler : Type := HandlerArgs → World TaskQueue → promise handler_output.
Context (handlers : string → option Handler).

(** How a claimed task ended, before it is reported. *)
Definition handler_result (c : Claimed) (w : World TaskQueue) : settled handler_output :=
  match handlers (t_type (claimed_task c)) with
  | None => Rejected (missing_handler (t_type (claimed_task c)))
  | Some handler =>
      withTimeout (handler (handler_args c) w) (t_timeoutMs (claimed_task c))
        ("task " +:+ quote (t_key (claimed_task c)))
  end.

(** The variables [output] and [failure] after the [try]: [undefined] and [null]
    where the handler did not set them. *)
Definition outcome_of (s : settled handler_output) : handler_output * thrown :=
  match s with
  | Resolved output => (output, Nullish)
  | Rejected err => (Output None, err)
  end.

(** The report is made outside of the [try]: if it throws, nothing else is
    reported.  [if (failure)] is false for a falsy rejection. *)
Definition report (c : Claimed) (s : settled handler_output) : prog (World TaskQueue) unit :=
  let taskId := claimed_id c in
  let token := leaseToken (claimed_task c) in
  let '(output, failure) := outcome_of s in
  if truthy_thrown failure then _ ← failTask cfg taskId token failure; Ret tt
  else
    match output with
    | AwaitApproval request => _ ← suspendForApproval cfg taskId token request; Ret tt
    | Output out => _ ← completeTask cfg taskId token (default JNull out); Ret tt
    end.

Definition runTask (c : Claimed) : prog (World TaskQueue) unit :=
  s ← Atom (λ w, (handler_result c w, w)) Ret;
  report c s.

(** ** The worker *)

Context (workerId : string) (leaseMs claimLeaseMs pollIntervalMs : Z).

Definition processTask (taskId : oid) : prog (World TaskQueue) unit :=
  claimed ← startTask cfg taskId workerId;
  match claimed with
  | None => _ ← queue_call (queue_ack taskId); Ret tt
  | Some c =>
      _ ← queue_call (queue_extendLease taskId leaseMs);
      _ ← runTask c;
      _ ← queue_call (queue_ack taskId);
      Ret tt
  end.

(** One tick of the renewal timer, which runs beside the handler.  [false] when
    the lease is lost and the handler is told to stop. *)
Definition renew (taskId : oid) (token : Z) : prog (World TaskQueue) bool :=
  catch
    (stillOurs ← renewLease cfg taskId token;
     if stillOurs : bool then _ ← queue_call (queue_extendLease taskId leaseMs); Ret true
     else Ret false)
    (λ _, Ret true).

(** One turn of the loop: the time it sleeps, and the next [backoffMs]. *)
Definition loop_turn (backoffMs : Z) : prog (World TaskQueue) (Z * Z) :=
  claim ← catch (taskId ← queue_call (queue_claim claimLeaseMs); Ret (Some taskId)) (λ _, Ret None);
  match claim with
  | None => Ret (backoffMs, Z.min (backoffMs * 2) 5000)
  | Some None => Ret (pollIntervalMs, pollIntervalMs)
  | Some (Some taskId) =>
      _ ← catch (processTask taskId) (λ _, Ret tt);
      Ret (0%Z, pollIntervalMs)
  end.

(** [turns] turns of [loop], until [stopping] is set; the times it slept. *)
Fixpoint loop (turns : nat) (backoffMs : Z) : prog (World TaskQueue) (list Z) :=
  match turns with
  | O => Ret []
  | S turns =>
      turn ← loop_turn backoffMs;
      slept ← loop turns turn.2;
      Ret (turn.1 :: slept)
  end.

(** The reaper and the promoter, with their default limits.  [Promise.all]
    sends both, and an error of either is only logged. *)
Definition maintenance : prog (World TaskQueue) unit :=
  _ ← catch (_ ← queue_call (queue_requeueExpired 100); Ret tt) (λ _, Ret tt);
  catch (_ ← queue_call (queue_promoteDue 100); Ret tt) (λ _, Ret tt).
End worker.

(** Everything the worker processes run, with any handlers and settings. *)
Inductive worker_api (cfg : EngineConfig) : prog (World TaskQueue) unit → Prop :=
| wa_engine p : api cfg p → worker_api cfg p
| wa_loop handlers wk leaseMs claimMs pollMs turns b :
    worker_api cfg (_ ← loop cfg handlers wk leaseMs claimMs pollMs turns b; Ret tt)
| wa_renew leaseMs i token : worker_api cfg (_ ← renew cfg leaseMs i token; Ret tt)
| wa_maintenance : worker_api cfg maintenance.
