(* ===== verification/WorkerProps.v ===== *)
(** * What a worker achieves

    Workers keep every invariant of the engine, whatever their handlers do; a
    worker that crashes between any two of its steps leaves the task in the
    queue; and a task that is processed undisturbed ends as its handler says. *)

From S2P Require Import Prelude Program States Dag DagFacts DagSpec Models Retry TaskRepo.
From S2P Require Import Dispatcher Engine RunInv EngineTx EngineInv EngineStart.
From S2P Require Import EngineSafety EngineProps EngineSpec TaskQueue Recovery Worker.

(** ** Safety *)

Section safety.
Context (cfg : EngineConfig).
Notation ok := (steps_ok (world_inv cfg) world_guar).

Hint Resolve ok_db_call ok_db_read ok_queue_call ok_ret ok_throw ok_failTask ok_startTask
  ok_completeTask ok_suspendForApproval ok_renewLease : wf.

Ltac ok_step :=
  match goal with
  | |- steps_ok _ _ (_ ≫= _) => apply steps_ok_bind; [|intros]
  | |- steps_ok _ _ (catch _ _) => apply steps_ok_catch; [|intros]
  | |- steps_ok _ _ (match ?b with _ => _ end) => destruct b
  end.
Ltac ok_steps := repeat (ok_step || solve [eauto with wf]).

Lemma ok_runTask handlers c : ok (runTask cfg handlers c).
Proof.
  unfold runTask. apply steps_ok_bind; [|intros s; unfold report; ok_steps].
  intros w Hw. split_and!; [done|unfold world_guar; reflexivity|done].
Qed.
Hint Resolve ok_runTask : wf.

Lemma ok_processTask handlers wk leaseMs i : ok (processTask cfg handlers wk leaseMs i).
Proof. unfold processTask. ok_steps. Qed.
Hint Resolve ok_processTask : wf.

Lemma ok_loop_turn handlers wk leaseMs claimMs pollMs b :
  ok (loop_turn cfg handlers wk leaseMs claimMs pollMs b).
Proof. unfold loop_turn. ok_steps. Qed.
Hint Resolve ok_loop_turn : wf.

Lemma ok_loop handlers wk leaseMs claimMs pollMs turns b :
  ok (loop cfg handlers wk leaseMs claimMs pollMs turns b).
Proof.
  revert b. induction turns as [|turns IH]; intros b; [done|]. cbn [loop]. ok_steps.
Qed.

Lemma worker_ok p : worker_api cfg p → ok p.
Proof.
  destruct 1 as [p Hp| | |].
  - by apply engine_ok.
  - apply steps_ok_bind; [apply ok_loop|done].
  - unfold renew. ok_steps.
  - unfold maintenance. ok_steps.
Qed.

Lemma workers_reachable_inv q w : reachable (worker_api cfg) outside (initial q) w → world_inv cfg w.
Proof.
  apply (reachable_inv (worker_api cfg) outside (world_inv cfg) world_guar);
    [apply worker_ok|apply outside_ok|apply initial_inv].
Qed.
End safety.

(** ** The queue entry of a task *)

(** The invariant of the queue, and that it holds the id [i]. *)
Definition entry_kept (i : oid) (w : World TaskQueue) : Prop :=
  queue_ok (w_q w) ∧ is_Some (place_of (w_q w) i).

Notation keeps i := (steps_ok (entry_kept i) (λ _ _, True)).

Section keeps.
Context (cfg : EngineConfig) (i : oid).

(** The methods a running worker uses before its acknowledgement. *)
Definition keeping {A} (f : TaskQueue → res A * TaskQueue) : Prop :=
  ∀ q, queue_ok q ∧ is_Some (place_of q i) → queue_ok (f q).2 ∧ is_Some (place_of (f q).2 i).

Lemma redis_keeping {A} (f : TaskQueue → A * TaskQueue) :
  (∀ q, queue_ok q → is_Some (place_of q i) → queue_ok (f q).2 ∧ is_Some (place_of (f q).2 i)) →
  keeping (redis f).
Proof.
  intros Hf q [Hq Hp]. unfold redis. destruct (q_up q); [|done].
  pose proof (Hf q Hq Hp) as H. by destruct (f q).
Qed.

(** A command that is not an acknowledgement of [i] keeps its entry. *)
Lemma exec_keeps c q :
  c ≠ Ack i → queue_ok q → is_Some (place_of q i) → queue_ok (exec c q) ∧ is_Some (place_of (exec c q) i).
Proof.
  intros Hc Hq [p Hp]. split; [by apply exec_ok|]. pose proof (exec_moves c q i Hq) as Hm. rewrite Hp in Hm.
  destruct c; cbn [moves] in Hm; repeat case_decide; subst; destruct p; naive_solver.
Qed.

Lemma returned_1_snd (f : TaskQueue → Z * TaskQueue) q : (returned_1 f q).2 = (f q).2.
Proof. unfold returned_1. by destruct (f q). Qed.

Lemma enqueue_keeping it : keeping (enqueue it).
Proof.
  intros q Hq. apply (redis_keeping (returned_1 (wfEnqueue (it_taskId it)))); [|done].
  intros q' Hq' Hp. rewrite returned_1_snd. by apply (exec_keeps (Enqueue (it_taskId it))).
Qed.

Lemma enqueueDelayed_keeping j d : keeping (enqueueDelayed j d).
Proof.
  intros q Hq. apply (redis_keeping (returned_1 (wfEnqueueDelayed j (Z.max 0 d)))); [|done].
  intros q' Hq' Hp. rewrite returned_1_snd. by apply (exec_keeps (EnqueueDelayed j (Z.max 0 d))).
Qed.

Lemma extendLease_keeping j d : keeping (queue_extendLease j d).
Proof.
  apply redis_keeping. intros q Hq Hp. rewrite returned_1_snd. by apply (exec_keeps (ExtendLease j d)).
Qed.

Lemma keeps_queue_call {A} (f : TaskQueue → res A * TaskQueue) : keeping f → keeps i (queue_call f).
Proof.
  intros Hf. apply steps_ok_await. intros w Hw. pose proof (Hf (w_q w) Hw) as H.
  by destruct (f (w_q w)).
Qed.

Lemma keeps_db_call {A} (body : Readings → tx DB A) : keeps i (db_call body).
Proof.
  apply steps_ok_await. intros w Hw. unfold db_step.
  by destruct (body (readings w) (w_db w)) as [[a db]|e].
Qed.

Lemma keeps_ret {A} (a : A) : keeps i (Ret a).
Proof. done. Qed.
Lemma keeps_throw {A} e : keeps i (Throw (A := A) e).
Proof. done. Qed.
Lemma keeps_db_read {A} (f : Readings → DB → A) : keeps i (db_read (Q := TaskQueue) f).
Proof. apply keeps_db_call. Qed.

Hint Resolve keeps_queue_call keeps_db_call keeps_db_read keeps_ret keeps_throw enqueue_keeping
  enqueueDelayed_keeping extendLease_keeping : wf.

Ltac keep_step :=
  match goal with
  | |- steps_ok _ _ (_ ≫= _) => apply steps_ok_bind; [|intros]
  | |- steps_ok _ _ (catch _ _) => apply steps_ok_catch; [|intros]
  | |- steps_ok _ _ (for_each _ _) => apply steps_ok_for_each; intros
  | |- steps_ok _ _ (match ?b with _ => _ end) => destruct b
  end.
Ltac keep_steps := repeat (keep_step || solve [eauto with wf]).

Lemma keeps_dispatchReady e : keeps i (dispatchReady e).
Proof. unfold dispatchReady, dispatchTask, enqueueSafely. keep_steps. Qed.
Hint Resolve keeps_dispatchReady : wf.

Lemma keeps_failTask j token error : keeps i (failTask cfg j token error).
Proof. unfold failTask, transaction, enqueueRetrySafely. keep_steps. Qed.
Hint Resolve keeps_failTask : wf.

Lemma keeps_startTask j wk : keeps i (startTask cfg j wk).
Proof. unfold startTask. keep_steps. Qed.

Lemma keeps_report c s : keeps i (report cfg c s).
Proof. unfold report, completeTask, suspendForApproval, transaction. keep_steps. Qed.
Hint Resolve keeps_report : wf.

Lemma keeps_runTask handlers c : keeps i (runTask cfg handlers c).
Proof. unfold runTask. apply steps_ok_bind; [|intros; apply keeps_report]. intros w Hw. done. Qed.
End keeps.

(** ** A crash never loses the task *)

(** MongoDB has an outcome for the task: no worker may claim it. *)
Definition settled_task (i : oid) (w : World TaskQueue) : Prop :=
  ∀ t, tasks (w_db w) !! i = Some t → claimable (w_now w) t = false.

(** The task is in the queue or needs no worker. *)
Definition safe (i : oid) (w : World TaskQueue) : Prop :=
  is_Some (place_of (w_q w) i) ∨ settled_task i w.

Lemma unclaimable_status now_ t :
  task_finished (t_status t) = true ∨ t_status t = T_WAITING_FOR_APPROVAL → claimable now_ t = false.
Proof. unfold claimable. by destruct (t_status t) as [| | | | | | | | |]; destruct 1. Qed.

(** Acknowledging after a retry was scheduled, or when Redis is down, keeps the entry. *)
Lemma ack_after_retry i d q :
  queue_ok q → is_Some (place_of q i) → is_Some (place_of (queue_ack i (enqueueDelayed i d q).2).2 i).
Proof.
  intros Hq Hp. destruct (q_up q) eqn:Hup.
  2: { assert ((enqueueDelayed i d q).2 = q) as ->
         by (simpl; unfold queue_enqueueDelayed, redis; by rewrite Hup).
       unfold queue_ack, redis. by rewrite Hup. }
  set (d' := Z.max 0 d).
  assert ((enqueueDelayed i d q).2 = exec (EnqueueDelayed i d') q) as ->.
  { simpl. unfold queue_enqueueDelayed, redis, returned_1. rewrite Hup. by destruct (wfEnqueueDelayed _ _ q). }
  destruct (exec_keeps i (EnqueueDelayed i d') q) as [Hq1 Hp1]; [done..|].
  pose proof (exec_moves (EnqueueDelayed i d') q i Hq) as Hm. cbn [moves] in Hm.
  rewrite decide_True in Hm by done. set (q1 := exec (EnqueueDelayed i d') q) in *.
  assert ((queue_ack i q1).2 = exec (Ack i) q1 ∨ (queue_ack i q1).2 = q1) as [-> | ->]; [|..|done].
  { unfold queue_ack, redis, returned_1. destruct (q_up q1); [left|by right]. cbn [exec].
    by destruct (wfAck i q1). }
  pose proof (exec_moves (Ack i) q1 i Hq1) as Hm'. cbn [moves] in Hm'.
  rewrite decide_True in Hm' by done. rewrite Hm'.
  destruct Hp as [[| |] Hp]; rewrite Hp in Hm; rewrite Hm; by eexists.
Qed.

Section crash.
Context (cfg : EngineConfig) (Hdel : cfg_delayed cfg = true).
Context (i : oid) (w : World TaskQueue) (Hw : world_inv cfg w) (Hkept : entry_kept i w).
Context (token : Z) (t : Task) (Hl : holds_lease (w_db w) i token t).

(** A report that returns leaves an outcome in MongoDB or a retry in the queue. *)
Lemma fail_outcome_recorded error r w' :
  run (failTask cfg i token error) w = (r, w') →
  settled_task i w' ∨ is_Some (place_of (queue_ack i (w_q w')).2 i).
Proof.
  destruct (task_context cfg (w_db w) Hw i t (proj1 Hl)) as (x & Hx & _).
  destruct (may_retry t x error) eqn:Hr.
  - destruct (failTask_retries cfg w i token t x error Hl Hx Hr) as (w1 & -> & _ & _ & Hq).
    intros [= _ <-]. right. rewrite (Hq Hdel). by apply ack_after_retry; apply Hkept.
  - destruct (failTask_fails cfg w i token t x error Hl Hx Hr) as (w1 & n & -> & _ & Hts & _).
    intros [= _ <-]. left. intros u Hu. rewrite Hts, failed_own_task in Hu by apply fail_outcome_cases.
    injection Hu as <-. apply unclaimable_status. left.
    change (task_finished (fail_outcome t error) = true).
    by destruct (fail_outcome_cases t error) as [-> | ->].
Qed.

Lemma complete_outcome_recorded out r w' :
  run (completeTask cfg i token out) w = (r, w') → settled_task i w'.
Proof.
  destruct (task_context cfg (w_db w) Hw i t (proj1 Hl)) as (x & Hx & _).
  destruct (completeTask_commits cfg w Hw i token t x out Hl Hx) as (db' & w1 & _ & _ & _ & -> & _ & Hts & _).
  intros [= _ <-] u Hu. apply unclaimable_status. left.
  destruct (complete_own_task w i t x out) as (t1 & Ht1 & Hc & _).
  enough (u = t1) as -> by (by rewrite Hc). rewrite Hts in Hu.
  case_bool_decide; [|congruence]. rewrite (on_run_lookup _ _ _ i t1) in Hu by done.
  unfold dispatched, is_ready in Hu. rewrite Hc in Hu. simpl in Hu. by destruct (of_run _ t1); injection Hu.
Qed.

Lemma suspend_outcome_recorded ask b w' :
  run (suspendForApproval cfg i token ask) w = (Ok b, w') → settled_task i w'.
Proof.
  unfold suspendForApproval. destruct (cfg_approvals cfg) eqn:Hc; [|done]. cbn [negb].
  unfold transaction. rewrite run_db_call. unfold db_step.
  destruct (suspend_tx cfg i token ask (readings w) (w_db w)) as [[b' db']|] eqn:Hs; [|done].
  intros [= -> <-] u Hu. apply unclaimable_status. right.
  pose proof (suspend_tx_inv cfg (readings w) i token (w_db w) t Hl ask _ _ Hs) as Hreq.
  destruct (suspend_tx_applies cfg (readings w) i token (w_db w) t Hl ask Hreq) as (db1 & Hs1 & [_ Hts _ _]).
  rewrite Hs in Hs1. injection Hs1 as -> ->. change (tasks (w_db (set_db w db1))) with (tasks db1) in Hu.
  rewrite Hts, lookup_insert_eq in Hu. by injection Hu as <-.
Qed.

Lemma report_recorded c s w' :
  claimed_id c = i → leaseToken (claimed_task c) = token →
  run (report cfg c s) w = (Ok tt, w') →
  settled_task i w' ∨ is_Some (place_of (queue_ack i (w_q w')).2 i).
Proof.
  intros Hi Ht. unfold report. rewrite Hi, Ht. destruct (outcome_of s) as [output failure].
  destruct (truthy_thrown failure); [|destruct output as [out|ask]]; rewrite run_bind.
  - destruct (run (failTask cfg i token _) w) as [[b|] w1] eqn:Hrun; [|done].
    intros [= <-]. by eapply fail_outcome_recorded.
  - destruct (run (completeTask cfg i token _) w) as [[b|] w1] eqn:Hrun; [|done].
    intros [= <-]. left. by eapply complete_outcome_recorded.
  - destruct (run (suspendForApproval cfg i token _) w) as [[b|] w1] eqn:Hrun; [|done].
    intros [= <-]. left. by eapply suspend_outcome_recorded.
Qed.
End crash.

(** *** From the claim to the acknowledgement *)

Lemma run_ack i (w : World TaskQueue) :
  worlds (_ ← queue_call (queue_ack i); Ret tt) w = [set_q w (queue_ack i (w_q w)).2].
Proof.
  rewrite worlds_bind, run_queue_call. simpl.
  destruct (queue_ack i (w_q w)) as [[b|e] q]; simpl; done.
Qed.

Lemma safe_after_ack i (w : World TaskQueue) :
  settled_task i w ∨ is_Some (place_of (queue_ack i (w_q w)).2 i) →
  Forall (safe i) (worlds (_ ← queue_call (queue_ack i); Ret tt) w).
Proof. intros H. rewrite run_ack. constructor; [|done]. destruct H; [by right|by left]. Qed.

Section start.
Context (cfg : EngineConfig) (i : oid) (wk : string) (w : World TaskQueue) (Hw : world_inv cfg w).

(** The outcomes of [startTask]: the claim is refused and nothing changes, the
    task ended as a poison pill, or it is handed out under a fresh lease. *)
Lemma startTask_cases r w1 :
  run (startTask cfg i wk) w = (r, w1) →
  match r with
  | Exn _ => True
  | Ok None => settled_task i w1
  | Ok (Some c) => claimed_id c = i ∧ holds_lease (w_db w1) i (leaseToken (claimed_task c)) (claimed_task c)
  end.
Proof.
  intros Hrun. destruct (tasks (w_db w) !! i) as [t|] eqn:Ht.
  2: { unfold startTask in Hrun. rewrite run_bind, run_db_call in Hrun. unfold db_step in Hrun.
       rewrite claimTask_spec, Ht, set_db_id in Hrun. injection Hrun as <- <-.
       intros u Hu. congruence. }
  destruct (claimable (w_now w) t) eqn:Hc.
  2: { unfold startTask in Hrun. rewrite run_bind, run_db_call in Hrun. unfold db_step in Hrun.
       rewrite claimTask_spec, Ht in Hrun. change (NOW (readings w)) with (w_now w) in Hrun.
       rewrite Hc, set_db_id in Hrun. injection Hrun as <- <-. intros u Hu. congruence. }
  destruct (attempts (w_db w) !! (i, (attempt t + 1)%Z)) as [a|] eqn:Hnew.
  - destruct (run_startTask_duplicate cfg w i wk t a Ht Hc Hnew) as [w' Hd]. rewrite Hd in Hrun.
    by injection Hrun as <- <-.
  - destruct (run_startTask cfg w i wk t Ht Hc Hnew) as (w2 & Hrun2 & Hxs & Hts & Hw2 & _).
    rewrite Hrun2 in Hrun. unfold after_claim in Hrun. set (t1 := claimed_now cfg w wk t) in *.
    assert (Hl : holds_lease (w_db w2) i (leaseToken t1) t1).
    { split; [by rewrite Hts, lookup_insert_eq|done]. }
    case_bool_decide as Hmax.
    + rewrite run_bind in Hrun.
      destruct (task_context cfg (w_db w) Hw i t Ht) as (x & Hx & _).
      assert (Hx1 : executions (w_db w2) !! t_executionId t1 = Some x) by (by rewrite Hxs).
      set (err := new_Error (poison_message t1)) in *.
      assert (Hatt : bool_decide (attempt t1 < maxAttempts t1)%Z = false) by (apply bool_decide_eq_false; lia).
      destruct (failTask_fails cfg w2 i _ t1 x err Hl Hx1) as (w3 & n & Hf & _ & Hts' & _).
      { unfold may_retry. by rewrite Hatt. }
      rewrite Hf in Hrun. injection Hrun as <- <-. intros u Hu.
      rewrite Hts', failed_own_task in Hu by apply fail_outcome_cases. injection Hu as <-.
      apply unclaimable_status. left. change (task_finished (fail_outcome t1 err) = true).
      by destruct (fail_outcome_cases t1 err) as [-> | ->].
    + rewrite run_bind, run_db_read in Hrun. cbv beta iota in Hrun.
      rewrite run_bind, run_db_read in Hrun. by injection Hrun as <- <-.
Qed.
End start.

(** *** The queue while a task completes *)

Lemma enqueue_items_keep i (l : list (oid * Task)) : ∀ q,
  queue_ok q → is_Some (q_leases q !! i) →
  let q' := foldl enqueue_item q l in
  queue_ok q' ∧ q_leases q' = q_leases q ∧ q_up q' = q_up q ∧
  (∀ j, j ∈ q_members q → j ∈ q_members q') ∧
  (q_up q = true → ∀ j, j ∈ l.*1 → j ∈ q_members q').
Proof.
  induction l as [|[j t] l IH]; intros q Hq Hl; cbn [foldl].
  { split_and!; [done..|]. by intros _ j ?%elem_of_nil. }
  assert (∃ q1, enqueue_item q (j, t) = q1 ∧ queue_ok q1 ∧ q_leases q1 = q_leases q ∧ q_up q1 = q_up q ∧
            (∀ k, k ∈ q_members q → k ∈ q_members q1) ∧ (q_up q = true → j ∈ q_members q1))
    as (q1 & -> & Hq1 & Hl1 & Hup1 & Hm1 & Hj1).
  { eexists. split; [done|]. unfold enqueue_item. cbn [fst snd enqueue TaskQueue_dispatcher it_taskId].
    unfold answered, queue_enqueue, redis, returned_1. destruct (q_up q) eqn:Hup; [|done].
    pose proof (wfEnqueue_ok j q Hq) as Hok. pose proof (wfEnqueue_members j q) as Hm. revert Hok Hm.
    unfold wfEnqueue. case_decide; cbn; intros Hok Hm; (split_and!; [done..| |]); set_solver. }
  destruct (IH q1 Hq1) as (H1 & H2 & H3 & H4 & H5); [by rewrite Hl1|].
  split_and!; [done|congruence|congruence|auto|]. csimpl.
  intros Hup k [->|Hk]%elem_of_cons; [by apply H4, Hj1|]. apply H5; congruence.
Qed.

Lemma ack_leased i q d :
  queue_ok q → q_up q = true → q_leases q !! i = Some d →
  place_of (queue_ack i q).2 i = None ∧ ∀ j, j ≠ i → place_of (queue_ack i q).2 j = place_of q j.
Proof.
  intros Hq Hup Hd. assert ((queue_ack i q).2 = exec (Ack i) q) as ->.
  { unfold queue_ack, redis, returned_1. rewrite Hup. cbn [exec]. by destruct (wfAck i q). }
  split; [|intros j Hne]; pose proof (exec_moves (Ack i) q) as Hm; cbn [moves] in Hm.
  - specialize (Hm i Hq). rewrite decide_True in Hm by done. rewrite Hm.
    by apply place_leased in Hd as ->.
  - specialize (Hm j Hq). by rewrite decide_False in Hm.
Qed.

(** ** Properties *)

(** The acknowledgement that follows a retry reports that the lease is gone. *)
Lemma retry_survives_ack_lemma q i d delay :
  queue_ok q → q_up q = true → place_of q i = Some (Leased d) →
  queue_ack i (enqueueDelayed i delay q).2 = (Ok false, (enqueueDelayed i delay q).2) ∧
  place_of (enqueueDelayed i delay q).2 i = Some (Delayed (q_time q + Z.max 0 delay)%Z).
Proof.
  intros Hq Hup Hp. set (d' := Z.max 0 delay).
  assert ((enqueueDelayed i delay q).2 = exec (EnqueueDelayed i d') q) as ->.
  { simpl. unfold queue_enqueueDelayed, redis, returned_1. rewrite Hup. by destruct (wfEnqueueDelayed _ _ q). }
  pose proof (exec_moves (EnqueueDelayed i d') q i Hq) as Hm. cbn [moves] in Hm.
  rewrite decide_True, Hp in Hm by done. split; [|done].
  assert (q_up (exec (EnqueueDelayed i d') q) = true) as Hup'.
  { cbn [exec]. unfold wfEnqueueDelayed. cbn zeta. by destruct (_ || _). }
  unfold queue_ack, redis, returned_1. rewrite Hup'. unfold wfAck.
  destruct (q_leases (exec (EnqueueDelayed i d') q) !! i) as [d1|] eqn:Hl; [|done].
  apply place_leased in Hl; [congruence|by apply exec_ok].
Qed.

Section properties.
Context (cfg : EngineConfig) (handlers : string → option Handler) (wk : string) (leaseMs : Z).


Lemma extendLease_up i d q :
  queue_ok q → q_up q = true → q_leases q !! i = Some d →
  ∃ d' q', queue_extendLease i leaseMs q = (Ok true, q') ∧ queue_ok q' ∧ q_up q' = true ∧
    q_leases q' !! i = Some d' ∧ q_time q' = q_time q ∧ ∀ j, j ≠ i → place_of q' j = place_of q j.
Proof.
  intros Hq Hup Hd. pose proof (wfExtendLease_ok i leaseMs q Hq) as Hok.
  pose proof (λ j, exec_moves (ExtendLease i leaseMs) q j Hq) as Hm. cbn [exec moves] in Hm.
  unfold queue_extendLease, redis, returned_1. rewrite Hup. unfold wfExtendLease in *. rewrite Hd in *.
  do 2 eexists. split_and!; [done|exact Hok|exact Hup|apply lookup_insert_eq|done|].
  intros j Hne. specialize (Hm j). by rewrite decide_False in Hm.
Qed.

(** What runs before the report: the claim, with a lease in both stores. *)
Lemma processTask_start (w : World TaskQueue) i t d :
  world_inv cfg w → queue_ok (w_q w) → q_up (w_q w) = true → q_leases (w_q w) !! i = Some d →
  tasks (w_db w) !! i = Some t → claimable (w_now w) t = true →
  attempts (w_db w) !! (i, (attempt t + 1)%Z) = None → (attempt t + 1 ≤ maxAttempts t)%Z →
  ∃ c w2 d2, run (processTask cfg handlers wk leaseMs i) w =
      run (_ ← report cfg c (handler_result handlers c w2); _ ← queue_call (queue_ack i); Ret tt) w2 ∧
    claimed_id c = i ∧ claimed_task c = claim_update wk (cfg_leaseMs cfg) (w_now w) t ∧
    world_inv cfg w2 ∧ executions (w_db w2) = executions (w_db w) ∧
    tasks (w_db w2) = <[i := claimed_task c]> (tasks (w_db w)) ∧
    holds_lease (w_db w2) i (leaseToken (claimed_task c)) (claimed_task c) ∧
    queue_ok (w_q w2) ∧ q_up (w_q w2) = true ∧ q_leases (w_q w2) !! i = Some d2 ∧
    q_time (w_q w2) = q_time (w_q w) ∧ readings w2 = readings w ∧
    (∀ j, j ≠ i → place_of (w_q w2) j = place_of (w_q w) j) ∧
    dom (attempts (w_db w2)) = {[(i, (attempt t + 1)%Z)]} ∪ dom (attempts (w_db w)).
Proof.
  intros Hw Hq Hup Hd Ht Hc Hnew Hmax.
  destruct (run_startTask cfg w i wk t Ht Hc Hnew) as (w1 & Hrun & Hxs & Hts & Hw1 & Hdom).
  pose proof (steps_ok_run _ _ _ _ (ok_startTask cfg i wk) Hw) as Hinv. rewrite Hrun in Hinv.
  unfold after_claim in Hrun, Hinv. set (t1 := claimed_now cfg w wk t) in *.
  rewrite bool_decide_eq_false_2 in Hrun, Hinv by (change (¬ (maxAttempts t < attempt t + 1)%Z); lia).
  rewrite run_bind, run_db_read in Hrun, Hinv. cbv beta iota in Hrun, Hinv.
  rewrite run_bind, run_db_read in Hrun, Hinv. cbv beta iota in Hrun, Hinv. cbn [run snd] in Hrun, Hinv.
  match type of Hrun with _ = (Ok (Some ?c0), _) => set (c := c0) in Hrun end.
  destruct (extendLease_up i d (w_q w1)) as (d2 & q2 & Hext & Hq2 & Hup2 & Hd2 & Htime & Hplaces);
    [by rewrite Hw1..|].
  exists c, (set_q w1 q2), d2. split_and!; try done; [| |etrans; [exact Htime|by rewrite Hw1]|by rewrite Hw1|].
  - unfold processTask. rewrite run_bind, Hrun. cbv beta iota. rewrite run_bind, run_queue_call, Hext.
    cbv beta iota. cbn [fst snd]. unfold runTask. by rewrite !run_bind.
  - split; [|done]. cbn [w_db set_q]. by rewrite Hts, lookup_insert_eq.
  - intros j Hne. cbn [w_q set_q]. rewrite Hplaces by done. by rewrite Hw1.
Qed.

(** a task that is processed undisturbed ends as its handler says.  When the
    handler returns in time, the task is COMPLETED with that output, its id is
    gone from the queue, and every child that waited only for it is QUEUED, in
    MongoDB and in Redis.  The same happens, with the output [null], when the
    handler rejects with a falsy value. *)
Theorem worker_completes (q : TaskQueue) (w : World TaskQueue) (i : oid) (t : Task)
    (x : WorkflowExecution) (d : Z) (out : option json)
    (Hr : reachable (worker_api cfg) outside (initial q) w)
    (Hq : queue_ok (w_q w)) (Hup : q_up (w_q w) = true) (Hd : q_leases (w_q w) !! i = Some d)
    (Ht : tasks (w_db w) !! i = Some t) (Hx : executions (w_db w) !! t_executionId t = Some x)
    (Hc : claimable (w_now w) t = true)
    (Hnew : attempts (w_db w) !! (i, (attempt t + 1)%Z) = None) (Hmax : (attempt t + 1 ≤ maxAttempts t)%Z)
    (Hh : ∀ c w', claimed_id c = i → claimed_task c = claim_update wk (cfg_leaseMs cfg) (w_now w) t →
            ∃ failure, outcome_of (handler_result handlers c w') = (Output out, failure) ∧
              truthy_thrown failure = false) :
  ∃ w', run (processTask cfg handlers wk leaseMs i) w = (Ok tt, w') ∧
    (∃ t', tasks (w_db w') !! i = Some t' ∧ t_status t' = T_COMPLETED ∧ output t' = default JNull out) ∧
    place_of (w_q w') i = None ∧
    ∀ j u, x_status x = E_RUNNING → tasks (w_db w) !! j = Some u →
      t_executionId u = t_executionId t → t_status u = T_PENDING →
      (∀ k v, tasks (w_db w) !! k = Some v → t_executionId v = t_executionId t →
         t_key v ∈ dependsOn u → k = i ∨ t_status v = T_COMPLETED) →
      (∃ u', tasks (w_db w') !! j = Some u' ∧ t_status u' = T_QUEUED) ∧ is_Some (place_of (w_q w') j).
Proof.
  apply workers_reachable_inv in Hr.
  destruct (processTask_start w i t d) as
    (c & w2 & d2 & Hrun & Hci & Hct & Hw2 & Hxs & Hts & Hl & Hq2 & Hup2 & Hd2 & _); [done..|].
  set (t1 := claimed_task c) in *.
  assert (He : t_executionId t1 = t_executionId t) by (by rewrite Hct).
  assert (Hx2 : executions (w_db w2) !! t_executionId t1 = Some x) by (by rewrite Hxs, He).
  destruct (completeTask_commits cfg w2 Hw2 i (leaseToken t1) t1 x (default JNull out) Hl Hx2)
    as (db' & w3 & Hdb' & Hxs' & Hts' & Hrun3 & _ & Hts3 & Hq3).
  set (ts' := on_run _ _ _) in *. set (run' := bool_decide _) in *.
  assert (Hfold : w_q w3 = foldl enqueue_item (w_q w2) (if run' then ready_of (t_executionId t1) ts' else []))
    by (by rewrite Hq3; destruct run').
  destruct (enqueue_items_keep i (if run' then ready_of (t_executionId t1) ts' else []) (w_q w2))
    as (Hq3' & Hl3 & Hup3 & _ & Hin3); [done|by rewrite Hd2|]. rewrite <- Hfold in *.
  destruct (ack_leased i (w_q w3) d2) as [Hgone Hothers]; [done|congruence|by rewrite Hl3|].
  exists (set_q w3 (queue_ack i (w_q w3)).2). split_and!; [| |exact Hgone|].
  - destruct (Hh c w2 Hci Hct) as (failure & Ho & Hf).
    rewrite Hrun. unfold report. rewrite Ho, Hf, Hci, !run_bind. fold t1. rewrite Hrun3. cbv beta iota.
    cbn [run]. rewrite run_bind, run_queue_call. unfold queue_ack, redis. rewrite Hup3, Hup2.
    by destruct (returned_1 _ _).
  - destruct (complete_own_task w2 i t1 x (default JNull out)) as (t' & Ht' & Hst & Ho).
    exists t'. split; [|done]. cbn [w_db set_q]. rewrite Hts3. fold ts' in Ht'. destruct run'; [|done].
    rewrite (on_run_lookup _ _ _ i t') by done. unfold dispatched, is_ready. rewrite Hst. simpl.
    by destruct (of_run _ t').
  - intros j u Hrn Hj Hje Hp Hdeps.
    assert (Hne : i ≠ j). { intros <-. unfold claimable in Hc. simplify_eq. by rewrite Hp in Hc. }
    destruct (complete_child cfg w2 i (leaseToken t1) t1 x (default JNull out) Hl db' j u)
      as (Hx' & u' & Hu' & Hst & He'); try done.
    { by rewrite Hts, lookup_insert_ne. }
    { by rewrite He. }
    { intros k v Hk Hve Hvk. rewrite Hts in Hk. apply lookup_insert_Some in Hk as [[<- <-]|[_ Hk]]; [by left|].
      apply (Hdeps k v Hk); [congruence|done]. }
    assert (run' = true) as Hr' by (by apply bool_decide_eq_true). fold ts' in Hu'. rewrite Hr' in *. split.
    + cbn [w_db set_q]. rewrite Hts3. eexists. split; [by apply on_run_lookup|].
      unfold of_run. rewrite bool_decide_eq_true_2 by done. unfold dispatched, is_ready. by rewrite Hst.
    + cbn [w_q set_q]. rewrite Hothers by done. apply place_member; [done|]. apply Hin3; [done|].
      apply list_elem_of_fmap. exists (j, u'). split; [done|]. unfold ready_of. apply elem_of_find.
      split; [done|]. unfold of_run, is_ready. by rewrite !bool_decide_eq_true_2.
Qed.

(** when the handler fails, or times out, with a retryable error, attempts
    left and a live run, the task is RETRYING and Redis will make it ready again
    after the backoff; the worker's own acknowledgement does not undo it. *)
Theorem worker_retries (q : TaskQueue) (w : World TaskQueue) (i : oid) (t : Task)
    (x : WorkflowExecution) (d : Z) (err : thrown)
    (Hr : reachable (worker_api cfg) outside (initial q) w) (Hdel : cfg_delayed cfg = true)
    (Hq : queue_ok (w_q w)) (Hup : q_up (w_q w) = true) (Hd : q_leases (w_q w) !! i = Some d)
    (Ht : tasks (w_db w) !! i = Some t) (Hx : executions (w_db w) !! t_executionId t = Some x)
    (Hlive : x_status x = E_RUNNING ∨ x_status x = E_PAUSED)
    (Hc : claimable (w_now w) t = true)
    (Hnew : attempts (w_db w) !! (i, (attempt t + 1)%Z) = None) (Hmax : (attempt t + 1 < maxAttempts t)%Z)
    (Hh : ∀ c w', claimed_id c = i → claimed_task c = claim_update wk (cfg_leaseMs cfg) (w_now w) t →
            handler_result handlers c w' = Rejected err)
    (Herr : isRetryable err = true) (Htruthy : truthy_thrown err = true) :
  ∃ w' delay, run (processTask cfg handlers wk leaseMs i) w = (Ok tt, w') ∧
    (∃ t', tasks (w_db w') !! i = Some t' ∧ t_status t' = T_RETRYING ∧ attempt t' = (attempt t + 1)%Z) ∧
    delay = cfg_backoff cfg (w_random w) (attempt t + 1) (baseDelayMs t) ∧
    place_of (w_q w') i = Some (Delayed (q_time (w_q w) + Z.max 0 delay)%Z).
Proof.
  apply workers_reachable_inv in Hr.
  destruct (processTask_start w i t d) as
    (c & w2 & d2 & Hrun & Hci & Hct & Hw2 & Hxs & Hts & Hl & Hq2 & Hup2 & Hd2 & Htime & Hrd & _);
    [done..|lia|].
  set (t1 := claimed_task c) in *.
  assert (Hx2 : executions (w_db w2) !! t_executionId t1 = Some x) by (by rewrite Hxs, Hct).
  assert (Hmay : may_retry t1 x err = true).
  { unfold may_retry. rewrite Herr, Hct. change (attempt (claim_update _ _ _ t)) with (attempt t + 1)%Z.
    change (maxAttempts (claim_update wk (cfg_leaseMs cfg) (w_now w) t)) with (maxAttempts t).
    rewrite bool_decide_eq_true_2 by done. by destruct Hlive as [-> | ->]. }
  destruct (failTask_retries cfg w2 i (leaseToken t1) t1 x err Hl Hx2 Hmay) as (w3 & Hrun3 & _ & Hts3 & Hq3).
  specialize (Hq3 Hdel). set (delay := cfg_backoff cfg _ _ _) in *.
  assert (Hdelay : delay = cfg_backoff cfg (w_random w) (attempt t + 1) (baseDelayMs t))
    by (unfold delay; apply (f_equal random) in Hrd; cbn [random readings] in Hrd; by rewrite Hrd, Hct).
  destruct (retry_survives_ack_lemma (w_q w2) i d2 delay Hq2 Hup2) as (Hack & Hp3);
    [by apply place_leased|].
  exists (set_q w3 (queue_ack i (w_q w3)).2), delay. split_and!; [| |done|].
  - rewrite Hrun, Hh by done. unfold report. cbn [outcome_of]. rewrite Htruthy, Hci, !run_bind.
    fold t1. rewrite Hrun3. cbv beta iota. cbn [run]. by rewrite run_bind, run_queue_call, Hq3, Hack.
  - eexists. cbn [w_db set_q]. rewrite Hts3. split; [apply lookup_insert_eq|]. split; [done|].
    change (attempt t1 = (attempt t + 1)%Z). by rewrite Hct.
  - cbn [w_q set_q]. by rewrite Hq3, Hack, <- Htime.
Qed.
End properties.

(** ** Witnesses *)

Import Demo.

(** The diamond workflow was started on the Redis queue and a worker took the
    id of its root. *)
Definition w_taken : World TaskQueue := set_q w_started (queue_claim 30000 (w_q w_started)).2.

Lemma w_taken_reachable : reachable (worker_api cfg) outside (initial empty_queue) w_taken.
Proof.
  apply (reachable_env _ _ _ w_started); [done|].
  apply reachable_run; [apply wa_engine; solve [eauto using api]|apply reachable_refl].
Qed.

Lemma w_taken_queue_ok : queue_ok (w_q w_taken).
Proof.
  assert (w_q w_taken = exec_all [Enqueue 0; Claim 30000] empty_queue) as -> by (vm_compute; reflexivity).
  apply exec_all_ok, empty_queue_ok.
Qed.

Definition noop_handlers : string → option Handler :=
  λ _, Some (λ _ _, Some (5%Z, Resolved (Output (Some (JNum 1))))).
Definition slow_handlers : string → option Handler := λ _, Some (λ _ _, None).

Definition taken_task : Task :=
  default (task_of_definition 0 0 0 ∅ (def "" [])) (tasks (w_db w_taken) !! 0).
Definition taken_execution : WorkflowExecution :=
  default (new_execution diamond params 0) (executions (w_db w_taken) !! 0).


(** A handler that answers in time, and one that never does. *)
Lemma taken_facts :
  q_up (w_q w_taken) = true ∧ q_leases (w_q w_taken) !! 0 = Some 30000%Z ∧
  tasks (w_db w_taken) !! 0 = Some taken_task ∧
  executions (w_db w_taken) !! t_executionId taken_task = Some taken_execution ∧
  claimable (w_now w_taken) taken_task = true ∧
  attempts (w_db w_taken) !! (0, (attempt taken_task + 1)%Z) = None ∧
  attempt taken_task = 0%Z ∧ maxAttempts taken_task = 3%Z ∧ x_status taken_execution = E_RUNNING ∧
  t_type taken_task = "noop"%string ∧ t_timeoutMs taken_task = 30000%Z.
Proof. split_and!; vm_compute; reflexivity. Qed.

Lemma worker_completes_witness :
  ∃ w', run (processTask cfg noop_handlers "worker-1" 15000 0) w_taken = (Ok tt, w') ∧
    (∃ t', tasks (w_db w') !! 0 = Some t' ∧ t_status t' = T_COMPLETED ∧ output t' = JNum 1) ∧
    place_of (w_q w') 0 = None.
Proof.
  destruct taken_facts as (Hup & Hd & Ht & Hx & Hc & Hnew & Ha & Hm & _ & Hty & Hto).
  destruct (worker_completes cfg noop_handlers "worker-1" 15000 empty_queue w_taken 0 taken_task
              taken_execution 30000 (Some (JNum 1)) w_taken_reachable w_taken_queue_ok Hup Hd Ht Hx Hc Hnew)
    as (w' & Hrun & Hdone & Hgone & _).
  - rewrite Ha, Hm. lia.
  - intros c w' _ Hct. unfold handler_result, noop_handlers. rewrite Hct.
    change (t_timeoutMs (claim_update "worker-1" (cfg_leaseMs cfg) (w_now w_taken) taken_task))
      with (t_timeoutMs taken_task). rewrite Hto. by exists Nullish.
  - exists w'. by split_and!.
Defined.

Lemma worker_retries_witness :
  ∃ w', run (processTask cfg slow_handlers "worker-1" 15000 0) w_taken = (Ok tt, w') ∧
    (∃ t', tasks (w_db w') !! 0 = Some t' ∧ t_status t' = T_RETRYING) ∧
    place_of (w_q w') 0 = Some (Delayed 0).
Proof.
  destruct taken_facts as (Hup & Hd & Ht & Hx & Hc & Hnew & Ha & Hm & Hrun & Hty & Hto).
  destruct (worker_retries cfg slow_handlers "worker-1" 15000 empty_queue w_taken 0 taken_task
              taken_execution 30000 (TimeoutError ("task " +:+ quote "A") 30000)
              w_taken_reachable eq_refl w_taken_queue_ok Hup Hd Ht Hx (or_introl Hrun) Hc Hnew)
    as (w' & delay & Hok & (t' & Ht' & Hst & _) & Hdelay & Hp).
  - rewrite Ha, Hm. lia.
  - intros c w' _ Hct. unfold handler_result, slow_handlers, withTimeout. rewrite Hct.
    vm_compute. reflexivity.
  - reflexivity.
  - reflexivity.
  - exists w'. split; [exact Hok|]. split; [exists t'; split; [exact Ht'|exact Hst]|]. rewrite Hp, Hdelay. vm_compute. reflexivity.
Defined.
