(* ===== verification/Attempts.v ===== *)
(** * How often a task is run

    The counter [attempt] of a task never decreases and each claim increments
    it, so in every interleaving of workers, takeovers of lapsed leases, retries
    and crashes the handler of a task is started at most [maxAttempts] times. *)

From S2P Require Import Prelude Program States Dag Models Retry TaskRepo Dispatcher Engine TaskQueue Worker Ownership Frames.
From S2P Require Import EngineInv EngineSafety EngineProps WorkerProps.

Local Open Scope string_scope.

(** ** Attempts never decrease *)

(** Tasks stay, keep their limit and do not lose attempts; new ones have none
    fewer than 0. *)
Record counting (db db' : DB) : Prop := {
  ct_old i t : tasks db !! i = Some t →
    ∃ t', tasks db' !! i = Some t' ∧ maxAttempts t' = maxAttempts t ∧ (attempt t ≤ attempt t')%Z;
  ct_new i t' : tasks db' !! i = Some t' → tasks db !! i = None → (0 ≤ attempt t')%Z
}.

Lemma counting_same db db' : tasks db' = tasks db → counting db db'.
Proof. intros Hts. split; rewrite Hts; [intros i t Ht; by exists t|intros i t' H1 H2; congruence]. Qed.

#[export] Instance counting_refl : Reflexive counting.
Proof. intros db. by apply counting_same. Qed.

#[export] Instance counting_trans : Transitive counting.
Proof.
  intros db1 db2 db3 [Hold1 Hnew1] [Hold2 Hnew2]. split.
  - intros i t (t2 & Ht2 & Hm2 & Ha2)%Hold1. destruct (Hold2 i t2 Ht2) as (t3 & Ht3 & Hm3 & Ha3).
    exists t3. split_and!; [done|congruence|lia].
  - intros i t3 Ht3 Hnone. destruct (tasks db2 !! i) as [t2|] eqn:Ht2; [|by eapply Hnew2].
    destruct (Hold2 i t2 Ht2) as (t3' & Ht3' & _ & Ha). rewrite Ht3 in Ht3'. injection Ht3' as <-.
    pose proof (Hnew1 i t2 Ht2 Hnone). lia.
Qed.

#[export] Instance counting_preorder : PreOrder counting := {}.

(** An update of a task that respects this. *)
Definition gentle (u : Task → Task) : Prop := ∀ t, maxAttempts (u t) = maxAttempts t ∧ (attempt t ≤ attempt (u t))%Z.

Lemma counting_updateOne i p u db : gentle u → counting db (db {{ tasks := (updateOne i p u (tasks db)).2 }}).
Proof.
  intros Hu. unfold updateOne. destruct (tasks db !! i) as [t|] eqn:Ht; [|by apply counting_same].
  destruct (p t); [|by apply counting_same]. split; cbn.
  - intros j t' Hj. destruct (decide (i = j)) as [->|Hne].
    + rewrite lookup_insert_eq. eexists. split; [done|]. assert (t' = t) as -> by congruence. apply Hu.
    + rewrite lookup_insert_ne by done. by exists t'.
  - intros j t'. rewrite lookup_insert_Some. intros [[<- <-]|[_ Hj]] Hnone; congruence.
Qed.

Lemma counting_updateMany p u db : gentle u → counting db (db {{ tasks := (updateMany p u (tasks db)).2 }}).
Proof.
  intros Hu. unfold updateMany. split; cbn.
  - intros i t Ht. rewrite lookup_fmap, Ht. eexists. split; [done|]. destruct (p t); [apply Hu|done].
  - intros i t'. rewrite lookup_fmap. intros Ht' Hnone. by rewrite Hnone in Ht'.
Qed.

Lemma counting_insert_all l db :
  (∀ t, t ∈ l → (0 ≤ attempt t)%Z) → counting db (db {{ tasks := insert_all l (tasks db) }}).
Proof.
  intros Hl. split; cbn.
  - intros i t Ht. exists t. split; [|done]. apply EngineStart.insert_all_Some. by right.
  - intros i t' [Hi|Hi]%EngineStart.insert_all_Some Hnone; [|congruence].
    by apply Hl, (EngineStart.new_map_elem l (tasks db) i).
Qed.

(** *** Transactions *)

Notation counts := (relates counting).

Lemma counts_transition i from to set where_ : gentle set → counts (transitionTask i from to set where_).
Proof.
  intros Hset. unfold transitionTask. apply (rel_bind counting); [apply (rel_lift counting)|]. intros _. apply (rel_state counting). intros db.
  pose proof (counting_updateOne i (λ t, where_ t && bool_decide (t_status t = from)) (λ t, (set t) {{ t_status := to }}) db) as Hu.
  destruct (updateOne _ _ _ (tasks db)) as [n ts]. apply Hu. intros t. apply (Hset t).
Qed.

Lemma counts_updateMany p u : gentle u → counts (Task_updateMany p u).
Proof.
  intros Hu. unfold Task_updateMany. apply (rel_state counting). intros db. pose proof (counting_updateMany p u db Hu) as Hc.
  by destruct (updateMany p u (tasks db)).
Qed.

Lemma counts_claim i wk leaseMs r : counts (claimTask i wk leaseMs r).
Proof.
  intros db a db'. rewrite claimTask_spec. destruct (tasks db !! i) as [t|] eqn:Ht; [|by intros [= _ <-]].
  destruct (claimable _ t); [|by intros [= _ <-]]. intros [= _ <-].
  pose proof (counting_updateOne i (λ _, true) (claim_update wk leaseMs (NOW r)) db) as Hu.
  unfold updateOne in Hu. rewrite Ht in Hu. apply Hu. intros u. split; [done|].
  change (attempt (claim_update wk leaseMs (NOW r) u)) with (attempt u + 1)%Z. lia.
Qed.

Lemma counts_renew i token leaseMs r : counts (renewTaskLease i token leaseMs r).
Proof.
  unfold renewTaskLease.
  apply (rel_state counting). intros db.
  pose proof (counting_updateOne i (λ t, bool_decide (t_status t = T_RUNNING) && bool_decide (leaseToken t = token))
    (λ t, t {{ leaseExpiresAt := Some (NOW r + leaseMs)%Z }}) db) as Hu.
  destruct (updateOne _ _ _ (tasks db)). apply Hu. intros t. by split.
Qed.

#[local] Hint Resolve counts_claim counts_renew : frames.

Ltac gentle_update := intros ?; cbn; unfold make_ready, cancel_task, release_lease, dec_remaining, decided_task; repeat case_match; (split; reflexivity).

(** What does not touch the tasks. *)
Ltac counts_elsewhere := idtac; intros ?; apply counting_same; by repeat case_match.

Ltac counts_step :=
  idtac; match goal with
  | |- counts (transitionTask _ _ _ _ _) => apply counts_transition; gentle_update
  | |- counts (Task_updateMany _ _) => apply counts_updateMany; gentle_update
  | _ => rel_step counts_elsewhere
  end.

Section engine.
Context (cfg : EngineConfig).

Ltac counts_tx := unfold Task_findById, Execution_findOneAndUpdate, Execution_updateOne, Attempt_updateOne, create_approval, emit;
  repeat counts_step.

Lemma counts_emit r type e payload : counts (emit cfg r type e payload).
Proof. counts_tx. Qed.
Hint Resolve counts_emit : frames.
Lemma counts_after_success r i t at_ : counts (afterTaskSucceeded cfg r i t at_).
Proof. unfold afterTaskSucceeded. counts_tx. Qed.
Lemma counts_after_failure r i t o m b at_ : counts (afterTaskFailedForGood cfg r i t o m b at_).
Proof. unfold afterTaskFailedForGood. counts_tx. Qed.
Hint Resolve counts_after_success counts_after_failure : frames.
Lemma counts_complete i token out r : counts (complete_tx cfg i token out r).
Proof. unfold complete_tx. counts_tx. Qed.
Lemma counts_fail i token err r : counts (fail_tx cfg i token err r).
Proof. unfold fail_tx. counts_tx. Qed.
Lemma counts_suspend i token ask r : counts (suspend_tx cfg i token ask r).
Proof. unfold suspend_tx. counts_tx. Qed.
Lemma counts_resolve a d scope r : counts (resolve_tx cfg a d scope r).
Proof. unfold resolve_tx. counts_tx. Qed.
Lemma counts_pause e r : counts (pause_tx cfg e r).
Proof. unfold pause_tx. counts_tx. Qed.
Lemma counts_resume e r : counts (resume_tx cfg e r).
Proof. unfold resume_tx. counts_tx. Qed.
Lemma counts_cancel e r : counts (cancel_tx cfg e r).
Proof. unfold cancel_tx. counts_tx. Qed.
Lemma counts_abandon i n r : counts (abandon_attempts i n r).
Proof. unfold abandon_attempts. counts_tx. Qed.
Lemma counts_create_attempt i t wk r : counts (create_attempt i t wk r).
Proof. unfold create_attempt. counts_tx. Qed.

Lemma counts_start w p children r : counts (start_tx cfg w p children r).
Proof.
  unfold start_tx, emit. repeat match goal with
  | |- counts (tx_modify (λ db, db {{ tasks := _ }})) => apply (rel_modify counting); intros; apply counting_insert_all
  | _ => counts_step
  end. intros t (d & -> & _)%list_elem_of_fmap. done.
Qed.
End engine.

(** *** Programs *)

Section programs.
Context (cfg : EngineConfig).
Notation slow := (steps_ok (λ _ : World TaskQueue, True) (λ w w', counting (w_db w) (w_db w'))).

Hint Resolve counts_complete counts_fail counts_suspend counts_resolve counts_pause counts_resume counts_cancel
  counts_abandon counts_create_attempt counts_start counts_emit : frames.

Ltac slow_program :=
  unfold transaction, dispatchReady, dispatchTask, enqueueSafely, enqueueRetrySafely, status_of;
  repeat stepwise_step counting counts_step.

Lemma slow_failTask i token err : slow (failTask cfg i token err).
Proof. unfold failTask. slow_program. Qed.
Lemma slow_dispatchReady e : slow (dispatchReady e).
Proof. slow_program. Qed.
Lemma slow_resolve a d scope : slow (resolveApproval cfg a d scope).
Proof. unfold resolveApproval. slow_program. Qed.

(** Everything a worker does after a claim. *)
Lemma slow_report c s : slow (report cfg c s).
Proof. unfold report, failTask, completeTask, suspendForApproval. slow_program. Qed.

Lemma slow_renew leaseMs i token : slow (_ ← renew cfg leaseMs i token; Ret tt).
Proof. unfold renew, renewLease. slow_program. Qed.
Lemma slow_maintenance : slow maintenance.
Proof. unfold maintenance. slow_program. Qed.

Lemma slow_engine p : api cfg p → slow p.
Proof.
  destruct 1; unfold renewLease, pauseExecution, resumeExecution, cancelExecution, startExecution, startTask,
    completeTask, failTask, suspendForApproval, resolveApproval, reconcile, redispatch, reenqueue, expire, resolveApproval; slow_program.
Qed.
End programs.

(** ** The log of the handlers that were started *)

(** A world with the tasks and attempts whose handlers were started. *)
Definition Logged : Type := World TaskQueue * list (oid * Z).
Definition on_world {A} (p : prog (World TaskQueue) A) : prog Logged A := zoom fst (λ w lw, (w, lw.2)) p.

Section logged.
Context (cfg : EngineConfig).

(** [processTask], which notes the attempt when it calls the handler. *)
Definition logged_process (handlers : string → option Handler) (wk : string) (leaseMs : Z) (i : oid) : prog Logged unit :=
  claimed ← on_world (startTask cfg i wk);
  match claimed with
  | None => _ ← on_world (queue_call (queue_ack i)); Ret tt
  | Some c =>
      _ ← on_world (queue_call (queue_extendLease i leaseMs));
      s ← Atom (λ lw, (handler_result handlers c lw.1,
                       (lw.1, (lw.2 ++ [(claimed_id c, attempt (claimed_task c))])%list))) Ret;
      _ ← on_world (report cfg c s);
      _ ← on_world (queue_call (queue_ack i));
      Ret tt
  end.

Lemma run_on_world {A} (p : prog (World TaskQueue) A) w log :
  run (on_world p) (w, log) = let '(r, w') := run p w in (r, (w', log)).
Proof. unfold on_world. rewrite run_zoom; [done|done|done|by intros []]. Qed.

(** The note is the only difference. *)
Lemma logged_process_run handlers wk leaseMs i w log :
  ∃ log', run (logged_process handlers wk leaseMs i) (w, log) =
    let '(r, w') := run (processTask cfg handlers wk leaseMs i) w in (r, (w', log')).
Proof.
  unfold logged_process, processTask, runTask. rewrite !run_bind, run_on_world.
  destruct (run (startTask cfg i wk) w) as [[[c|]|e] w1]; [| |by exists log].
  - rewrite !run_bind, run_on_world. destruct (run (queue_call (queue_extendLease i leaseMs)) w1) as [[ext|e] w2]; [|by exists log].
    rewrite !run_bind. cbn [run fst snd]. eexists. rewrite run_bind, run_on_world.
    destruct (run (report cfg c (handler_result handlers c w2)) w2) as [[[]|e] w3]; [|done].
    rewrite !run_bind, run_on_world. by destruct (run (queue_call (queue_ack i)) w3) as [[acked|e] w4].
  - exists log. rewrite !run_bind, run_on_world. by destruct (run (queue_call (queue_ack i)) w1) as [[acked|e] w4].
Qed.

(** Everything that runs: calls of the engine, workers that process tasks,
    renewals and maintenance. *)
Inductive logged_api : prog Logged unit → Prop :=
| la_engine p : api cfg p → logged_api (on_world p)
| la_process handlers wk leaseMs i : logged_api (logged_process handlers wk leaseMs i)
| la_renew leaseMs i token : logged_api (on_world (_ ← renew cfg leaseMs i token; Ret tt))
| la_maintenance : logged_api (on_world maintenance).

Definition logged_outside (lw lw' : Logged) : Prop := outside lw.1 lw'.1 ∧ lw'.2 = lw.2.

(** *** The invariant *)

(** A token: the program has claimed this attempt of this task, whose limit is
    the third component, and has not called the handler. *)
Notation Token := (oid * Z * Z)%type.

Record runs_inv (T : gset Token) (lw : Logged) : Prop := {
  rn_attempts i t : tasks (w_db lw.1) !! i = Some t → (0 ≤ attempt t)%Z;
  rn_held i n m : (i, n, m) ∈ T → ∃ t, tasks (w_db lw.1) !! i = Some t ∧ maxAttempts t = m ∧ (1 ≤ n ≤ attempt t)%Z;
  rn_logged i n : (i, n) ∈ lw.2 → ∃ t, tasks (w_db lw.1) !! i = Some t ∧ (1 ≤ n ≤ maxAttempts t)%Z ∧ (n ≤ attempt t)%Z;
  rn_once : NoDup lw.2;
  rn_fresh i n m : (i, n, m) ∈ T → (i, n) ∉ lw.2
}.

Lemma runs_inv_weaken T T' lw : T ⊆ T' → runs_inv T' lw → runs_inv T lw.
Proof. intros HT [Ha Hh Hl Ho Hf]. split; [done|..|done|done|]; eauto. Qed.

Lemma runs_inv_counting T lw w :
  runs_inv T lw → counting (w_db lw.1) (w_db w) → runs_inv T (w, lw.2).
Proof.
  intros [Ha Hh Hl Ho Hf] [Hold Hnew]. split; cbn; [|..|done|done].
  - intros i t' Ht'. destruct (tasks (w_db lw.1) !! i) as [t|] eqn:Ht; [|by eapply Hnew].
    destruct (Hold i t Ht) as (t1 & Ht1 & _ & Hle). pose proof (Ha i t Ht). assert (t1 = t') as <- by congruence. lia.
  - intros i n m (t & Ht & Hm & Hn)%Hh. destruct (Hold i t Ht) as (t1 & Ht1 & Hm1 & Hle). exists t1. split_and!; [done|congruence|lia|lia].
  - intros i n (t & Ht & Hn & Hat)%Hl. destruct (Hold i t Ht) as (t1 & Ht1 & Hm1 & Hle). exists t1. split_and!; [done|lia|lia|lia].
Qed.

Notation owned := (owns runs_inv).

Lemma owned_slow {A} (p : prog (World TaskQueue) A) T :
  steps_ok (λ _, True) (λ w w', counting (w_db w) (w_db w')) p → owned T (on_world p) (λ T' _, T' = T).
Proof. apply owns_zoom; [done|]. intros T' lw w HI _ Hc. by apply runs_inv_counting. Qed.

(** A claim creates a token: the attempt is greater than all before it. *)
Lemma owned_claim i wk T :
  owned T (on_world (db_call (claimTask i wk (cfg_leaseMs cfg))))
    (λ T' c, match c with None => True | Some t => (i, attempt t, maxAttempts t) ∈ T' end).
Proof.
  intros [w log] others Hd HI. cbn [fst snd]. unfold db_step. rewrite claimTask_spec.
  assert (∃ T', T' ## others ∧ runs_inv (T' ∪ others) (w, log) ∧ True) as Hsame by by exists T.
  destruct (tasks (w_db w) !! i) as [t|] eqn:Ht; [|destruct w; exact Hsame].
  destruct (claimable (NOW (readings w)) t) eqn:Hcl; [|destruct w; exact Hsame]. cbn. clear Hsame.
  set (t' := claim_update wk (cfg_leaseMs cfg) (NOW (readings w)) t).
  assert (attempt t' = (attempt t + 1)%Z) as Hat by done.
  assert (∀ m, (i, attempt t', m) ∉ T ∪ others) as Hnew.
  { intros m (u & Hu & _ & Hn)%(rn_held _ _ HI). cbn in Hu. assert (u = t) as -> by congruence. lia. }
  exists ({[(i, attempt t', maxAttempts t')]} ∪ T). split; [set_solver|]. split; [|set_solver].
  assert (counting (w_db w) ((w_db w) {{ tasks := <[i := t']> (tasks (w_db w)) }})) as Hc.
  { apply (counts_claim i wk (cfg_leaseMs cfg) (readings w) (w_db w) (Some t')). by rewrite claimTask_spec, Ht, Hcl. }
  pose proof (runs_inv_counting _ _ (set_db w ((w_db w) {{ tasks := <[i := t']> (tasks (w_db w)) }})) HI Hc) as [Ha Hh Hl Ho Hf].
  split; [done|..|done|done|].
  - intros j n m. rewrite <- union_assoc_L. intros [[= -> -> ->]%elem_of_singleton|Hin]%elem_of_union; [|by apply Hh].
    exists t'. cbn. rewrite lookup_insert_eq. pose proof (rn_attempts _ _ HI i t Ht). split_and!; [done|done|lia|lia].
  - intros j n m. rewrite <- union_assoc_L. intros [[= -> -> ->]%elem_of_singleton|Hin]%elem_of_union; [|by apply (Hf j n m)].
    cbn. intros (u & Hu & _ & Hn)%(rn_logged _ _ HI). cbn in Hu. assert (u = t) as -> by congruence. lia.
Qed.

(** [startTask] hands over a task with its token, and below its limit. *)
Lemma owned_startTask i wk T :
  owned T (on_world (startTask cfg i wk)) (λ T' claimed,
    match claimed with
    | None => True
    | Some c => let t := claimed_task c in
        claimed_id c = i ∧ (attempt t ≤ maxAttempts t)%Z ∧ (i, attempt t, maxAttempts t) ∈ T'
    end).
Proof.
  unfold startTask, on_world. apply owns_zoom_bind. eapply owns_impl; [|apply owned_claim].
  intros T1 [t|] Ht; [|done]. cbv beta iota.
  assert (∀ A B (p : prog (World TaskQueue) A) (k : A → prog (World TaskQueue) B) Q, steps_ok (λ _, True) (λ w w', counting (w_db w) (w_db w')) p →
    (∀ a, owned T1 (on_world (k a)) Q) → owned T1 (on_world (p ≫= k)) Q) as Hstep.
  { intros A B p k Q Hp Hk. apply owns_zoom_bind. eapply owns_impl; [|by apply owned_slow]. intros T' a ->. apply Hk. }
  unfold on_world in Hstep. apply Hstep; [apply (stepwise_db_call counting), counts_abandon|]. intros _.
  apply Hstep; [apply (stepwise_db_call counting), counts_create_attempt|]. intros _.
  apply Hstep; [apply (stepwise_db_call counting); intros r; apply counts_emit|]. intros _. destruct (bool_decide_reflect (maxAttempts t < attempt t)%Z).
  - apply Hstep; [apply slow_failTask|done].
  - apply Hstep; [apply (stepwise_read counting)|]. intros x. apply Hstep; [apply (stepwise_read counting)|]. intros parents. cbn. split_and!; [done|lia|done].
Qed.

(** The call of a handler uses up the token. *)
Lemma owned_note {A} i t (f : World TaskQueue → A) T :
  (i, attempt t, maxAttempts t) ∈ T → (attempt t ≤ maxAttempts t)%Z →
  owned T (Atom (λ lw : Logged, (f lw.1, (lw.1, (lw.2 ++ [(i, attempt t)])%list))) Ret) (λ _ _, True).
Proof.
  intros Hin Hle [w log] others Hd HI. exists (T ∖ {[(i, attempt t, maxAttempts t)]}). split; [set_solver|]. split; [|done].
  destruct HI as [Ha Hh Hl Ho Hf]. cbn in *.
  destruct (Hh i (attempt t) (maxAttempts t)) as (u & Hu & Hm & Hn); [set_solver|].
  assert (Hnot : (i, attempt t) ∉ log) by (apply (Hf i (attempt t) (maxAttempts t)); set_solver).
  split; cbn; [done| | | |].
  - intros j n m Hj. apply Hh. set_solver.
  - intros j n [?|[= -> ->]%list_elem_of_singleton]%elem_of_app; [by apply Hl|]. exists u. split_and!; [done|lia..].
  - apply NoDup_app. split; [done|]. split; [|apply NoDup_singleton]. by intros x Hx ->%list_elem_of_singleton.
  - intros j n m Hj Hlog. apply elem_of_app in Hlog as [Hlog|[= -> ->]%list_elem_of_singleton].
    + revert Hlog. apply (Hf j n m). set_solver.
    + destruct (Hh i (attempt t) m) as (u' & Hu' & Hm' & _); [set_solver|]. assert (m = maxAttempts t) as -> by congruence.
      set_solver.
Qed.

Lemma owned_process handlers wk leaseMs i : owned ∅ (logged_process handlers wk leaseMs i) (λ _ _, True).
Proof.
  unfold logged_process. apply owns_bind. eapply owns_impl; [|apply owned_startTask].
  assert (∀ T (f : TaskQueue → res bool * TaskQueue), owned T (_ ← on_world (queue_call f); Ret tt) (λ _ _, True)) as Hq.
  { intros T f. apply owns_bind. eapply owns_impl; [|apply owned_slow, (stepwise_queue_call counting)]. done. }
  intros T [c|] Hc; [|apply Hq]. destruct Hc as (Hid & Hle & Hin).
  apply owns_bind. eapply owns_impl; [|apply owned_slow, (stepwise_queue_call counting)]. intros T' _ ->.
  apply owns_bind. eapply owns_impl; [|rewrite Hid; by apply (owned_note i)]. intros T1 s _.
  apply owns_bind. eapply owns_impl; [|apply owned_slow, slow_report]. intros T2 _ _. apply Hq.
Qed.

Lemma logged_api_owned p : logged_api p → owned ∅ p (λ _ _, True).
Proof.
  destruct 1 as [p Hp| | |].
  - eapply owns_impl; [|apply owned_slow, (slow_engine cfg p Hp)]. done.
  - apply owned_process.
  - eapply owns_impl; [|apply owned_slow, slow_renew]. done.
  - eapply owns_impl; [|apply owned_slow, slow_maintenance]. done.
Qed.

Lemma logged_reachable q w log :
  reachable logged_api logged_outside (initial q, []) (w, log) → runs_inv ∅ (w, log).
Proof.
  apply (reachable_owned runs_inv logged_api logged_outside runs_inv_weaken logged_api_owned).
  - intros [w1 l1] [w2 l2] T [Ho Hl] HI. cbn in *. rewrite Hl. apply (runs_inv_counting T (w1, l1)); [done|].
    unfold outside in Ho. by rewrite Ho.
  - split; cbn; [done|by intros ??? ?%elem_of_empty|by intros ?? ?%not_elem_of_nil|constructor|by intros ??? ?%elem_of_empty].
Qed.
End logged.

(** ** The bound *)

Lemma distinct_in_range (l : list Z) m :
  NoDup l → (∀ n, n ∈ l → (1 ≤ n ≤ m)%Z) → (Z.of_nat (length l) ≤ Z.max 0 m)%Z.
Proof.
  intros Hnd Hl. assert (l ⊆+ seqZ 1 m) as Hsub%submseteq_length.
  { apply NoDup_submseteq; [done|]. intros n Hn%Hl. apply elem_of_seqZ. lia. }
  rewrite length_seqZ in Hsub. lia.
Qed.

(** C8: the handler of a task is started at most [maxAttempts] times, each time
    for another attempt, in every interleaving of any number of workers, with
    retries, takeovers of lapsed leases, cancellations and sweeps of the
    reconciler, and wherever workers crash. *)
Theorem attempts_bounded (cfg : EngineConfig) (q : TaskQueue) (w : World TaskQueue) (log : list (oid * Z))
    (Hr : reachable (logged_api cfg) logged_outside (initial q, []) (w, log)) :
  NoDup log ∧
  (∀ i n, (i, n) ∈ log → ∃ t, tasks (w_db w) !! i = Some t ∧ (1 ≤ n ≤ maxAttempts t)%Z ∧ (n ≤ attempt t)%Z) ∧
  (∀ i t, tasks (w_db w) !! i = Some t →
     (Z.of_nat (length (filter (λ r, r.1 = i) log)) ≤ Z.max 0 (maxAttempts t))%Z).
Proof.
  destruct (logged_reachable cfg q w log Hr) as [_ _ Hl Ho _]. cbn in *. split_and!; [done|done|].
  intros i t Ht. rewrite <- (length_fmap snd). apply distinct_in_range.
  - apply NoDup_fmap_2_strong; [|by apply NoDup_filter]. intros [j n] [j' n'] [Hj _]%list_elem_of_filter [Hj' _]%list_elem_of_filter.
    cbn in *. congruence.
  - intros n ([j n'] & -> & [Hj Hin]%list_elem_of_filter)%list_elem_of_fmap. cbn in *. subst j.
    destruct (Hl i n' Hin) as (u & Hu & Hn & _). assert (u = t) as -> by congruence. done.
Qed.

(** ** Witness *)

Import Demo.

(** The root of the diamond is run twice: the first handler never answers. *)
Definition lw_started : Logged := (run (on_world (_ ← startExecution cfg diamond params; Ret tt)) (initial empty_queue, [])).2.
Definition lw_failed : Logged := (run (logged_process cfg slow_handlers "worker-1" 15000 0) lw_started).2.
Definition lw_retried : Logged := (run (logged_process cfg noop_handlers "worker-2" 15000 0) lw_failed).2.

Lemma attempts_bounded_witness :
  lw_retried.2 = [(0, 1%Z); (0, 2%Z)] ∧ (∃ t, tasks (w_db lw_retried.1) !! 0 = Some t ∧ maxAttempts t = 3%Z) ∧
  ∀ t, tasks (w_db lw_retried.1) !! 0 = Some t →
    (Z.of_nat (length (filter (λ r : oid * Z, r.1 = 0%nat) lw_retried.2)) ≤ Z.max 0 (maxAttempts t))%Z.
Proof.
  split; [vm_compute; reflexivity|]. split; [eexists; split; vm_compute; reflexivity|].
  assert (reachable (logged_api cfg) logged_outside (initial empty_queue, []) lw_retried) as Hr.
  { unfold lw_retried. apply reachable_run; [constructor|]. unfold lw_failed. apply reachable_run; [constructor|].
    unfold lw_started. apply reachable_run; [do 2 constructor|apply reachable_refl]. }
  destruct lw_retried as [w log]. intros t. by apply (attempts_bounded cfg empty_queue w log Hr).
Defined.
