(* ===== verification/EventLog.v ===== *)
(** * The outbox tells what happened

    Every transaction that ends a task or a run appends exactly one event that
    says so: in every interleaving the rows of the outbox and the statuses of
    the documents agree.  The books are kept as balances: the rows that announce
    a fact less the truth of the fact, which no transaction changes. *)

From S2P Require Import Prelude Program States Dag Models Retry TaskRepo Frames Dispatcher Engine.
From S2P Require Import EngineTx EngineInv EngineSafety EngineProps TaskQueue Worker.

Local Open Scope string_scope.

(** ** Facts and the rows that announce them *)

(** A task or a run has reached a status for good, or a run exists. *)
Inductive fact : Type :=
| TaskIs (i : oid) (s : TASK_STATUS)
| RunIs (e : oid) (s : EXECUTION_STATUS)
| RunExists (e : oid).

(** The type of the event that announces it, if there is one.  The code emits
    none when a task is cancelled. *)
Definition task_event (s : TASK_STATUS) : option string :=
  match s with
  | T_COMPLETED => Some "task.completed"
  | T_FAILED => Some "task.failed"
  | T_DEAD_LETTER => Some "task.dead_lettered"
  | _ => None
  end.

Definition run_event (s : EXECUTION_STATUS) : option string :=
  match s with
  | E_COMPLETED => Some "execution.completed"
  | E_FAILED => Some "execution.failed"
  | E_CANCELLED => Some "execution.cancelled"
  | _ => None
  end.

Definition fact_event (f : fact) : option string :=
  match f with
  | TaskIs _ s => task_event s
  | RunIs _ s => run_event s
  | RunExists _ => Some "execution.started"
  end.

(** [event.payload.taskId]. *)
Definition payload_task (payload : json) : option string :=
  match payload with
  | JObj fields =>
      match filter (λ kv, kv.1 = "taskId") fields with
      | (_, JStr s) :: _ => Some s
      | _ => None
      end
  | _ => None
  end.

(** Whether the row is about the document of the fact. *)
Definition subject (f : fact) (ev : OutboxEvent) : bool :=
  match f with
  | TaskIs i _ => bool_decide (payload_task (ev_payload ev) = Some (oid_str i))
  | RunIs e _ | RunExists e => bool_decide (aggregateId ev = oid_str e)
  end.

Definition announces (f : fact) (ev : OutboxEvent) : bool :=
  bool_decide (fact_event f = Some (ev_type ev)) && subject f ev.

Definition rows (f : fact) (db : DB) : nat := length (filter (λ ev, announces f ev = true) (outbox db)).

Definition holds (f : fact) (db : DB) : bool :=
  match f with
  | TaskIs i s => bool_decide (t_status <$> tasks db !! i = Some s)
  | RunIs e s => bool_decide (x_status <$> executions db !! e = Some s)
  | RunExists e => bool_decide (is_Some (executions db !! e))
  end.

Definition balance (f : fact) (db : DB) : Z := (Z.of_nat (rows f db) - b2z (holds f db))%Z.

(** A step changes the balance of every fact that has an event by [δ]. *)
Definition shifts (db db' : DB) (δ : fact → Z) : Prop :=
  ∀ f, is_Some (fact_event f) → balance f db' = (balance f db + δ f)%Z.

Definition balanced (db db' : DB) : Prop := shifts db db' (λ _, 0%Z).

#[export] Instance balanced_preorder : PreOrder balanced.
Proof.
  split; [intros db f _; lia|]. intros db1 db2 db3 H1 H2 f Hf. rewrite (H2 f Hf), (H1 f Hf). lia.
Qed.

(** *** What a step contributes *)

(** A document moves from one status to another. *)
Definition task_moves (i : oid) (a b : TASK_STATUS) (f : fact) : Z :=
  match f with
  | TaskIs j s => if decide (j = i) then (b2z (bool_decide (a = s)) - b2z (bool_decide (b = s)))%Z else 0%Z
  | _ => 0%Z
  end.

Definition run_moves (e : oid) (a b : EXECUTION_STATUS) (f : fact) : Z :=
  match f with
  | RunIs e' s => if decide (e' = e) then (b2z (bool_decide (a = s)) - b2z (bool_decide (b = s)))%Z else 0%Z
  | _ => 0%Z
  end.

(** A row is appended. *)
Definition told (ty : string) (e : oid) (payload : json) (f : fact) : Z :=
  b2z (announces f (mkOutboxEvent 0 ty (oid_str e) payload 0 None)).

Lemma balance_holds f db db' d :
  outbox db' = outbox db → (b2z (holds f db) - b2z (holds f db'))%Z = d → balance f db' = (balance f db + d)%Z.
Proof. intros Ho <-. unfold balance, rows. rewrite Ho. lia. Qed.

Lemma shifts_same db db' :
  outbox db' = outbox db → executions db' = executions db → tasks db' = tasks db → balanced db db'.
Proof. intros Ho Hx Ht f _. apply balance_holds; [done|]. unfold holds. rewrite Hx, Ht. lia. Qed.

Lemma shifts_balanced db db' δ : shifts db db' δ → (∀ f, is_Some (fact_event f) → δ f = 0%Z) → balanced db db'.
Proof. intros Hs Hδ f Hf. by rewrite (Hs f Hf), (Hδ f Hf). Qed.

(** Updates of tasks that no fact sees. *)
Definition same_outcome (a b : TASK_STATUS) : Prop := a = b ∨ task_event a = None ∧ task_event b = None.

Lemma status_is (t : Task) s : bool_decide (t_status <$> Some t = Some s) = bool_decide (t_status t = s).
Proof. apply bool_decide_ext. change (Some (t_status t) = Some s ↔ t_status t = s). naive_solver. Qed.

Lemma run_status_is (x : WorkflowExecution) s : bool_decide (x_status <$> Some x = Some s) = bool_decide (x_status x = s).
Proof. apply bool_decide_ext. change (Some (x_status x) = Some s ↔ x_status x = s). naive_solver. Qed.

Lemma balanced_tasks db ts :
  (∀ i t, tasks db !! i = Some t → ∃ t', ts !! i = Some t' ∧ same_outcome (t_status t) (t_status t')) →
  (∀ i t', ts !! i = Some t' → tasks db !! i = None → task_event (t_status t') = None) →
  balanced db (db {{ tasks := ts }}).
Proof.
  intros Hold Hnew f [ty Hty]. apply balance_holds; [done|]. destruct f as [i s|e s|e]; [|apply Z.sub_diag..].
  cbn in Hty. cbn [holds]. change (tasks (db {{ tasks := ts }})) with ts.
  destruct (tasks db !! i) as [t|] eqn:Ht.
  - destruct (Hold i t Ht) as (t' & -> & [Heq|[H1 H2]]); rewrite !status_is; [rewrite Heq; lia|].
    rewrite !bool_decide_eq_false_2 by congruence. lia.
  - destruct (ts !! i) as [t'|] eqn:Ht'; [|apply Z.sub_diag]. rewrite status_is.
    assert (task_event (t_status t') = None) as Hn by by eapply Hnew. rewrite !bool_decide_eq_false_2 by (done || congruence). lia.
Qed.

(** One task moves. *)
Lemma shifts_task db i t t' :
  tasks db !! i = Some t →
  shifts db (db {{ tasks := <[i := t']> (tasks db) }}) (task_moves i (t_status t) (t_status t')).
Proof.
  intros Ht f _. apply balance_holds; [done|]. destruct f as [j s|e s|e]; [|apply Z.sub_diag..].
  cbn [holds task_moves]. change (tasks (db {{ tasks := <[i := t']> (tasks db) }})) with (<[i := t']> (tasks db)). destruct (decide (j = i)) as [->|Hj]; [|rewrite lookup_insert_ne by done; apply Z.sub_diag].
  by rewrite lookup_insert_eq, Ht, !status_is.
Qed.

Lemma shifts_execution db e x x' :
  executions db !! e = Some x →
  shifts db (db {{ executions := <[e := x']> (executions db) }}) (run_moves e (x_status x) (x_status x')).
Proof.
  intros Hx f _. apply balance_holds; [done|]. destruct f as [j s|e' s|e']; [apply Z.sub_diag|..];
    cbn [holds run_moves]; change (executions (db {{ executions := <[e := x']> (executions db) }})) with (<[e := x']> (executions db)).
  - destruct (decide (e' = e)) as [->|He]; [|rewrite lookup_insert_ne by done; apply Z.sub_diag].
    by rewrite lookup_insert_eq, Hx, !run_status_is.
  - rewrite (bool_decide_ext (is_Some (<[e:=x']> (executions db) !! e')) (is_Some (executions db !! e'))); [lia|].
    rewrite lookup_insert_is_Some'. naive_solver.
Qed.

(** A run is created. *)
Lemma shifts_new_execution db e x :
  executions db !! e = None → run_event (x_status x) = None →
  shifts db (db {{ executions := <[e := x]> (executions db) }})
    (λ f, match f with RunExists e' => if decide (e' = e) then (-1)%Z else 0%Z | _ => 0%Z end).
Proof.
  intros He Hx f [ty Hf]. apply balance_holds; [done|]. destruct f as [j s|e' s|e']; [apply Z.sub_diag|..];
    cbn in Hf; cbn [holds]; change (executions (db {{ executions := <[e := x]> (executions db) }})) with (<[e := x]> (executions db)).
  - destruct (decide (e' = e)) as [->|Hne]; [|rewrite lookup_insert_ne by done; apply Z.sub_diag].
    rewrite lookup_insert_eq, He, run_status_is, !bool_decide_eq_false_2; [done|congruence|done].
  - destruct (decide (e' = e)) as [->|Hee]; [|rewrite lookup_insert_ne by done; apply Z.sub_diag].
    by rewrite lookup_insert_eq, He.
Qed.

(** A row is written. *)
Lemma rows_snoc f db db' ev :
  outbox db' = (outbox db ++ [ev])%list → Z.of_nat (rows f db') = (Z.of_nat (rows f db) + b2z (announces f ev))%Z.
Proof. intros Ho. unfold rows. rewrite Ho, filter_app, length_app, filter_cons.
  destruct (announces f ev); [rewrite decide_True by done|rewrite decide_False by done]; cbn; lia.
Qed.

Lemma emit_shifts cfg r ty e payload db a db' :
  cfg_outbox cfg = true → emit cfg r ty e payload db = Ok (a, db') →
  executions db' = executions db ∧ tasks db' = tasks db ∧ shifts db db' (told ty e payload).
Proof.
  intros Hc. unfold emit. rewrite Hc. intros [= _ <-]. split_and!; [done..|]. intros f _. unfold balance.
  erewrite (rows_snoc f db) by done. unfold told, announces, subject. cbn [ev_type ev_payload aggregateId].
  match goal with |- context [holds f ?db'] => change (holds f db') with (holds f db) end. lia.
Qed.

(** *** Rows against moves *)

#[export] Instance oid_str_inj : Inj (=) (=) oid_str.
Proof. intros i j H. by apply (inj pretty) in H. Qed.

Lemma same_oid_str i j : bool_decide (oid_str i = oid_str j) = bool_decide (i = j).
Proof. apply bool_decide_ext. split; [apply (inj oid_str)|by intros ->]. Qed.

(** The row of an ended run settles the move. *)
Lemma run_settled a b ty e payload f :
  run_event a = None → run_event b = Some ty → is_Some (fact_event f) →
  (run_moves e a b f + told ty e payload f)%Z = 0%Z.
Proof.
  intros Ha Hb [ty' Hf]. unfold run_moves, told, announces, subject. cbn [ev_type ev_payload aggregateId]. rewrite Hf.
  destruct f as [j s|e' s|e']; cbn in Hf.
  - rewrite bool_decide_eq_false_2; [done|]. intros [= ->]. destruct s, b; simplify_eq/=.
  - rewrite same_oid_str. destruct (decide (e' = e)) as [->|Hne]; [|by rewrite (bool_decide_eq_false_2 (e = e')), andb_false_r by done].
    rewrite (bool_decide_eq_true_2 (e = e)), andb_true_r, (bool_decide_eq_false_2 (a = s)) by congruence.
    assert (bool_decide (b = s) = bool_decide (Some ty' = Some ty)) as ->; [|change (b2z false) with 0%Z; lia].
    apply bool_decide_ext. split; [congruence|]. intros [= ->]. destruct b, s; by simplify_eq/=.
  - rewrite bool_decide_eq_false_2; [done|]. intros [= ->]. destruct b; simplify_eq/=.
Qed.

(** The event that announces the status of a task. *)
Definition task_told (i : oid) (s : TASK_STATUS) (f : fact) : Z :=
  match f with TaskIs j s' => if decide (j = i) then b2z (bool_decide (s' = s)) else 0%Z | _ => 0%Z end.

Lemma task_row ty s e i rest f :
  task_event s = Some ty → is_Some (fact_event f) →
  told ty e (JObj (("taskId", JStr (oid_str i)) :: rest)) f = task_told i s f.
Proof.
  intros Hs [ty' Hf]. unfold told, task_told, announces, subject. cbn [ev_type ev_payload aggregateId]. rewrite Hf.
  destruct f as [j s'|e' s'|e']; cbn in Hf.
  - assert (payload_task (JObj (("taskId", JStr (oid_str i)) :: rest)) = Some (oid_str i)) as -> by done.
    rewrite (bool_decide_ext (Some (oid_str i) = Some (oid_str j)) (j = i)) by (split; [by intros [= ->%(inj oid_str)]|by intros ->]).
    destruct (decide (j = i)) as [->|Hne]; [|by rewrite (bool_decide_eq_false_2 (j = i)), andb_false_r by done].
    rewrite (bool_decide_eq_true_2 (i = i)), andb_true_r by done. f_equal. apply bool_decide_ext.
    split; [|congruence]. intros [= ->]. destruct s, s'; by simplify_eq/=.
  - rewrite bool_decide_eq_false_2; [done|]. intros [= ->]. destruct s', s; simplify_eq/=.
  - rewrite bool_decide_eq_false_2; [done|]. intros [= ->]. destruct s; simplify_eq/=.
Qed.

(** Events of other types announce nothing. *)
Lemma told_nothing ty e payload f :
  ty ∉ ["task.completed"; "task.failed"; "task.dead_lettered"; "execution.completed"; "execution.failed";
        "execution.cancelled"; "execution.started"] → told ty e payload f = 0%Z.
Proof.
  intros Hty. unfold told, announces. cbn [ev_type]. rewrite bool_decide_eq_false_2; [done|]. intros Hf. apply Hty.
  destruct f as [j s|e' s|e']; cbn in Hf; [destruct s|destruct s|]; first [discriminate Hf|injection Hf as <-; set_solver].
Qed.

(** ** Transactions that settle everything at once *)

(** The runs stay as they are. *)
Record still (db db' : DB) : Prop := {
  st_executions : executions db' = executions db;
  st_balanced : balanced db db'
}.

#[export] Instance still_preorder : PreOrder still.
Proof.
  split; [by split|]. intros db1 db2 db3 [] []. split; [congruence|by etrans].
Qed.

Lemma transition_shifts i a b set where_ db won db' :
  transitionTask i a b set where_ db = Ok (won, db') →
  executions db' = executions db ∧
  (if won : bool then ∃ t, tasks db !! i = Some t ∧ t_status t = a ∧ tasks db' = <[i := (set t) {{ t_status := b }}]> (tasks db)
   else db' = db) ∧
  shifts db db' (λ f, if won then task_moves i a b f else 0%Z).
Proof.
  intros [_ [(-> & t & Ht & _ & Hst & ->)|(-> & -> & _)]]%transitionTask_ok; split_and!; try done; [by eexists| |].
  - pose proof (shifts_task db i t ((set t) {{ t_status := b }}) Ht) as Hs. by rewrite Hst in Hs.
  - intros f _. lia.
Qed.

Lemma unseen_moves i a b f : task_event a = None → task_event b = None → is_Some (fact_event f) → task_moves i a b f = 0%Z.
Proof.
  intros Ha Hb [ty Hf]. destruct f as [j s|e s|e]; [|done..]. cbn in Hf |- *. destruct (decide (j = i)); [|done].
  by rewrite !bool_decide_eq_false_2 by congruence.
Qed.

Lemma still_transition i a b set where_ :
  task_event a = None → task_event b = None → relates still (transitionTask i a b set where_).
Proof.
  intros Ha Hb db won db' (Hx & _ & Hs)%transition_shifts. split; [done|].
  apply (shifts_balanced _ _ _ Hs). intros f Hf. destruct won; [by apply unseen_moves|done].
Qed.

Lemma lift_same {S A} (x : res A) (s : S) a s' : tx_lift x s = Ok (a, s') → s' = s.
Proof. unfold tx_lift. destruct x; [|done]. by intros [= _ ->]. Qed.

Lemma still_updateMany p u :
  (∀ t, p t = true → same_outcome (t_status t) (t_status (u t))) → relates still (Task_updateMany p u).
Proof.
  intros Hu db n db'. rewrite Task_updateMany_eq. intros [_ <-]%ok_pair. split; [done|]. apply balanced_tasks.
  - intros i t Ht. rewrite lookup_fmap, Ht. eexists. split; [done|]. destruct (p t) eqn:Hp; [by apply Hu|by left].
  - intros i t'. rewrite lookup_fmap. intros (t & Ht & _)%fmap_Some Hn. congruence.
Qed.

Lemma still_emit cfg r ty e payload :
  cfg_outbox cfg = true → 
  ty ∉ ["task.completed"; "task.failed"; "task.dead_lettered"; "execution.completed"; "execution.failed";
        "execution.cancelled"; "execution.started"] → relates still (emit cfg r ty e payload).
Proof.
  intros Hc Hty db a db' He. destruct (emit_shifts _ _ _ _ _ _ _ _ Hc He) as (Hx & _ & Hs). split; [done|].
  apply (shifts_balanced _ _ _ Hs). intros f _. by apply told_nothing.
Qed.

(** An update of a run that keeps its status, and one that ends it with its event. *)
Lemma balanced_execution db e x x' :
  executions db !! e = Some x → x_status x' = x_status x →
  balanced db (db {{ executions := <[e := x']> (executions db) }}).
Proof.
  intros Hx Hs. apply (shifts_balanced _ _ _ (shifts_execution db e x x' Hx)). intros f _.
  unfold run_moves. rewrite Hs. destruct f as [|e' s|]; [done| |done]. destruct (decide (e' = e)); lia.
Qed.

Lemma ends_run cfg r e x s s' u ty payload db a db' :
  cfg_outbox cfg = true → executions db !! e = Some x → x_status x = s → x_status (u x) = s' →
  run_event s = None → run_event s' = Some ty →
  (_ ← Execution_updateOne e (is_execution s) u; emit cfg r ty e payload) db = Ok (a, db') →
  balanced db db'.
Proof.
  intros Hc Hx Hst Hu Hs Hs' Htx.
  rewrite (tx_bind_step _ _ _ _ _ (Execution_updateOne_hit e _ u db x Hx (bool_decide_eq_true_2 _ Hst))) in Htx.
  destruct (emit_shifts _ _ _ _ _ _ _ _ Hc Htx) as (_ & _ & Hemit). intros f Hf.
  rewrite (Hemit f Hf), (shifts_execution db e x (u x) Hx f Hf), Hu, Hst, <- (run_settled _ _ _ e payload f Hs Hs' Hf). lia.
Qed.

Lemma Execution_findOneAndUpdate_ok e p u db o db' :
  Execution_findOneAndUpdate e p u db = Ok (o, db') →
  (∃ x, executions db !! e = Some x ∧ p x = true ∧ o = Some (u x) ∧
     db' = db {{ executions := <[e := u x]> (executions db) }}) ∨ o = None ∧ db' = db.
Proof.
  unfold Execution_findOneAndUpdate. rewrite tx_state_ok.
  destruct (findOneAndUpdate_cases e p u (executions db)) as [(x & Hx & Hp & ->)|[_ ->]]; intros [= <- <-]; [left|right]; eauto.
Qed.

(** The statuses that mass updates start from announce nothing. *)
Lemma promotable_unseen t : promotable t = true → task_event (t_status t) = None.
Proof. intros [Hp%bool_decide_eq_true _]%andb_true_iff. by rewrite Hp. Qed.
Lemma unstarted_unseen s : status_in unstarted s = true → task_event s = None.
Proof. by destruct s. Qed.
Lemma cancellable_unseen s : status_in cancellable s = true → task_event s = None.
Proof. by destruct s. Qed.

Ltac unseen_update :=
  let Hp := fresh in intros ? Hp; rewrite ?andb_true_iff in Hp; destruct_and?;
  first [by left|right; split; [eauto using promotable_unseen, unstarted_unseen, cancellable_unseen|done]].

Ltac still_elsewhere := idtac; intros ?; split; [by repeat case_match|apply shifts_same; by repeat case_match].

Ltac still_step :=
  idtac; match goal with
  | |- relates still (transitionTask _ _ _ _ _) => apply still_transition; reflexivity
  | |- relates still (Task_updateMany _ _) => apply still_updateMany; unseen_update
  | |- relates still (emit _ _ _ _ _) => apply still_emit; [assumption|apply (bool_decide_unpack _); reflexivity]
  | _ => rel_step still_elsewhere
  end.

(** [H] is a success of a part that settles everything. *)
Ltac still_by H name :=
  match type of H with
  | ?m ?db = Ok (?a, ?db') => assert (still db db') as name by (refine ((_ : relates still m) db a db' H); unfold Task_findById, Attempt_updateOne; repeat still_step)
  end.

Section transactions.
Context (cfg : EngineConfig) (Hout : cfg_outbox cfg = true).

(** What follows a success: the event of the task, and the run with its event. *)
Lemma success_shifts r i t at_ db a db' :
  afterTaskSucceeded cfg r i t at_ db = Ok (a, db') → shifts db db' (task_told i T_COMPLETED).
Proof.
  unfold afterTaskSucceeded. set (e := t_executionId t).
  intros (o & db1 & H1 & (x & db1' & Hx & H2)%tx_bind_ok)%tx_bind_ok.
  apply Execution_findOneAndUpdate_ok in H1 as [(x0 & Hx0 & _ & -> & ->)|[-> ->]]; [|discriminate Hx].
  apply ok_pair in Hx as [<- <-]. set (db1 := db {{ executions := _ }}) in H2.
  assert (balanced db db1) as Hb1 by (by apply (balanced_execution db e x0)).
  apply tx_bind_ok in H2 as ([] & db2 & H2 & ([] & db3 & H3 & H4)%tx_bind_ok).
  still_by H2 Hn. destruct Hn as [Hx2 Hb2].
  assert (executions db2 !! e = Some (dec_pending 1 x0)) as He by (rewrite Hx2; apply lookup_insert_eq).
  assert (balanced db2 db3) as Hb3.
  { destruct (is_execution E_RUNNING (dec_pending 1 x0) && _) eqn:Hd; [|by apply ok_pair in H3 as [_ ->]].
    apply andb_true_iff in Hd as [Hd%bool_decide_eq_true _]. apply tx_bind_ok in H3 as ([] & db2' & Hl & H3).
    apply ok_pair in Hl as [_ <-]. by eapply (ends_run cfg r e _ E_RUNNING E_COMPLETED); [..|exact H3]. }
  destruct (emit_shifts _ _ _ _ _ _ _ _ Hout H4) as (_ & _ & Hemit). intros f Hf.
  rewrite (Hemit f Hf), (Hb3 f Hf), (Hb2 f Hf), (Hb1 f Hf).
  rewrite (task_row _ T_COMPLETED) by done. lia.
Qed.

(** What follows a failure: the event of the task, and the run that fails. *)
Lemma failure_shifts r i t outcome message b at_ db a db' :
  outcome = T_FAILED ∨ outcome = T_DEAD_LETTER →
  afterTaskFailedForGood cfg r i t outcome message b at_ db = Ok (a, db') → shifts db db' (task_told i outcome).
Proof.
  intros Hoc. unfold afterTaskFailedForGood. set (e := t_executionId t).
  intros (o & db1 & H1 & (x & db1' & Hx & H2)%tx_bind_ok)%tx_bind_ok.
  apply Execution_findOneAndUpdate_ok in H1 as [(x0 & Hx0 & _ & -> & ->)|[-> ->]]; [|discriminate Hx].
  apply ok_pair in Hx as [<- <-]. set (db1 := db {{ executions := _ }}) in H2.
  assert (balanced db db1) as Hb1 by (by apply (balanced_execution db e x0)).
  apply tx_bind_ok in H2 as ([] & db3 & H3 & H4).
  assert (balanced db1 db3) as Hb3.
  { destruct (live (x_status (dec_pending 1 x0))) eqn:Hd; [|by apply ok_pair in H3 as [_ ->]].
    apply tx_bind_ok in H3 as (n & db2 & Hc & ([] & db2' & Hl & H3)%tx_bind_ok).
    still_by Hc Hn. destruct Hn as [Hx2 Hb2].
    apply lift_same in Hl as ->.
    etrans; [exact Hb2|]. eapply (ends_run cfg r e (dec_pending 1 x0) _ E_FAILED); [..|exact H3]; try done.
    - rewrite Hx2. apply lookup_insert_eq.
    - by destruct (x_status (dec_pending 1 x0)). }
  destruct (emit_shifts _ _ _ _ _ _ _ _ Hout H4) as (_ & _ & Hemit). intros f Hf.
  rewrite (Hemit f Hf), (Hb3 f Hf), (Hb1 f Hf).
  rewrite (task_row _ outcome); [lia| |done]. by destruct Hoc as [-> | ->].
Qed.

(** A move to an outcome and the event of the outcome. *)
Lemma task_settled i a b f :
  task_event a = None → is_Some (task_event b) → is_Some (fact_event f) → (task_moves i a b f + task_told i b f)%Z = 0%Z.
Proof.
  intros Ha [ty Hb] [ty' Hf]. destruct f as [j s|e s|e]; [|done..]. cbn in Hf |- *. destruct (decide (j = i)); [|done].
  rewrite (bool_decide_eq_false_2 (a = s)) by congruence. change (b2z false) with 0%Z.
  rewrite (bool_decide_ext (s = b) (b = s)) by done. lia.
Qed.

Lemma balanced_complete i token out r : relates balanced (complete_tx cfg i token out r).
Proof.
  intros db a db'. unfold complete_tx. intros (won & db1 & H1 & H2)%tx_bind_ok.
  apply transition_shifts in H1 as (_ & Hw & Hs). destruct won; [|apply ok_pair in H2 as [_ <-]; subst; reflexivity].
  cbn [negb] in H2. apply tx_bind_ok in H2 as (t & db2 & H2 & (u & db3 & H3 & (u' & db4 & H4 & H5)%tx_bind_ok)%tx_bind_ok).
  still_by H2 Hb2. still_by H3 Hb3. apply ok_pair in H5 as [_ <-]. apply success_shifts in H4. intros f Hf.
  rewrite (H4 f Hf), (st_balanced _ _ Hb3 f Hf), (st_balanced _ _ Hb2 f Hf), (Hs f Hf).
  pose proof (task_settled i T_RUNNING T_COMPLETED f eq_refl ltac:(by eexists) Hf). lia.
Qed.

Lemma balanced_fail i token err r : relates balanced (fail_tx cfg i token err r).
Proof.
  intros db a db'. unfold fail_tx. intros (db0 & db1 & [<- <-]%ok_pair & H)%tx_bind_ok. cbn beta in H.
  destruct (findOne _ _ _) as [t|]; [|by apply ok_pair in H as [_ <-]].
  apply tx_bind_ok in H as (u & db1 & H1 & (d & d1 & [<- <-]%ok_pair & (x & db2 & ->%lift_same & H)%tx_bind_ok)%tx_bind_ok).
  still_by H1 Hb1. etrans; [exact (st_balanced _ _ Hb1)|]. clear Hb1 H1. cbn zeta in H.
  destruct (isRetryable err && _ && _).
  { still_by H Hb. exact (st_balanced _ _ Hb). }
  apply tx_bind_ok in H as (won & db2 & H2 & H). apply transition_shifts in H2 as (_ & Hw & Hs).
  destruct won; [|apply ok_pair in H as [_ <-]; by subst]. cbn [negb] in H. destruct Hw as (t1 & Ht1 & _ & Hts).
  match type of H with context [if ?c then T_DEAD_LETTER else T_FAILED] => set (outcome := if c then T_DEAD_LETTER else T_FAILED) in H end.
  assert (outcome = T_FAILED ∨ outcome = T_DEAD_LETTER) as Hoc by (unfold outcome; destruct (isRetryable err && _); auto).
  apply tx_bind_ok in H as ([] & db3 & H3 & (v & db4 & H4 & [_ <-]%ok_pair)%tx_bind_ok).
  assert (shifts db2 db3 (task_moves i T_FAILED outcome)) as Hs3.
  { case_bool_decide as Ho.
    - rewrite Ho. apply tx_bind_ok in H3 as (won & db3' & H3 & [_ <-]%ok_pair).
      assert (tasks db2 !! i = Some (((release_lease t1) {{ t_error := Some (error_message err); t_completedAt := Some (now r) }}) {{ t_status := T_FAILED }})) as Ht2
        by (rewrite Hts; apply lookup_insert_eq).
      rewrite transitionTask_spec, Ht2 in H3 by done. cbn in H3. apply ok_pair in H3 as [_ <-].
      exact (shifts_task db2 i _ _ Ht2).
    - destruct Hoc as [-> | ?]; [|done]. apply ok_pair in H3 as [_ <-]. intros f _. unfold task_moves.
      destruct f as [j s|e s|e]; [|lia..]. destruct (decide (j = i)); lia. }
  apply failure_shifts in H4; [|done]. intros f Hf. rewrite (H4 f Hf), (Hs3 f Hf), (Hs f Hf).
  assert (task_moves i T_RUNNING T_FAILED f + task_moves i T_FAILED outcome f = task_moves i T_RUNNING outcome f)%Z as Hsum.
  { unfold task_moves. destruct f as [j s|e s|e]; [|done..]. destruct (decide (j = i)); lia. }
  assert (is_Some (task_event outcome)) as Hev by (destruct Hoc as [-> | ->]; by eexists).
  pose proof (task_settled i T_RUNNING outcome f eq_refl Hev Hf). lia.
Qed.

Lemma balanced_resolve a d scope r : relates balanced (resolve_tx cfg a d scope r).
Proof.
  intros db o db'. unfold resolve_tx. intros (found & db1 & H1 & H)%tx_bind_ok.
  still_by H1 Hb1. etrans; [exact (st_balanced _ _ Hb1)|]. clear Hb1 H1.
  destruct found as [p|]; [|by apply ok_pair in H as [_ <-]].
  apply tx_bind_ok in H as (won & db2 & H2 & H). apply transition_shifts in H2 as (_ & Hw & Hs).
  destruct won; [|discriminate H]. cbn [negb] in H.
  apply tx_bind_ok in H as (t & db3 & H3 & (u & db4 & H4 & (v & db5 & H5 & [_ <-]%ok_pair)%tx_bind_ok)%tx_bind_ok).
  still_by H3 Hb3. assert (still db4 db5) as Hb5.
  { refine ((_ : relates still (emit _ _ (decision_event (d_decision d)) _ _)) db4 v db5 H5). destruct (d_decision d); still_step. }
  set (s := if is_approved (d_decision d) then T_COMPLETED else T_FAILED) in *.
  assert (shifts db3 db4 (task_told (p_taskId p) s)) as Hs4.
  { unfold s. destruct (is_approved (d_decision d)); [by apply success_shifts in H4|apply failure_shifts in H4; auto]. }
  assert (is_Some (task_event s)) as Hev by (unfold s; case_match; by eexists). intros f Hf.
  rewrite (st_balanced _ _ Hb5 f Hf), (Hs4 f Hf), (st_balanced _ _ Hb3 f Hf), (Hs f Hf).
  pose proof (task_settled (p_taskId p) T_WAITING_FOR_APPROVAL s f eq_refl Hev Hf). lia.
Qed.

Lemma balanced_resume e r : relates balanced (resume_tx cfg e r).
Proof.
  intros db a db'. unfold resume_tx. intros (u & db0 & ->%lift_same & (o & db1 & H1 & H)%tx_bind_ok)%tx_bind_ok.
  apply Execution_findOneAndUpdate_ok in H1 as [(x & Hx & Hp%bool_decide_eq_true & -> & ->)|[-> ->]]; [|by apply ok_pair in H as [_ <-]].
  set (db1 := db {{ executions := _ }}) in H.
  assert (balanced db db1) as Hb1.
  { apply (shifts_balanced _ _ _ (shifts_execution db e x (set_execution E_RUNNING x) Hx)). rewrite Hp. intros [j s|e' s|e'] [ty Hf]; cbn; [done| |done].
    destruct (decide (e' = e)); [|done]. by destruct s. }
  apply tx_bind_ok in H as (v & db2 & H2 & (n & db3 & H3 & (w & db4 & H4 & [_ <-]%ok_pair)%tx_bind_ok)%tx_bind_ok).
  still_by H2 Hb2. still_by H3 Hb3. etrans; [exact Hb1|]. etrans; [exact (st_balanced _ _ Hb2)|]. etrans; [exact (st_balanced _ _ Hb3)|].
  case_bool_decide; [|by apply ok_pair in H4 as [_ <-]].
  eapply (ends_run cfg r e (set_execution E_RUNNING x) _ E_COMPLETED); [..|exact H4]; try done.
  rewrite (st_executions _ _ Hb3), (st_executions _ _ Hb2). apply lookup_insert_eq.
Qed.

Lemma balanced_cancel e r : relates balanced (cancel_tx cfg e r).
Proof.
  intros db a db'. unfold cancel_tx. intros (d & d' & [<- <-]%ok_pair & H)%tx_bind_ok.
  destruct (findOne _ _ _) as [x|] eqn:Hx; [|by apply ok_pair in H as [_ <-]]. apply findOne_Some in Hx as [Hx Hl].
  apply tx_bind_ok in H as (u & db0 & ->%lift_same & (n & db1 & H1 & (k & db2 & H2 & H)%tx_bind_ok)%tx_bind_ok).
  still_by H1 Hb1. etrans; [exact (st_balanced _ _ Hb1)|].
  assert (executions db1 !! e = Some x) as Hx1 by (by rewrite (st_executions _ _ Hb1)).
  rewrite (Execution_updateOne_hit e _ _ db1 x Hx1 (bool_decide_eq_true_2 _ eq_refl)) in H2. apply ok_pair in H2 as [_ <-].
  set (x' := (dec_pending n _) {{ x_error := _ }}) in H. set (db2 := db1 {{ executions := _ }}) in H.
  pose proof (shifts_execution db1 e x x' Hx1) as Hmove. fold db2 in Hmove.
  apply tx_bind_ok in H as (v & db3 & H3 & (w & db4 & H4 & [_ <-]%ok_pair)%tx_bind_ok). still_by H3 Hb3.
  destruct (emit_shifts _ _ _ _ _ _ _ _ Hout H4) as (_ & _ & Hemit). intros f Hf.
  rewrite (Hemit f Hf), (st_balanced _ _ Hb3 f Hf), (Hmove f Hf).
  assert (run_event (x_status x) = None) as Hn by (by destruct (x_status x)).
  pose proof (run_settled (x_status x) E_CANCELLED _ e (JObj [("cancelledTasks", JNum n)]) f Hn eq_refl Hf) as Hset.
  change (x_status x') with E_CANCELLED. lia.
Qed.

Lemma balanced_start w p children r : relates balanced (start_tx cfg w p children r).
Proof.
  intros db a db'. unfold start_tx. intros (d & d' & [<- <-]%ok_pair & H)%tx_bind_ok.
  destruct (idempotency_clash p db); [done|]. apply tx_bind_ok in H as (e & db1 & [<- <-]%ok_pair & H).
  destruct (negb _); [done|]. set (e := fresh _) in H. set (db1 := db {{ executions := _ }}) in H.
  apply tx_bind_ok in H as ([] & db2 & [_ <-]%ok_pair & ([] & db3 & H3 & [_ <-]%ok_pair)%tx_bind_ok).
  destruct (emit_shifts _ _ _ _ _ _ _ _ Hout H3) as (_ & _ & Hemit).
  assert (executions db !! e = None) as He by (apply not_elem_of_dom, is_fresh).
  pose proof (shifts_new_execution db e (new_execution w p (now r)) He eq_refl) as Hnew. fold db1 in Hnew.
  assert (balanced db1 (db1 {{ tasks := insert_all (task_of_definition e (wf_ownerId w) (now r) children <$> wf_tasks w) (tasks db1) }})) as Hb2.
  { apply balanced_tasks.
    - intros i t Ht. exists t. split; [|by left]. apply EngineStart.insert_all_Some. by right.
    - intros i t [Hi|Hi]%EngineStart.insert_all_Some Hn; [|congruence].
      apply EngineStart.new_map_elem in Hi. apply list_elem_of_fmap in Hi as (d & -> & _). unfold task_of_definition. cbn. by case_bool_decide. }
  intros f Hf. rewrite (Hemit f Hf), (Hb2 f Hf), (Hnew f Hf). unfold told, announces, subject. cbn [ev_type ev_payload aggregateId].
  destruct f as [j s|e' s|e']; cbn [fact_event] in *.
  - rewrite bool_decide_eq_false_2; [change (b2z (false && _)) with 0%Z; lia|]. by destruct s.
  - rewrite bool_decide_eq_false_2; [change (b2z (false && _)) with 0%Z; lia|]. by destruct s.
  - rewrite same_oid_str, (bool_decide_eq_true_2 (Some _ = Some _)) by done. destruct (decide (e' = e)) as [->|Hne].
    + rewrite (bool_decide_eq_true_2 (e = e)) by done. cbn. lia.
    + rewrite (bool_decide_eq_false_2 (e = e')) by done. cbn. lia.
Qed.
End transactions.

(** ** One attempt succeeds *)

(** The task is COMPLETED, by this attempt. *)
Definition winner (db : DB) (i : oid) (n : Z) : Prop :=
  ∃ t, tasks db !! i = Some t ∧ t_status t = T_COMPLETED ∧ attempt t = n.

(** Winners stay, and attempts only become SUCCEEDED when they win. *)
Record winners (db db' : DB) : Prop := {
  wn_kept i n : winner db i n → winner db' i n;
  wn_new k a : attempts db' !! k = Some a → a_status a = A_SUCCEEDED →
    (∃ a0, attempts db !! k = Some a0 ∧ a_status a0 = A_SUCCEEDED) ∨ winner db' k.1 k.2
}.

#[export] Instance winners_preorder : PreOrder winners.
Proof.
  split; [split; eauto|]. intros db1 db2 db3 [K1 N1] [K2 N2]. split; [auto|].
  intros k a Ha Hs. destruct (N2 k a Ha Hs) as [(a0 & Ha0 & Hs0)|]; [|by right].
  destruct (N1 k a0 Ha0 Hs0) as [|]; auto.
Qed.

Lemma winners_same db db' : tasks db' = tasks db → attempts db' = attempts db → winners db db'.
Proof. intros Ht Ha. split; unfold winner; rewrite ?Ht, ?Ha; eauto. Qed.

(** Updates that leave completed tasks alone. *)
Lemma winners_tasks db ts :
  (∀ i t, tasks db !! i = Some t → t_status t = T_COMPLETED →
    ∃ t', ts !! i = Some t' ∧ t_status t' = T_COMPLETED ∧ attempt t' = attempt t) →
  winners db (db {{ tasks := ts }}).
Proof.
  intros Hk. split; [|by eauto]. intros i n (t & Ht & Hs & <-). destruct (Hk i t Ht Hs) as (t' & ? & ? & ?). by exists t'.
Qed.

Lemma winners_one db i t t' :
  tasks db !! i = Some t → t_status t ≠ T_COMPLETED → winners db (db {{ tasks := <[i := t']> (tasks db) }}).
Proof.
  intros Ht Hne. apply winners_tasks. intros j u Hu Hs. exists u. split; [|done].
  rewrite lookup_insert_ne; [done|]. intros ->. congruence.
Qed.

(** Updates of attempts that make none succeed. *)
Lemma winners_attempts db ats :
  (∀ k a, ats !! k = Some a → a_status a = A_SUCCEEDED → ∃ a0, attempts db !! k = Some a0 ∧ a_status a0 = A_SUCCEEDED) →
  winners db (db {{ attempts := ats }}).
Proof. intros Hn. split; [done|]. intros k a Ha Hs. left. by apply (Hn k a). Qed.

(** The attempt of a completed task may succeed. *)
Lemma winners_success db i n u :
  winner db i n → winners db (db {{ attempts := (updateOne (i, n) (λ _, true) u (attempts db)).2 }}).
Proof.
  intros Hw. split; [done|]. intros k a Ha Hs.
  change ((updateOne (i, n) (λ _, true) u (attempts db)).2 !! k = Some a) in Ha. unfold updateOne in Ha.
  destruct (attempts db !! (i, n)) as [a0|]; [|by eauto]. cbn [snd] in Ha.
  apply lookup_insert_Some in Ha as [[<- _]|[_ Ha]]; [by right|by eauto].
Qed.

Notation wins := (relates winners).

Lemma wins_transition i a b set where_ : wins (transitionTask i a b set where_).
Proof.
  intros db won db' [Hab [(_ & t & Ht & _ & Hst & ->)|(_ & -> & _)]]%transitionTask_ok; [|reflexivity].
  eapply winners_one; [done|]. rewrite Hst. intros ->. by destruct b.
Qed.

Lemma wins_updateMany p u :
  (∀ t, p t = true → t_status t = T_COMPLETED → t_status (u t) = T_COMPLETED ∧ attempt (u t) = attempt t) →
  wins (Task_updateMany p u).
Proof.
  intros Hu db n db'. rewrite Task_updateMany_eq. intros [_ <-]%ok_pair. apply winners_tasks. intros i t Ht Hs.
  rewrite lookup_fmap, Ht. eexists. split; [done|]. destruct (p t) eqn:Hp; [by apply Hu|done].
Qed.

Lemma wins_attempt i n u : (∀ a, a_status (u a) ≠ A_SUCCEEDED) → wins (Attempt_updateOne i n u).
Proof.
  intros Hu db x db' [_ <-]%ok_pair. unfold updateOne. apply winners_attempts. intros k a.
  destruct (attempts db !! (i, n)) as [a0|]; [|eauto]. cbn [snd].
  intros [[_ <-]|[_ Ha]]%lookup_insert_Some Hs; [by destruct (Hu a0)|eauto].
Qed.

Lemma wins_abandon i n r : wins (abandon_attempts i n r).
Proof.
  intros db x db' [_ <-]%ok_pair. apply winners_attempts. intros k a. unfold updateMany. cbn [snd].
  rewrite lookup_fmap. intros (a0 & -> & ->)%fmap_Some Hs. exists a0. split; [done|]. by destruct (_ && _).
Qed.

Lemma wins_claim i wk leaseMs r : wins (claimTask i wk leaseMs r).
Proof.
  intros db o db'. rewrite claimTask_spec. destruct (tasks db !! i) as [t|] eqn:Ht; [|intros [_ <-]%ok_pair; reflexivity].
  destruct (claimable _ t) eqn:Hc; [|intros [_ <-]%ok_pair; reflexivity]. intros [_ <-]%ok_pair.
  eapply winners_one; [done|]. intros Hs. unfold claimable in Hc. by rewrite Hs in Hc.
Qed.

Lemma wins_renew i token leaseMs r : wins (renewTaskLease i token leaseMs r).
Proof.
  intros db o db'. rewrite renewTaskLease_spec. destruct (tasks db !! i) as [t|] eqn:Ht; [|intros [_ <-]%ok_pair; reflexivity].
  destruct (bool_decide_reflect (t_status t = T_RUNNING)) as [Hs|]; [|intros [_ <-]%ok_pair; reflexivity].
  destruct (bool_decide _); intros [_ <-]%ok_pair; [|reflexivity]. eapply winners_one; [done|]. by rewrite Hs.
Qed.

Lemma wins_create_attempt i t wk r : wins (create_attempt i t wk r).
Proof.
  intros db x db'. unfold create_attempt. intros (d & d' & [<- <-]%ok_pair & H)%tx_bind_ok.
  destruct (attempts db !! _) eqn:Hn; [done|]. apply ok_pair in H as [_ <-]. apply winners_attempts.
  intros k a [[_ <-]|[_ Ha]]%lookup_insert_Some Hs; [done|eauto].
Qed.

(** *** Transactions *)

Lemma unstarted_open s : status_in unstarted s = true → s ≠ T_COMPLETED.
Proof. by destruct s. Qed.
Lemma cancellable_open s : status_in cancellable s = true → s ≠ T_COMPLETED.
Proof. by destruct s. Qed.
Lemma promotable_open t : promotable t = true → t_status t ≠ T_COMPLETED.
Proof. by intros [->%bool_decide_eq_true _]%andb_true_iff. Qed.

Ltac open_update :=
  let Hp := fresh in let Hs := fresh in
  intros ? Hp Hs; rewrite ?andb_true_iff in Hp; destruct_and?;
  first [by split|exfalso; by eapply unstarted_open|exfalso; by eapply cancellable_open|exfalso; by eapply promotable_open].

Ltac wins_elsewhere := idtac; intros ?; apply winners_same; by repeat case_match.

Ltac wins_step :=
  idtac; match goal with
  | |- wins (transitionTask _ _ _ _ _) => apply wins_transition
  | |- wins (Task_updateMany _ _) => apply wins_updateMany; open_update
  | |- wins (Attempt_updateOne _ _ _) => apply wins_attempt; intros ?; cbn; by repeat case_match
  | _ => rel_step wins_elsewhere
  end.

Section outcomes.
Context (cfg : EngineConfig) (Hout : cfg_outbox cfg = true).

Ltac wins_tx := unfold Task_findById, Execution_findOneAndUpdate, Execution_updateOne, create_approval, emit; repeat wins_step.

Lemma wins_emit r ty e payload : wins (emit cfg r ty e payload).
Proof. wins_tx. Qed.
Hint Resolve wins_emit : frames.
Lemma wins_after_success r i t at_ : wins (afterTaskSucceeded cfg r i t at_).
Proof. unfold afterTaskSucceeded. wins_tx. Qed.
Lemma wins_after_failure r i t o m b at_ : wins (afterTaskFailedForGood cfg r i t o m b at_).
Proof. unfold afterTaskFailedForGood. wins_tx. Qed.
Hint Resolve wins_after_success wins_after_failure : frames.
Lemma wins_fail i token err r : wins (fail_tx cfg i token err r).
Proof. unfold fail_tx. wins_tx. Qed.
Lemma wins_suspend i token ask r : wins (suspend_tx cfg i token ask r).
Proof. unfold suspend_tx. wins_tx. Qed.
Lemma wins_resolve a d scope r : wins (resolve_tx cfg a d scope r).
Proof. unfold resolve_tx. wins_tx. Qed.
Lemma wins_pause e r : wins (pause_tx cfg e r).
Proof. unfold pause_tx. wins_tx. Qed.
Lemma wins_resume e r : wins (resume_tx cfg e r).
Proof. unfold resume_tx. wins_tx. Qed.
Lemma wins_cancel e r : wins (cancel_tx cfg e r).
Proof. unfold cancel_tx. wins_tx. Qed.

Lemma wins_start w p children r : wins (start_tx cfg w p children r).
Proof.
  unfold start_tx, emit. repeat match goal with
  | |- wins (tx_modify (λ db, db {{ tasks := _ }})) => apply (rel_modify winners); intros; apply winners_tasks
  | _ => wins_step
  end. intros i t Ht Hs. exists t. split; [|done]. apply EngineStart.insert_all_Some. by right.
Qed.

(** The one that makes an attempt succeed. *)
Lemma wins_complete i token out r : wins (complete_tx cfg i token out r).
Proof.
  intros db a db'. unfold complete_tx. intros (won & db1 & H1 & H2)%tx_bind_ok.
  pose proof (wins_transition _ _ _ _ _ _ _ _ H1) as Hw1. etrans; [exact Hw1|]. clear Hw1.
  apply transition_shifts in H1 as (_ & Hw & _). destruct won; [|by apply ok_pair in H2 as [_ <-]].
  cbn [negb] in H2. destruct Hw as (t0 & _ & _ & Hts).
  apply tx_bind_ok in H2 as (t & db2 & H2 & (u & db3 & [_ <-]%ok_pair & (u' & db4 & H4 & [_ <-]%ok_pair)%tx_bind_ok)%tx_bind_ok).
  erewrite Task_findById_eq in H2 by (rewrite Hts; apply lookup_insert_eq). apply ok_pair in H2 as [<- <-].
  etrans; [|exact (wins_after_success _ _ _ _ _ _ _ H4)]. apply winners_success.
  eexists. split; [rewrite Hts; apply lookup_insert_eq|]. done.
Qed.

(** Each transaction keeps the books and the winners. *)
Definition settled (db db' : DB) : Prop := balanced db db' ∧ winners db db'.

#[export] Instance settled_preorder : PreOrder settled.
Proof. split; [by split|]. intros db1 db2 db3 [] []. split; by etrans. Qed.

Lemma settled_by {A} (m : tx DB A) : relates balanced m → relates winners m → relates settled m.
Proof. intros Hb Hw db a db' H. split; [by eapply Hb|by eapply Hw]. Qed.

Lemma still_settled {A} (m : tx DB A) : relates still m → relates winners m → relates settled m.
Proof. intros Hb. apply settled_by. intros db a db' H. by destruct (Hb db a db' H). Qed.

Lemma balanced_claim i wk leaseMs r : relates balanced (claimTask i wk leaseMs r).
Proof.
  intros db o db'. rewrite claimTask_spec. destruct (tasks db !! i) as [t|] eqn:Ht; [|intros [_ <-]%ok_pair; reflexivity].
  destruct (claimable _ t) eqn:Hc; [|intros [_ <-]%ok_pair; reflexivity]. intros [_ <-]%ok_pair.
  eapply shifts_balanced; [by apply shifts_task|]. intros f Hf. apply unseen_moves; [|done..].
  unfold claimable in Hc. by destruct (t_status t).
Qed.

Lemma balanced_renew i token leaseMs r : relates balanced (renewTaskLease i token leaseMs r).
Proof.
  intros db o db'. rewrite renewTaskLease_spec. destruct (tasks db !! i) as [t|] eqn:Ht; [|intros [_ <-]%ok_pair; reflexivity].
  destruct (_ && _); intros [_ <-]%ok_pair; [|reflexivity].
  eapply shifts_balanced; [by apply shifts_task|]. intros [j s|e s|e] _; [|done..]. cbn. destruct (decide (j = i)); [apply Z.sub_diag|done].
Qed.

Ltac still_tx := unfold Task_findById, Attempt_updateOne, create_approval; repeat still_step.

Lemma settled_dispatch i : ∀ r, relates settled (transitionTask i T_READY T_QUEUED (λ t, t {{ queuedAt := Some (now r) }}) (λ _, true)).
Proof. intros r. apply still_settled; [still_tx|apply wins_transition]. Qed.
Lemma settled_claim i wk leaseMs r : relates settled (claimTask i wk leaseMs r).
Proof. apply settled_by; [apply balanced_claim|apply wins_claim]. Qed.
Lemma settled_renew i token leaseMs r : relates settled (renewTaskLease i token leaseMs r).
Proof. apply settled_by; [apply balanced_renew|apply wins_renew]. Qed.
Lemma settled_complete i token out r : relates settled (complete_tx cfg i token out r).
Proof. apply settled_by; [by apply balanced_complete|apply wins_complete]. Qed.
Lemma settled_fail i token err r : relates settled (fail_tx cfg i token err r).
Proof. apply settled_by; [by apply balanced_fail|apply wins_fail]. Qed.
Lemma settled_suspend i token ask r : relates settled (suspend_tx cfg i token ask r).
Proof. apply still_settled; [unfold suspend_tx; still_tx|apply wins_suspend]. Qed.
Lemma settled_resolve a d scope r : relates settled (resolve_tx cfg a d scope r).
Proof. apply settled_by; [by apply balanced_resolve|apply wins_resolve]. Qed.
Lemma settled_pause e r : relates settled (pause_tx cfg e r).
Proof.
  apply settled_by; [|apply wins_pause]. intros db a db'. unfold pause_tx. intros (n & db1 & H1 & H2)%tx_bind_ok.
  assert (balanced db db1) as Hb1.
  { unfold Execution_updateOne in H1. rewrite tx_state_ok in H1.
    destruct (updateOne_cases e (is_execution E_RUNNING) (set_execution E_PAUSED) (executions db)) as [(x & Hx & Hp%bool_decide_eq_true & Hu)|[_ Hu]];
      rewrite Hu in H1; injection H1 as _ <-; [|by apply shifts_same].
    eapply shifts_balanced; [by apply shifts_execution|]. rewrite Hp. intros [j s|e' s|e'] [ty Hf]; cbn; [done| |done].
    destruct (decide (e' = e)); [|done]. by destruct s. }
  etrans; [exact Hb1|]. still_by H2 Hb2. exact (st_balanced _ _ Hb2).
Qed.
Lemma settled_resume e r : relates settled (resume_tx cfg e r).
Proof. apply settled_by; [by apply balanced_resume|apply wins_resume]. Qed.
Lemma settled_cancel e r : relates settled (cancel_tx cfg e r).
Proof. apply settled_by; [by apply balanced_cancel|apply wins_cancel]. Qed.
Lemma settled_start w p children r : relates settled (start_tx cfg w p children r).
Proof. apply settled_by; [by apply balanced_start|apply wins_start]. Qed.
Lemma settled_abandon i n r : relates settled (abandon_attempts i n r).
Proof. apply still_settled; [unfold abandon_attempts; still_tx|apply wins_abandon]. Qed.
Lemma settled_create_attempt i t wk r : relates settled (create_attempt i t wk r).
Proof. apply still_settled; [unfold create_attempt; still_tx|apply wins_create_attempt]. Qed.
Lemma settled_started e payload r : relates settled (emit cfg r "task.started" e payload).
Proof. apply still_settled; [still_tx|apply wins_emit]. Qed.

Hint Resolve settled_dispatch settled_claim settled_renew settled_complete settled_fail settled_suspend settled_resolve
  settled_pause settled_resume settled_cancel settled_start settled_abandon settled_create_attempt settled_started : frames.

(** *** Every function of the engine, and what a worker does with a task *)

Ltac settled_step := idtac; rel_step fail.

Lemma settled_process handlers wk leaseMs i :
  steps_ok (λ _, True) (λ w w', settled (w_db w) (w_db w')) (processTask cfg handlers wk leaseMs i).
Proof.
  unfold processTask, runTask, report, startTask, completeTask, failTask, suspendForApproval, dispatchReady, dispatchTask,
    enqueueSafely, enqueueRetrySafely, transaction.
  repeat match goal with
  | |- steps_ok _ _ (Atom (λ w, (_, w)) Ret) => intros ? _; split_and!; [done|reflexivity|exact I]
  | _ => stepwise_step settled settled_step
  end.
Qed.

Lemma settled_timers p :
  p = maintenance ∨ (∃ leaseMs i token, p = (_ ← renew cfg leaseMs i token; Ret tt)) →
  steps_ok (λ _, True) (λ w w', settled (w_db w) (w_db w')) p.
Proof.
  intros [->|(leaseMs & i & token & ->)]; unfold maintenance, renew, renewLease; repeat stepwise_step settled settled_step.
Qed.

Context {Q : Type} `{!Dispatcher Q}.

Lemma settled_api (p : prog (World Q) unit) :
  api cfg p → steps_ok (λ _, True) (λ w w', settled (w_db w) (w_db w')) p.
Proof.
  destruct 1; unfold renewLease, pauseExecution, resumeExecution, cancelExecution, startExecution, startTask,
    completeTask, failTask, suspendForApproval, reconcile, redispatch, reenqueue, expire, resolveApproval, dispatchReady,
    dispatchTask, enqueueSafely, enqueueRetrySafely, status_of, failTask, transaction;
    repeat stepwise_step settled settled_step.
Qed.
End outcomes.

(** ** The outbox and the documents agree *)

Lemma settled_facts db : settled empty_db db →
  (∀ f, is_Some (fact_event f) → rows f db = if holds f db then 1 else 0) ∧
  (∀ i n a, attempts db !! (i, n) = Some a → a_status a = A_SUCCEEDED → winner db i n).
Proof.
  intros [Hb [_ Hn]]. split.
  - intros f Hf. specialize (Hb f Hf). assert (balance f empty_db = 0%Z) as H0 by (by destruct f). rewrite H0 in Hb.
    unfold balance in Hb. destruct (holds f db); cbn in Hb; lia.
  - intros i n a Ha Hs. destruct (Hn (i, n) a Ha Hs) as [(a0 & Ha0 & _)|]; [|done]. by destruct (lookup_empty_Some (i, n) a0 Ha0).
Qed.


Import Demo.

