(* ===== verification/EndToEnd.v ===== *)
(** * From the start of a run to its end

    The engine, the Redis queue and a worker together: when nothing interferes
    and the handlers succeed, a worker finishes every run that was started. *)

From S2P Require Import Prelude Program States Dag DagFacts DagSpec Models Retry TaskRepo Dispatcher Engine RunInv EngineTx EngineInv EngineStart.
From S2P Require Import EngineSafety EngineProps EngineSpec TaskQueue Worker WorkerProps Frames.

Local Open Scope string_scope.

(** ** Records of attempts *)

(** The same attempts are on record. *)
Definition same_attempts (db db' : DB) : Prop := dom (attempts db') = dom (attempts db).

#[export] Instance same_attempts_preorder : PreOrder same_attempts.
Proof. split; [by intros db|intros db1 db2 db3 H1 H2; unfold same_attempts in *; congruence]. Qed.

Lemma same_updateOne i n u : relates same_attempts (Attempt_updateOne i n u).
Proof.
  apply (rel_modify same_attempts). intros db. unfold same_attempts. cbn. unfold updateOne.
  destruct (attempts db !! (i, n)) as [a|] eqn:Ha; [|done]. cbn. apply dom_insert_lookup_L. by eexists.
Qed.
#[local] Hint Resolve same_updateOne : frames.

Ltac same_step := rel_step ltac:(idtac; intros ?; unfold same_attempts; by repeat case_match).

Lemma same_complete cfg i token out r : relates same_attempts (complete_tx cfg i token out r).
Proof.
  unfold complete_tx, transitionTask, Task_findById, afterTaskSucceeded, Execution_findOneAndUpdate, Execution_updateOne,
    Task_updateMany, emit.
  repeat same_step.
Qed.
#[local] Hint Resolve same_complete : frames.

Lemma completeTask_attempts cfg i token out (w : World TaskQueue) :
  dom (attempts (w_db (run (completeTask cfg i token out) w).2)) = dom (attempts (w_db w)).
Proof.
  apply (stepwise_run same_attempts). unfold completeTask, transaction, dispatchReady, dispatchTask, enqueueSafely.
  repeat stepwise_step same_attempts ltac:(idtac; first [same_step | progress unfold transitionTask]).
Qed.

(** The clocks and the random number that the next step will read are not the engine's. *)
Section same_readings.
Context (r : Readings).
Notation same_readings := (steps_ok (λ w : World TaskQueue, readings w = r) (λ _ _, True)).

Lemma readings_db_call {A} (body : Readings → tx DB A) : same_readings (db_call body).
Proof. apply steps_ok_await. intros w Hw. unfold db_step. by destruct (body _ _) as [[a db]|]. Qed.
Lemma readings_queue_call {A} (f : TaskQueue → res A * TaskQueue) : same_readings (queue_call f).
Proof. apply steps_ok_await. intros w Hw. by destruct (f (w_q w)). Qed.

Lemma readings_dispatchReady e : same_readings (dispatchReady e).
Proof.
  apply steps_ok_bind; [apply readings_db_call|]. intros x. case_bool_decide; [|done].
  apply steps_ok_bind; [apply readings_db_call|]. intros ready. apply steps_ok_for_each. intros [i t].
  apply steps_ok_bind; [|done]. apply steps_ok_bind; [apply readings_db_call|]. intros [|]; [|done].
  apply steps_ok_bind; [|done]. apply steps_ok_catch; [|done]. apply steps_ok_bind; [apply readings_queue_call|done].
Qed.
End same_readings.

Lemma completeTask_readings cfg i token out (w : World TaskQueue) :
  readings (run (completeTask cfg i token out) w).2 = readings w.
Proof.
  apply (steps_ok_run (λ w', readings w' = readings w) (λ _ _, True)); [|done].
  apply steps_ok_bind; [apply readings_db_call|]. intros [e|]; [|done].
  apply steps_ok_bind; [apply readings_dispatchReady|done].
Qed.

(** ** The queue *)

Lemma enqueue_items_place (l : list (oid * Task)) : ∀ q,
  queue_ok q → q_up q = true →
  let q' := foldl enqueue_item q l in
  queue_ok q' ∧ q_up q' = true ∧ q_time q' = q_time q ∧
  ∀ j, place_of q' j = if decide (j ∈ l.*1) then Some (default Ready (place_of q j)) else place_of q j.
Proof.
  induction l as [|[k t] l IH]; intros q Hq Hup; cbn [foldl]; [by split_and!|].
  assert (enqueue_item q (k, t) = exec (Enqueue k) q) as ->.
  { unfold enqueue_item, enqueue, TaskQueue_dispatcher, answered, queue_enqueue, redis, returned_1. cbn [fst snd it_taskId].
    rewrite Hup. cbn [exec]. by destruct (wfEnqueue k q). }
  assert (q_up (exec (Enqueue k) q) = true) as Hup1 by (cbn [exec]; unfold wfEnqueue; by case_decide).
  assert (q_time (exec (Enqueue k) q) = q_time q) as Htm1 by (cbn [exec]; unfold wfEnqueue; by case_decide).
  destruct (IH (exec (Enqueue k) q) (exec_ok _ _ Hq) Hup1) as (Hq' & Hup' & Htm & Hp). split_and!; [done..|congruence|].
  intros j. rewrite Hp. pose proof (exec_moves (Enqueue k) q j Hq) as Hm. cbn [moves] in Hm. rewrite Hm. cbn [fmap list_fmap fst].
  destruct (decide (j = k)) as [->|Hne].
  - rewrite (decide_True (P := k ∈ k :: _)) by left. by case_decide.
  - repeat case_decide; try done; set_solver.
Qed.

(** A claim takes the first ready id. *)
Lemma claim_place leaseMs q i rest :
  queue_ok q → q_up q = true → q_ready q = i :: rest →
  ∃ q', queue_claim leaseMs q = (Ok (Some i), q') ∧ queue_ok q' ∧ q_up q' = true ∧ q_time q' = q_time q ∧
    is_Some (q_leases q' !! i) ∧ ∀ j, j ≠ i → place_of q' j = place_of q j.
Proof.
  intros Hq Hup Hr. pose proof (wfClaim_ok leaseMs q Hq) as Hok. unfold queue_claim, redis. rewrite Hup.
  unfold wfClaim in *. rewrite Hr in *. eexists. split; [done|]. cbn [snd] in Hok. split_and!; [done..| |].
  - cbn. rewrite lookup_insert_eq. by eexists.
  - intros j Hne. rewrite !place_of_eq. cbn. rewrite Hr, lookup_insert_ne by done.
    destruct (decide (j ∈ rest)); [rewrite decide_True by set_solver; done|]. by rewrite decide_False by set_solver.
Qed.

(** The acknowledgement of a leased id. *)
Lemma acked i q d :
  queue_ok q → q_up q = true → q_leases q !! i = Some d →
  (queue_ack i q).1 = Ok true ∧ queue_ok (queue_ack i q).2 ∧ q_up (queue_ack i q).2 = true ∧
  q_time (queue_ack i q).2 = q_time q ∧ place_of (queue_ack i q).2 i = None ∧
  ∀ j, j ≠ i → place_of (queue_ack i q).2 j = place_of q j.
Proof.
  intros Hq Hup Hi. destruct (ack_leased i q d Hq Hup Hi) as [Hgone Hothers].
  pose proof (wfAck_ok i q Hq) as Hok. split_and!; [| | | |done|done]; unfold queue_ack, redis, returned_1; rewrite Hup;
    unfold wfAck in *; by rewrite Hi in *.
Qed.

(** ** Undisturbed worlds *)

Definition is_done (t : Task) : bool := bool_decide (t_status t = T_COMPLETED).

(** Every run goes well so far, and the queue holds what it should: the ids of
    the QUEUED tasks, all of them ready to be taken, and nothing else. *)
Record steady (cfg : EngineConfig) (w : World TaskQueue) : Prop := {
  st_inv : db_inv cfg (w_db w);
  st_queue : queue_ok (w_q w);
  st_up : q_up (w_q w) = true;
  st_runs e x : executions (w_db w) !! e = Some x → x_status x = E_RUNNING ∨ x_status x = E_COMPLETED;
  st_place i : place_of (w_q w) i =
    match tasks (w_db w) !! i with
    | Some t => if bool_decide (t_status t = T_QUEUED) then Some Ready else None
    | None => None
    end;
  st_status i t : tasks (w_db w) !! i = Some t →
    t_status t = T_PENDING ∨ t_status t = T_QUEUED ∨ t_status t = T_COMPLETED;
  st_fresh i t : tasks (w_db w) !! i = Some t → t_status t ≠ T_COMPLETED →
    (attempt t = 0 ∧ 1 ≤ maxAttempts t ∧ 0 < t_timeoutMs t)%Z;
  st_attempts i n : (i, n) ∈ dom (attempts (w_db w)) →
    ∃ t, tasks (w_db w) !! i = Some t ∧ (n ≤ attempt t)%Z
}.

Definition left_to_do (w : World TaskQueue) : Z := mcount (λ t, negb (is_done t)) (tasks (w_db w)).

Section steady.
Context (cfg : EngineConfig).

(** As long as a task is not done, one is ready in the queue. *)
Lemma steady_ready w :
  steady cfg w → left_to_do w ≠ 0%Z →
  ∃ i rest t, q_ready (w_q w) = i :: rest ∧ tasks (w_db w) !! i = Some t ∧ t_status t = T_QUEUED.
Proof.
  intros Hs Hn. assert (∃ j u, tasks (w_db w) !! j = Some u ∧ t_status u = T_QUEUED) as (j & u & Hj & Hu).
  { apply mcount_exists in Hn as (i & t & Hi & Ht). apply negb_true_iff, bool_decide_eq_false in Ht.
    destruct (di_exec _ _ (st_inv _ _ Hs) i t Hi) as [x Hx].
    pose proof (di_run _ _ (st_inv _ _ Hs) _ x Hx) as Hrun.
    assert (run_tasks (tasks (w_db w)) (t_executionId t) !! i = Some t) as Hit by (by apply run_tasks_Some).
    destruct (st_runs _ _ Hs _ _ Hx) as [Hr|Hr]; [|by destruct Ht; apply (ri_completed _ _ Hrun i t Hr Hit)].
    destruct (run_not_stuck x _ Hrun (di_static _ _ (st_inv _ _ Hs) _) Hr) as (k & v & [Hk _]%run_tasks_Some & Ha).
    - exists i, t. split; [done|]. unfold unfinished.
      by destruct (st_status _ _ Hs i t Hi) as [->|[->|]].
    - exists k, v. split; [done|]. by destruct (st_status _ _ Hs k v Hk) as [Hv|[Hv|Hv]]; rewrite Hv in Ha. }
  pose proof (st_place _ _ Hs j) as Hp. rewrite Hj, bool_decide_eq_true_2 in Hp by done.
  assert (j ∈ q_ready (w_q w)) as Hin.
  { unfold place_of in Hp. case_decide; [done|]. destruct (q_leases _ !! j); [done|]. by destruct (q_delayed _ !! j). }
  destruct (q_ready (w_q w)) as [|i rest] eqn:Hr; [by apply not_elem_of_nil in Hin|].
  pose proof (st_place _ _ Hs i) as Hpi. rewrite (place_ready _ i) in Hpi by (rewrite Hr; by left).
  destruct (tasks (w_db w) !! i) as [t|] eqn:Hi; [|done]. case_bool_decide as Hq; [|done].
  by exists i, rest, t.
Qed.
End steady.

(** ** One task *)

(** What the completion of [t] does to a task [u] of any run. *)
Section completion.
Context (run' : bool) (e : oid) (x : WorkflowExecution) (t : Task) (at_ : ms).

Definition on_completion (u : Task) : Task :=
  if of_run e u then (let v := after_success x t at_ u in if run' then dispatched at_ v else v) else u.

Lemma after_success_run u : of_run e (after_success x t at_ u) = of_run e u.
Proof. unfold of_run. by destruct (snapshot_fields u _ (after_success_snapshot x t at_ u)) as (_ & _ & _ & ->). Qed.

Lemma on_completion_eq ts :
  (if run' then on_run e (dispatched at_) (on_run e (after_success x t at_) ts) else on_run e (after_success x t at_) ts) =
  on_completion <$> ts.
Proof.
  unfold on_run, on_completion. destruct run'; [|done]. rewrite <- map_fmap_compose. apply map_fmap_ext. intros i u _. cbn.
  destruct (of_run e u) eqn:Hu; [by rewrite after_success_run, Hu|by rewrite Hu].
Qed.

Lemma on_completion_fields u :
  attempt (on_completion u) = attempt u ∧ maxAttempts (on_completion u) = maxAttempts u ∧
  t_timeoutMs (on_completion u) = t_timeoutMs u.
Proof. unfold on_completion, dispatched, after_success, promote_child, notify_child. by repeat case_match. Qed.

Lemma on_completion_snapshot u : snapshot (on_completion u) = snapshot u.
Proof.
  unfold on_completion. pose proof (after_success_snapshot x t at_ u) as Hs. destruct (of_run e u); [|done].
  destruct run'; [|done]. rewrite <- Hs. unfold dispatched. by case_match.
Qed.

Lemma on_completion_status u :
  t_status u ≠ T_READY →
  t_status (on_completion u) = t_status u ∧ (of_run e u && is_ready (after_success x t at_ u) = false) ∨
  t_status u = T_PENDING ∧ x_status x = E_RUNNING ∧ of_run e u && is_ready (after_success x t at_ u) = true ∧
    t_status (on_completion u) = if run' then T_QUEUED else T_READY.
Proof.
  intros Hu. unfold on_completion, is_ready. destruct (of_run e u); [|by left].
  destruct (after_success_status x t at_ u) as [Hs|(Hp & Hr & Hxr & _)].
  - left. rewrite Hs, bool_decide_eq_false_2 by done. split; [|done]. destruct run'; [|done].
    unfold dispatched, is_ready. by rewrite Hs, bool_decide_eq_false_2.
  - right. rewrite Hr, bool_decide_eq_true_2 by done. split_and!; [done..|]. destruct run'; [|done].
    unfold dispatched, is_ready. by rewrite Hr, bool_decide_eq_true_2.
Qed.

Lemma on_completion_done u : t_status u ≠ T_READY → is_done (on_completion u) = is_done u.
Proof.
  unfold is_done. intros [[-> _]|(Hp & _ & _ & Hs)]%on_completion_status; [done|]. rewrite Hp, Hs. by destruct run'.
Qed.
End completion.

(** [w'] is [w] after task [i], which is [t] there and [t1] while it runs, was
    completed; [x] is its run. *)
Definition completed_tasks (ts : gmap oid Task) (i : oid) (e : oid) (x : WorkflowExecution) (t1 : Task) (out : json) (at_ : ms)
    : gmap oid Task :=
  on_run e (after_success x t1 at_) (<[i := completed_task out at_ t1]> ts).

Record completion (cfg : EngineConfig) (w w' : World TaskQueue) (i : oid) (e : oid) (x : WorkflowExecution) (t1 : Task)
    (run' : bool) (out : json) (at_ : ms) : Prop := {
  co_x : executions (w_db w) !! e = Some x;
  co_before : ∃ t, tasks (w_db w) !! i = Some t ∧ t_status t ≠ T_COMPLETED ∧ snapshot t1 = snapshot t ∧
    attempt t1 = (attempt t + 1)%Z;
  co_inv : db_inv cfg (w_db w');
  co_executions : executions (w_db w') = <[e := succeeded_execution x at_]> (executions (w_db w));
  co_tasks : tasks (w_db w') = on_completion run' e x t1 at_ <$> <[i := completed_task out at_ t1]> (tasks (w_db w));
  co_last : run' = false → x_status x = E_RUNNING → ∀ j u,
    completed_tasks (tasks (w_db w)) i e x t1 out at_ !! j = Some u → t_executionId u = e → t_status u = T_COMPLETED;
  co_queue : queue_ok (w_q w');
  co_up : q_up (w_q w') = true;
  co_gone : place_of (w_q w') i = None;
  co_place j : j ≠ i → place_of (w_q w') j =
    if decide (run' = true ∧ j ∈ (ready_of e (completed_tasks (tasks (w_db w)) i e x t1 out at_)).*1)
    then Some (default Ready (place_of (w_q w) j)) else place_of (w_q w) j;
  co_time : q_time (w_q w') = q_time (w_q w);
  co_readings : readings w' = readings w;
  co_attempts : dom (attempts (w_db w')) = {[(i, attempt t1)]} ∪ dom (attempts (w_db w))
}.

Section one_task.
Context (cfg : EngineConfig) (handlers : string → option Handler) (wk : string) (leaseMs : Z).

(** A task that is given time is completed. *)
Definition succeed : Prop := ∀ c w,
  (0 < t_timeoutMs (claimed_task c))%Z →
  ∃ out failure, outcome_of (handler_result handlers c w) = (Output out, failure) ∧ truthy_thrown failure = false.

(** [w2] is [w] after [t] was claimed from it and its record created. *)
Record begun (w w2 : World TaskQueue) (i : oid) (t : Task) (c : Claimed) : Prop := {
  be_before : tasks (w_db w) !! i = Some t;
  be_id : claimed_id c = i;
  be_task : claimed_task c = claim_update wk (cfg_leaseMs cfg) (w_now w) t;
  be_inv : world_inv cfg w2;
  be_executions : executions (w_db w2) = executions (w_db w);
  be_tasks : tasks (w_db w2) = <[i := claimed_task c]> (tasks (w_db w));
  be_lease : holds_lease (w_db w2) i (leaseToken (claimed_task c)) (claimed_task c);
  be_queue : queue_ok (w_q w2);
  be_up : q_up (w_q w2) = true;
  be_place : ∃ d, place_of (w_q w2) i = Some (Leased d);
  be_others j : j ≠ i → place_of (w_q w2) j = place_of (w_q w) j;
  be_time : q_time (w_q w2) = q_time (w_q w);
  be_readings : readings w2 = readings w;
  be_attempts : dom (attempts (w_db w2)) = {[(i, (attempt t + 1)%Z)]} ∪ dom (attempts (w_db w))
}.

(** The rest of [processTask] after the handler settled. *)
Definition ending (c : Claimed) (s : settled handler_output) : prog (World TaskQueue) unit :=
  _ ← report cfg c s; _ ← queue_call (queue_ack (claimed_id c)); Ret tt.

Lemma process_begins (w : World TaskQueue) q1 i t d :
  world_inv cfg w → tasks (w_db w) !! i = Some t → claimable (w_now w) t = true →
  (∀ n, (i, n) ∈ dom (attempts (w_db w)) → n ≤ attempt t)%Z → (attempt t + 1 ≤ maxAttempts t)%Z →
  queue_ok q1 → q_up q1 = true → q_leases q1 !! i = Some d → q_time q1 = q_time (w_q w) →
  (∀ j, j ≠ i → place_of q1 j = place_of (w_q w) j) →
  ∃ c w2, run (processTask cfg handlers wk leaseMs i) (set_q w q1) = run (ending c (handler_result handlers c w2)) w2 ∧
    begun w w2 i t c.
Proof.
  intros Hw Ht Hc Hatt Hmax Hq1 Hup1 Hd1 Htm1 Hpl1.
  assert (attempts (w_db w) !! (i, (attempt t + 1)%Z) = None) as Hnew.
  { apply not_elem_of_dom. intros Hn%Hatt. lia. }
  destruct (processTask_start cfg handlers wk leaseMs (set_q w q1) i t d) as
    (c & w2 & d2 & Hproc & Hci & Hct & Hw2 & Hxs & Hts & Hl & Hq2 & Hup2 & Hd2 & Htm & Hrd & Hpl2 & Hdom2); [done..|].
  exists c, w2. split; [by rewrite Hproc; unfold ending; rewrite Hci|].
  split; [done..| | | | |done].
  - exists d2. by apply place_leased.
  - intros j Hne. rewrite (Hpl2 j Hne). by apply Hpl1.
  - by rewrite Htm.
  - done.
Qed.

Lemma ending_completes w w2 i t c s x out failure :
  begun w w2 i t c → t_status t ≠ T_COMPLETED →
  executions (w_db w) !! t_executionId t = Some x → outcome_of s = (Output out, failure) → truthy_thrown failure = false →
  ∃ w' run' at_, run (ending c s) w2 = (Ok tt, w') ∧
    completion cfg w w' i (t_executionId t) x (claimed_task c) run' (default JNull out) at_.
Proof.
  intros [Ht Hci Hct Hw2 Hxs Hts Hl Hq2 Hup2 [d2 Hi2] Hpl2 Htm2 Hrd2 Hdom2] Hst Hx Ho Hf.
  set (t1 := claimed_task c) in *.
  assert (He : t_executionId t1 = t_executionId t) by (by rewrite Hct).
  assert (Hx2 : executions (w_db w2) !! t_executionId t1 = Some x) by (by rewrite Hxs, He).
  pose proof (completeTask_attempts cfg i (leaseToken t1) (default JNull out) w2) as Hdom3.
  destruct (completeTask_commits cfg w2 Hw2 i (leaseToken t1) t1 x (default JNull out) Hl Hx2)
    as (db' & w3 & Hdb' & Hxs' & Hts' & Hrun3 & Hxs3 & Hts3 & Hq3).
  pose proof (completeTask_readings cfg i (leaseToken t1) (default JNull out) w2) as Hrd3.
  pose proof (steps_ok_run _ _ _ w2 (ok_completeTask cfg i (leaseToken t1) (default JNull out)) Hw2) as Hinv3.
  rewrite Hrun3 in Hdom3, Hinv3, Hrd3. cbn [snd] in Hdom3, Hinv3, Hrd3.
  rewrite Hts, insert_insert_eq in Hts', Hts3, Hq3. rewrite He in *.
  change (on_run (t_executionId t) (after_success x t1 (w_clock w2)) (<[i := completed_task (default JNull out) (w_clock w2) t1]> (tasks (w_db w))))
    with (completed_tasks (tasks (w_db w)) i (t_executionId t) x t1 (default JNull out) (w_clock w2)) in *.
  set (ts' := completed_tasks _ _ _ _ _ _ _) in *. set (run' := bool_decide _) in *.
  destruct (enqueue_items_place (if run' then ready_of (t_executionId t) ts' else []) (w_q w2) Hq2 Hup2) as (Hq3' & Hup3 & Htm3 & Hpl3).
  assert (Hfold : w_q w3 = foldl enqueue_item (w_q w2) (if run' then ready_of (t_executionId t) ts' else []))
    by (by rewrite Hq3; destruct run').
  rewrite <- Hfold in Hq3', Hup3, Htm3, Hpl3.
  assert (place_of (w_q w3) i = Some (Leased d2)) as Hi3 by (rewrite Hpl3, Hi2; by case_decide).
  apply (place_leased _ _ _ Hq3') in Hi3. destruct (acked i (w_q w3) d2 Hq3' Hup3 Hi3) as (Hack & Hq4 & Hup4 & Htm4 & Hgone & Hothers).
  exists (set_q w3 (queue_ack i (w_q w3)).2), run', (w_clock w2). split.
  { unfold ending, report. rewrite Ho, Hf, Hci, !run_bind. fold t1. rewrite Hrun3. cbv beta iota.
    cbn [run]. rewrite run_bind, run_queue_call, Hack. done. }
  split; cbn [w_db w_q w_random set_q]; try done.
  - exists t. split_and!; [done..|by rewrite Hct|by rewrite Hct].
  - by rewrite Hxs3, Hxs', Hxs.
  - rewrite Hts3. unfold ts', run'. rewrite <- on_completion_eq. by destruct (bool_decide _).
  - intros Hr' Hxr j u Hj Heu. fold ts' in Hj. rewrite <- Hts' in Hj.
    assert (executions db' !! t_executionId t = Some (succeeded_execution x (w_clock w2))) as Hxe.
    { by rewrite Hxs', lookup_insert_eq. }
    apply (ri_completed _ _ (di_run _ _ Hdb' _ _ Hxe) j u); [|by apply run_tasks_Some].
    destruct (succeeded_status x (w_clock w2)) as [(_ & _ & Hc)|[Hc _]]; [done|].
    apply bool_decide_eq_false in Hr'. congruence.
  - intros j Hne. fold ts'. rewrite Hothers, Hpl3, (Hpl2 j Hne) by done.
    destruct run'; [repeat case_decide; naive_solver|].
    rewrite (decide_False (P := j ∈ _)) by apply not_elem_of_nil. by rewrite decide_False by (by intros [[=] _]).
  - congruence.
  - change (readings w3 = readings w); congruence.
  - rewrite Hdom3, Hdom2, Hct. done.
Qed.

Lemma process_runs (w : World TaskQueue) q1 i t d :
  succeed → steady cfg w → tasks (w_db w) !! i = Some t → t_status t = T_QUEUED →
  queue_ok q1 → q_up q1 = true → q_leases q1 !! i = Some d → q_time q1 = q_time (w_q w) →
  (∀ j, j ≠ i → place_of q1 j = place_of (w_q w) j) →
  ∃ w' x t1 run' out at_, run (processTask cfg handlers wk leaseMs i) (set_q w q1) = (Ok tt, w') ∧
    completion cfg w w' i (t_executionId t) x t1 run' out at_.
Proof.
  intros Hgood Hs Ht Hst Hq1 Hup1 Hd1 Htm1 Hpl1.
  destruct (st_fresh _ _ Hs i t Ht) as (Hatt & Hmax & Htime); [by rewrite Hst|].
  destruct (di_exec _ _ (st_inv _ _ Hs) i t Ht) as [x Hx].
  assert (x_status x = E_RUNNING) as Hrun.
  { destruct (st_runs _ _ Hs _ _ Hx) as [?|Hc]; [done|].
    pose proof (ri_completed _ _ (di_run _ _ (st_inv _ _ Hs) _ x Hx) i t Hc) as Hdone.
    rewrite Hst in Hdone. discriminate Hdone. by apply run_tasks_Some. }
  destruct (process_begins w q1 i t d) as (c & w2 & Hproc & Hb); try done; [apply Hs|by unfold claimable; rewrite Hst| |lia|].
  { intros n (u & Hu & Hn)%(st_attempts _ _ Hs). by simplify_eq. }
  destruct (Hgood c w2) as (out & failure & Ho & Hf); [by rewrite (be_task _ _ _ _ _ Hb)|].
  destruct (ending_completes w w2 i t c (handler_result handlers c w2) x out failure Hb) as (w' & run' & at_ & Hend & Hc); [by rewrite Hst|done..|].
  exists w', x, (claimed_task c), run', (default JNull out), at_. by rewrite Hproc.
Qed.
End one_task.

(** The task is done, and its children are in the queue. *)
Section after_completion.
Context (cfg : EngineConfig) (w w' : World TaskQueue) (i e : oid) (x : WorkflowExecution) (t1 : Task) (run' : bool)
        (out : json) (at_ : ms).
Hypothesis (Hready : ∀ j u, tasks (w_db w) !! j = Some u → t_status u ≠ T_READY).
Hypothesis (Hc : completion cfg w w' i e x t1 run' out at_).
Let f := on_completion run' e x t1 at_.
Let t2 := completed_task out at_ t1.

Lemma completion_own : tasks (w_db w') !! i = Some (f t2) ∧ t_status (f t2) = T_COMPLETED ∧ attempt (f t2) = attempt t1.
Proof.
  split; [by rewrite (co_tasks _ _ _ _ _ _ _ _ _ _ Hc), lookup_fmap, lookup_insert_eq|]. split.
  - unfold f. by destruct (on_completion_status run' e x t1 at_ t2) as [[-> _]|(Hp & _)].
  - unfold f. by destruct (on_completion_fields run' e x t1 at_ t2) as [-> _].
Qed.

Lemma completion_other j : j ≠ i → tasks (w_db w') !! j = f <$> (tasks (w_db w) !! j).
Proof. intros Hne. by rewrite (co_tasks _ _ _ _ _ _ _ _ _ _ Hc), lookup_fmap, lookup_insert_ne. Qed.

(** Another task stays, or is a child that becomes QUEUED. *)
Lemma completion_case j u : j ≠ i → tasks (w_db w) !! j = Some u →
  t_status (f u) = t_status u ∧ of_run e u && is_ready (after_success x t1 at_ u) = false ∨
  t_status u = T_PENDING ∧ t_status (f u) = T_QUEUED ∧ run' = true ∧
    of_run e u && is_ready (after_success x t1 at_ u) = true.
Proof.
  intros Hne Hj. destruct (on_completion_status run' e x t1 at_ u (Hready j u Hj)) as [?|(Hp & Hxr & Hb & Hsu)];
    [by left|]. right. fold f in Hsu. destruct run' eqn:Hr; [done|]. exfalso. apply andb_true_iff in Hb as [Hb1 Hb2].
  assert (t_status (after_success x t1 at_ u) = T_COMPLETED) as Hd.
  { apply (co_last _ _ _ _ _ _ _ _ _ _ Hc eq_refl Hxr j).
    - unfold completed_tasks, on_run. rewrite lookup_fmap, lookup_insert_ne, Hj by done. cbn. by rewrite Hb1.
    - apply (bool_decide_eq_true_1 (t_executionId _ = e)). change (of_run e (after_success x t1 at_ u) = true).
      by rewrite after_success_run. }
  unfold is_ready in Hb2. by rewrite Hd in Hb2.
Qed.

Lemma completion_ready j : j ≠ i →
  j ∈ (ready_of e (completed_tasks (tasks (w_db w)) i e x t1 out at_)).*1 ↔
  ∃ u, tasks (w_db w) !! j = Some u ∧ of_run e u && is_ready (after_success x t1 at_ u) = true.
Proof.
  intros Hne. unfold ready_of, completed_tasks. rewrite list_elem_of_fmap. split.
  - intros ([k v] & -> & [Hk Hv]%elem_of_find). cbn in Hne. unfold on_run in Hk.
    rewrite lookup_fmap, lookup_insert_ne in Hk by done. cbn [fst]. destruct (tasks (w_db w) !! k) as [u|]; [|done].
    injection Hk as <-. exists u. split; [done|]. destruct (of_run e u) eqn:Hu; [|by rewrite Hu in Hv].
    by rewrite after_success_run, Hu in Hv.
  - intros (u & Hj & Hb). apply andb_true_iff in Hb as [Hb1 Hb2]. exists (j, after_success x t1 at_ u). split; [done|].
    apply elem_of_find. unfold on_run. rewrite lookup_fmap, lookup_insert_ne, Hj by done. cbn. rewrite Hb1.
    by rewrite after_success_run, Hb1, Hb2.
Qed.

(** Where the other ids are. *)
Lemma completion_place j u : j ≠ i → tasks (w_db w) !! j = Some u →
  t_status (f u) = t_status u ∧ place_of (w_q w') j = place_of (w_q w) j ∨
  t_status u = T_PENDING ∧ t_status (f u) = T_QUEUED ∧ place_of (w_q w') j = Some (default Ready (place_of (w_q w) j)).
Proof.
  intros Hne Hj. rewrite (co_place _ _ _ _ _ _ _ _ _ _ Hc j Hne). pose proof (completion_ready j Hne) as Hr.
  destruct (completion_case j u Hne Hj) as [[-> Hb]|(Hp & -> & Hrun & Hb)]; [left|right]; (split; [done|]).
  - rewrite decide_False; [done|]. intros [_ (v & Hv & Hvb)%Hr]. congruence.
  - split; [done|]. rewrite decide_True by (split; [done|]; apply Hr; eauto). done.
Qed.

Lemma completion_nowhere j : j ≠ i → tasks (w_db w) !! j = None → place_of (w_q w') j = place_of (w_q w) j.
Proof.
  intros Hne Hj. rewrite (co_place _ _ _ _ _ _ _ _ _ _ Hc j Hne). rewrite decide_False; [done|].
  intros [_ (v & Hv & _)%(completion_ready j Hne)]. congruence.
Qed.
End after_completion.

Lemma steady_not_ready cfg w j u : steady cfg w → tasks (w_db w) !! j = Some u → t_status u ≠ T_READY.
Proof. intros Hs Hj. by destruct (st_status _ _ Hs j u Hj) as [->|[-> | ->]]. Qed.

Lemma completion_steady cfg w w' i e x t1 run' out at_ :
  steady cfg w → completion cfg w w' i e x t1 run' out at_ → steady cfg w'.
Proof.
  intros Hs Hc. pose proof (λ j u, steady_not_ready cfg w j u Hs) as Hready.
  destruct (completion_own cfg w w' i e x t1 run' out at_ Hc) as (Hi & His & Hia).
  pose proof (completion_other cfg w w' i e x t1 run' out at_ Hc) as completion_other.
  pose proof (completion_place cfg w w' i e x t1 run' out at_ Hready Hc) as completion_place.
  set (f := on_completion run' e x t1 at_) in *. set (t2 := completed_task out at_ t1) in *. split.
  - apply Hc.
  - apply Hc.
  - apply Hc.
  - intros e' y. rewrite (co_executions _ _ _ _ _ _ _ _ _ _ Hc), lookup_insert_Some.
    intros [[_ <-]|[_ Hy]]; [|by eapply st_runs].
    destruct (succeeded_status x at_) as [(_ & _ & ->)|[-> _]]; [by right|apply (st_runs _ _ Hs e), Hc].
  - intros j. destruct (decide (j = i)) as [->|Hne]; [rewrite Hi, His; apply Hc|].
    rewrite (completion_other j Hne). destruct (tasks (w_db w) !! j) as [u|] eqn:Hj; cbn.
    + pose proof (st_place _ _ Hs j) as Hp. rewrite Hj in Hp.
      destruct (completion_place j u Hne Hj) as [[-> ->]|(Hu & -> & ->)]; [done|]. by rewrite Hp, Hu.
    + rewrite (completion_nowhere cfg w w' i e x t1 run' out at_ Hc j Hne Hj), (st_place _ _ Hs j), Hj. done.
  - intros j u. destruct (decide (j = i)) as [->|Hne]; [rewrite Hi; intros [= <-]; auto|].
    rewrite (completion_other j Hne). destruct (tasks (w_db w) !! j) as [v|] eqn:Hj; [|done]. intros [= <-].
    destruct (completion_place j v Hne Hj) as [[-> _]|(_ & -> & _)]; [by eapply st_status|auto].
  - intros j u. destruct (decide (j = i)) as [->|Hne]; [rewrite Hi; by intros [= <-]|].
    rewrite (completion_other j Hne). destruct (tasks (w_db w) !! j) as [v|] eqn:Hj; [|done]. intros [= <-] Hnd.
    unfold f; destruct (on_completion_fields run' e x t1 at_ v) as (-> & -> & ->). apply (st_fresh _ _ Hs j v Hj).
    destruct (completion_place j v Hne Hj) as [[Heq _]|(-> & _)]; [|done]. by rewrite <- Heq.
  - intros j n. rewrite (co_attempts _ _ _ _ _ _ _ _ _ _ Hc). intros [[= -> ->]%elem_of_singleton|Hin]%elem_of_union.
    + exists (f t2). split; [done|]. by rewrite Hia.
    + destruct (st_attempts _ _ Hs j n Hin) as (u & Hj & Hn). destruct (decide (j = i)) as [->|Hne].
      * destruct (co_before _ _ _ _ _ _ _ _ _ _ Hc) as (t & Ht & Hq & _ & Ha). rewrite Hj in Ht. injection Ht as <-.
        exists (f t2). split; [done|]. lia.
      * exists (f u). rewrite (completion_other j Hne), Hj. split; [done|].
        unfold f. by destruct (on_completion_fields run' e x t1 at_ u) as [-> _].
Qed.

(** ** All of them *)

Section all_tasks.
Context (cfg : EngineConfig) (handlers : string → option Handler) (wk : string) (leaseMs claimMs pollMs : Z).

Lemma completion_left w w' i e x t1 run' out at_ :
  steady cfg w → completion cfg w w' i e x t1 run' out at_ → left_to_do w' = (left_to_do w - 1)%Z.
Proof.
  intros Hs Hc. unfold left_to_do. rewrite (co_tasks _ _ _ _ _ _ _ _ _ _ Hc), mcount_fmap.
  destruct (co_before _ _ _ _ _ _ _ _ _ _ Hc) as (t & Ht & Hq & _).
  rewrite (mcount_ext _ (λ u, negb (is_done u))).
  - rewrite (mcount_insert _ _ _ _ _ Ht).
    assert (is_done t = false) as -> by (by apply bool_decide_eq_false).
    change (is_done (completed_task out at_ t1)) with true. cbn. lia.
  - intros j u Hj. cbn. rewrite on_completion_done; [done|].
    apply lookup_insert_Some in Hj as [[_ <-]|[_ Hj]]; [done|]. by apply (steady_not_ready cfg w j u Hs).
Qed.

(** No run of [w] is lost. *)
Definition same_runs (w w' : World TaskQueue) : Prop :=
  ∀ e x, executions (w_db w) !! e = Some x → ∃ x', executions (w_db w') !! e = Some x' ∧ taskCount x' = taskCount x.

Lemma completion_runs w w' i e x t1 run' out at_ : completion cfg w w' i e x t1 run' out at_ → same_runs w w'.
Proof.
  intros Hc e' y Hy. rewrite (co_executions _ _ _ _ _ _ _ _ _ _ Hc). destruct (decide (e' = e)) as [->|Hne].
  - rewrite lookup_insert_eq. eexists. split; [done|]. rewrite (co_x _ _ _ _ _ _ _ _ _ _ Hc) in Hy.
    injection Hy as <-. unfold succeeded_execution. by case_match.
  - rewrite lookup_insert_ne by done. eauto.
Qed.

Hypothesis (Hgood : succeed handlers).

(** A turn takes the next task and completes it. *)
Lemma turn_runs w b :
  steady cfg w → left_to_do w ≠ 0%Z →
  ∃ w', run (loop_turn cfg handlers wk leaseMs claimMs pollMs b) w = (Ok (0%Z, pollMs), w') ∧
    steady cfg w' ∧ same_runs w w' ∧ left_to_do w' = (left_to_do w - 1)%Z.
Proof.
  intros Hs Hn. destruct (steady_ready cfg w Hs Hn) as (i & rest & t & Hr & Ht & Hst).
  destruct (claim_place claimMs (w_q w) i rest (st_queue _ _ Hs) (st_up _ _ Hs) Hr) as (q1 & Hcl & Hq1 & Hup1 & Htm & [d Hd] & Hpl).
  destruct (process_runs cfg handlers wk leaseMs w q1 i t d) as (w' & x & t1 & run' & out & at_ & Hrun & Hc); [done..|].
  exists w'. split; [|by split_and!; [eapply completion_steady|eapply completion_runs|eapply completion_left]].
  unfold loop_turn. rewrite run_bind, run_catch, run_bind, run_queue_call, Hcl. cbn [run].
  cbn [fst snd]. cbv iota. by rewrite run_bind, run_catch, Hrun.
Qed.

Lemma loop_runs n : ∀ w b,
  steady cfg w → left_to_do w = Z.of_nat n →
  ∃ w', run (loop cfg handlers wk leaseMs claimMs pollMs n b) w = (Ok (replicate n 0%Z), w') ∧
    steady cfg w' ∧ same_runs w w' ∧ left_to_do w' = 0%Z.
Proof.
  induction n as [|n IH]; intros w b Hs Hn; cbn [loop replicate]; [by exists w; split_and!; [| |intros e x Hx; eauto|]|].
  destruct (turn_runs w b Hs) as (w1 & Hturn & Hs1 & Hr1 & Hn1); [lia|].
  destruct (IH w1 pollMs Hs1) as (w2 & Hloop & Hs2 & Hr2 & Hn2); [lia|].
  exists w2. split; [by rewrite run_bind, Hturn; cbn [fst snd]; rewrite run_bind, Hloop|]. split_and!; [done| |done].
  intros e x (x1 & Hx1 & <-)%Hr1. by apply Hr2.
Qed.
End all_tasks.

(** When nothing is left, the runs are over and the queue is empty. *)
Lemma steady_finished cfg w :
  steady cfg w → left_to_do w = 0%Z →
  (∀ i t, tasks (w_db w) !! i = Some t → t_status t = T_COMPLETED) ∧
  (∀ e x, executions (w_db w) !! e = Some x → taskCount x ≠ 0%Z → x_status x = E_COMPLETED) ∧
  (∀ i, place_of (w_q w) i = None).
Proof.
  intros Hs Hn. pose proof (proj1 (mcount_zero _ _) Hn) as Hall.
  assert (∀ i t, tasks (w_db w) !! i = Some t → t_status t = T_COMPLETED) as Hdone.
  { intros i t Ht. specialize (Hall i t Ht). by apply negb_false_iff, bool_decide_eq_true in Hall. }
  split_and!; [done|..].
  - intros e x Hx Hc. destruct (st_runs _ _ Hs e x Hx) as [Hr|]; [|done]. destruct Hc.
    pose proof (di_run _ _ (st_inv _ _ Hs) e x Hx) as Hi. rewrite (ri_count _ _ Hi), (ri_stuck _ _ Hi Hr); [done|].
    rewrite (ri_pending _ _ Hi). apply mcount_zero. intros i t [Ht _]%run_tasks_Some. unfold unfinished.
    by rewrite (Hdone i t Ht).
  - intros i. rewrite (st_place _ _ Hs i). destruct (tasks (w_db w) !! i) as [t|] eqn:Ht; [|done].
    by rewrite (Hdone i t Ht).
Qed.

(** ** From the start *)

(** The limits that the routes accept for a task. *)
Definition limits_ok (d : TaskDefinition) : Prop :=
  (1 ≤ default 3 (td_maxAttempts d) ∧ 0 < default 30000 (td_timeoutMs d))%Z.

Lemma same_start cfg w p children r : relates same_attempts (start_tx cfg w p children r).
Proof. unfold start_tx, emit. repeat same_step. Qed.

Section started.
Context (cfg : EngineConfig) (w : World TaskQueue) (wf : Workflow) (p : StartParams) (children : gmap string (list string)).
Hypothesis (Hinv : db_inv cfg (w_db w)).
Let e := fresh (dom (executions (w_db w))).
Let doc := task_of_definition e (wf_ownerId wf) (w_clock w) children.
Context (at_ : ms).

(** The tasks after the transaction, and after they were dispatched. *)
Let ts := insert_all (doc <$> wf_tasks wf) (tasks (w_db w)).
Let f (u : Task) : Task := if of_run e u then dispatched at_ u else u.

Lemma started_fields u :
  attempt (f u) = attempt u ∧ maxAttempts (f u) = maxAttempts u ∧ t_timeoutMs (f u) = t_timeoutMs u.
Proof. unfold f, dispatched. by repeat case_match. Qed.

(** A task of the run is new; the others are untouched. *)
Lemma started_cases j u : ts !! j = Some u →
  (of_run e u = true ∧ tasks (w_db w) !! j = None ∧ ∃ d, d ∈ wf_tasks wf ∧ u = doc d) ∨
  of_run e u = false ∧ tasks (w_db w) !! j = Some u.
Proof.
  unfold ts. rewrite insert_all_Some. intros [Hj|Hj].
  - left. pose proof (new_map_fresh _ _ _ _ Hj) as Hnone. apply new_map_elem, list_elem_of_fmap in Hj as (d & -> & Hd).
    split_and!; [by apply bool_decide_eq_true|done|by exists d].
  - right. split; [|done]. apply bool_decide_eq_false. intros Heq. destruct (di_exec _ _ Hinv j u Hj) as [x Hx].
    apply (is_fresh (dom (executions (w_db w)))). apply elem_of_dom. exists x. by rewrite <- Hx, Heq.
Qed.

Lemma started_keeps j u : tasks (w_db w) !! j = Some u → ts !! j = Some u ∧ f u = u.
Proof.
  intros Hj. assert (ts !! j = Some u) as Hts by (apply insert_all_Some; by right). split; [done|].
  destruct (started_cases j u Hts) as [(_ & Hn & _)|[Hr _]]; [congruence|]. unfold f. by rewrite Hr.
Qed.

(** A new task is QUEUED when it is a root, and PENDING otherwise. *)
Lemma started_status d :
  (is_ready (doc d) = true ∧ t_status (f (doc d)) = T_QUEUED) ∨
  (is_ready (doc d) = false ∧ t_status (f (doc d)) = T_PENDING).
Proof.
  unfold f. assert (of_run e (doc d) = true) as -> by (by apply bool_decide_eq_true). 
  unfold dispatched, is_ready, doc, task_of_definition. cbn [t_status]. destruct (bool_decide (length _ = 0)); [by left|by right].
Qed.

(** Every id afterwards: one of a new task, or as it was. *)
Lemma started_place (w' : World TaskQueue) :
  queue_ok (w_q w) → q_up (w_q w) = true →
  tasks (w_db w') = f <$> ts → w_q w' = foldl enqueue_item (w_q w) (ready_of e ts) →
  queue_ok (w_q w') ∧ q_up (w_q w') = true ∧ q_time (w_q w') = q_time (w_q w) ∧ ∀ j,
  (∃ d, d ∈ wf_tasks wf ∧ tasks (w_db w) !! j = None ∧ tasks (w_db w') !! j = Some (f (doc d)) ∧
     (t_status (f (doc d)) = T_QUEUED ∧ place_of (w_q w') j = Some (default Ready (place_of (w_q w) j)) ∨
      t_status (f (doc d)) = T_PENDING ∧ place_of (w_q w') j = place_of (w_q w) j)) ∨
  tasks (w_db w') !! j = tasks (w_db w) !! j ∧ place_of (w_q w') j = place_of (w_q w) j.
Proof.
  intros Hok Hup Hts Hq. destruct (enqueue_items_place (ready_of e ts) (w_q w) Hok Hup) as (Hok' & Hup' & Htm & Hpl).
  rewrite <- Hq in Hok', Hup', Htm, Hpl. split_and!; [done..|]. intros j. rewrite Hpl, Hts, lookup_fmap.
  assert (j ∈ (ready_of e ts).*1 ↔ ∃ u, ts !! j = Some u ∧ of_run e u && is_ready u = true) as Hr.
  { unfold ready_of. rewrite list_elem_of_fmap. split.
    - intros ([k v] & -> & Hk%elem_of_find). by exists v.
    - intros (u & Hu). exists (j, u). split; [done|]. by apply elem_of_find. }
  destruct (ts !! j) as [u|] eqn:Hj; cbn [fmap option_fmap option_map].
  - destruct (started_cases j u Hj) as [(Hrun & Hnone & d & Hd & ->)|[Hrun Hold]].
    + left. exists d. split_and!; [done..|]. destruct (started_status d) as [[Hb ->]|[Hb ->]]; [left|right]; (split; [done|]).
      * rewrite decide_True; [done|]. apply Hr. exists (doc d). by rewrite Hrun, Hb.
      * rewrite decide_False; [done|]. intros (v & [= <-] & Hv)%Hr. by rewrite Hrun, Hb in Hv.
    + right. rewrite Hold. destruct (started_keeps j u Hold) as [_ ->]. split; [done|]. rewrite decide_False; [done|].
      intros (v & [= <-] & Hv)%Hr. by rewrite Hrun in Hv.
  - right. rewrite decide_False by (by intros (v & [=] & _)%Hr). split; [|done].
    destruct (tasks (w_db w) !! j) as [v|] eqn:Hold; [|done]. destruct (started_keeps j v Hold) as [Hv _]. congruence.
Qed.

Lemma started_steady (w' : World TaskQueue) y :
  steady cfg w → (∀ d, d ∈ wf_tasks wf → limits_ok d) → db_inv cfg (w_db w') → x_status y = E_RUNNING →
  executions (w_db w') = <[e := y]> (executions (w_db w)) →
  tasks (w_db w') = f <$> ts → dom (attempts (w_db w')) = dom (attempts (w_db w)) →
  w_q w' = foldl enqueue_item (w_q w) (ready_of e ts) → steady cfg w'.
Proof.
  intros Hs Hlimits Hinv' Hy Hxs Hts Hat Hq.
  destruct (started_place w' (st_queue _ _ Hs) (st_up _ _ Hs) Hts Hq) as (Hok & Hup & _ & Hcase). split; [done..| | | | |].
  - intros e' x. rewrite Hxs, lookup_insert_Some. intros [[_ <-]|[_ Hx]]; [by left|]. by apply (st_runs _ _ Hs e' x).
  - intros j. pose proof (st_place _ _ Hs j) as Hp.
    destruct (Hcase j) as [(d & _ & Hn & -> & [[-> ->]|[-> ->]])|[-> ->]]; [rewrite Hn in Hp; by rewrite Hp|by rewrite Hn in Hp|done].
  - intros j u. destruct (Hcase j) as [(d & _ & _ & -> & [[Hst _]|[Hst _]])|[-> _]]; [intros [= <-]; auto..|]. apply (st_status _ _ Hs).
  - intros j u. destruct (Hcase j) as [(d & Hd & _ & -> & _)|[-> _]]; [|apply (st_fresh _ _ Hs)]. intros [= <-] _.
    destruct (started_fields (doc d)) as (-> & -> & ->). by destruct (Hlimits d Hd).
  - intros j n. rewrite Hat. intros (u & Hj & Hn)%(st_attempts _ _ Hs). exists u. split; [|done].
    destruct (Hcase j) as [(d & _ & Hnone & _)|[-> _]]; [congruence|done].
Qed.
End started.

(** What a successful start leaves. *)
Lemma startExecution_effect cfg (w : World TaskQueue) wf p e w1 :
  db_inv cfg (w_db w) → run (startExecution cfg wf p) w = (Ok e, w1) →
  ∃ children at_ y, e = fresh (dom (executions (w_db w))) ∧ db_inv cfg (w_db w1) ∧
    x_status y = E_RUNNING ∧ taskCount y = Z.of_nat (length (wf_tasks wf)) ∧
    executions (w_db w1) = <[e := y]> (executions (w_db w)) ∧
    (let ts := insert_all (task_of_definition e (wf_ownerId wf) (w_clock w) children <$> wf_tasks wf) (tasks (w_db w)) in
     tasks (w_db w1) = (λ u, if of_run e u then dispatched at_ u else u) <$> ts ∧
     w_q w1 = foldl enqueue_item (w_q w) (ready_of e ts)) ∧
    dom (attempts (w_db w1)) = dom (attempts (w_db w)).
Proof.
  intros Hs Hrun. pose proof (steps_ok_run _ _ _ w (ok_startExecution cfg wf p) Hs) as Hinv.
  rewrite Hrun in Hinv. cbn [snd] in Hinv. unfold startExecution in Hrun.
  destruct (validateDag _) as [[check|]|]; [|done..]. destruct (valid check); [|done]. cbn [negb] in Hrun.
  rewrite run_bind, run_lift in Hrun. destruct (dependents_of (wf_tasks wf)) as [children|]; [|done].
  unfold transaction in Hrun. rewrite run_bind, run_db_call in Hrun. unfold db_step in Hrun.
  destruct (start_tx cfg wf p children (readings w) (w_db w)) as [[e' db]|err] eqn:Htx; [|done].
  pose proof (same_start cfg wf p children (readings w) _ _ _ Htx) as Hdom.
  destruct (idempotency_clash p (w_db w)) eqn:Hc; [by rewrite start_tx_duplicate in Htx|].
  destruct (forallb definition_ok (wf_tasks wf)) eqn:Hd; [|by rewrite start_tx_invalid in Htx].
  destruct (start_tx_applies cfg (readings w) wf p children (w_db w) Hc Hd) as (db2 & Hok & [Hxs Hts _ _]).
  rewrite Hok in Htx. injection Htx as <- <-.
  destruct (run_dispatchReady (fresh (dom (executions (w_db w)))) (set_db w db2)) as (w2 & Hdisp & Heff).
  rewrite run_bind, Hdisp in Hrun. injection Hrun as <- <-. cbn [w_db w_q set_db] in Heff.
  rewrite Hxs, lookup_insert_eq in Heff. rewrite bool_decide_eq_true_2 in Heff by done. destruct Heff as [Hdb Hq].
  exists children, (w_clock (set_db w db2)), (new_execution wf p (now (readings w))).
  split_and!; try done; [by rewrite Hdb| |by rewrite Hdb].
  cbn zeta. split; [|by rewrite Hq, Hts]. rewrite Hdb. unfold on_run. cbn [with_tasks tasks]. by rewrite Hts.
Qed.

Lemma startExecution_steady cfg (w : World TaskQueue) wf p e w1 :
  steady cfg w → (∀ d, d ∈ wf_tasks wf → limits_ok d) → run (startExecution cfg wf p) w = (Ok e, w1) →
  steady cfg w1.
Proof.
  intros Hs Hlim Hrun.
  destruct (startExecution_effect cfg w wf p e w1 (st_inv _ _ Hs) Hrun)
    as (children & at_ & y & -> & Hinv & Hy & _ & Hxs & [Hts Hq] & Hat).
  by apply (started_steady cfg w wf children (st_inv _ _ Hs) at_ w1 y).
Qed.

Lemma startExecution_fails cfg (w : World TaskQueue) wf p err w1 :
  run (startExecution cfg wf p) w = (Exn err, w1) → w1 = w.
Proof.
  unfold startExecution. destruct (validateDag _) as [[check|]|]; [|by intros [= _ <-]..].
  destruct (valid check); [|by intros [= _ <-]]. cbn [negb]. rewrite run_bind, run_lift.
  destruct (dependents_of (wf_tasks wf)) as [children|]; [|by intros [= _ <-]].
  unfold transaction. rewrite run_bind, run_db_call. unfold db_step.
  destruct (start_tx _ _ _ _ _ _) as [[e db]|]; [|by intros [= _ <-]].
  destruct (run_dispatchReady e (set_db w db)) as (w2 & Hdisp & _). by rewrite run_bind, Hdisp.
Qed.

(** ** The whole system, undisturbed *)

(** Someone starts a run, or a worker takes a turn of its loop. *)
Inductive Activity : Type :=
| Starts (wf : Workflow) (p : StartParams)
| Works (workerId : string) (backoffMs : Z).

Section system.
Context (cfg : EngineConfig) (handlers : string → option Handler) (leaseMs claimMs pollMs : Z).

Definition act (w : World TaskQueue) (a : Activity) : World TaskQueue :=
  match a with
  | Starts wf p => (run (startExecution cfg wf p) w).2
  | Works wk backoffMs => (run (loop_turn cfg handlers wk leaseMs claimMs pollMs backoffMs) w).2
  end.

Definition activity_ok (a : Activity) : Prop :=
  match a with Starts wf _ => ∀ d, d ∈ wf_tasks wf → limits_ok d | Works _ _ => True end.

Hypothesis (Hgood : succeed handlers).

(** With nothing left the worker finds nothing. *)
Lemma idle_turn wk b w :
  steady cfg w → left_to_do w = 0%Z → (run (loop_turn cfg handlers wk leaseMs claimMs pollMs b) w).2 = w.
Proof.
  intros Hs Hn. destruct (steady_finished cfg w Hs Hn) as (_ & _ & Hp).
  assert (q_ready (w_q w) = []) as Hr.
  { destruct (q_ready (w_q w)) as [|i rest] eqn:Hr; [done|]. specialize (Hp i).
    rewrite (place_ready _ i) in Hp by (rewrite Hr; by left). done. }
  unfold loop_turn. rewrite run_bind, run_catch, run_bind, run_queue_call.
  unfold queue_claim, redis. rewrite (st_up _ _ Hs). unfold wfClaim. rewrite Hr. cbn. by destruct w.
Qed.

Lemma act_steady w a : steady cfg w → activity_ok a → steady cfg (act w a).
Proof.
  intros Hs Ha. destruct a as [wf p|wk b]; cbn [act].
  - destruct (run (startExecution cfg wf p) w) as [[e|err] w1] eqn:Hrun; cbn.
    + by apply (startExecution_steady cfg w wf p e w1).
    + by rewrite (startExecution_fails _ _ _ _ _ _ Hrun).
  - destruct (decide (left_to_do w = 0%Z)) as [Hn|Hn]; [by rewrite idle_turn|].
    by destruct (turn_runs cfg handlers wk leaseMs claimMs pollMs Hgood w b Hs Hn) as (w' & -> & Hs' & _).
Qed.

Lemma acts_steady l w : steady cfg w → Forall activity_ok l → steady cfg (foldl act w l).
Proof. intros Hs Hl. revert w Hs. induction Hl as [|a l Ha _ IH]; intros w Hs; [done|]. by apply IH, act_steady. Qed.
End system.

Lemma steady_initial cfg : steady cfg (initial empty_queue).
Proof.
  split; [apply (initial_inv cfg empty_queue)|apply empty_queue_ok|done|done| | | |].
  - done.
  - done.
  - done.
  - cbn. intros i n Hin. by apply elem_of_empty in Hin.
Qed.

(** C6: undisturbed, every run that is started is finished.  Runs are started in
    any number, in any order and with any graph that [validateDag] accepts,
    while any workers take turns; when the handlers answer without an error,
    a worker that then goes on empties the queue: one turn for each task that
    is not done, none of which sleeps, after which every task is COMPLETED and
    every run that has tasks is COMPLETED. *)
Theorem every_run_completes (cfg : EngineConfig) (handlers : string → option Handler) (leaseMs claimMs pollMs : Z)
    (l : list Activity) (wk : string) (backoffMs : Z)
    (Hgood : succeed handlers) (Hl : Forall activity_ok l) :
  let w := foldl (act cfg handlers leaseMs claimMs pollMs) (initial empty_queue) l in
  let turns := Z.to_nat (left_to_do w) in
  ∃ w', run (loop cfg handlers wk leaseMs claimMs pollMs turns backoffMs) w = (Ok (replicate turns 0%Z), w') ∧
    (∀ i t, tasks (w_db w') !! i = Some t → t_status t = T_COMPLETED) ∧
    (∀ e x, executions (w_db w) !! e = Some x → taskCount x ≠ 0%Z →
       ∃ x', executions (w_db w') !! e = Some x' ∧ x_status x' = E_COMPLETED) ∧
    (∀ i, place_of (w_q w') i = None).
Proof.
  intros w turns. assert (steady cfg w) as Hs by (apply acts_steady; [done|apply steady_initial|done]).
  assert (left_to_do w = Z.of_nat turns) as Hn by (pose proof (mcount_nonneg (λ t, negb (is_done t)) (tasks (w_db w)));
    unfold turns, left_to_do in *; lia).
  destruct (loop_runs cfg handlers wk leaseMs claimMs pollMs Hgood turns w backoffMs Hs Hn) as (w' & Hrun & Hs' & Hr & Hn').
  exists w'. split; [done|]. destruct (steady_finished cfg w' Hs' Hn') as (Ht & Hx & Hp). split_and!; [done| |done].
  intros e x Hex Hc. destruct (Hr e x Hex) as (x' & Hx' & Heq). exists x'. split; [done|]. apply (Hx e x' Hx'). congruence.
Qed.

(** ** Witness *)

Import Demo.

Definition prompt_handlers : string → option Handler :=
  λ _, Some (λ _ _, Some (0%Z, Resolved (Output (Some (JNum 1))))).

(** Two runs of the diamond; a worker finishes the root of the first in between. *)
Definition two_diamonds : list Activity :=
  [Starts diamond params; Works "worker-1" 250; Starts diamond (params {{ sp_idempotencyKey := None }})].

Lemma diamond_limits d : d ∈ wf_tasks diamond → limits_ok d.
Proof. revert d. apply Forall_forall. by repeat (apply Forall_cons; split). Qed.

Lemma every_run_completes_witness :
  let w := foldl (act cfg prompt_handlers 15000 30000 250) (initial empty_queue) two_diamonds in
  left_to_do w = 7%Z ∧
  ∃ w', run (loop cfg prompt_handlers "worker-2" 15000 30000 250 7 250) w = (Ok (replicate 7 0%Z), w') ∧
    (∃ x', executions (w_db w') !! 1 = Some x' ∧ x_status x' = E_COMPLETED).
Proof.
  intros w. assert (left_to_do w = 7%Z) as Hn by (vm_compute; reflexivity). split; [done|].
  destruct (every_run_completes cfg prompt_handlers 15000 30000 250 two_diamonds "worker-2" 250)
    as (w' & Hrun & _ & Hx & _).
  - intros c w' Ht. exists (Some (JNum 1)), Nullish. split; [|done]. unfold handler_result, prompt_handlers.
    cbn [withTimeout]. by rewrite bool_decide_eq_true_2.
  - by repeat (apply Forall_cons; split; [try exact diamond_limits|]).
  - exists w'. fold w in Hrun, Hx. rewrite Hn in Hrun. split; [exact Hrun|].
    destruct (executions (w_db w) !! 1) as [x|] eqn:Hex; [|by vm_compute in Hex].
    apply (Hx 1 x Hex). vm_compute in Hex. by injection Hex as <-.
Defined.
