(* ===== verification/Records.v ===== *)
(** * The records of attempts

    Every record of an attempt is one of an attempt that was counted: in every
    interleaving the number of a record is at most the counter [attempt] of its
    task, so that the record of the next attempt can always be created
    ([taskExecutionSchema.index] is unique). *)

From S2P Require Import Prelude Program States Dag Models Retry TaskRepo Dispatcher Engine TaskQueue Worker Ownership Frames.
From S2P Require Import EngineInv EngineSafety EngineProps WorkerProps Attempts EndToEnd.

(** What every database satisfies. *)
Record counted_records (db : DB) : Prop := {
  cr_nonneg i t : tasks db !! i = Some t → (0 ≤ attempt t)%Z;
  cr_behind i n : (i, n) ∈ dom (attempts db) → ∃ t, tasks db !! i = Some t ∧ (n ≤ attempt t)%Z
}.

(** What every transaction but [create_attempt] does. *)
Definition recording (db db' : DB) : Prop := counting db db' ∧ same_attempts db db'.

#[export] Instance recording_preorder : PreOrder recording.
Proof. split; [intros db; by split|]. intros db1 db2 db3 [] []. split; by etrans. Qed.

Lemma counting_nonneg db db' :
  counting db db' → (∀ i t, tasks db !! i = Some t → (0 ≤ attempt t)%Z) → ∀ i t, tasks db' !! i = Some t → (0 ≤ attempt t)%Z.
Proof.
  intros [Hold Hnew] H0 i t' Ht'. destruct (tasks db !! i) as [t|] eqn:Ht; [|by eapply Hnew].
  destruct (Hold i t Ht) as (u & Hu & _ & Ha). assert (u = t') as -> by congruence. pose proof (H0 i t Ht). lia.
Qed.

Lemma recording_keeps db db' : recording db db' → counted_records db → counted_records db'.
Proof.
  intros [Hc Hs] [H0 Hb]. split; [by eapply counting_nonneg|]. intros i n. rewrite Hs. intros (t & Ht & Hn)%Hb.
  destruct (ct_old _ _ Hc i t Ht) as (u & Hu & _ & Ha). exists u. split; [done|lia].
Qed.

Lemma recorded {A} (m : tx DB A) : relates counting m → relates same_attempts m → relates recording m.
Proof. intros Hc Hs db a db' H. split; [by eapply Hc|by eapply Hs]. Qed.

(** *** Transactions *)

#[local] Hint Resolve same_updateOne same_complete : frames.
Ltac same_tx := unfold transitionTask, Task_findById, afterTaskSucceeded, afterTaskFailedForGood, Execution_findOneAndUpdate,
  Execution_updateOne, Task_updateMany, create_approval, emit; repeat same_step.

Section transactions.
Context (cfg : EngineConfig).

Lemma same_fail i token err r : relates same_attempts (fail_tx cfg i token err r).
Proof. unfold fail_tx. same_tx. Qed.
Lemma same_suspend i token ask r : relates same_attempts (suspend_tx cfg i token ask r).
Proof. unfold suspend_tx. same_tx. Qed.
Lemma same_resolve a d scope r : relates same_attempts (resolve_tx cfg a d scope r).
Proof. unfold resolve_tx. same_tx. Qed.
Lemma same_pause e r : relates same_attempts (pause_tx cfg e r).
Proof. unfold pause_tx. same_tx. Qed.
Lemma same_resume e r : relates same_attempts (resume_tx cfg e r).
Proof. unfold resume_tx. same_tx. Qed.
Lemma same_cancel e r : relates same_attempts (cancel_tx cfg e r).
Proof. unfold cancel_tx. same_tx. Qed.
Lemma same_emit r ty e payload : relates same_attempts (emit cfg r ty e payload).
Proof. same_tx. Qed.
End transactions.

Lemma same_claim i wk leaseMs r : relates same_attempts (claimTask i wk leaseMs r).
Proof. unfold claimTask. same_tx. Qed.
Lemma same_renew i token leaseMs r : relates same_attempts (renewTaskLease i token leaseMs r).
Proof. unfold renewTaskLease. same_tx. Qed.
Lemma same_dispatch i r : relates same_attempts (transitionTask i T_READY T_QUEUED (λ t, t {{ queuedAt := Some (now r) }}) (λ _, true)).
Proof. same_tx. Qed.
Lemma counts_dispatch i r : relates counting (transitionTask i T_READY T_QUEUED (λ t, t {{ queuedAt := Some (now r) }}) (λ _, true)).
Proof. by apply counts_transition. Qed.

Lemma same_abandon i n r : relates same_attempts (abandon_attempts i n r).
Proof.
  apply (rel_modify same_attempts). intros db. unfold same_attempts. cbn. apply dom_fmap_L.
Qed.

#[local] Hint Resolve same_complete same_fail same_suspend same_resolve same_pause same_resume same_cancel same_emit same_claim
  same_renew same_dispatch same_abandon same_start : frames.
#[local] Hint Resolve counts_complete counts_fail counts_suspend counts_resolve counts_pause counts_resume counts_cancel
  counts_abandon counts_start counts_emit counts_claim counts_renew counts_dispatch : frames.

(** *** Programs *)

Section programs.
Context (cfg : EngineConfig).
Notation recording_steps := (steps_ok (λ _ : World TaskQueue, True) (λ w w', recording (w_db w) (w_db w'))).

Ltac record_step := idtac; match goal with |- relates recording _ => apply recorded; solve [eauto with frames typeclass_instances] end.
Ltac record_program :=
  unfold transaction, dispatchReady, dispatchTask, enqueueSafely, enqueueRetrySafely, status_of;
  repeat stepwise_step recording record_step.

Lemma records_failTask i token err : recording_steps (failTask cfg i token err).
Proof. unfold failTask. record_program. Qed.
Lemma records_report c s : recording_steps (report cfg c s).
Proof. unfold report, failTask, completeTask, suspendForApproval. record_program. Qed.
Lemma records_renew leaseMs i token : recording_steps (_ ← renew cfg leaseMs i token; Ret tt).
Proof. unfold renew, renewLease. record_program. Qed.
Lemma records_maintenance : recording_steps maintenance.
Proof. unfold maintenance. record_program. Qed.

Lemma records_engine p : api cfg p → (∃ i wk, p = (_ ← startTask cfg i wk; Ret tt)) ∨ recording_steps p.
Proof.
  destruct 1; try (left; by eexists _, _); right; unfold renewLease, pauseExecution, resumeExecution, cancelExecution, startExecution,
    completeTask, failTask, suspendForApproval, resolveApproval, reconcile, redispatch, reenqueue, expire, resolveApproval; record_program.
Qed.
End programs.

(** *** Starting a task *)

(** The program knows that attempt [n] of task [i] was counted. *)
Definition was_counted (i : oid) (n : Z) (w : World TaskQueue) : Prop :=
  ∃ t, tasks (w_db w) !! i = Some t ∧ (n ≤ attempt t)%Z.

Section knowing.
Context (cfg : EngineConfig).

Notation records_inv := (λ w : World TaskQueue, counted_records (w_db w)).
Notation records_guar := (λ w w' : World TaskQueue, counting (w_db w) (w_db w')).
Notation knowing := (knows records_inv records_guar).

Lemma was_counted_stable i n : stable records_guar (was_counted i n).
Proof.
  intros w w' Hc (t & Ht & Hn). destruct (ct_old _ _ Hc i t Ht) as (u & Hu & _ & Ha). exists u. split; [done|lia].
Qed.

Lemma keeping {A} (p : prog (World TaskQueue) A) :
  steps_ok (λ _, True) (λ w w', recording (w_db w) (w_db w')) p → steps_ok records_inv records_guar p.
Proof. apply steps_ok_impl; [done|]. intros w w' Hw [_ Hr]. split; [by eapply recording_keeps|apply Hr]. Qed.

(** A program that needs no knowledge may forget what it has. *)
Lemma knows_any {A} (p : prog (World TaskQueue) A) F :
  steps_ok records_inv records_guar p → knowing F p (λ _ _, True).
Proof.
  revert F. induction p as [a|e|B f k IH]; intros F; cbn; [done..|]. intros Hp w HI HF. destruct (Hp w HI) as (? & ? & ?).
  split_and!; [done..|]. exists (λ _, True). split_and!; [by intros ???|done|by apply IH].
Qed.

Lemma knows_claim F i wk :
  knowing F (db_call (claimTask i wk (cfg_leaseMs cfg))) (λ o F',
    match o with Some t => F' = was_counted i (attempt t) | None => True end).
Proof.
  intros w HI _. unfold db_step.
  destruct (claimTask i wk (cfg_leaseMs cfg) (readings w) (w_db w)) as [[o db]|err] eqn:Hcl; cbn [snd fst w_db set_db].
  2: { split_and!; [done|reflexivity|]. exists (λ _, True). by split_and!; [intros ???| |]. }
  assert (recording (w_db w) db) as Hrec by (by eapply recorded; [apply counts_claim|apply same_claim|]).
  split_and!; [by eapply recording_keeps|apply Hrec|]. destruct o as [t|].
  - exists (was_counted i (attempt t)). split_and!; [apply was_counted_stable| |done].
    rewrite claimTask_spec in Hcl. destruct (tasks (w_db w) !! i) as [t0|] eqn:Ht; [|done].
    destruct (claimable _ t0); [|done]. apply ok_pair in Hcl as [Heq <-]. injection Heq as <-.
    eexists. split; [apply lookup_insert_eq|done].
  - exists (λ _, True). by split_and!; [intros ???| |].
Qed.

Lemma knows_create i t wk :
  knowing (was_counted i (attempt t)) (db_call (create_attempt i t wk)) (λ _ _, True).
Proof.
  intros w [H0 Hb] (u & Hu & Hn). unfold db_step.
  destruct (create_attempt i t wk (readings w) (w_db w)) as [[[] db]|err] eqn:Hc; cbn [snd fst w_db set_db].
  2: { split_and!; [done|reflexivity|]. exists (λ _, True). by split_and!; [intros ???| |]. }
  pose proof (counts_create_attempt i t wk (readings w) _ _ _ Hc) as Hcount.
  split_and!; [|done|exists (λ _, True); by split_and!; [intros ???| |]].
  unfold create_attempt in Hc. apply tx_bind_ok in Hc as (d & d' & [<- <-]%ok_pair & Hc).
  destruct (attempts (w_db w) !! _); [done|]. apply ok_pair in Hc as [_ <-].
  split; [exact H0|]. intros j n. cbn. rewrite dom_insert_L. intros [[= -> ->]%elem_of_singleton|Hin]%elem_of_union; [by exists u|].
  by apply Hb.
Qed.

Lemma knows_startTask F i wk : knowing F (startTask cfg i wk) (λ _ _, True).
Proof.
  unfold startTask. apply knows_bind. eapply knows_impl; [|apply knows_claim]. intros [t|] F' HF'; [|done]. subst F'.
  apply knows_bind. eapply knows_impl; [|apply knows_steps; [apply was_counted_stable|]].
  2: { apply keeping, stepwise_db_call; [apply _|]. intros r. apply recorded; [apply counts_abandon|apply same_abandon]. }
  intros [] F' ->. apply knows_bind. eapply knows_impl; [|apply knows_create]. intros [] F' _.
  apply knows_any, keeping. apply steps_ok_bind.
  { apply stepwise_db_call; [apply _|]. intros r. apply recorded; [apply counts_emit|apply same_emit]. }
  intros []. case_bool_decide.
  - apply steps_ok_bind; [apply records_failTask|done].
  - apply steps_ok_bind; [apply (stepwise_read recording)|]. intros x. apply steps_ok_bind; [apply (stepwise_read recording)|done].
Qed.

Lemma knows_process handlers wk leaseMs F i : knowing F (processTask cfg handlers wk leaseMs i) (λ _ _, True).
Proof.
  assert (∀ A (f : TaskQueue → res A * TaskQueue), steps_ok records_inv records_guar (queue_call f)) as Hq.
  { intros A f. apply keeping, (stepwise_queue_call recording). }
  unfold processTask. apply knows_bind. eapply knows_impl; [|apply knows_startTask]. intros [c|] F' _; apply knows_any.
  - apply steps_ok_bind; [apply Hq|]. intros b. apply steps_ok_bind; [|intros []; apply steps_ok_bind; [apply Hq|done]].
    unfold runTask. apply steps_ok_bind; [|intros s; apply keeping, records_report].
    intros w Hw. split_and!; [done|reflexivity|done].
  - apply steps_ok_bind; [apply Hq|done].
Qed.

Lemma knows_loop handlers wk leaseMs claimMs pollMs turns : ∀ b F,
  knowing F (loop cfg handlers wk leaseMs claimMs pollMs turns b) (λ _ _, True).
Proof.
  induction turns as [|n IH]; intros b F; [done|]. cbn [loop]. apply knows_bind.
  eapply (knows_impl _ _ _ (λ _ _, True)); [intros turn F' _; apply knows_bind; eapply knows_impl; [|apply IH]; done|].
  unfold loop_turn. apply knows_bind. eapply (knows_impl _ _ _ (λ _ _, True)).
  2: { apply knows_any, keeping, steps_ok_catch; [|done]. apply steps_ok_bind; [apply (stepwise_queue_call recording)|done]. }
  intros [[i|]|] F' _; [|done..]. apply knows_bind. eapply (knows_impl _ _ _ (λ _ _, True)); [done|].
  apply knows_catch; [done|]. apply knows_process.
Qed.

Lemma knows_worker p : worker_api cfg p → knowing (λ _, True) p (λ _ _, True).
Proof.
  destruct 1 as [p Hp|handlers wk leaseMs claimMs pollMs turns b|leaseMs i token|].
  - destruct (records_engine cfg p Hp) as [(i & wk & ->)|Hs]; [|by apply knows_any, keeping].
    apply knows_bind. eapply knows_impl; [|apply knows_startTask]. done.
  - apply knows_bind. eapply knows_impl; [|apply knows_loop]. done.
  - apply knows_any, keeping, records_renew.
  - apply knows_any, keeping, records_maintenance.
Qed.

(** In every world that the workers reach, whatever crashes. *)
Lemma reachable_records q w : reachable (worker_api cfg) outside (initial q) w → counted_records (w_db w).
Proof.
  apply (reachable_informed records_inv records_guar (worker_api cfg) outside knows_worker).
  - unfold outside. intros w1 w2 Ho Hw. rewrite Ho. split; [done|reflexivity].
  - split; cbn; [intros i t Ht; by destruct (lookup_empty_Some i t)|by intros i n ?%elem_of_empty].
Qed.
End knowing.
