(* ===== verification/Turns.v ===== *)
(** * One turn of a worker

    A worker takes an id from the queue.  Whatever the handler does, and whatever
    state a crash left the task in (finished already, RUNNING under a lease that
    lapsed, out of attempts), the turn leaves the world orderly and does some of
    the work that is left. *)

From S2P Require Import Prelude Program States Dag Models Retry TaskRepo Dispatcher Engine RunInv EngineTx EngineInv EngineStart.
From S2P Require Import EngineSafety EngineProps EngineSpec TaskQueue Worker WorkerProps Frames EndToEnd Records.

Local Open Scope string_scope.

(** [maxDelayMs = 60_000]. *)
Definition maxDelayMs : Z := 60000.

(** ** Orderly worlds *)

(** The limits that the routes accept for the attempts of a task. *)
Definition policy_ok (t : Task) : Prop := (1 ≤ maxAttempts t ∧ 0 ≤ baseDelayMs t)%Z.

(** A task between two turns of workers, whose id has the place [p]: when
    something is to be done for it, its id is in the queue. *)
Definition in_order (NOW : ms) (t : Task) (p : option place) : Prop :=
  policy_ok t ∧
  match t_status t with
  | T_QUEUED | T_RETRYING => is_Some p
  | T_RUNNING => is_Some p ∧ lease_expired t NOW = true
  | T_READY | T_WAITING_FOR_APPROVAL => False
  | T_PENDING | T_COMPLETED | T_FAILED | T_DEAD_LETTER | T_CANCELLED => True
  end.

(** An id that waits in the queue is due in time. *)
Definition waits_well (time : Z) (p : option place) : Prop :=
  match p with Some (Leased d) | Some (Delayed d) => (d ≤ time + maxDelayMs)%Z | _ => True end.

(** No run is paused. *)
Definition going (s : EXECUTION_STATUS) : Prop := s ≠ E_PAUSED.

Record orderly (cfg : EngineConfig) (w : World TaskQueue) : Prop := {
  or_inv : db_inv cfg (w_db w);
  or_queue : queue_ok (w_q w);
  or_up : q_up (w_q w) = true;
  or_random : (0 ≤ w_random w < 2 ^ 53)%Z;
  or_runs e x : executions (w_db w) !! e = Some x → going (x_status x);
  or_known i : is_Some (place_of (w_q w) i) → is_Some (tasks (w_db w) !! i);
  or_waits i : waits_well (q_time (w_q w)) (place_of (w_q w) i);
  or_task i t : tasks (w_db w) !! i = Some t → in_order (w_now w) t (place_of (w_q w) i);
  or_attempts i n : (i, n) ∈ dom (attempts (w_db w)) → ∃ t, tasks (w_db w) !! i = Some t ∧ (n ≤ attempt t)%Z
}.

(** What is left to do: the claims that are left to an unfinished task - one for each
    attempt it may have, and one to find that it has had them all - and the ids in
    the queue whose task has nothing to do. *)
Definition weight (t : Task) (p : option place) : Z :=
  let here := b2z (bool_decide (is_Some p)) in
  if task_finished (t_status t) then here
  else (Z.max 1 (maxAttempts t + 1 - attempt t) + if bool_decide (t_status t = T_PENDING) then here else 0)%Z.

Definition weight_of (w : World TaskQueue) (i : oid) : Z :=
  match tasks (w_db w) !! i with Some t => weight t (place_of (w_q w) i) | None => 0%Z end.

Definition work (w : World TaskQueue) : Z := sumZ (weight_of w) (elements (dom (tasks (w_db w)))).

Lemma weight_nonneg t p : (0 ≤ weight t p)%Z.
Proof. unfold weight, b2z. repeat case_match; lia. Qed.

Lemma weight_of_nonneg w i : (0 ≤ weight_of w i)%Z.
Proof. unfold weight_of. destruct (tasks (w_db w) !! i) as [t|]; [apply weight_nonneg|done]. Qed.

Lemma weight_unfinished t p : task_finished (t_status t) = false → (1 ≤ weight t p)%Z.
Proof. intros Hf. unfold weight, b2z. rewrite Hf. repeat case_match; lia. Qed.

(** ** Other tasks *)

(** What a turn does to the tasks it does not run: nothing, or it queues a child,
    or it cancels a task of a run that failed. *)
Record similar (t : Task) (p : option place) (t' : Task) (p' : option place) : Prop := {
  sm_snapshot : snapshot t' = snapshot t;
  sm_attempt : attempt t' = attempt t;
  sm_case :
    t_status t' = t_status t ∧ leaseExpiresAt t' = leaseExpiresAt t ∧ p' = p ∨
    t_status t = T_PENDING ∧ t_status t' = T_QUEUED ∧ p' = Some (default Ready p) ∨
    task_finished (t_status t) = false ∧ t_status t' = T_CANCELLED ∧ p' = p
}.

Lemma similar_refl t p : similar t p t p.
Proof. split; [done..|]. by left. Qed.

Lemma snapshot_limits t t' : snapshot t' = snapshot t → maxAttempts t' = maxAttempts t ∧ baseDelayMs t' = baseDelayMs t.
Proof. unfold snapshot. intros H. by simplify_eq. Qed.

Lemma snapshot_policy t t' : snapshot t' = snapshot t → policy_ok t → policy_ok t'.
Proof. unfold policy_ok. by intros [-> ->]%snapshot_limits. Qed.

Lemma similar_order NOW t p t' p' : similar t p t' p' → in_order NOW t p → in_order NOW t' p'.
Proof.
  intros [Hsn Ha Hc] [Hl Hs]. split; [by eapply snapshot_policy|]. unfold lease_expired in *.
  destruct Hc as [(-> & -> & ->)|[(Hp & -> & ->)|(Hu & -> & ->)]]; [done|by eexists|done].
Qed.

Lemma similar_weight t p t' p' : similar t p t' p' → (weight t' p' ≤ weight t p)%Z.
Proof.
  intros [[Hm _]%snapshot_limits Ha Hc]. unfold weight. rewrite Hm, Ha.
  destruct Hc as [(-> & _ & ->)|[(-> & -> & ->)|(Hu & -> & ->)]]; [done|rewrite ?Hu; cbn [task_finished]; unfold b2z..].
  all: repeat case_bool_decide; try done; lia.
Qed.

Lemma similar_waits t p t' p' time : similar t p t' p' → waits_well time p → waits_well time p'.
Proof. intros [_ _ [(_ & _ & ->)|[(_ & _ & ->)|(_ & _ & ->)]]]; [done| |done]. by destruct p. Qed.

(** ** A turn *)

(** A turn that took the id [i]. *)
Record served (cfg : EngineConfig) (w w' : World TaskQueue) (i : oid) : Prop := {
  sv_inv : db_inv cfg (w_db w');
  sv_queue : queue_ok (w_q w');
  sv_up : q_up (w_q w') = true;
  sv_time : q_time (w_q w') = q_time (w_q w);
  sv_readings : readings w' = readings w;
  sv_runs : same_runs w w';
  sv_going e x : executions (w_db w') !! e = Some x → going (x_status x);
  sv_dom : dom (tasks (w_db w')) = dom (tasks (w_db w));
  sv_own : ∃ t t', tasks (w_db w) !! i = Some t ∧ tasks (w_db w') !! i = Some t' ∧ (attempt t ≤ attempt t')%Z ∧
    in_order (w_now w) t' (place_of (w_q w') i) ∧ waits_well (q_time (w_q w)) (place_of (w_q w') i) ∧
    (weight t' (place_of (w_q w') i) < weight t (place_of (w_q w) i))%Z;
  sv_other j t : j ≠ i → tasks (w_db w) !! j = Some t →
    ∃ t', tasks (w_db w') !! j = Some t' ∧ similar t (place_of (w_q w) j) t' (place_of (w_q w') j);
  sv_nowhere j : j ≠ i → tasks (w_db w) !! j = None → place_of (w_q w') j = place_of (w_q w) j;
  sv_attempts j n : (j, n) ∈ dom (attempts (w_db w')) → (j, n) ∈ dom (attempts (w_db w)) ∨
    j = i ∧ ∃ t', tasks (w_db w') !! i = Some t' ∧ (n ≤ attempt t')%Z
}.

Lemma readings_now (w w' : World TaskQueue) : readings w' = readings w → w_now w' = w_now w.
Proof. by intros [= _ ? _]. Qed.
Lemma readings_random (w w' : World TaskQueue) : readings w' = readings w → w_random w' = w_random w.
Proof. by intros [= _ _ ?]. Qed.

Lemma served_orderly cfg w w' i : orderly cfg w → served cfg w w' i → orderly cfg w'.
Proof.
  intros Ho Hs. destruct (sv_own _ _ _ _ Hs) as (t & t' & Ht & Ht' & Hatt & Hin & Hwait & _).
  pose proof (sv_readings _ _ _ _ Hs) as Hrd.
  assert (∀ j u, tasks (w_db w) !! j = Some u → j ≠ i → ∃ u', tasks (w_db w') !! j = Some u' ∧ attempt u' = attempt u ∧
    in_order (w_now w) u' (place_of (w_q w') j) ∧ waits_well (q_time (w_q w)) (place_of (w_q w') j)) as Hothers.
  { intros j u Hu Hne. destruct (sv_other _ _ _ _ Hs j u Hne Hu) as (u' & Hu' & Hsim). exists u'.
    split_and!; [done|by destruct Hsim|by apply (similar_order _ _ _ _ _ Hsim), (or_task _ _ Ho)|by apply (similar_waits _ _ _ _ _ Hsim), (or_waits _ _ Ho)]. }
  split; [apply Hs|apply Hs|apply Hs|rewrite (readings_random _ _ Hrd); apply Ho|apply (sv_going _ _ _ _ Hs)|..].
  - intros j Hj. apply elem_of_dom. rewrite (sv_dom _ _ _ _ Hs). apply elem_of_dom.
    destruct (decide (j = i)) as [->|Hne]; [by eexists|]. destruct (tasks (w_db w) !! j) eqn:Hu; [by eexists|].
    rewrite (sv_nowhere _ _ _ _ Hs j Hne Hu) in Hj. by rewrite <- Hu; apply (or_known _ _ Ho).
  - intros j. rewrite (sv_time _ _ _ _ Hs). destruct (decide (j = i)) as [->|Hne]; [done|].
    destruct (tasks (w_db w) !! j) as [u|] eqn:Hu; [by destruct (Hothers j u Hu Hne) as (? & ? & ? & ? & ?)|].
    rewrite (sv_nowhere _ _ _ _ Hs j Hne Hu). apply (or_waits _ _ Ho).
  - intros j u' Hu'. rewrite (readings_now _ _ Hrd). destruct (decide (j = i)) as [->|Hne]; [congruence|].
    destruct (tasks (w_db w) !! j) as [u|] eqn:Hu.
    + destruct (Hothers j u Hu Hne) as (v & Hv & _ & ? & _). congruence.
    + assert (j ∈ dom (tasks (w_db w'))) as Hd by (apply elem_of_dom; by eexists).
      rewrite (sv_dom _ _ _ _ Hs) in Hd. apply elem_of_dom in Hd as [? ?]. congruence.
  - intros j n [(u & Hu & Hn)%(or_attempts _ _ Ho)|[-> ?]]%(sv_attempts _ _ _ _ Hs); [|done].
    destruct (decide (j = i)) as [->|Hne]; [exists t'; split; [done|]; assert (u = t) as -> by congruence; lia|].
    destruct (Hothers j u Hu Hne) as (v & Hv & Hva & _). exists v. split; [done|lia].
Qed.

Lemma served_work cfg w w' i : served cfg w w' i → (work w' < work w)%Z.
Proof.
  intros Hs. destruct (sv_own _ _ _ _ Hs) as (t & t' & Ht & Ht' & _ & _ & _ & Hlt).
  unfold work. rewrite (sv_dom _ _ _ _ Hs). apply (sumZ_lt _ _ _ i).
  - intros j _. destruct (decide (j = i)) as [->|Hne]; [unfold weight_of; rewrite Ht, Ht'; lia|].
    destruct (tasks (w_db w) !! j) as [u|] eqn:Hu.
    + destruct (sv_other _ _ _ _ Hs j u Hne Hu) as (u' & Hu' & Hsim). unfold weight_of. rewrite Hu, Hu'.
      by apply (similar_weight _ _ _ _ Hsim).
    + assert (tasks (w_db w') !! j = None) as Hn.
      { apply not_elem_of_dom. rewrite (sv_dom _ _ _ _ Hs). by apply not_elem_of_dom. }
      unfold weight_of. by rewrite Hu, Hn.
  - apply elem_of_elements, elem_of_dom. by eexists.
  - unfold weight_of. by rewrite Ht, Ht'.
Qed.

(** *** A task for which nothing is to be done *)

Lemma run_startTask_none cfg (w : World TaskQueue) i wk t :
  tasks (w_db w) !! i = Some t → claimable (w_now w) t = false → run (startTask cfg i wk) w = (Ok None, w).
Proof.
  intros Ht Hc. unfold startTask. rewrite run_bind, run_db_call. unfold db_step.
  rewrite claimTask_spec, Ht. change (NOW (readings w)) with (w_now w). by rewrite Hc, set_db_id.
Qed.

(** In an orderly world such a task is PENDING or has finished. *)
Lemma unclaimable_idle NOW t p : in_order NOW t p → claimable NOW t = false →
  t_status t = T_PENDING ∨ task_finished (t_status t) = true.
Proof. unfold in_order, claimable. intros [_ Hs] Hc. destruct (t_status t); auto; try done. destruct Hs. congruence. Qed.

Lemma idle_weight t p : t_status t = T_PENDING ∨ task_finished (t_status t) = true → is_Some p → (weight t None < weight t p)%Z.
Proof.
  intros Hs Hp. unfold weight, b2z. rewrite (bool_decide_eq_true_2 (is_Some p)) by done.
  rewrite bool_decide_eq_false_2 by (by intros [? ?]). destruct Hs as [-> | ->]; [|lia].
  cbn [task_finished]. rewrite bool_decide_eq_true_2 by done. lia.
Qed.

(** The run of a task that is not finished. *)
Lemma orderly_running cfg w i t :
  orderly cfg w → tasks (w_db w) !! i = Some t → task_finished (t_status t) = false →
  ∃ x, executions (w_db w) !! t_executionId t = Some x ∧ (t_status t = T_RUNNING ∨ x_status x = E_RUNNING).
Proof.
  intros Ho Ht Hu. destruct (di_exec _ _ (or_inv _ _ Ho) i t Ht) as [x Hx]. exists x. split; [done|].
  pose proof (di_run _ _ (or_inv _ _ Ho) _ x Hx) as Hrun.
  assert (run_tasks (tasks (w_db w)) (t_executionId t) !! i = Some t) as Hit by (by apply run_tasks_Some).
  pose proof (or_runs _ _ Ho _ x Hx) as Hg. destruct (ri_status _ _ Hrun) as [Hp Hw].
  destruct (x_status x) eqn:Hs; try done; [by right|..].
  - by rewrite (ri_completed _ _ Hrun i t Hs Hit) in Hu.
  - pose proof (ri_failed _ _ Hrun i t Hs Hit) as Hf. destruct (or_task _ _ Ho i t Ht) as [_ Hst].
    destruct (t_status t); try done. by left.
  - by rewrite (ri_cancelled _ _ Hrun i t Hs Hit) in Hu.
Qed.

(** A leased id goes to the delayed ones, and the acknowledgement does nothing. *)
Lemma delayed_acked i q d delay :
  queue_ok q → q_up q = true → place_of q i = Some (Leased d) →
  let q' := (enqueueDelayed i delay q).2 in
  queue_ack i q' = (Ok false, q') ∧ queue_ok q' ∧ q_up q' = true ∧ q_time q' = q_time q ∧
  place_of q' i = Some (Delayed (q_time q + Z.max 0 delay)%Z) ∧ ∀ j, j ≠ i → place_of q' j = place_of q j.
Proof.
  intros Hq Hup Hp q'. destruct (retry_survives_ack_lemma q i d delay Hq Hup Hp) as [Hack Hi].
  assert (q' = exec (EnqueueDelayed i (Z.max 0 delay)) q) as Heq.
  { unfold q'. simpl. unfold queue_enqueueDelayed, redis, returned_1. rewrite Hup. by destruct (wfEnqueueDelayed _ _ q). }
  split_and!; [done|rewrite Heq; by apply exec_ok| | |done|].
  - rewrite Heq. cbn [exec]. unfold wfEnqueueDelayed. cbn zeta. by destruct (_ || _).
  - rewrite Heq. cbn [exec]. unfold wfEnqueueDelayed. cbn zeta. by destruct (_ || _).
  - intros j Hne. rewrite Heq. pose proof (exec_moves (EnqueueDelayed i (Z.max 0 delay)) q j Hq) as Hm. cbn [moves] in Hm.
    by rewrite decide_False in Hm.
Qed.

Section turn.
Context (cfg : EngineConfig) (handlers : string → option Handler) (wk : string) (leaseMs : Z).

Lemma stale_served w q1 i t d :
  orderly cfg w → tasks (w_db w) !! i = Some t → claimable (w_now w) t = false → place_of (w_q w) i = Some Ready →
  queue_ok q1 → q_up q1 = true → q_leases q1 !! i = Some d → q_time q1 = q_time (w_q w) →
  (∀ j, j ≠ i → place_of q1 j = place_of (w_q w) j) →
  ∃ w', run (processTask cfg handlers wk leaseMs i) (set_q w q1) = (Ok tt, w') ∧ served cfg w w' i.
Proof.
  intros Ho Ht Hf Hp Hq1 Hup1 Hd Htm1 Hpl1.
  destruct (acked i q1 d Hq1 Hup1 Hd) as (Hack & Hq & Hup & Htm & Hgone & Hothers).
  exists (set_q w (queue_ack i q1).2). split.
  { unfold processTask. rewrite run_bind, (run_startTask_none cfg _ i wk t) by done.
    cbv beta iota. rewrite run_bind, run_queue_call. cbn [w_q set_q]. by rewrite Hack. }
  pose proof (or_task _ _ Ho i t Ht) as Hin. pose proof (unclaimable_idle _ _ _ Hin Hf) as Hidle.
  split; cbn [w_db w_q set_q]; try done; [apply Ho|congruence|intros e x Hx; by exists x|apply Ho|..].
  - exists t, t. rewrite Hgone. split_and!; [done|done|lia| |done|by apply idle_weight; [|rewrite Hp]].
    destruct Hin as [Hl _]. split; [done|]. destruct Hidle as [-> | Hs]; [done|by destruct (t_status t)].
  - intros j u Hne Hu. exists u. split; [done|]. rewrite Hothers, Hpl1 by done. apply similar_refl.
  - intros j Hne _. by rewrite Hothers, Hpl1.
  - by left.
Qed.

(** *** A turn that completes its task *)

Lemma succeeded_going x at_ : going (x_status x) → going (x_status (succeeded_execution x at_)).
Proof. by destruct (succeeded_status x at_) as [(_ & _ & ->)|[-> _]]. Qed.

Lemma orderly_not_ready w j u : orderly cfg w → tasks (w_db w) !! j = Some u → t_status u ≠ T_READY.
Proof. intros Ho Hu Hs. destruct (or_task _ _ Ho j u Hu) as [_ H]. by rewrite Hs in H. Qed.

Lemma on_completion_lease run' e x t1 at_ u : leaseExpiresAt (on_completion run' e x t1 at_ u) = leaseExpiresAt u.
Proof. unfold on_completion, dispatched, after_success, promote_child, notify_child. by repeat case_match. Qed.

Lemma completion_served w w' i e x t1 run' out at_ :
  orderly cfg w → completion cfg w w' i e x t1 run' out at_ →
  (∃ t, tasks (w_db w) !! i = Some t ∧ task_finished (t_status t) = false) → served cfg w w' i.
Proof.
  intros Ho Hc (t & Ht & Hu). pose proof (λ j u, orderly_not_ready w j u Ho) as Hready.
  destruct (completion_own cfg w w' i e x t1 run' out at_ Hc) as (Hi & His & Hia).
  destruct (co_before _ _ _ _ _ _ _ _ _ _ Hc) as (t0 & Ht0 & _ & Hsn & Hat). assert (t0 = t) as -> by congruence.
  destruct (or_task _ _ Ho i t Ht) as [Hl _].
  set (f := on_completion run' e x t1 at_) in *.
  split; [apply Hc..| | | | | | |].
  - by eapply completion_runs.
  - intros k y. rewrite (co_executions _ _ _ _ _ _ _ _ _ _ Hc), lookup_insert_Some.
    intros [[_ <-]|[_ Hy]]; [|by eapply or_runs]. apply succeeded_going, (or_runs _ _ Ho e), Hc.
  - rewrite (co_tasks _ _ _ _ _ _ _ _ _ _ Hc), dom_fmap_L, dom_insert_lookup_L; [done|by eexists].
  - exists t. eexists. split; [done|]. split; [exact Hi|]. rewrite Hia, (co_gone _ _ _ _ _ _ _ _ _ _ Hc).
    split_and!; [lia| |done|].
    + unfold in_order. rewrite His. split; [|done]. apply (snapshot_policy t); [|done].
      unfold f. rewrite on_completion_snapshot. exact Hsn.
    + pose proof (weight_unfinished t (place_of (w_q w) i) Hu). unfold weight at 1. rewrite His. cbn. lia.
  - intros j u Hne Hj. rewrite (completion_other cfg w w' i e x t1 run' out at_ Hc j Hne), Hj. eexists. split; [done|].
    split.
    + apply on_completion_snapshot.
    + by destruct (on_completion_fields run' e x t1 at_ u) as (-> & _).
    + destruct (completion_place cfg w w' i e x t1 run' out at_ Hready Hc j u Hne Hj) as [[? ?]|?]; [left|right; by left].
      split_and!; [done|apply on_completion_lease|done].
  - intros j Hne Hj. by apply (completion_nowhere cfg w w' i e x t1 run' out at_ Hc).
  - intros j n. rewrite (co_attempts _ _ _ _ _ _ _ _ _ _ Hc). intros [[= -> ->]%elem_of_singleton|Hin]%elem_of_union; [right|by left].
    split; [done|]. eexists. split; [exact Hi|]. rewrite Hia. lia.
Qed.

(** *** A turn that fails *)

Hypothesis (Hdelayed : cfg_delayed cfg = true).
Hypothesis (Hbackoff : ∀ r a b, cfg_backoff cfg r a b = computeBackoff a b maxDelayMs r).

Lemma backoff_short r a b : (0 ≤ b → 0 ≤ r < 2 ^ 53 → Z.max 0 (cfg_backoff cfg r a b) ≤ maxDelayMs)%Z.
Proof.
  intros Hb Hr. rewrite Hbackoff. destruct (computeBackoff_bounds a b maxDelayMs r Hb) as [_ Hle]; [done..|].
  unfold backoff_cap in Hle. unfold maxDelayMs in *. lia.
Qed.

Lemma failTask_attempts i token err (w : World TaskQueue) :
  dom (attempts (w_db (run (failTask cfg i token err) w).2)) = dom (attempts (w_db w)).
Proof. apply (stepwise_run recording), records_failTask. Qed.

Lemma failTask_readings i token err (w : World TaskQueue) : readings (run (failTask cfg i token err) w).2 = readings w.
Proof.
  apply (steps_ok_run (λ w', readings w' = readings w) (λ _ _, True)); [|done].
  apply steps_ok_bind; [apply readings_db_call|]. intros res. apply steps_ok_bind; [|done]. destruct res; try done.
  apply steps_ok_catch; [|done]. destruct (cfg_delayed cfg); apply readings_queue_call.
Qed.

Section failing.
Context (w w2 : World TaskQueue) (i : oid) (t : Task) (c : Claimed) (x : WorkflowExecution) (err : thrown).
Hypothesis (Ho : orderly cfg w) (Hb : begun cfg wk w w2 i t c).
Hypothesis (Hst : claimable (w_now w) t = true).
Hypothesis (Hx : executions (w_db w) !! t_executionId t = Some x).
Hypothesis (Htruthy : truthy_thrown err = true).
Let t1 := claimed_task c.

Lemma failing_task : snapshot t1 = snapshot t ∧ attempt t1 = (attempt t + 1)%Z ∧ t_executionId t1 = t_executionId t.
Proof. unfold t1. by rewrite (be_task _ _ _ _ _ _ _ Hb). Qed.

Lemma failing_policy : policy_ok t1.
Proof. apply (snapshot_policy t); [apply failing_task|]. apply (or_task _ _ Ho i t), Hb. Qed.

(** Its weight before. *)
Lemma failing_weight p : (1 ≤ weight t p ∧ maxAttempts t - attempt t + 1 ≤ weight t p)%Z.
Proof.
  assert (task_finished (t_status t) = false) as Hu by (unfold claimable in Hst; by destruct (t_status t)).
  split; [by apply weight_unfinished|]. unfold weight, b2z. rewrite Hu. repeat case_match; lia.
Qed.

Lemma failing_attempts (w3 : World TaskQueue) j n :
  dom (attempts (w_db w3)) = dom (attempts (w_db w2)) → (j, n) ∈ dom (attempts (w_db w3)) →
  (j, n) ∈ dom (attempts (w_db w)) ∨ j = i ∧ n = attempt t1.
Proof.
  intros ->. rewrite (be_attempts _ _ _ _ _ _ _ Hb). destruct failing_task as (_ & -> & _).
  intros [[= -> ->]%elem_of_singleton|?]%elem_of_union; [by right|by left].
Qed.

Lemma ending_retries :
  may_retry t1 x err = true → ∃ w', run (ending cfg c (Rejected err)) w2 = (Ok tt, w') ∧ served cfg w w' i.
Proof.
  intros Hmay. pose proof failing_policy as Hpol. destruct failing_task as (Hsn & Hat & He).
  destruct Hb as [Ht Hci Hct Hw2 Hxs Hts Hl Hq2 Hup2 [d2 Hi2] Hpl2 Htm2 Hrd2 Hdom2]. fold t1 in Hct, Hts, Hl.
  destruct (snapshot_limits _ _ Hsn) as [Hmx _].
  assert (Hx2 : executions (w_db w2) !! t_executionId t1 = Some x) by (by rewrite Hxs, He).
  destruct (failTask_retries cfg w2 i (leaseToken t1) t1 x err Hl Hx2 Hmay) as (w3 & Hrun3 & Hxs3 & Hts3 & Hq3).
  specialize (Hq3 Hdelayed). set (delay := cfg_backoff cfg _ _ _) in *.
  pose proof (failTask_attempts i (leaseToken t1) err w2) as Hdom3.
  pose proof (failTask_readings i (leaseToken t1) err w2) as Hrd3.
  pose proof (steps_ok_run _ _ _ w2 (ok_failTask cfg i (leaseToken t1) err) Hw2) as Hinv3.
  rewrite Hrun3 in Hdom3, Hrd3, Hinv3. cbn [snd] in Hdom3, Hrd3, Hinv3.
  destruct (delayed_acked i (w_q w2) d2 delay Hq2 Hup2 Hi2) as (Hack & Hq4 & Hup4 & Htm4 & Hi4 & Hpl4).
  rewrite <- Hq3 in Hack, Hq4, Hup4, Htm4, Hi4, Hpl4.
  assert (Hdel : (Z.max 0 delay ≤ maxDelayMs)%Z).
  { apply backoff_short; [apply Hpol|]. rewrite (readings_random _ _ Hrd2). apply Ho. }
  rewrite Hts, insert_insert_eq in Hts3.
  exists w3. split.
  { unfold ending, report. cbn [outcome_of]. rewrite Htruthy, Hci, !run_bind. fold t1. rewrite Hrun3. cbv beta iota.
    cbn [run]. by rewrite run_bind, run_queue_call, Hack, set_q_id. }
  unfold may_retry in Hmay. apply andb_true_iff in Hmay as [[_ Hleft%bool_decide_eq_true]%andb_true_iff _].
  split; [done..|congruence|congruence| | | | | | |].
  - intros e y Hy. exists y. by rewrite Hxs3, Hxs.
  - intros e y. rewrite Hxs3, Hxs. apply (or_runs _ _ Ho).
  - rewrite Hts3, dom_insert_lookup_L; [done|by eexists].
  - exists t. eexists. split; [done|]. split; [rewrite Hts3; apply lookup_insert_eq|]. rewrite Hi4.
    split_and!; [change (attempt (retrying_task _ _ _ t1)) with (attempt t1); lia| |cbn; lia|].
    + split; [exact Hpol|by eexists].
    + destruct (failing_weight (place_of (w_q w) i)) as [_ Hw]. unfold weight at 1.
      change (Z.max 1 (maxAttempts t1 + 1 - attempt t1) + 0 < weight t (place_of (w_q w) i))%Z. lia.
  - intros j u Hne Hu. exists u. rewrite Hts3, lookup_insert_ne by done. split; [done|].
    rewrite Hpl4, Hpl2 by done. apply similar_refl.
  - intros j Hne _. by rewrite Hpl4, Hpl2.
  - intros j n [?|[-> ->]]%(failing_attempts w3 j n Hdom3); [by left|]. right. split; [done|].
    eexists. split; [rewrite Hts3; apply lookup_insert_eq|]. done.
Qed.

(** What fail-fast does to another task. *)
Lemma fail_fast_similar at_ j u : j ≠ i → tasks (w_db w) !! j = Some u →
  similar u (place_of (w_q w) j) (if of_run (t_executionId t) u then fail_fast x at_ u else u) (place_of (w_q w) j).
Proof.
  intros Hne Hu. destruct (of_run _ u); [|apply similar_refl]. unfold fail_fast.
  destruct (live (x_status x) && unstarted_task u) eqn:Hs; [|apply similar_refl]. apply andb_true_iff in Hs as [_ Hs].
  split; [done..|]. right; right. split_and!; [|done|done].
  pose proof (unstarted_unfinished u Hs) as Hf. unfold unfinished in Hf. by apply negb_true_iff in Hf.
Qed.

Lemma fail_run_going n at_ error : going (x_status (fail_run x n at_ error)).
Proof.
  pose proof (or_runs _ _ Ho _ x Hx) as Hg. unfold fail_run. by destruct (live (x_status x)).
Qed.

Lemma ending_fails :
  may_retry t1 x err = false → ∃ w', run (ending cfg c (Rejected err)) w2 = (Ok tt, w') ∧ served cfg w w' i.
Proof.
  intros Hmay. pose proof failing_policy as Hpol. destruct failing_task as (Hsn & Hat & He).
  destruct Hb as [Ht Hci Hct Hw2 Hxs Hts Hl Hq2 Hup2 [d2 Hi2] Hpl2 Htm2 Hrd2 Hdom2]. fold t1 in Hct, Hts, Hl.
  assert (Hx2 : executions (w_db w2) !! t_executionId t1 = Some x) by (by rewrite Hxs, He).
  destruct (failTask_fails cfg w2 i (leaseToken t1) t1 x err Hl Hx2 Hmay) as (w3 & n & Hrun3 & Hxs3 & Hts3 & Hq3).
  pose proof (failTask_attempts i (leaseToken t1) err w2) as Hdom3.
  pose proof (failTask_readings i (leaseToken t1) err w2) as Hrd3.
  pose proof (steps_ok_run _ _ _ w2 (ok_failTask cfg i (leaseToken t1) err) Hw2) as Hinv3.
  rewrite Hrun3 in Hdom3, Hrd3, Hinv3. cbn [snd] in Hdom3, Hrd3, Hinv3.
  set (o := fail_outcome t1 err) in *. set (t' := failed_task o (error_message err) (w_clock w2) t1) in *.
  apply (place_leased _ _ _ Hq2) in Hi2. rewrite <- Hq3 in Hq2, Hup2, Hi2.
  destruct (acked i (w_q w3) d2 Hq2 Hup2 Hi2) as (Hack & Hq4 & Hup4 & Htm4 & Hi4 & Hpl4).
  rewrite Hts, insert_insert_eq in Hts3. rewrite He in Hts3, Hxs3.
  assert (tasks (w_db w3) !! i = Some t') as Hi3.
  { rewrite Hts3, <- He. apply failed_own_task, fail_outcome_cases. }
  assert (task_finished (t_status t') = true) as Hfin by (change (task_finished o = true); unfold o; by destruct (fail_outcome_cases t1 err) as [-> | ->]).
  exists (set_q w3 (queue_ack i (w_q w3)).2). split.
  { unfold ending, report. cbn [outcome_of]. rewrite Htruthy, Hci, !run_bind. fold t1. rewrite Hrun3. cbv beta iota.
    cbn [run]. by rewrite run_bind, run_queue_call, Hack. }
  split; cbn [w_db w_q set_q]; [done..|congruence|change (readings w3 = readings w); congruence| | | | | | |].
  - intros e y Hy. cbn [w_db set_q]. rewrite Hxs3, Hxs. destruct (decide (e = t_executionId t)) as [->|Hne].
    + rewrite lookup_insert_eq. eexists. split; [done|]. rewrite Hx in Hy. injection Hy as <-. unfold fail_run. by destruct (live _).
    + rewrite lookup_insert_ne by done. by exists y.
  - intros e y. rewrite Hxs3, Hxs, lookup_insert_Some. intros [[_ <-]|[_ Hy]]; [|by apply (or_runs _ _ Ho e)].
    apply fail_run_going.
  - rewrite Hts3. unfold on_run. rewrite dom_fmap_L, dom_insert_lookup_L; [done|by eexists].
  - exists t, t'. rewrite Hi4. split_and!; [done|done|change (attempt t') with (attempt t1); lia| |done|].
    + split; [exact Hpol|]. by destruct (t_status t').
    + destruct (failing_weight (place_of (w_q w) i)) as [Hw _]. unfold weight at 1. rewrite Hfin. cbn. lia.
  - intros j u Hne Hu. rewrite Hts3. unfold on_run. rewrite lookup_fmap, lookup_insert_ne, Hu by done. eexists. split; [done|].
    rewrite Hpl4, Hq3, Hpl2 by done. by apply fail_fast_similar.
  - intros j Hne _. by rewrite Hpl4, Hq3, Hpl2.
  - intros j m [?|[-> ->]]%(failing_attempts w3 j m Hdom3); [by left|]. right. split; [done|]. by exists t'.
Qed.
End failing.

(** *** The first steps of a turn *)

(** A claim beyond the limit of attempts ends as the failure that names the workers that died. *)
Definition poison (c : Claimed) : settled handler_output := Rejected (new_Error (poison_message (claimed_task c))).

Lemma process_poisoned (w : World TaskQueue) q1 i t d :
  world_inv cfg w → tasks (w_db w) !! i = Some t → claimable (w_now w) t = true →
  (∀ n, (i, n) ∈ dom (attempts (w_db w)) → n ≤ attempt t)%Z → (maxAttempts t < attempt t + 1)%Z →
  queue_ok q1 → q_up q1 = true → q_leases q1 !! i = Some d → q_time q1 = q_time (w_q w) →
  (∀ j, j ≠ i → place_of q1 j = place_of (w_q w) j) →
  ∃ c w2, run (processTask cfg handlers wk leaseMs i) (set_q w q1) = run (ending cfg c (poison c)) w2 ∧
    begun cfg wk w w2 i t c.
Proof.
  intros Hw Ht Hc Hatt Hmax Hq1 Hup1 Hd1 Htm1 Hpl1.
  assert (attempts (w_db w) !! (i, (attempt t + 1)%Z) = None) as Hnew.
  { apply not_elem_of_dom. intros Hn%Hatt. lia. }
  destruct (run_startTask_keeps cfg (set_q w q1) i wk t Ht Hc Hnew) as (w1 & Hrun & Hxs & Hts & Hw1 & Hdom & Hinv).
  specialize (Hinv Hw). unfold after_claim in Hrun. set (t1 := claimed_now cfg (set_q w q1) wk t) in *.
  rewrite bool_decide_eq_true_2 in Hrun by (change (maxAttempts t < attempt t + 1)%Z; lia).
  exists {| claimed_id := i; claimed_task := t1; claimed_input := JNull; claimed_parents := ∅ |}, w1. split.
  - unfold processTask, ending, report, poison. rewrite run_bind, Hrun. cbn [outcome_of claimed_task claimed_id].
    rewrite !run_bind. change (truthy_thrown (new_Error (poison_message t1))) with true. cbv beta iota. rewrite run_bind.
    destruct (run (failTask cfg i (leaseToken t1) (new_Error (poison_message t1))) w1) as [[r|e] w3]; cbn [run]; by rewrite ?run_bind.
  - split; try done; [|by rewrite Hw1|by rewrite Hw1|exists d; rewrite Hw1; by apply place_leased|by rewrite Hw1..].
    split; [|done]. change (tasks (w_db w1) !! i = Some t1). by rewrite Hts, lookup_insert_eq.
Qed.

(** No handler asks for an approval. *)
Definition never_asks : Prop := ∀ c w request, handler_result handlers c w ≠ Resolved (AwaitApproval request).

Lemma outcome_cases s :
  (∀ request, s ≠ Resolved (AwaitApproval request)) →
  (∃ out failure, outcome_of s = (Output out, failure) ∧ truthy_thrown failure = false) ∨
  ∃ err, s = Rejected err ∧ truthy_thrown err = true.
Proof.
  intros Hs. destruct s as [[out|request]|err]; [left; by exists out, Nullish|by destruct (Hs request)|].
  destruct (truthy_thrown err) eqn:He; [right; by exists err|left; by exists None, err].
Qed.

Hypothesis (Hnever : never_asks).

Lemma process_serves w q1 i t d :
  orderly cfg w → tasks (w_db w) !! i = Some t → place_of (w_q w) i = Some Ready →
  queue_ok q1 → q_up q1 = true → q_leases q1 !! i = Some d → q_time q1 = q_time (w_q w) →
  (∀ j, j ≠ i → place_of q1 j = place_of (w_q w) j) →
  ∃ w', run (processTask cfg handlers wk leaseMs i) (set_q w q1) = (Ok tt, w') ∧ served cfg w w' i.
Proof.
  intros Ho Ht Hp Hq1 Hup1 Hd Htm1 Hpl1.
  destruct (claimable (w_now w) t) eqn:Hc; [|by apply (stale_served w q1 i t d)].
  assert (task_finished (t_status t) = false) as Hf by (unfold claimable in Hc; by destruct (t_status t)).
  destruct (di_exec _ _ (or_inv _ _ Ho) i t Ht) as [x Hx].
  assert (∀ n, (i, n) ∈ dom (attempts (w_db w)) → n ≤ attempt t)%Z as Hatt.
  { intros n (u & Hu & Hn)%(or_attempts _ _ Ho). assert (u = t) as -> by congruence. lia. }
  destruct (decide (attempt t + 1 ≤ maxAttempts t)%Z) as [Hmax|Hmax].
  - destruct (process_begins cfg handlers wk leaseMs w q1 i t d) as (c & w2 & -> & Hb); try done; [apply Ho|].
    destruct (outcome_cases (handler_result handlers c w2)) as [(out & failure & Hout & Hfail)|(err & -> & Herr)];
      [by apply Hnever| |].
    + destruct (ending_completes cfg handlers wk w w2 i t c (handler_result handlers c w2) x out failure Hb)
        as (w' & run' & at_ & Hend & Hco); [by intros Hst; rewrite Hst in Hf|done..|].
      exists w'. split; [done|]. eapply completion_served; [done|done|by exists t].
    + destruct (may_retry (claimed_task c) x err) eqn:Hmay; [by eapply ending_retries|by eapply ending_fails].
  - destruct (process_poisoned w q1 i t d) as (c & w2 & -> & Hb); try done; [apply Ho|lia|].
    apply (ending_fails w w2 i t c x); try done.
    destruct (failing_task w w2 i t c Hb) as (Hsn & Hat & _). destruct (snapshot_limits _ _ Hsn) as [Hm _].
    unfold may_retry. rewrite Hm, Hat, bool_decide_eq_false_2 by lia. by rewrite andb_false_r.
Qed.

(** A turn serves the first id of the queue, or finds none. *)
Lemma turn_serves claimMs pollMs b w :
  orderly cfg w →
  let w' := (run (loop_turn cfg handlers wk leaseMs claimMs pollMs b) w).2 in
  match q_ready (w_q w) with [] => w' = w | i :: _ => served cfg w w' i end.
Proof.
  intros Ho w'. subst w'. unfold loop_turn. rewrite run_bind, run_catch, run_bind, run_queue_call.
  destruct (q_ready (w_q w)) as [|i rest] eqn:Hr.
  - unfold queue_claim, redis. rewrite (or_up _ _ Ho). unfold wfClaim. rewrite Hr. cbn. by destruct w.
  - destruct (claim_place claimMs (w_q w) i rest (or_queue _ _ Ho) (or_up _ _ Ho) Hr) as (q1 & Hcl & Hq1 & Hup1 & Htm & [d Hd] & Hpl).
    assert (place_of (w_q w) i = Some Ready) as Hp by (apply place_ready; rewrite Hr; by left).
    destruct (or_known _ _ Ho i) as [t Ht]; [by eexists|].
    destruct (process_serves w q1 i t d) as (w' & Hrun & Hs); [done..|].
    rewrite Hcl. cbn [run fst snd]. cbv iota. by rewrite run_bind, run_catch, Hrun.
Qed.
End turn.
