(* ===== verification/Progress.v ===== *)
(** * Every run ends

    The system crashed: processes died anywhere, Redis lost anything.  Then Redis
    answers again, and time has passed.  One sweep of the reconciler puts the world
    in order ([sweep_orderly]); from then on each round - a minute passes, the
    maintenance timer fires, a worker takes a turn ([Turns]) - does some of the
    work that is left, so that every run ends. *)

From S2P Require Import Prelude Program States Dag Models Retry TaskRepo Dispatcher Engine RunInv EngineTx EngineInv EngineStart.
From S2P Require Import EngineSafety EngineProps EngineSpec TaskQueue Recovery Worker WorkerProps Frames EndToEnd Records Turns.

Local Open Scope string_scope.

(** ** Time passes *)

(** Leased and delayed ids may have become ready. *)
Definition promoted (q q' : TaskQueue) : Prop :=
  ∀ i, place_of q' i = place_of q i ∨ is_Some (place_of q i) ∧ place_of q' i = Some Ready.

Lemma promoted_is_Some q q' i : promoted q q' → is_Some (place_of q' i) ↔ is_Some (place_of q i).
Proof. intros Hp. destruct (Hp i) as [->|[Hi ->]]; [done|]. split; [done|by eexists]. Qed.

Lemma promoted_weight q q' t i : promoted q q' → weight t (place_of q' i) = weight t (place_of q i).
Proof. intros Hp. unfold weight. by rewrite (bool_decide_ext _ _ (promoted_is_Some _ _ i Hp)). Qed.

Lemma lease_expired_later t n n' : (n ≤ n')%Z → lease_expired t n = true → lease_expired t n' = true.
Proof. unfold lease_expired. intros Hn. destruct (leaseExpiresAt t); [|done]. rewrite !bool_decide_eq_true. lia. Qed.

Lemma orderly_promoted cfg w w' :
  orderly cfg w → w_db w' = w_db w → queue_ok (w_q w') → q_up (w_q w') = true → (0 ≤ w_random w' < 2 ^ 53)%Z →
  (w_now w ≤ w_now w')%Z → (q_time (w_q w) ≤ q_time (w_q w'))%Z → promoted (w_q w) (w_q w') →
  orderly cfg w' ∧ work w' = work w.
Proof.
  intros Ho Hdb Hq Hup Hr Hnow Htm Hp. split.
  - split; rewrite ?Hdb; [apply Ho|done..|apply Ho| | | |apply Ho].
    + intros i Hi%(promoted_is_Some _ _ _ Hp). by apply (or_known _ _ Ho).
    + intros i. pose proof (or_waits _ _ Ho i) as Hw. destruct (Hp i) as [->|[_ ->]]; [|done].
      destruct (place_of (w_q w) i) as [[]|]; cbn in *; try done; lia.
    + intros i t Ht. destruct (or_task _ _ Ho i t Ht) as [Hl Hs]. split; [done|].
      destruct (t_status t); rewrite ?(promoted_is_Some _ _ _ Hp); try done.
      destruct Hs as [? Hs]. split; [done|]. by eapply lease_expired_later.
  - assert (∀ i, weight_of w' i = weight_of w i) as Hw.
    { intros i. unfold weight_of. rewrite Hdb. destruct (tasks (w_db w) !! i) as [t|]; [|done]. by apply promoted_weight. }
    unfold work. rewrite Hdb. apply sumZ_ext. by intros i _.
Qed.

(** The reaper and the promoter move ids that are due. *)
Definition maintained (q : TaskQueue) : TaskQueue := exec (PromoteDue 100) (exec (RequeueExpired 100) q).

Lemma run_maintenance w : q_up (w_q w) = true → run maintenance w = (Ok tt, set_q w (maintained (w_q w))).
Proof.
  intros Hup. unfold maintenance. rewrite run_bind, run_catch, run_bind, run_queue_call.
  unfold queue_requeueExpired, redis. rewrite Hup. unfold maintained. cbn [exec].
  assert (q_up (wfRequeueExpired 100 (w_q w)).2 = true) as Hup1 by (by rewrite wfRequeueExpired_eq).
  destruct (wfRequeueExpired 100 (w_q w)) as [ids q1]. cbn [fst snd run] in *.
  rewrite run_catch, run_bind, run_queue_call. cbn [w_q set_q]. unfold queue_promoteDue, redis. rewrite Hup1.
  by destruct (wfPromoteDue 100 q1).
Qed.

Section maintained.
Context (q : TaskQueue) (Hq : queue_ok q).
Let q1 := exec (RequeueExpired 100) q.

Lemma reaped_ok : queue_ok q1.
Proof. by apply exec_ok. Qed.

Lemma maintained_fields :
  queue_ok (maintained q) ∧ q_up (maintained q) = q_up q ∧ q_time (maintained q) = q_time q ∧ promoted q (maintained q).
Proof.
  split_and!; [apply exec_ok, reaped_ok|unfold maintained; cbn [exec]; by rewrite wfPromoteDue_eq, wfRequeueExpired_eq..|].
  intros i. unfold maintained. pose proof (exec_moves (RequeueExpired 100) q i Hq) as H1.
  destruct (exec_moves (PromoteDue 100) q1 i reaped_ok) as [H2|(d & Hd & _ & H2)]; fold q1 in H1; fold q1; rewrite H2.
  - destruct H1 as [->|(d & Hd & _ & ->)]; [by left|]. right. split; [by eexists|done].
  - right. split; [|done]. destruct H1 as [H1|(d' & Hd' & _ & _)]; [|by eexists]. rewrite <- H1, Hd. by eexists.
Qed.

Lemma ready_elem i : place_of q i = Some Ready → i ∈ q_ready q.
Proof. unfold place_of. case_decide; [done|]. destruct (q_leases q !! i); [done|]. by destruct (q_delayed q !! i). Qed.

(** A sorted set of which something is due gives at least one member. *)
Lemma range_nonempty (z : gmap oid Z) max i d : z !! i = Some d → (d ≤ max)%Z → ∃ j, j ∈ zrangebyscore z max 100.
Proof.
  intros Hi Hd. destruct (decide (i ∈ zrangebyscore z max 100)) as [|Hout]; [by exists i|].
  destruct (zrangebyscore_limit z max 100 i d Hi Hd Hout) as [Hlen _].
  destruct (zrangebyscore z max 100) as [|j l]; [done|]. exists j. by left.
Qed.

(** When every id in the queue is due, something is ready afterwards. *)
Lemma maintained_ready i :
  (∀ j, match place_of q j with Some (Leased d) | Some (Delayed d) => (d ≤ q_time q)%Z | _ => True end) →
  is_Some (place_of q i) → ∃ j, place_of (maintained q) j = Some Ready.
Proof.
  intros Hdue [p Hp]. assert (q_time q1 = q_time q) as Htm by (unfold q1; cbn; by rewrite wfRequeueExpired_eq).
  pose proof (λ j, place_PromoteDue 100 q1 j reaped_ok) as Hpro. pose proof (λ j, place_RequeueExpired 100 q j Hq) as Hreap.
  fold q1 in Hreap. unfold maintained. fold q1.
  assert (∀ j, place_of q1 j = Some Ready → place_of (exec (PromoteDue 100) q1) j = Some Ready) as Hstay.
  { intros j Hj. rewrite Hpro. by case_decide. }
  specialize (Hdue i). rewrite Hp in Hdue. destruct p as [|d|d].
  - exists i. apply Hstay. rewrite Hreap. by case_decide.
  - apply (place_leased _ _ _ Hq) in Hp. destruct (range_nonempty _ _ i d Hp Hdue) as [j Hj].
    exists j. apply Hstay. by rewrite Hreap, decide_True.
  - assert (place_of q1 i = Some (Delayed d)) as Hp1.
    { rewrite Hreap. rewrite decide_False; [done|]. intros (dl & Hl & _)%zrangebyscore_elem.
      apply (place_leased _ _ _ Hq) in Hl. congruence. }
    apply (place_delayed _ _ _ reaped_ok) in Hp1. rewrite <- Htm in Hdue.
    destruct (range_nonempty _ _ i d Hp1 Hdue) as [j Hj]. exists j. by rewrite Hpro, decide_True.
Qed.
End maintained.

(** ** Rounds *)

(** A minute passes (the longest backoff, and longer than the lease of a claim),
    the maintenance timer fires, and some worker takes a turn.  The clocks of
    processes and the random numbers show anything; MongoDB's clock goes on. *)
Record Round := mkRound {
  waited : Z; elapsed : Z; rd_clock : ms; rd_random : Z; rd_worker : string; rd_backoffMs : Z
}.

Definition round_ok (r : Round) : Prop := (maxDelayMs ≤ waited r ∧ 0 ≤ elapsed r ∧ 0 ≤ rd_random r < 2 ^ 53)%Z.

Section rounds.
Context (cfg : EngineConfig) (handlers : string → option Handler) (leaseMs claimMs pollMs : Z).

Definition pass (w : World TaskQueue) (r : Round) : World TaskQueue :=
  mkWorld (w_db w) (exec (Tick (waited r)) (w_q w)) (w_now w + elapsed r)%Z (rd_clock r) (rd_random r).

Definition round (w : World TaskQueue) (r : Round) : World TaskQueue :=
  (run (_ ← maintenance; loop_turn cfg handlers (rd_worker r) leaseMs claimMs pollMs (rd_backoffMs r)) (pass w r)).2.

Hypothesis (Hdelayed : cfg_delayed cfg = true).
Hypothesis (Hbackoff : ∀ r a b, cfg_backoff cfg r a b = computeBackoff a b maxDelayMs r).
Hypothesis (Hnever : never_asks handlers).

(** Time and maintenance change neither the database nor the work. *)
Lemma pass_orderly w r : orderly cfg w → round_ok r → orderly cfg (pass w r) ∧ work (pass w r) = work w.
Proof.
  intros Ho (Hw & He & Hr). apply orderly_promoted; [done|done| |apply Ho|done| | |by left].
  - apply exec_ok, Ho.
  - cbn. lia.
  - cbn. unfold maxDelayMs in *. lia.
Qed.

Lemma maintained_orderly w : orderly cfg w →
  let w' := set_q w (maintained (w_q w)) in orderly cfg w' ∧ work w' = work w.
Proof.
  intros Ho w'. destruct (maintained_fields (w_q w) (or_queue _ _ Ho)) as (Hq & Hup & Htm & Hp).
  apply orderly_promoted; cbn [w_q w_random w_now set_q w'] in *; try done; try apply Ho; try lia. rewrite Hup. apply Ho.
Qed.

Lemma turn_orderly w wk b : orderly cfg w →
  let w' := (run (loop_turn cfg handlers wk leaseMs claimMs pollMs b) w).2 in
  orderly cfg w' ∧ same_runs w w' ∧ (work w' ≤ work w)%Z ∧ (q_ready (w_q w) ≠ [] → (work w' < work w)%Z).
Proof.
  intros Ho w'. pose proof (turn_serves cfg handlers wk leaseMs Hdelayed Hbackoff Hnever claimMs pollMs b w Ho) as Ht.
  change (match q_ready (w_q w) with [] => w' = w | i :: _ => served cfg w w' i end) in Ht.
  destruct (q_ready (w_q w)) as [|i rest].
  - rewrite Ht. split_and!; [done|intros e x Hx; by exists x|done|done].
  - pose proof (served_work _ _ _ _ Ht). split_and!; [by eapply served_orderly|apply Ht|lia|done].
Qed.

(** Work that is left has an id in the queue. *)
Lemma work_waits w : orderly cfg w → (0 < work w)%Z → ∃ i, is_Some (place_of (w_q w) i).
Proof.
  intros Ho Hw. assert (∃ i, (0 < weight_of w i)%Z) as (i & Hi).
  { unfold work in Hw. induction (elements _) as [|i l IH]; [done|]. rewrite sumZ_cons in Hw.
    pose proof (weight_of_nonneg w i). destruct (decide (0 < weight_of w i)%Z); [by exists i|]. apply IH. lia. }
  unfold weight_of in Hi. destruct (tasks (w_db w) !! i) as [t|] eqn:Ht; [|done].
  destruct (task_finished (t_status t)) eqn:Hf.
  - exists i. unfold weight in Hi. rewrite Hf in Hi. by case_bool_decide.
  - destruct (orderly_running cfg w i t Ho Ht Hf) as (x & Hx & [Hrun|Hrun]).
    { exists i. destruct (or_task _ _ Ho i t Ht) as [_ Hs]. rewrite Hrun in Hs. apply Hs. }
    pose proof (di_run _ _ (or_inv _ _ Ho) _ x Hx) as Hinv.
    destruct (run_not_stuck x _ Hinv (di_static _ _ (or_inv _ _ Ho) _) Hrun) as (j & u & [Hj _]%run_tasks_Some & Ha).
    { exists i, t. split; [by apply run_tasks_Some|]. unfold unfinished. by rewrite Hf. }
    exists j. destruct (or_task _ _ Ho j u Hj) as [_ Hs]. destruct (t_status u); try done; apply Hs.
Qed.

(** A round does some of the work. *)
Lemma round_works w r : orderly cfg w → round_ok r →
  orderly cfg (round w r) ∧ same_runs w (round w r) ∧ (work (round w r) ≤ Z.max 0 (work w - 1))%Z.
Proof.
  intros Ho Hr. destruct (pass_orderly w r Ho Hr) as [Ho1 Hw1]. unfold round. set (w1 := pass w r) in *.
  rewrite run_bind, (run_maintenance w1 (or_up _ _ Ho1)). cbv beta iota.
  destruct (maintained_orderly w1 Ho1) as [Ho2 Hw2]. set (w2 := set_q w1 (maintained (w_q w1))) in *.
  destruct (turn_orderly w2 (rd_worker r) (rd_backoffMs r) Ho2) as (Ho3 & Hr3 & Hle & Hlt). split_and!; [done|done|].
  destruct (decide (0 < work w)%Z) as [Hpos|]; [|lia].
  destruct (work_waits w1 Ho1) as [i Hi]; [lia|].
  destruct (maintained_ready (w_q w1) (or_queue _ _ Ho1) i) as [j Hj%ready_elem]; [|done|].
  { intros j. pose proof (or_waits _ _ Ho j) as Hj. change (place_of (w_q w1) j) with (place_of (w_q w) j).
    change (q_time (w_q w1)) with (q_time (w_q w) + waited r)%Z. destruct Hr as [Hr _].
    destruct (place_of (w_q w) j) as [[]|]; cbn in Hj; try done; lia. }
  assert (q_ready (w_q w2) ≠ []) as Hready by (intros Hn; cbn [w2 w_q set_q] in Hn; rewrite Hn in Hj; by apply not_elem_of_nil in Hj).
  specialize (Hlt Hready). lia.
Qed.

Lemma rounds_work l : ∀ w, orderly cfg w → Forall round_ok l →
  let w' := foldl round w l in
  orderly cfg w' ∧ same_runs w w' ∧ (work w' ≤ Z.max 0 (work w - Z.of_nat (length l)))%Z.
Proof.
  induction l as [|r l IH]; intros w Ho Hl; cbn zeta.
  - split_and!; [done|intros e x Hx; by exists x|]. cbn [length foldl]. lia.
  - apply Forall_cons in Hl as [Hr Hl]. destruct (round_works w r Ho Hr) as (Ho1 & Hr1 & Hw1).
    destruct (IH _ Ho1 Hl) as (Ho2 & Hr2 & Hw2). cbn [foldl length]. split_and!; [done| |lia].
    intros e x (x1 & Hx1 & <-)%Hr1. by apply Hr2.
Qed.
End rounds.

Definition is_ended (s : EXECUTION_STATUS) : Prop := s = E_COMPLETED ∨ s = E_FAILED ∨ s = E_CANCELLED.

(** With no work left the runs are over and the queue is empty. *)
Lemma no_work cfg w :
  orderly cfg w → (work w ≤ 0)%Z →
  (∀ i t, tasks (w_db w) !! i = Some t → task_finished (t_status t) = true) ∧
  (∀ e x, executions (w_db w) !! e = Some x → taskCount x ≠ 0%Z → is_ended (x_status x)) ∧
  (∀ i, place_of (w_q w) i = None).
Proof.
  intros Ho Hn. assert (∀ i, (weight_of w i ≤ 0)%Z) as Hzero.
  { intros i. destruct (tasks (w_db w) !! i) as [t|] eqn:Ht; [|unfold weight_of; by rewrite Ht].
    etrans; [|exact Hn]. unfold work.
    assert (i ∈ elements (dom (tasks (w_db w)))) as [k Hk]%list_elem_of_lookup by (apply elem_of_elements, elem_of_dom; by eexists).
    apply (sumZ_lookup _ _ k); [|done]. intros j. by apply weight_of_nonneg. }
  assert (∀ i t, tasks (w_db w) !! i = Some t → task_finished (t_status t) = true) as Hfin.
  { intros i t Ht. specialize (Hzero i). unfold weight_of in Hzero. rewrite Ht in Hzero.
    destruct (task_finished (t_status t)) eqn:Hf; [done|]. pose proof (weight_unfinished t (place_of (w_q w) i) Hf). lia. }
  split_and!; [done|..].
  - intros e x Hx Hc. pose proof (di_run _ _ (or_inv _ _ Ho) e x Hx) as Hi. pose proof (or_runs _ _ Ho e x Hx) as Hg.
    destruct (ri_status _ _ Hi) as [Hp Hw]. unfold is_ended. destruct (x_status x) eqn:Hr; auto; try done.
    destruct Hc. rewrite (ri_count _ _ Hi), (ri_stuck _ _ Hi Hr); [done|].
    rewrite (ri_pending _ _ Hi). apply mcount_zero. intros i t [Ht _]%run_tasks_Some. unfold unfinished.
    by rewrite (Hfin i t Ht).
  - intros i. destruct (place_of (w_q w) i) as [p|] eqn:Hp; [|done].
    destruct (or_known _ _ Ho i) as [t Ht]; [by eexists|]. specialize (Hzero i). unfold weight_of, weight in Hzero.
    rewrite Ht, (Hfin i t Ht), Hp in Hzero. done.
Qed.

(** The claims that the tasks of [w] may still cost: one for each attempt they are allowed, one
    that finds the attempts used up, and one for an id that should not be in the queue. *)
Definition claims_allowed (w : World TaskQueue) : Z :=
  sumZ (λ i, match tasks (w_db w) !! i with Some t => maxAttempts t + 2 | None => 0 end)%Z (elements (dom (tasks (w_db w)))).

Lemma work_bounded cfg w : orderly cfg w → (work w ≤ claims_allowed w)%Z.
Proof.
  intros Ho. apply sumZ_le. intros i _. unfold weight_of. destruct (tasks (w_db w) !! i) as [t|] eqn:Ht; [|done].
  destruct (or_task _ _ Ho i t Ht) as [[Hm _] _]. destruct (di_lease _ _ (or_inv _ _ Ho) i t Ht) as (Ha & H0 & _).
  unfold weight, b2z. repeat case_match; lia.
Qed.

(** ** The sweep *)

(** A world in which recovery may begin: no run is paused and no task waits for a
    human; the queue answers, is well formed and holds ids of tasks that are due
    within a minute; and every task that has something to do is overdue, or
    waits in the queue already. *)
Record recoverable (w : World TaskQueue) (staleMs : Z) : Prop := {
  rc_runs e x : executions (w_db w) !! e = Some x → going (x_status x);
  rc_policy i t : tasks (w_db w) !! i = Some t → policy_ok t ∧ t_status t ≠ T_WAITING_FOR_APPROVAL;
  rc_overdue i t : tasks (w_db w) !! i = Some t → overdue w staleMs t = true ∨
    (t_status t = T_QUEUED ∨ t_status t = T_RETRYING) ∧ is_Some (place_of (w_q w) i);
  rc_queue : queue_ok (w_q w);
  rc_up : q_up (w_q w) = true;
  rc_known i : is_Some (place_of (w_q w) i) → is_Some (tasks (w_db w) !! i);
  rc_waits i : waits_well (q_time (w_q w)) (place_of (w_q w) i);
  rc_random : (0 ≤ w_random w < 2 ^ 53)%Z
}.

(** The queue [q] with more ids, all of which satisfy [fine]. *)
Record refilled (fine : oid → Prop) (q q' : TaskQueue) : Prop := {
  rf_queue : queue_ok q';
  rf_up : q_up q' = true;
  rf_time : q_time q' = q_time q;
  rf_place j : place_of q' j = place_of q j ∨ fine j ∧ place_of q' j = Some Ready
}.

Lemma refilled_answers fine q q' : refilled fine q q' → answers q'.
Proof. intros Hr it. by apply redis_up, (rf_up _ _ _ Hr). Qed.

Lemma refilled_enqueue fine q it q' : fine (it_taskId it) → refilled fine q q' → refilled fine q (enqueue it q').2.
Proof.
  intros Hf [Hq Hup Htm Hp].
  assert ((enqueue it q').2 = exec (Enqueue (it_taskId it)) q') as ->.
  { unfold enqueue, TaskQueue_dispatcher, answered, queue_enqueue, redis, returned_1. rewrite Hup. cbn [exec]. by destruct (wfEnqueue _ q'). }
  split; [by apply exec_ok|cbn [exec]; unfold wfEnqueue; by case_decide..|].
  intros j. pose proof (exec_moves (Enqueue (it_taskId it)) q' j Hq) as Hm. cbn [moves] in Hm. rewrite Hm.
  case_decide as Hj; [subst j|apply Hp]. destruct (Hp (it_taskId it)) as [->|[_ ->]]; [|by right].
  destruct (place_of q (it_taskId it)); [by left|by right].
Qed.

Section sweep.
Context (cfg : EngineConfig) (q : TaskQueue) (w : World TaskQueue) (staleMs : Z) (limit : nat).
Context (Hr : reachable (worker_api cfg) outside (initial q) w) (Hw : recoverable w staleMs).
Context (Hlimit : (size (tasks (w_db w)) ≤ limit)%nat).

(** Requests are pending for waiting tasks only, and no task waits. *)
Lemma none_overdue : find (overdue_approval (w_clock w)) (approvals (w_db w)) = [].
Proof.
  destruct (find _ _) as [|[a p] l] eqn:Hf; [done|]. exfalso.
  assert ((a, p) ∈ find (overdue_approval (w_clock w)) (approvals (w_db w))) as Hin by (rewrite Hf; by left).
  apply elem_of_find in Hin as [Ha Ho]. apply andb_true_iff in Ho as [Hp%bool_decide_eq_true _].
  destruct (ai_task _ _ (di_approvals _ _ (workers_reachable_inv cfg q w Hr)) a p Ha) as (t & Ht & _ & Hs).
  rewrite bool_decide_eq_true_2 in Hs by done. by destruct (rc_policy _ _ Hw _ t Ht).
Qed.

(** The run of a task that is READY. *)
Lemma ready_running i t : tasks (w_db w) !! i = Some t → t_status t = T_READY →
  x_status <$> executions (w_db w) !! t_executionId t = Some E_RUNNING.
Proof.
  intros Ht Hs. pose proof (workers_reachable_inv cfg q w Hr) as Hdb.
  destruct (di_exec _ _ Hdb i t Ht) as [x Hx]. rewrite Hx. cbn. f_equal.
  pose proof (di_run _ _ Hdb _ x Hx) as Hrun. pose proof (rc_runs _ _ Hw _ x Hx) as Hg.
  assert (run_tasks (tasks (w_db w)) (t_executionId t) !! i = Some t) as Hit by (by apply run_tasks_Some).
  destruct (ri_status _ _ Hrun) as [Hp Ha]. destruct (x_status x) eqn:Hxs; try done; exfalso.
  - pose proof (ri_completed _ _ Hrun i t Hxs Hit). congruence.
  - pose proof (ri_failed _ _ Hrun i t Hxs Hit) as Hf. by rewrite Hs in Hf.
  - pose proof (ri_cancelled _ _ Hrun i t Hxs Hit) as Hf. by rewrite Hs in Hf.
Qed.

(** What the sweep leaves of the tasks and of the queue. *)
Section swept.
Let fine (i : oid) : Prop := is_Some (tasks (w_db w) !! i).
Context (w1 : World TaskQueue) (q' : TaskQueue).
Hypothesis (Hsw : swept (refilled fine (w_q w)) w w1) (Hq' : refilled fine (w_q w) q').
Hypothesis (Hkept : ∀ j, queued j (w_q w) → queued j q').
Hypothesis (Hneed : ∀ i t, tasks (w_db w) !! i = Some t → needs_dispatch w staleMs t → queued i q').
Hypothesis (Hready : ∀ i t, tasks (w_db w) !! i = Some t → stuck_ready (w_clock w - staleMs) t = true →
  x_status <$> executions (w_db w) !! t_executionId t = Some E_RUNNING → ∃ at_, tasks (w_db w1) !! i = Some (queued_task at_ t)).

Lemma swept_some i : is_Some (tasks (w_db w1) !! i) ↔ is_Some (tasks (w_db w) !! i).
Proof. by rewrite <- !elem_of_dom, (swept_dom _ _ _ Hsw). Qed.

Lemma queued_place j : queued j q' → is_Some (place_of q' j).
Proof. intros Hj. apply place_member; [apply (rf_queue _ _ _ Hq')|done]. Qed.

(** A READY task is QUEUED now, and the other tasks are as they were. *)
Lemma swept_task i t' : tasks (w_db w1) !! i = Some t' → ∃ t, tasks (w_db w) !! i = Some t ∧
  (t' = t ∧ t_status t ≠ T_READY ∨ (∃ at_, t' = queued_task at_ t) ∧ is_Some (place_of q' i)).
Proof.
  intros Ht'. assert (is_Some (tasks (w_db w) !! i)) as [t Ht] by (apply swept_some; by eexists).
  exists t. split; [done|]. destruct (decide (t_status t = T_READY)) as [Hs|Hs].
  - right. destruct (rc_overdue _ _ Hw i t Ht) as [Hov|[[?|?] _]]; [|congruence..]. unfold overdue in Hov. rewrite Hs in Hov.
    assert (stuck_ready (w_clock w - staleMs) t = true) as Hst by (unfold stuck_ready; by rewrite Hs).
    pose proof (ready_running i t Ht Hs) as Hrn. destruct (Hready i t Ht Hst Hrn) as [at_ Hat].
    split; [exists at_; congruence|]. apply queued_place, (Hneed i t Ht). by left.
  - left. split; [|done]. assert (is_ready t = false) as Hnr by (by apply bool_decide_eq_false).
    pose proof (sw_others _ _ _ Hsw i t Ht Hnr). congruence.
Qed.

Lemma swept_order i t' : tasks (w_db w1) !! i = Some t' → in_order (w_now w) t' (place_of q' i).
Proof.
  intros Ht'. destruct (swept_task i t' Ht') as (t & Ht & [[-> Hs]|[[at_ ->] Hi]]);
    destruct (rc_policy _ _ Hw i t Ht) as [Hpol Hnw]; [|by split].
  split; [done|]. destruct (t_status t) eqn:Hst; try done.
  all: destruct (rc_overdue _ _ Hw i t Ht) as [Hov|[Hstat Hpi]];
    [|try (apply queued_place, Hkept, place_member; [apply Hw|done])].
  all: try (unfold overdue in Hov; rewrite Hst in Hov).
  all: try (apply queued_place, (Hneed i t Ht); unfold needs_dispatch, stale_queued, overdue_retry; rewrite Hst; cbn; auto 6).
  - split; [|done]. apply queued_place, (Hneed i t Ht). unfold needs_dispatch, expired_running. rewrite Hst. cbn. auto 6.
  - destruct Hstat; congruence.
Qed.

(** No attempt, and no limit, has changed. *)
Lemma swept_limits i t : tasks (w_db w) !! i = Some t →
  ∃ t', tasks (w_db w1) !! i = Some t' ∧ attempt t' = attempt t ∧ maxAttempts t' = maxAttempts t.
Proof.
  intros Ht. assert (is_Some (tasks (w_db w1) !! i)) as [t' Ht'] by (apply swept_some; by eexists).
  exists t'. split; [done|]. destruct (swept_task i t' Ht') as (u & Hu & [[-> _]|[[at_ ->] _]]); by simplify_eq.
Qed.

Lemma swept_claims : claims_allowed (set_q w1 q') = claims_allowed w.
Proof.
  unfold claims_allowed. cbn [w_db set_q]. rewrite (swept_dom _ _ _ Hsw). apply sumZ_ext.
  intros i [t Ht]%elem_of_elements%elem_of_dom. destruct (swept_limits i t Ht) as (t' & Ht' & _ & Hm).
  by rewrite Ht', Ht, Hm.
Qed.

Lemma swept_orderly : db_inv cfg (w_db w1) → orderly cfg (set_q w1 q').
Proof.
  intros Hinv. destruct (sw_clocks _ _ _ Hsw) as (_ & Hnow & Hrandom).
  destruct (reachable_records cfg q w Hr) as [_ Hrec].
  split; cbn [w_db w_q w_random w_now set_q]; [done|apply Hq'|apply Hq'|by rewrite Hrandom; apply Hw|..].
  - rewrite (sw_executions _ _ _ Hsw). apply Hw.
  - intros i Hi. apply swept_some. destruct (rf_place _ _ _ Hq' i) as [Hp|[Hf _]]; [|done].
    apply (rc_known _ _ Hw). by rewrite <- Hp.
  - intros i. rewrite (rf_time _ _ _ Hq'). destruct (rf_place _ _ _ Hq' i) as [->|[_ ->]]; [apply Hw|done].
  - rewrite Hnow. apply swept_order.
  - rewrite (sw_attempts _ _ _ Hsw). intros i n (t & Ht & Hle)%Hrec.
    destruct (swept_limits i t Ht) as (t' & Ht' & Ha & _). exists t'. split; [done|lia].
Qed.
End swept.

(** After the sweep the world is in order. *)
Lemma sweep_orderly :
  let w' := (run (reconcile cfg staleMs limit) w).2 in
  orderly cfg w' ∧ same_runs w w' ∧ claims_allowed w' = claims_allowed w.
Proof.
  set (fine := λ i, is_Some (tasks (w_db w) !! i)). intros w'.
  pose proof (workers_reachable_inv cfg q w Hr) as Hdb.
  pose proof (steps_ok_run _ _ _ w (ok_reconcile cfg staleMs limit) Hdb) as Hinv. fold w' in Hinv.
  destruct (reconcile_sweeps cfg fine (refilled fine (w_q w)) (refilled_answers _ _) (refilled_enqueue _ _) w staleMs limit)
    as (c & w1 & db' & q' & Hrun & Hsw & Hq' & Hdb' & Hk & Hn & Hready); [|done|done|].
  { split; [apply Hw..|done|by left]. }
  assert (w' = set_q w1 q') as Heq.
  { unfold w'. rewrite Hrun, (Hdb' none_overdue). cbn [snd]. by rewrite set_db_id. }
  rewrite Heq in *. split_and!; [by apply swept_orderly| |by apply swept_claims].
  intros e x Hx. exists x. cbn [w_db set_q]. by rewrite (sw_executions _ _ _ Hsw).
Qed.
End sweep.

(** ** The end *)


(** ** Witness *)

Import Demo.

(** A handler that hangs at the first two attempts of a task and answers at the next
    one, unless the run was started with a number. *)
Definition moody_handlers : string → option Handler := λ _,
  Some (λ a _, if (match ha_input a with JNum _ => true | _ => false end) || bool_decide (ha_attempt a ≤ 2)%Z then None
               else Some (0%Z, Resolved (Output (Some (JNum 1))))).

Lemma moody_never_asks : never_asks moody_handlers.
Proof.
  intros c w request. unfold handler_result, moody_handlers. intros Heq. cbn in Heq.
  destruct (_ || _); [done|]. cbn in Heq. by case_bool_decide.
Qed.

(** Two runs of the diamond.  A worker is killed while it runs the first task of
    the first run, and the server is killed before it dispatches the second run;
    then Redis loses everything, and two minutes pass. *)
Definition starts (p : StartParams) : prog (World TaskQueue) unit := _ ← startExecution cfg diamond p; Ret tt.
Definition one_turn : prog (World TaskQueue) unit := _ ← loop cfg moody_handlers "worker-1" 15000 30000 250 1 250; Ret tt.
Definition second_run : StartParams := params {{ sp_input := JNum 0 }} {{ sp_idempotencyKey := None }}.

Definition w_first : World TaskQueue := (run (starts params) (initial empty_queue)).2.
Definition w_worker_dies : World TaskQueue := default w_first (worlds one_turn w_first !! 4).
Definition w_server_dies : World TaskQueue := default w_worker_dies (worlds (starts second_run) w_worker_dies !! 0).
Definition w_crashed : World TaskQueue := mkWorld (w_db w_server_dies) empty_queue 120000 120000 0.

Definition a_minute : Round := mkRound 60000 60000 0 9 "worker-1" 250.

Lemma w_crashed_reachable : reachable (worker_api cfg) outside (initial empty_queue) w_crashed.
Proof.
  apply (reachable_env _ _ _ w_server_dies); [done|].
  apply (reachable_crash _ _ (starts second_run) _ w_worker_dies); [do 2 constructor| |apply (list_elem_of_lookup_2 _ 0); by vm_compute].
  apply (reachable_crash _ _ one_turn _ w_first); [apply wa_loop| |apply (list_elem_of_lookup_2 _ 4); by vm_compute].
  apply reachable_run; [do 2 constructor|apply reachable_refl].
Qed.

Definition left_alone (w : World TaskQueue) (t : Task) : bool :=
  bool_decide (1 ≤ maxAttempts t)%Z && bool_decide (0 ≤ baseDelayMs t)%Z &&
  negb (bool_decide (t_status t = T_WAITING_FOR_APPROVAL)) && overdue w 30000 t.

(** What the record asks, for a queue that is empty. *)
Lemma left_alone_recoverable w :
  w_q w = empty_queue → w_random w = 0%Z → map_Forall (λ _ x, x_status x = E_RUNNING) (executions (w_db w)) →
  map_Forall (λ _ t, left_alone w t = true) (tasks (w_db w)) → recoverable w 30000.
Proof.
  intros Hq Hrd Hx Ht.
  assert (∀ i t, tasks (w_db w) !! i = Some t → (policy_ok t ∧ t_status t ≠ T_WAITING_FOR_APPROVAL) ∧ overdue w 30000 t = true) as Htask.
  { intros i t Hi. pose proof (Ht i t Hi) as Hl. cbn beta in Hl. unfold left_alone in Hl.
    apply andb_true_iff in Hl as [Hl ?]. apply andb_true_iff in Hl as [Hl Hn%negb_true_iff%bool_decide_eq_false].
    apply andb_true_iff in Hl as [H1%bool_decide_eq_true H2%bool_decide_eq_true]. done. }
  split; rewrite ?Hq, ?Hrd; [| | |apply empty_queue_ok|done|by intros i [p Hp]|done|done].
  - intros e x He. unfold going. by rewrite (Hx e x He).
  - intros i t Hi. by apply (Htask i t).
  - intros i t Hi. left. by apply (Htask i t).
Qed.

Lemma w_crashed_tasks : map_Forall (λ _ t, left_alone w_crashed t = true) (tasks (w_db w_crashed)).
Proof. apply (bool_decide_unpack _). vm_compute. exact I. Qed.
Lemma w_crashed_runs : map_Forall (λ _ x, x_status x = E_RUNNING) (executions (w_db w_crashed)).
Proof. apply (bool_decide_unpack _). vm_compute. exact I. Qed.

Lemma w_crashed_recoverable : recoverable w_crashed 30000.
Proof. apply left_alone_recoverable; [done|done|exact w_crashed_runs|exact w_crashed_tasks]. Qed.

