(* ===== verification/Lifecycle.v ===== *)
(** * Life cycles ([src/workers/queueWorker.js], [src/worker.js], [src/server.js])

    The loops, timers and counters of a queue worker as one state machine, and
    how the worker and API processes shut down.  [Worker] models what one turn
    of a loop does to the stores; here are its states and what [stop] waits for. *)

From S2P Require Import Prelude Program States Dag Models Retry TaskRepo Dispatcher Engine TaskQueue Worker.

Local Open Scope string_scope.

(** ** The process of a queue worker *)

(** Where a loop is: before the test of [while (!stopping)], waiting for
    [queue.claim], in a [sleep], or in [processTask]. *)
Inductive LoopState : Type :=
| Testing (backoffMs : Z)
| Claiming (backoffMs : Z)
| Sleeping (forMs backoffMs : Z)
| Busy (taskId : oid)
| Ended.

#[export] Instance loop_state_eq_dec : EqDecision LoopState.
Proof. solve_decision. Defined.

(** The variables of [createQueueWorker]; whether its timers run; the counts that
    heartbeats have read and not stored yet; and [tasksCompleted] of its row. *)
Record WorkerProc := mkProc {
  pr_stopping : bool;
  pr_loops : list LoopState;
  pr_timers : bool;
  pr_running : Z;
  pr_completed : Z;
  pr_beats : list Z;
  pr_counted : Z;
  pr_deregistered : bool
}.

(** What happens next: loop [i] goes on, or the call it waits for ends; the
    heartbeat timer fires, or the update of a heartbeat ends; [stop] is called,
    or goes on after its wait for the loops. *)
Inductive Happening : Type :=
| Turn (i : nat)
| ClaimFails (i : nat)
| ClaimsNothing (i : nat)
| Claims (i : nat) (taskId : oid)
| Wakes (i : nat)
| TaskDropped (i : nat)
| TaskCompleted (i : nat)
| TaskThrows (i : nat)
| BeatFires
| BeatStored (done : Z)
| BeatFails (done : Z)
| StopCalled
| StopEnds.

Fixpoint remove_one (n : Z) (l : list Z) : option (list Z) :=
  match l with
  | [] => None
  | m :: l => if bool_decide (m = n) then Some l else cons m <$> remove_one n l
  end.

Section queue_worker.
Context (pollIntervalMs : Z).

Definition set_loop (i : nat) (l : LoopState) (w : WorkerProc) : WorkerProc :=
  mkProc (pr_stopping w) (<[i := l]> (pr_loops w)) (pr_timers w) (pr_running w) (pr_completed w) (pr_beats w)
    (pr_counted w) (pr_deregistered w).
Definition set_running (f : Z → Z) (w : WorkerProc) : WorkerProc :=
  mkProc (pr_stopping w) (pr_loops w) (pr_timers w) (f (pr_running w)) (pr_completed w) (pr_beats w)
    (pr_counted w) (pr_deregistered w).
Definition set_completed (f : Z → Z) (w : WorkerProc) : WorkerProc :=
  mkProc (pr_stopping w) (pr_loops w) (pr_timers w) (pr_running w) (f (pr_completed w)) (pr_beats w)
    (pr_counted w) (pr_deregistered w).
Definition set_beats (f : list Z → list Z) (w : WorkerProc) : WorkerProc :=
  mkProc (pr_stopping w) (pr_loops w) (pr_timers w) (pr_running w) (pr_completed w) (f (pr_beats w))
    (pr_counted w) (pr_deregistered w).
Definition set_counted (f : Z → Z) (w : WorkerProc) : WorkerProc :=
  mkProc (pr_stopping w) (pr_loops w) (pr_timers w) (pr_running w) (pr_completed w) (pr_beats w)
    (f (pr_counted w)) (pr_deregistered w).

(** [start], after [register]; a new row has counted nothing. *)
Definition started (concurrency : nat) : WorkerProc :=
  mkProc false (replicate concurrency (Testing pollIntervalMs)) true 0 0 [] 0 false.

(** What a loop does next. *)
Definition loop_next (stopping : bool) (h : Happening) (l : LoopState) : option LoopState :=
  match h, l with
  | Turn _, Testing b => Some (if stopping then Ended else Claiming b)
  | ClaimFails _, Claiming b => Some (Sleeping b (Z.min (b * 2) 5000))
  | ClaimsNothing _, Claiming _ => Some (Sleeping pollIntervalMs pollIntervalMs)
  | Claims _ taskId, Claiming _ => Some (Busy taskId)
  | Wakes _, Sleeping _ b => Some (Testing b)
  | (TaskDropped _ | TaskCompleted _ | TaskThrows _), Busy _ => Some (Testing pollIntervalMs)
  | _, _ => None
  end.

(** [running] and [completedSinceLastBeat] beside it. *)
Definition counters (h : Happening) (w : WorkerProc) : WorkerProc :=
  match h with
  | Claims _ _ => set_running Z.succ w
  | TaskDropped _ | TaskThrows _ => set_running Z.pred w
  | TaskCompleted _ => set_running Z.pred (set_completed Z.succ w)
  | _ => w
  end.

Definition loop_of (h : Happening) : option nat :=
  match h with
  | Turn i | ClaimFails i | ClaimsNothing i | Claims i _ | Wakes i | TaskDropped i | TaskCompleted i | TaskThrows i => Some i
  | _ => None
  end.

(** [None] when it cannot happen now. *)
Definition happen (w : WorkerProc) (h : Happening) : option WorkerProc :=
  match loop_of h with
  | Some i =>
      l ← pr_loops w !! i;
      l' ← loop_next (pr_stopping w) h l;
      Some (counters h (set_loop i l' w))
  | None =>
      match h with
      | BeatFires =>
          if pr_timers w then Some (set_completed (λ _, 0%Z) (set_beats (cons (pr_completed w)) w)) else None
      | BeatStored n =>
          bs ← remove_one n (pr_beats w); Some (set_counted (λ c, c + n)%Z (set_beats (λ _, bs) w))
      | BeatFails n => bs ← remove_one n (pr_beats w); Some (set_beats (λ _, bs) w)
      | StopCalled =>
          Some (mkProc true (pr_loops w) false (pr_running w) (pr_completed w) (pr_beats w) (pr_counted w) (pr_deregistered w))
      | StopEnds =>
          if pr_stopping w && bool_decide (Forall (eq Ended) (pr_loops w))
          then Some (mkProc true (pr_loops w) false (pr_running w) (pr_completed w) (pr_beats w) (pr_counted w) true)
          else None
      | _ => None
      end
  end.

Fixpoint happens (hs : list Happening) (w : WorkerProc) : option WorkerProc :=
  match hs with [] => Some w | h :: hs => w ← happen w h; happens hs w end.

(** What one loop goes through. *)
Definition loop_path (stopping : bool) (hs : list Happening) (l : LoopState) : option LoopState :=
  foldl (λ o h, l ← o; loop_next stopping h l) (Some l) hs.
End queue_worker.

(** ** Counting *)

Definition is_busy (l : LoopState) : bool := match l with Busy _ => true | _ => false end.
Definition is_claiming (l : LoopState) : bool := match l with Claiming _ => true | _ => false end.

(** How much a loop still does once [stopping] is set. *)
Definition rest (l : LoopState) : Z :=
  match l with Ended => 0 | Testing _ => 1 | Sleeping _ _ | Busy _ => 2 | Claiming _ => 3 end.

Definition of_loop (h : Happening) : bool := match loop_of h with Some _ => true | None => false end.
Definition is_claim (h : Happening) : bool := match h with Claims _ _ => true | _ => false end.
Definition completes (h : Happening) : Z := match h with TaskCompleted _ => 1 | _ => 0 end.
Definition loses (h : Happening) : Z := match h with BeatFails n => n | _ => 0 end.

Definition sleeps_at_most (m : Z) (l : LoopState) : Prop :=
  match l with Testing b | Claiming b => b ≤ m | Sleeping t b => t ≤ m ∧ b ≤ m | _ => True end%Z.

#[local] Arguments sumZ : simpl never.

Section facts.
Context (pollIntervalMs : Z).
Notation next := (loop_next pollIntervalMs).
Notation hap := (happen pollIntervalMs).
Notation haps := (happens pollIntervalMs).

Lemma happens_app hs1 hs2 w : haps (hs1 ++ hs2)%list w = haps hs1 w ≫= haps hs2.
Proof. revert w. induction hs1 as [|h hs1 IH]; intros w; cbn; [done|]. destruct (hap w h); cbn; auto. Qed.

(** An invariant of single happenings, with what it says of the ones so far. *)
Lemma happens_ind (P : list Happening → WorkerProc → Prop) w0 :
  P [] w0 → (∀ hs w h w', P hs w → hap w h = Some w' → P (hs ++ [h])%list w') →
  ∀ hs w, haps hs w0 = Some w → P hs w.
Proof.
  intros H0 Hs hs. induction hs as [|h hs IH] using rev_ind; intros w.
  - by intros [= <-].
  - rewrite happens_app. destruct (haps hs w0) as [w1|] eqn:H1; cbn; [|done].
    destruct (hap w1 h) as [w2|] eqn:H2; cbn; [|done]. intros [= <-]. eauto.
Qed.

(** A happening of a loop and the others. *)
Lemma happen_inv w h w' :
  hap w h = Some w' →
  (∃ i l l', loop_of h = Some i ∧ pr_loops w !! i = Some l ∧ next (pr_stopping w) h l = Some l' ∧
     w' = counters h (set_loop i l' w)) ∨
  (loop_of h = None ∧ pr_loops w' = pr_loops w ∧ pr_running w' = pr_running w).
Proof.
  unfold happen. destruct (loop_of h) as [i|] eqn:Hh.
  - destruct (pr_loops w !! i) as [l|] eqn:Hl; cbn; [|done]. destruct (next _ h l) as [l'|] eqn:Hn; cbn; [|done].
    intros [= <-]. left. by exists i, l, l'.
  - intros Hs. right. split; [done|]. destruct h; try done.
    + destruct (pr_timers w); [|done]. by injection Hs as <-.
    + destruct (remove_one _ _); [|done]. by injection Hs as <-.
    + destruct (remove_one _ _); [|done]. by injection Hs as <-.
    + by injection Hs as <-.
    + destruct (_ && _); [|done]. by injection Hs as <-.
Qed.

Lemma counters_loops h w : pr_loops (counters h w) = pr_loops w.
Proof. by destruct h. Qed.
Lemma counters_flags h w : pr_stopping (counters h w) = pr_stopping w ∧ pr_deregistered (counters h w) = pr_deregistered w.
Proof. by destruct h. Qed.

Lemma countZ_insert {A} (p : A → bool) l i x y :
  l !! i = Some x → countZ p (<[i := y]> l) = (countZ p l - b2z (p x) + b2z (p y))%Z.
Proof. intros Hi. unfold countZ. rewrite (sumZ_insert _ _ _ _ _ Hi). by destruct (p x), (p y). Qed.

Lemma sum_remove n bs bs' : remove_one n bs = Some bs' → sumZ id bs = (n + sumZ id bs')%Z.
Proof.
  revert bs'. induction bs as [|m bs IH]; intros bs'; cbn [remove_one]; [done|]. rewrite sumZ_cons. case_bool_decide.
  - intros [= <-]. subst. done.
  - destruct (remove_one n bs) as [l|]; [|done]. intros [= <-]. rewrite sumZ_cons, (IH l eq_refl). cbn. lia.
Qed.

(** [running] is the number of busy loops. *)
Lemma happen_running w h w' :
  hap w h = Some w' → pr_running w = countZ is_busy (pr_loops w) → pr_running w' = countZ is_busy (pr_loops w').
Proof.
  intros [(i & l & l' & Hh & Hl & Hn & ->)|(_ & -> & ->)]%happen_inv; [|done]. intros Hr.
  rewrite counters_loops. cbn [set_loop pr_loops]. rewrite (countZ_insert _ _ _ _ _ Hl), <- Hr.
  destruct h, l; try discriminate; injection Hn as <-; try (destruct (pr_stopping w)); cbn; lia.
Qed.

(** Completed tasks are stored, on the way, waiting for a heartbeat, or lost. *)
Definition accounted (w : WorkerProc) : Z := (pr_counted w + sumZ id (pr_beats w) + pr_completed w)%Z.

Lemma happen_accounted w h w' : hap w h = Some w' → accounted w' = (accounted w + completes h - loses h)%Z.
Proof.
  unfold accounted, happen. destruct (loop_of h) as [i|] eqn:Hh.
  - destruct (pr_loops w !! i) as [l|]; cbn; [|done]. destruct (next _ h l) as [l'|]; cbn; [|done].
    intros [= <-]. destruct h; try done; cbn -[sumZ]; lia.
  - destruct h; try done.
    + destruct (pr_timers w); [|done]. intros [= <-]. cbn [set_completed set_beats pr_counted pr_beats pr_completed].
      rewrite sumZ_cons. cbn. lia.
    + destruct (remove_one _ _) as [bs|] eqn:Hb; [|done]. apply sum_remove in Hb. intros [= <-]. cbn in *. lia.
    + destruct (remove_one _ _) as [bs|] eqn:Hb; [|done]. apply sum_remove in Hb. intros [= <-]. cbn in *. lia.
    + intros [= <-]. cbn. lia.
    + destruct (_ && _); [|done]. intros [= <-]. cbn. lia.
Qed.

(** The shape of the process: as many loops as at the start, none of which ever
    sleeps longer than the polling interval or five seconds. *)
Definition shaped (n : nat) (w : WorkerProc) : Prop :=
  length (pr_loops w) = n ∧ Forall (sleeps_at_most (Z.max pollIntervalMs 5000)) (pr_loops w) ∧
  (pr_deregistered w = true → Forall (eq Ended) (pr_loops w) ∧ pr_stopping w = true).

Lemma next_sleeps stopping h l l' m :
  (pollIntervalMs ≤ m)%Z → (5000 ≤ m)%Z → next stopping h l = Some l' → sleeps_at_most m l → sleeps_at_most m l'.
Proof.
  intros Hp Hm Hn Hl. destruct h, l; try discriminate; injection Hn as <-; try destruct stopping; cbn in *; lia.
Qed.

Lemma next_not_ended stopping h l : next stopping h l ≠ None → l ≠ Ended.
Proof. intros Hn ->. by destruct h. Qed.

Lemma happen_shaped n w h w' : hap w h = Some w' → shaped n w → shaped n w'.
Proof.
  intros Hh (Hl & Hs & Hd). destruct (happen_inv _ _ _ Hh) as [(i & l & l' & _ & Hi & Hn & ->)|(Ho & Hls & _)].
  - unfold shaped. rewrite counters_loops. destruct (counters_flags h (set_loop i l' w)) as [-> ->]. cbn.
    rewrite length_insert. split; [done|]. split.
    + apply Forall_insert; [done|]. eapply next_sleeps; [..|exact Hn|]; [lia..|]. by eapply Forall_lookup_1 in Hs.
    + intros [He _]%Hd. eapply Forall_lookup_1 in He; [|exact Hi]. subst l. by destruct h.
  - unfold shaped. rewrite Hls. split; [done|]. split; [done|]. unfold happen in Hh. rewrite Ho in Hh.
    destruct h; try done.
    + destruct (pr_timers w); [|done]. by injection Hh as <-.
    + destruct (remove_one _ _); [|done]. by injection Hh as <-.
    + destruct (remove_one _ _); [|done]. by injection Hh as <-.
    + injection Hh as <-. cbn. naive_solver.
    + destruct (_ && _) eqn:Hg; [|done]. injection Hh as <-. cbn. apply andb_true_iff in Hg as [Hst He].
      by rewrite bool_decide_eq_true in He.
Qed.

Lemma started_shaped n : shaped n (started pollIntervalMs n).
Proof.
  split; [apply length_replicate|]. split; [|done]. apply Forall_replicate. cbn. lia.
Qed.

(** *** Draining *)

Lemma next_rest h l l' : next true h l = Some l' → rest l' = (rest l - 1)%Z.
Proof. by destruct h, l; try discriminate; intros [= <-]. Qed.

Lemma next_claiming h l l' :
  next true h l = Some l' → (b2z (is_claim h) + b2z (is_claiming l') ≤ b2z (is_claiming l))%Z.
Proof. by destruct h, l; try discriminate; intros [= <-]. Qed.

Lemma happen_stopping w h w' : hap w h = Some w' → pr_stopping w = true → pr_stopping w' = true.
Proof.
  intros Hh Hs. destruct (happen_inv _ _ _ Hh) as [(i & l & l' & _ & _ & _ & ->)|(Ho & _ & _)].
  - by rewrite (proj1 (counters_flags _ _)).
  - unfold happen in Hh. rewrite Ho in Hh. destruct h; try done.
    + destruct (pr_timers w); [|done]. by injection Hh as <-.
    + destruct (remove_one _ _); [|done]. by injection Hh as <-.
    + destruct (remove_one _ _); [|done]. by injection Hh as <-.
    + by injection Hh as <-.
    + destruct (_ && _); [|done]. by injection Hh as <-.
Qed.

Lemma happen_drains w h w' :
  hap w h = Some w' → pr_stopping w = true →
  (b2z (of_loop h) + sumZ rest (pr_loops w') = sumZ rest (pr_loops w) ∧
   b2z (is_claim h) + countZ is_claiming (pr_loops w') ≤ countZ is_claiming (pr_loops w))%Z.
Proof.
  intros [(i & l & l' & Hh & Hl & Hn & ->)|(Hh & -> & _)]%happen_inv Hs.
  - rewrite counters_loops. cbn [set_loop pr_loops]. rewrite Hs in Hn. unfold of_loop. rewrite Hh.
    rewrite (sumZ_insert _ _ _ _ _ Hl), (countZ_insert _ _ _ _ _ Hl), (next_rest _ _ _ Hn).
    pose proof (next_claiming _ _ _ Hn). cbn. lia.
  - unfold of_loop. rewrite Hh. by destruct h.
Qed.

Lemma happens_drain hs w w' :
  haps hs w = Some w' → pr_stopping w = true →
  pr_stopping w' = true ∧
  (countZ of_loop hs + sumZ rest (pr_loops w') = sumZ rest (pr_loops w))%Z ∧
  (countZ is_claim hs + countZ is_claiming (pr_loops w') ≤ countZ is_claiming (pr_loops w))%Z.
Proof.
  revert w. induction hs as [|h hs IH]; intros w; cbn [happens].
  - intros [= <-] Hs. unfold countZ, sumZ at 1. cbn. unfold sumZ at 2. cbn. by split_and!.
  - destruct (hap w h) as [w1|] eqn:Hh; cbn; [|done]. intros Hr Hs.
    destruct (happen_drains _ _ _ Hh Hs) as [H1 H2]. pose proof (happen_stopping _ _ _ Hh Hs) as Hs1.
    destruct (IH w1 Hr Hs1) as (H3 & H4 & H5). unfold countZ in *. rewrite !sumZ_cons. unfold b2z in *.
    split; [done|]. destruct (of_loop h), (is_claim h); lia.
Qed.

Lemma next_enabled l : l ≠ Ended → ∃ l', ∀ i, ∃ h, loop_of h = Some i ∧ next true h l = Some l'.
Proof.
  destruct l; intros Hl; [| | | |done].
  - eexists. intros i. by exists (Turn i).
  - eexists. intros i. by exists (ClaimsNothing i).
  - eexists. intros i. by exists (Wakes i).
  - eexists. intros i. by exists (TaskCompleted i).
Qed.

Lemma happen_enabled w :
  pr_stopping w = true → ¬ Forall (eq Ended) (pr_loops w) → ∃ h w', of_loop h = true ∧ hap w h = Some w'.
Proof.
  intros Hs Hn. apply not_Forall_Exists in Hn; [|apply _]. apply Exists_exists in Hn as (l & Hin & Hl).
  apply list_elem_of_lookup in Hin as [i Hi]. destruct (next_enabled l) as [l' He]; [by intros ->|].
  destruct (He i) as (h & Hh & Hn). exists h. unfold of_loop, happen. rewrite Hh, Hi. cbn. rewrite Hs, Hn. by eexists.
Qed.
End facts.

(** ** Properties *)

(** the counters of a worker are right.  Whatever happens, in any order, to a
    worker that started with [n] loops: it has [n] loops, none of which sleeps
    longer than the polling interval or five seconds; [running] is the number of
    loops that have a task; every completed task is in the row of the registry,
    in a heartbeat on its way, in the counter, or lost in a heartbeat that
    failed; and the worker deregisters when no loop is left, so no task is
    running then. *)
Theorem worker_counts pollIntervalMs n hs w :
  happens pollIntervalMs hs (started pollIntervalMs n) = Some w →
  length (pr_loops w) = n ∧ Forall (sleeps_at_most (Z.max pollIntervalMs 5000)) (pr_loops w) ∧
  pr_running w = countZ is_busy (pr_loops w) ∧
  (pr_counted w + sumZ id (pr_beats w) + pr_completed w + sumZ loses hs = sumZ completes hs)%Z ∧
  (pr_deregistered w = true → Forall (eq Ended) (pr_loops w) ∧ pr_running w = 0%Z).
Proof.
  intros Hw.
  assert (shaped pollIntervalMs n w ∧ pr_running w = countZ is_busy (pr_loops w) ∧
          (accounted w + sumZ loses hs = sumZ completes hs)%Z) as ((Hl & Hs & Hd) & Hr & Ha).
  { revert hs w Hw. apply happens_ind.
    - split; [apply started_shaped|]. split; [|done]. cbn. induction n; [done|]. exact IHn.
    - intros hs w h w' (Hsh & Hr & Ha) Hh. split_and!; [by eapply happen_shaped|by eapply happen_running|].
      rewrite (happen_accounted _ _ _ _ Hh), !sumZ_app, !sumZ_cons.
      change (sumZ loses []) with 0%Z. change (sumZ completes []) with 0%Z. lia. }
  split_and!; [done..|]. intros [He _]%Hd. split; [done|]. rewrite Hr. clear -He.
  induction He as [|l ls <- _ IH]; [done|exact IH].
Qed.

Definition one_task : list Happening :=
  [Turn 0; Turn 1; Claims 0 7; ClaimsNothing 1; TaskCompleted 0; BeatFires; Turn 0; Claims 0 8; BeatStored 1; TaskCompleted 0].

(** A task that is completed after the last heartbeat is never counted. *)
Lemma worker_counts_witness :
  match happens 200 (one_task ++ [StopCalled; Turn 0; Wakes 1; Turn 1; StopEnds])%list (started 200 2) with
  | Some w => pr_deregistered w = true ∧ pr_counted w = 1%Z ∧ pr_completed w = 1%Z ∧ pr_running w = 0%Z
  | None => False
  end.
Proof.
  destruct (happens _ _ _) as [w|] eqn:Hw; [|by vm_compute in Hw].
  destruct (worker_counts 200 2 _ w Hw) as (_ & _ & _ & Hsum & Hd).
  assert (pr_deregistered w = true) as Hdr by (vm_compute in Hw; by injection Hw as <-).
  split; [done|]. split; [|split; [|by apply Hd]]; vm_compute in Hw; by injection Hw as <-.
Defined.

(** C18: a worker that is told to stop drains.  From then on every loop makes at most
    three more transitions, so that it ends; a loop claims one more task at most,
    and only if it was waiting for a claim; as long as a loop is left, one of
    them can go on; and when none is left the worker deregisters. *)
Theorem worker_drains pollIntervalMs hs w w' :
  pr_stopping w = true → happens pollIntervalMs hs w = Some w' →
  (countZ of_loop hs + sumZ rest (pr_loops w') = sumZ rest (pr_loops w))%Z ∧
  (sumZ rest (pr_loops w) ≤ 3 * Z.of_nat (length (pr_loops w)))%Z ∧
  (countZ is_claim hs ≤ countZ is_claiming (pr_loops w))%Z ∧
  (¬ Forall (eq Ended) (pr_loops w') → ∃ h w'', of_loop h = true ∧ happen pollIntervalMs w' h = Some w'') ∧
  (Forall (eq Ended) (pr_loops w') → ∃ w'', happen pollIntervalMs w' StopEnds = Some w'' ∧ pr_deregistered w'' = true).
Proof.
  intros Hs Hw. destruct (happens_drain _ _ _ _ Hw Hs) as (Hs' & Hr & Hc). split_and!; [done| | | |].
  - rewrite length_sumZ. clear. induction (pr_loops w) as [|l ls IH]; [done|]. rewrite !sumZ_cons. destruct l; cbn; lia.
  - pose proof (countZ_bounds is_claiming (pr_loops w')). lia.
  - by apply happen_enabled.
  - intros He. unfold happen. cbn. rewrite Hs', bool_decide_eq_true_2 by done. cbn. by eexists.
Qed.

(** A loop that waits for its claim when the worker is stopped still runs the
    task it gets. *)
Lemma worker_drains_witness :
  match happens 200 [Turn 0; Turn 1; ClaimsNothing 1; StopCalled] (started 200 2) with
  | Some w =>
      match happens 200 [Claims 0 7; TaskCompleted 0; Wakes 1; Turn 0; Turn 1] w with
      | Some w' => countZ is_claim [Claims 0 7; TaskCompleted 0; Wakes 1; Turn 0; Turn 1] = 1%Z ∧
                   countZ is_claiming (pr_loops w) = 1%Z ∧ sumZ rest (pr_loops w) = 5%Z ∧
                   (∃ w'', happen 200 w' StopEnds = Some w'' ∧ pr_deregistered w'' = true)
      | None => False
      end
  | None => False
  end.
Proof.
  destruct (happens 200 [Turn 0; Turn 1; ClaimsNothing 1; StopCalled] (started 200 2)) as [w|] eqn:Hw;
    [|by vm_compute in Hw].
  destruct (happens 200 [Claims 0 7; TaskCompleted 0; Wakes 1; Turn 0; Turn 1] w) as [w'|] eqn:Hw';
    [|vm_compute in Hw; injection Hw as <-; by vm_compute in Hw'].
  assert (pr_stopping w = true) as Hs by (vm_compute in Hw; by injection Hw as <-).
  destruct (worker_drains 200 _ w w' Hs Hw') as (_ & _ & _ & _ & He).
  vm_compute in Hw. injection Hw as <-. vm_compute in Hw'. injection Hw' as <-.
  split_and!; [done..|]. apply He. by repeat constructor.
Defined.

(** [loop_turn], which says what a turn does to the stores, follows this state
    machine: it always returns, and with the sleep and the backoff of the state
    that the loop is then in. *)
Theorem loop_turn_follows cfg handlers workerId leaseMs claimLeaseMs pollIntervalMs backoffMs world :
  ∃ slept next hs,
    (run (loop_turn cfg handlers workerId leaseMs claimLeaseMs pollIntervalMs backoffMs) world).1 = Ok (slept, next) ∧
    loop_path pollIntervalMs false hs (Testing backoffMs) = Some (Testing next) ∧
    ((∃ h, hs = [Turn 0; h; Wakes 0] ∧ loop_path pollIntervalMs false [Turn 0; h] (Testing backoffMs) = Some (Sleeping slept next)) ∨
     (∃ taskId h, hs = [Turn 0; Claims 0 taskId; h] ∧ slept = 0%Z)).
Proof.
  unfold loop_turn. rewrite run_bind, run_catch, run_bind.
  destruct (run (queue_call (queue_claim claimLeaseMs)) world) as [[[taskId|]|e] world1]; cbn [run].
  - rewrite run_bind, run_catch.
    destruct (run (processTask cfg handlers workerId leaseMs taskId) world1) as [[[]|e] world2]; cbn [run].
    + eexists _, _, [Turn 0; Claims 0 taskId; TaskCompleted 0]. split; [done|]. split; [done|]. right. by eexists _, _.
    + eexists _, _, [Turn 0; Claims 0 taskId; TaskThrows 0]. split; [done|]. split; [done|]. right. by eexists _, _.
  - eexists _, _, [Turn 0; ClaimsNothing 0; Wakes 0]. split; [done|]. split; [done|]. left. by eexists.
  - eexists _, _, [Turn 0; ClaimFails 0; Wakes 0]. split; [done|]. split; [done|]. left. by eexists.
Qed.

(** ** Shutting down *)

Section shutdown.
(** [Promise.allSettled(ps)]: when the last one settles. *)
Fixpoint allSettled {A} (ps : list (promise A)) : promise unit :=
  match ps with
  | [] => Some (0%Z, Resolved tt)
  | p :: ps => '(t, _) ← p; '(u, _) ← allSettled ps; Some (Z.max t u, Resolved tt)
  end.

(** [p.catch(() => {})]. *)
Definition ignored {A} (p : promise A) : promise unit := (λ s, (s.1, Resolved tt)) <$> p.

(** [await] of each in turn: the time of the end; the first rejection is thrown. *)
Fixpoint in_turn (ps : list (promise unit)) : promise unit :=
  match ps with
  | [] => Some (0%Z, Resolved tt)
  | p :: ps =>
      '(t, s) ← p;
      match s with
      | Resolved _ => '(u, r) ← in_turn ps; Some (t + u, r)%Z
      | Rejected e => Some (t, Rejected e)
      end
  end.

(** The exit code and the time of the exit after the signal: [process.exit(0)]
    at the end of the steps, [process.exit(1)] when the timer fires first.  (A
    step that never settles holds a connection, so the process waits.) *)
Definition shutdown (shutdownTimeoutMs : ms) (steps : list (promise unit)) : Z * ms :=
  match in_turn steps with
  | Some (t, Resolved _) => if bool_decide (t < shutdownTimeoutMs)%Z then (0, t)%Z else (1%Z, shutdownTimeoutMs)
  | _ => (1%Z, shutdownTimeoutMs)
  end.

(** The steps of [src/worker.js]: [worker.stop()] waits for the loops and
    deregisters; the scheduler and, where Kafka was reachable, the relay release
    the locks that they hold. *)
Record WorkerSteps := mkWorkerSteps {
  ws_loops : list (promise unit);
  ws_deregister : list (promise unit);
  ws_scheduler_lock : option (promise bool);
  ws_relay_lock : option (promise bool);
  ws_publisher : promise unit;
  ws_stores : list (promise unit)
}.

Definition release_step (held : option (promise bool)) : promise unit :=
  match held with Some p => ignored p | None => Some (0%Z, Resolved tt) end.

Definition worker_steps (s : WorkerSteps) : list (promise unit) :=
  [allSettled (ws_loops s); allSettled (ws_deregister s); release_step (ws_scheduler_lock s);
   release_step (ws_relay_lock s); ignored (ws_publisher s); allSettled (ws_stores s)].

(** Those of [src/server.js]: [server.close], which never rejects. *)
Definition server_steps (close : promise unit) (stores : list (promise unit)) : list (promise unit) :=
  [ignored close; allSettled stores].

(** What starts a shutdown: a signal, or a rejection that nobody handles. *)
Inductive Signal : Type := SIGTERM | SIGINT | UnhandledRejection.

(** [if (stopping) return]: the time at which the shutdown began. *)
Definition on_signal (stopping : option ms) (s : ms * Signal) : option ms :=
  match stopping with Some t => Some t | None => Some s.1 end.

(** The exit of a process that gets these signals, in this order. *)
Definition exits (shutdownTimeoutMs : ms) (steps : list (promise unit)) (signals : list (ms * Signal)) : option (Z * ms) :=
  (λ t0, let '(code, t) := shutdown shutdownTimeoutMs steps in (code, t0 + t)%Z) <$> foldl on_signal None signals.
End shutdown.

(** *** Facts *)

Definition timely {A} (p : promise A) : Prop := ∀ t s, p = Some (t, s) → (0 ≤ t)%Z.
Definition settles {A} (p : promise A) : Prop := is_Some p.

(** When the last of [ps] settles. *)
Definition latest {A} (ps : list (promise A)) : ms := foldr (λ p t, Z.max (from_option fst 0%Z p) t) 0%Z ps.

Lemma allSettled_settles {A} (ps : list (promise A)) :
  Forall settles ps → allSettled ps = Some (latest ps, Resolved tt).
Proof.
  induction 1 as [|p ps [[t s] ->] _ IH]; [done|]. change (latest (Some (t, s) :: ps)) with (Z.max t (latest ps)).
  cbn. by rewrite IH.
Qed.

Lemma allSettled_inv {A} (ps : list (promise A)) t r :
  allSettled ps = Some (t, r) → r = Resolved tt ∧ (0 ≤ t)%Z ∧ Forall (λ p, ∃ u s, p = Some (u, s) ∧ (u ≤ t)%Z) ps.
Proof.
  revert t r. induction ps as [|p ps IH]; intros t r; cbn.
  - intros [= <- <-]. by split_and!.
  - destruct p as [[u s]|]; cbn; [|done]. destruct (allSettled ps) as [[v q]|]; cbn; [|done]. intros [= <- <-].
    destruct (IH v q eq_refl) as (_ & Hv & Hall). split; [done|]. split; [lia|]. constructor.
    + exists u, s. split; [done|lia].
    + eapply Forall_impl; [exact Hall|]. intros p (u' & s' & -> & Hu). exists u', s'. split; [done|lia].
Qed.

Lemma ignored_inv {A} (p : promise A) t r : ignored p = Some (t, r) → r = Resolved tt ∧ ∃ s, p = Some (t, s).
Proof. destruct p as [[u s]|]; cbn; [|done]. intros [= <- <-]. eauto. Qed.

Lemma in_turn_nonneg ps t r : Forall timely ps → in_turn ps = Some (t, r) → (0 ≤ t)%Z.
Proof.
  intros Hp. revert t r. induction Hp as [|p ps Hp _ IH]; intros t r; cbn; [by intros [= <- <-]|].
  destruct p as [[u [a|e]]|] eqn:E; cbn; [| |done].
  - destruct (in_turn ps) as [[v q]|]; cbn; [|done]. intros [= <- <-]. pose proof (IH v q eq_refl).
    pose proof (Hp u (Resolved a) eq_refl). lia.
  - intros [= <- <-]. by eapply Hp.
Qed.

(** The first step is over by the end. *)
Lemma in_turn_first p ps t r :
  Forall timely ps → in_turn (p :: ps) = Some (t, Resolved r) → ∃ u a, p = Some (u, Resolved a) ∧ (u ≤ t)%Z.
Proof.
  intros Hp. cbn. destruct p as [[u [a|e]]|]; cbn; [| |done]; [|done].
  destruct (in_turn ps) as [[v q]|] eqn:E; cbn; [|done]. intros [= <- ->]. exists u, a. split; [done|].
  pose proof (in_turn_nonneg _ _ _ Hp E). lia.
Qed.

Lemma on_signal_stays t0 signals : foldl on_signal (Some t0) signals = Some t0.
Proof. by induction signals. Qed.

Lemma shutdown_bounded timeout steps :
  (0 < timeout)%Z → Forall timely steps →
  let '(code, t) := shutdown timeout steps in
  (0 ≤ t ≤ timeout)%Z ∧
  (code = 0%Z ∧ in_turn steps = Some (t, Resolved tt) ∧ (t < timeout)%Z ∨
   code = 1%Z ∧ t = timeout ∧ ∀ u, in_turn steps = Some (u, Resolved tt) → (timeout ≤ u)%Z).
Proof.
  intros Ht Hp. unfold shutdown. destruct (in_turn steps) as [[u [[]|e]]|] eqn:E.
  - pose proof (in_turn_nonneg _ _ _ Hp E). case_bool_decide; split; [lia|by left|lia|].
    right. split; [done|]. split; [done|]. intros v [= <-]. lia.
  - split; [lia|]. right. split_and!; [done|done|]. intros v [=].
  - split; [lia|]. right. by split_and!.
Qed.

Lemma allSettled_timely {A} (ps : list (promise A)) : timely (allSettled ps).
Proof. intros t s Hs. by apply allSettled_inv in Hs as (_ & H & _). Qed.
Lemma ignored_timely {A} (p : promise A) : timely p → timely (ignored p).
Proof. intros Hp t s [_ [r Hr]]%ignored_inv. by eapply Hp. Qed.
Lemma release_timely p : (∀ q, p = Some q → timely q) → timely (release_step p).
Proof. destruct p as [q|]; cbn; intros Hp; [by apply ignored_timely, Hp|]. by intros t s [= <- _]. Qed.

(** The duration of a graceful stop. *)
Definition stop_time (s : WorkerSteps) : ms :=
  let release := λ p, from_option (from_option fst 0%Z) 0%Z p in
  (latest (ws_loops s) + latest (ws_deregister s) + release (ws_scheduler_lock s) + release (ws_relay_lock s) +
   from_option fst 0 (ws_publisher s) + latest (ws_stores s))%Z.

Definition all_settle (s : WorkerSteps) : Prop :=
  Forall settles (ws_loops s) ∧ Forall settles (ws_deregister s) ∧
  (∀ p, ws_scheduler_lock s = Some p → settles p) ∧ (∀ p, ws_relay_lock s = Some p → settles p) ∧
  settles (ws_publisher s) ∧ Forall settles (ws_stores s).

Lemma release_settles o :
  (∀ p, o = Some p → settles p) →
  release_step o = Some (from_option (from_option fst 0%Z) 0%Z o, Resolved tt).
Proof. destruct o as [p|]; [|done]. intros Hs. by destruct (Hs p eq_refl) as [[t s] ->]. Qed.

Lemma worker_steps_total s : all_settle s → in_turn (worker_steps s) = Some (stop_time s, Resolved tt).
Proof.
  intros (Hl & Hd & Hs & Hr & [[t p] Hp] & Hst). unfold worker_steps.
  rewrite (allSettled_settles _ Hl), (allSettled_settles _ Hd), (allSettled_settles _ Hst),
    (release_settles _ Hs), (release_settles _ Hr).
  unfold stop_time. rewrite Hp. cbn. do 2 f_equal. lia.
Qed.

(** a worker process that is told to stop exits in bounded time.  It exits
    between the first signal and [SHUTDOWN_TIMEOUT_MS] after it, whatever
    signals follow; with code 0 only when every loop has ended, and so every
    task in flight was reported; and it does so whenever the loops, the
    registry, the locks, Kafka and the stores together take less than the
    timeout, even if some of them fail. *)
Theorem worker_process_exits timeout s t0 sig more :
  (0 < timeout)%Z → timely (ws_publisher s) →
  (∀ p, ws_scheduler_lock s = Some p → timely p) → (∀ p, ws_relay_lock s = Some p → timely p) →
  ∃ code t, exits timeout (worker_steps s) ((t0, sig) :: more) = Some (code, t) ∧
    (t0 ≤ t ≤ t0 + timeout)%Z ∧ (code = 0 ∨ code = 1)%Z ∧
    (code = 0%Z → Forall (λ p, ∃ u r, p = Some (u, r) ∧ (u ≤ t - t0)%Z) (ws_loops s)) ∧
    (all_settle s → (stop_time s < timeout)%Z → code = 0%Z ∧ t = (t0 + stop_time s)%Z).
Proof.
  intros Ht Hp Hs Hr. unfold exits. cbn [foldl on_signal]. rewrite on_signal_stays. cbn [fst fmap option_fmap option_map].
  assert (Forall timely (worker_steps s)) as Htl.
  { repeat constructor; auto using allSettled_timely, ignored_timely, release_timely. }
  pose proof (shutdown_bounded timeout _ Ht Htl) as Hb. destruct (shutdown _ _) as [code t] eqn:Hsd.
  destruct Hb as (Hb & Hcase). eexists code, _. split; [reflexivity|]. split; [lia|]. split; [naive_solver|]. split.
  - intros ->. destruct Hcase as [(_ & Hin & _)|[? _]]; [|done]. inversion_clear Htl as [|? ? _ Htl'].
    apply in_turn_first in Hin as (u & a & Hl & Hu); [|done]. apply allSettled_inv in Hl as (_ & _ & Hall).
    eapply Forall_impl; [exact Hall|]. intros p (v & r & -> & Hv). exists v, r. split; [done|lia].
  - intros Hall%worker_steps_total Hlt. rewrite Hall in Hcase. destruct Hcase as [(-> & [= <-] & _)|(_ & _ & Hge)]; [done|].
    pose proof (Hge _ eq_refl). lia.
Qed.

Definition quick {A} (a : A) (t : ms) : promise A := Some (t, Resolved a).

(** Two signals; one loop runs a task for another three seconds, and the lock of
    the scheduler cannot be released. *)
Definition busy_stop : WorkerSteps :=
  mkWorkerSteps [quick tt 3000; quick tt 200] [quick tt 5; quick tt 7] (Some (Some (20%Z, Rejected Nullish))) None
    (quick tt 30) [quick tt 3; quick tt 2].

Lemma worker_process_exits_witness :
  exits 10000 (worker_steps busy_stop) [(50, SIGTERM); (60, SIGINT)]%Z = Some (0, 3110)%Z ∧
  stop_time busy_stop = 3060%Z.
Proof.
  split; [|reflexivity].
  destruct (worker_process_exits 10000 busy_stop 50 SIGTERM [(60%Z, SIGINT)]) as (code & t & He & _ & _ & _ & Hok);
    [lia|by intros t s [= <- _]|intros p [= <-]; by intros t s [= <- _]|done|].
  rewrite He. destruct Hok as [-> ->]; [|by vm_compute|done].
  split_and!; [..|by eexists|]; try (repeat first [apply Forall_nil_2|apply Forall_cons_2; [by eexists|]]).
  - intros p [= <-]. by eexists.
  - done.
Defined.

(** A sleeping loop is not woken: an idle worker whose polling interval is that of
    the default timeout, as the configuration allows, cannot stop gracefully. *)
Example idle_worker_forced :
  shutdown 10000 (worker_steps (mkWorkerSteps [quick tt 10000] [quick tt 1] None None (quick tt 1) [quick tt 1])) = (1, 10000)%Z.
Proof. reflexivity. Qed.

(** The API process: it stops when every request in flight is answered. *)
Lemma server_process_exits timeout close stores t0 sig more :
  (0 < timeout)%Z → timely close →
  ∃ code t, exits timeout (server_steps close stores) ((t0, sig) :: more) = Some (code, t) ∧
    (t0 ≤ t ≤ t0 + timeout)%Z ∧ (code = 0%Z → ∃ u r, close = Some (u, r) ∧ (u ≤ t - t0)%Z).
Proof.
  intros Ht Hc. unfold exits. cbn [foldl on_signal]. rewrite on_signal_stays. cbn [fst fmap option_fmap option_map].
  assert (Forall timely (server_steps close stores)) as Htl.
  { repeat constructor; auto using allSettled_timely, ignored_timely. }
  pose proof (shutdown_bounded timeout _ Ht Htl) as Hb. destruct (shutdown _ _) as [code t] eqn:Hsd.
  destruct Hb as (Hb & Hcase). eexists code, _. split; [reflexivity|]. split; [lia|].
  intros ->. destruct Hcase as [(_ & Hin & _)|[? _]]; [|done]. inversion_clear Htl as [|? ? _ Htl'].
  apply in_turn_first in Hin as (u & a & Hl & Hu); [|done]. apply ignored_inv in Hl as [_ [r ->]].
  exists u, r. split; [done|lia].
Qed.
