(* ===== verification/Lock.v ===== *)
(** * The distributed lock ([src/queues/lock.js])

    One key with an expiry and one counter on a Redis server.  [acquire] is two
    commands, so other clients may run between them; [release] and [extend] are
    one script each. *)

From S2P Require Import Prelude Program.

Set Primitive Projections.

(** The value of the key with its expiry, the counter of fencing tokens, the
    clock of the server, and a supply for [randomUUID]. *)
Record LockStore := mkLockStore {
  l_key : option (nat * Z);
  l_fence : Z;
  l_time : Z;
  l_uuids : nat
}.

Unset Primitive Projections.

(** [GET]: an expired key reads as missing. *)
Definition holder (s : LockStore) : option nat :=
  match l_key s with
  | Some (token, expiry) => if bool_decide (l_time s < expiry)%Z then Some token else None
  | None => None
  end.

Definition with_key (k : option (nat * Z)) (s : LockStore) : LockStore :=
  mkLockStore k (l_fence s) (l_time s) (l_uuids s).

(** [randomUUID()]. *)
Definition randomUUID (s : LockStore) : nat * LockStore :=
  (l_uuids s, mkLockStore (l_key s) (l_fence s) (l_time s) (S (l_uuids s))).

(** [SET key token PX ttl NX]. *)
Definition set_nx (token : nat) (ttl : Z) (s : LockStore) : bool * LockStore :=
  match holder s with
  | Some _ => (false, s)
  | None => (true, with_key (Some (token, l_time s + ttl)%Z) s)
  end.

(** [INCR key:fence]. *)
Definition incr (s : LockStore) : Z * LockStore :=
  ((l_fence s + 1)%Z, mkLockStore (l_key s) (l_fence s + 1)%Z (l_time s) (l_uuids s)).

(** The scripts [RELEASE] and [EXTEND]. *)
Definition release_script (token : nat) (s : LockStore) : bool * LockStore :=
  if bool_decide (holder s = Some token) then (true, with_key None s) else (false, s).

Definition extend_script (token : nat) (ttl : Z) (s : LockStore) : bool * LockStore :=
  if bool_decide (holder s = Some token)
  then (true, with_key (Some (token, l_time s + ttl)%Z) s) else (false, s).

Definition acquire (ttl : Z) : prog LockStore (option (nat * Z)) :=
  token ← Atom randomUUID Ret;
  ok ← Atom (set_nx token ttl) Ret;
  if ok : bool then fence ← Atom incr Ret; Ret (Some (token, fence)) else Ret None.

Definition release (token : nat) : prog LockStore bool := Atom (release_script token) Ret.
Definition extend (token : nat) (ttl : Z) : prog LockStore bool := Atom (extend_script token ttl) Ret.

(** The start of a tick of a leader ([createRelayRunner] in [src/events/relay.js],
    [createScheduler] in [src/scheduler/scheduler.js]): keep the lock it holds, or
    try to take it. *)
Definition lead (ttl : Z) (held : option (nat * Z)) : prog LockStore (option (nat * Z)) :=
  held ← match held with
         | Some (token, fence) =>
             still ← extend token ttl;
             Ret (if still : bool then Some (token, fence) else None)
         | None => Ret None
         end;
  match held with
  | Some h => Ret (Some h)
  | None => acquire ttl
  end.

(** A tick goes on only if its lock is held at that moment. *)
Lemma lead_holds ttl held s token fence s' :
  (0 < ttl)%Z → run (lead ttl held) s = (Ok (Some (token, fence)), s') → holder s' = Some token.
Proof.
  intros Httl. assert (∀ t s, holder (with_key (Some (t, l_time s + ttl)%Z) s) = Some t) as Hset.
  { intros t s0. unfold holder. cbn. by rewrite bool_decide_eq_true_2 by lia. }
  assert (∀ s, run (acquire ttl) s = (Ok (Some (token, fence)), s') → holder s' = Some token) as Hacq.
  { intros s0. cbn. unfold set_nx. destruct (holder _); cbn; [done|]. intros [= <- _ <-].
    apply (Hset _ (randomUUID s0).2). }
  unfold lead. rewrite run_bind. destruct held as [[t f]|]; [|apply Hacq].
  cbn. unfold extend_script. case_bool_decide; cbn; [|apply Hacq]. intros [= <- _ <-]. apply Hset.
Qed.

(** ** What any number of clients may do *)

Inductive lock_command : Type :=
| SetNx (token : nat) (ttl : Z)
| Incr
| Release (token : nat)
| Extend (token : nat) (ttl : Z)
| Wait (dt : nat).

Definition lock_exec (s : LockStore) (c : lock_command) : LockStore :=
  match c with
  | SetNx token ttl => (set_nx token ttl s).2
  | Incr => (incr s).2
  | Release token => (release_script token s).2
  | Extend token ttl => (extend_script token ttl s).2
  | Wait dt => mkLockStore (l_key s) (l_fence s) (l_time s + Z.of_nat dt)%Z (l_uuids s)
  end.

(** The command does not come from the client that holds [token]. *)
Definition foreign (token : nat) (c : lock_command) : bool :=
  match c with
  | Release t | Extend t _ => negb (bool_decide (t = token))
  | _ => true
  end.

Lemma lock_exec_time s c : (l_time s ≤ l_time (lock_exec s c))%Z.
Proof.
  destruct c as [t ttl| |t|t ttl|dt]; simpl; unfold set_nx, release_script, extend_script; simpl.
  - by destruct (holder s).
  - done.
  - by case_bool_decide.
  - by case_bool_decide.
  - lia.
Qed.

Lemma lock_run_time cs : ∀ s, (l_time s ≤ l_time (foldl lock_exec s cs))%Z.
Proof.
  induction cs as [|c cs IH]; intros s; simpl; [lia|]. pose proof (lock_exec_time s c).
  pose proof (IH (lock_exec s c)). lia.
Qed.

Lemma lock_exec_keeps s c token expiry :
  l_key s = Some (token, expiry) → (l_time s < expiry)%Z → foreign token c = true →
  l_key (lock_exec s c) = Some (token, expiry).
Proof.
  intros Hk Ht Hc. assert (holder s = Some token) as Hh.
  { unfold holder. by rewrite Hk, bool_decide_eq_true_2. }
  destruct c as [t ttl| |t|t ttl|dt]; simpl in *; unfold set_nx, release_script, extend_script; rewrite ?Hh;
    try done.
  - apply negb_true_iff, bool_decide_eq_false in Hc. rewrite bool_decide_eq_false_2; [done|congruence].
  - apply negb_true_iff, bool_decide_eq_false in Hc. rewrite bool_decide_eq_false_2; [done|congruence].
Qed.

(** ** Properties *)

(** mutual exclusion until the expiry.  Whatever other clients do, in any
    order, for as long as the holder's expiry has not passed they cannot
    acquire, release or extend the lock: every attempt is refused. *)
Theorem lock_exclusive (s : LockStore) (token other : nat) (expiry ttl : Z) (cs : list lock_command)
    (Hk : l_key s = Some (token, expiry)) (Hf : forallb (foreign token) cs = true)
    (Ht : (l_time (foldl lock_exec s cs) < expiry)%Z) (Ho : other ≠ token) :
  let s' := foldl lock_exec s cs in
  holder s' = Some token ∧ (run (acquire ttl) s').1 = Ok None ∧
  run (release other) s' = (Ok false, s') ∧ run (extend other ttl) s' = (Ok false, s').
Proof.
  assert (l_key (foldl lock_exec s cs) = Some (token, expiry)) as Hk'.
  { revert s Hk Ht. induction cs as [|c cs IH]; intros s Hk Ht; [done|]. simpl in *.
    apply andb_true_iff in Hf as [Hc Hf]. apply IH; [done| |done]. apply lock_exec_keeps; [done| |done].
    pose proof (lock_exec_time s c). pose proof (lock_run_time cs (lock_exec s c)). lia. }
  intros s'. assert (holder s' = Some token) as Hh.
  { unfold holder, s'. by rewrite Hk', bool_decide_eq_true_2. }
  split_and!; [done| | |].
  - assert (holder (randomUUID s').2 = Some token) as Hh' by exact Hh.
    unfold acquire. rewrite run_bind. cbn [run]. destruct (randomUUID s') as [u s1]. cbn [snd] in Hh'.
    rewrite run_bind. cbn [run]. unfold set_nx. by rewrite Hh'.
  - cbn. unfold release_script. rewrite bool_decide_eq_false_2; [done|congruence].
  - cbn. unfold extend_script. rewrite bool_decide_eq_false_2; [done|congruence].
Qed.

Lemma lock_exclusive_witness :
  let s := mkLockStore (Some (0, 100%Z)) 1 0 1 in
  let s' := foldl lock_exec s [Wait 50; SetNx 1 100; Release 1; Incr; Wait 49] in
  holder s' = Some 0 ∧ (run (acquire 100) s').1 = Ok None ∧
  run (release 1) s' = (Ok false, s') ∧ run (extend 1 100) s' = (Ok false, s').
Proof.
  apply (lock_exclusive (mkLockStore (Some (0, 100%Z)) 1 0 1) 0 1 100 100
           [Wait 50; SetNx 1 100; Release 1; Incr; Wait 49]);
    vm_compute; (reflexivity || discriminate).
Defined.

(** the fencing token is not drawn in the step that takes the lock, so it
    does not order the holders.  A client that stalls between the two commands
    for longer than its TTL gets a larger token than the client that took the
    lock after it and holds it now: the stale holder would win the comparison. *)
Theorem fence_not_ordered (ttl : nat) (Httl : 0 < ttl) :
  let stall := Atom (λ s, (tt, lock_exec s (Wait ttl))) (λ _, Ret None) in
  let start := (mkLockStore None 0 0 0, [acquire (Z.of_nat ttl); acquire (Z.of_nat ttl); stall]) in
  let '(s, clients) := schedule [0; 0; 2; 1; 1; 1; 0] start in
  clients !! 0 = Some (Ret (Some (0, 2%Z))) ∧ clients !! 1 = Some (Ret (Some (1, 1%Z))) ∧
  holder s = Some 1.
Proof.
  unfold schedule. cbn. unfold set_nx, holder. cbn.
  rewrite (bool_decide_eq_false_2 (0 + Z.of_nat ttl < 0 + Z.of_nat ttl)%Z) by lia. cbn.
  split_and!; [done..|]. rewrite bool_decide_eq_true_2; [done|lia].
Qed.

Lemma fence_not_ordered_witness :
  let stall := Atom (λ s, (tt, lock_exec s (Wait 10))) (λ _, Ret None) in
  let start := (mkLockStore None 0 0 0, [acquire 10; acquire 10; stall]) in
  let '(s, clients) := schedule [0; 0; 2; 1; 1; 1; 0] start in
  clients !! 0 = Some (Ret (Some (0, 2%Z))) ∧ clients !! 1 = Some (Ret (Some (1, 1%Z))) ∧
  holder s = Some 1.
Proof. apply (fence_not_ordered 10). lia. Defined.
