(* ===== verification/Outbox.v ===== *)
(** * Events: the relay and its consumer
    ([src/events/relay.js], [src/events/analyticsProcessor.js])

    The relay moves the rows of the transactional outbox to Kafka and may crash
    at any point; the analytics consumer sees every event at least once and
    counts it once.  Kafka is not part of the repository: [Broker] is what the
    relay relies on.  [Relay] has several relays at once, [Consumer] the group of
    consumers. *)

From S2P Require Import Prelude Program Models Lock.

Set Primitive Projections.

(** [{ key, value, headers }]: the value is the JSON of the first five fields. *)
Record message := mkMessage {
  m_eventId : nat;
  m_type : string;
  m_aggregateId : string;
  m_occurredAt : ms;
  m_payload : json;
  m_key : string
}.

Unset Primitive Projections.

Definition message_of (e : OutboxEvent) : message :=
  mkMessage (eventId e) (ev_type e) (aggregateId e) (occurredAt e) (ev_payload e) (aggregateId e).

(** A Kafka topic: [publish] is [producer.send] with [acks: -1].  When it
    resolves, the messages are in the log in order; when it throws, any part of
    them may be; the log only grows. *)
Class Broker (K : Type) := {
  publish : list message → K → res unit * K;
  delivered : K → list message;
  publish_ok ms k k' : publish ms k = (Ok tt, k') → delivered k' = delivered k ++ ms;
  publish_grows ms k r k' : publish ms k = (r, k') → delivered k `prefix_of` delivered k';
  publish_only ms k r k' m : publish ms k = (r, k') → m ∈ delivered k' → m ∈ delivered k ∨ m ∈ ms
}.

Record RelayWorld (K : Type) := mkRelayWorld {
  rw_outbox : list OutboxEvent;
  rw_broker : K;
  rw_lock : LockStore;
  rw_clock : ms
}.
Arguments mkRelayWorld {K} _ _ _ _.
Arguments rw_outbox {K} _.
Arguments rw_broker {K} _.
Arguments rw_lock {K} _.
Arguments rw_clock {K} _.

Definition unpublished (e : OutboxEvent) : bool :=
  match publishedAt e with None => true | Some _ => false end.

Definition set_published (at_ : ms) (e : OutboxEvent) : OutboxEvent :=
  mkOutboxEvent (eventId e) (ev_type e) (aggregateId e) (ev_payload e) (occurredAt e) (Some at_).

(** [find({ publishedAt: null }).sort({ _id: 1 }).limit(batchSize)]: the outbox
    is kept in the order of its ids. *)
Definition find_batch (batchSize : nat) (rows : list OutboxEvent) : list OutboxEvent :=
  limit_to batchSize (filter (λ e, unpublished e = true) rows).

(** [updateMany({ _id: { $in: ids } }, { $set: { publishedAt } })]. *)
Definition mark_published (ids : list nat) (at_ : ms) (rows : list OutboxEvent) : list OutboxEvent :=
  (λ e, if bool_decide (eventId e ∈ ids) then set_published at_ e else e) <$> rows.

Section relay.
Context {K : Type} `{!Broker K} (batchSize : nat).

Definition with_outbox (rows : list OutboxEvent) (w : RelayWorld K) : RelayWorld K :=
  mkRelayWorld rows (rw_broker w) (rw_lock w) (rw_clock w).
Definition with_broker (k : K) (w : RelayWorld K) : RelayWorld K :=
  mkRelayWorld (rw_outbox w) k (rw_lock w) (rw_clock w).
Definition with_lock (l : LockStore) (w : RelayWorld K) : RelayWorld K :=
  mkRelayWorld (rw_outbox w) (rw_broker w) l (rw_clock w).

Definition relayOnce : prog (RelayWorld K) nat :=
  batch ← Atom (λ w, (find_batch batchSize (rw_outbox w), w)) Ret;
  if bool_decide (batch = []) then Ret 0 else
  _ ← await (λ w, let '(r, k) := publish (message_of <$> batch) (rw_broker w) in (r, with_broker k w));
  _ ← Atom (λ w, (tt, with_outbox (mark_published (eventId <$> batch) (rw_clock w) (rw_outbox w)) w)) Ret;
  Ret (length batch).

(** [for (let i = 0; i < 20; i++) if ((await relay.relayOnce()) === 0) break]. *)
Fixpoint drain (n : nat) : prog (RelayWorld K) unit :=
  match n with
  | O => Ret tt
  | S n => k ← relayOnce; if bool_decide (k = 0) then Ret tt else drain n
  end.

(** One tick of the runner: its new [held]. *)
Definition tick (ttl : Z) (held : option (nat * Z)) : prog (RelayWorld K) (option (nat * Z)) :=
  held ← zoom rw_lock with_lock (lead ttl held);
  match held with
  | None => Ret None
  | Some h => _ ← catch (drain 20) (λ _, Ret tt); Ret (Some h)
  end.
End relay.

(** ** The analytics consumer *)

(** [String(uuid)]: like ObjectIds, UUIDs are numbers. *)
Definition uuid_str (i : nat) : string := pretty i.

(** What the consumer reads of a message. *)
Record event := mkEvent { e_id : string; e_type : string; e_occurredAt : option ms }.

#[export] Instance event_eq_dec : EqDecision event.
Proof. solve_decision. Defined.

Definition event_of (m : message) : event := mkEvent (uuid_str (m_eventId m)) (m_type m) (Some (m_occurredAt m)).

(** The collections [ProcessedEvent] and [EventStat]. *)
Record Analytics := mkAnalytics {
  processed : gset (string * string);
  stats : gmap (Z * string) Z
}.

(** [new Date(...).toISOString().slice(0, 10)]: the day, counted from 1970-01-01. *)
Definition day_of (now : ms) (e : event) : Z := (default now (e_occurredAt e) / 86400000)%Z.

Inductive outcome : Type := Applied | Duplicate.

Definition process_tx (consumer : string) (day : Z) (e : event) : tx Analytics unit :=
  a ← tx_get;
  if bool_decide ((consumer, e_id e) ∈ processed a)
  then tx_throw (DuplicateKey ["consumer"; "eventId"])%string
  else
    _ ← tx_modify (λ a, mkAnalytics ({[(consumer, e_id e)]} ∪ processed a) (stats a));
    tx_modify (λ a, mkAnalytics (processed a)
      (<[(day, e_type e) := (default 0 (stats a !! (day, e_type e)) + 1)%Z]> (stats a))).

(** [err?.code === DUPLICATE_KEY && err?.keyPattern?.eventId]. *)
Definition is_duplicate_event (err : exn) : bool :=
  match err with DuplicateKey ks => bool_decide ("eventId"%string ∈ ks) | _ => false end.

Definition process (consumer : string) (now : ms) (e : event) (a : Analytics) : res outcome * Analytics :=
  match process_tx consumer (day_of now e) e a with
  | Ok (_, a') => (Ok Applied, a')
  | Exn err => (if is_duplicate_event err then Ok Duplicate else Exn err, a)
  end.

Definition process_all (consumer : string) (now : ms) (es : list event) (a : Analytics) : Analytics :=
  foldl (λ a e, (process consumer now e a).2) a es.

(** ** Facts about the relay *)

Section relay_facts.
Context {K : Type} `{!Broker K} (batchSize : nat).
Implicit Types (w : RelayWorld K) (rows : list OutboxEvent).

Lemma message_of_set_published at_ e : message_of (set_published at_ e) = message_of e.
Proof. done. Qed.

(** Rows marked published are in the log. *)
Definition marked_delivered w : Prop :=
  ∀ e, e ∈ rw_outbox w → unpublished e = false → message_of e ∈ delivered (rw_broker w).

Lemma find_batch_elem rows e : e ∈ find_batch batchSize rows → e ∈ rows ∧ unpublished e = true.
Proof.
  unfold find_batch. intros Hin.
  assert (e ∈ filter (λ e, unpublished e = true) rows) as [? ?]%list_elem_of_filter; [|done].
  destruct batchSize; [done|]. by apply subseteq_take in Hin.
Qed.

Lemma mark_published_elem ids at_ rows e :
  e ∈ mark_published ids at_ rows ↔
  ∃ e0, e0 ∈ rows ∧ e = (if bool_decide (eventId e0 ∈ ids) then set_published at_ e0 else e0).
Proof. unfold mark_published. rewrite list_elem_of_fmap. naive_solver. Qed.

Lemma delivered_grows ms k r k' m : publish ms k = (r, k') → m ∈ delivered k → m ∈ delivered k'.
Proof. intros [l ->]%publish_grows Hm. apply elem_of_app. by left. Qed.

(** The three steps of [relayOnce], when the broker accepts the batch. *)
Lemma run_relayOnce w r k :
  find_batch batchSize (rw_outbox w) ≠ [] →
  publish (message_of <$> find_batch batchSize (rw_outbox w)) (rw_broker w) = (r, k) →
  let batch := find_batch batchSize (rw_outbox w) in
  let w1 := with_broker k w in
  let w2 := with_outbox (mark_published (eventId <$> batch) (rw_clock w) (rw_outbox w)) w1 in
  match r with
  | Ok _ => run (relayOnce batchSize) w = (Ok (length batch), w2) ∧
            worlds (relayOnce batchSize) w = [w; w1; w2]
  | Exn e => run (relayOnce batchSize) w = (Exn e, w1) ∧ worlds (relayOnce batchSize) w = [w; w1]
  end.
Proof.
  intros Hb Hp batch w1 w2. unfold relayOnce. rewrite run_bind, worlds_bind. cbn [run worlds app fst snd].
  rewrite bool_decide_eq_false_2 by done. rewrite run_bind, worlds_bind. cbn [run worlds app fst snd await].
  rewrite Hp. destruct r as [[]|e]; cbn; done.
Qed.

Lemma relayOnce_empty w :
  find_batch batchSize (rw_outbox w) = [] →
  run (relayOnce batchSize) w = (Ok 0, w) ∧ worlds (relayOnce batchSize) w = [w].
Proof. intros Hb. unfold relayOnce. rewrite run_bind, worlds_bind. cbn. by rewrite Hb. Qed.

Lemma mark_keeps w k :
  NoDup (eventId <$> rw_outbox w) → marked_delivered w →
  publish (message_of <$> find_batch batchSize (rw_outbox w)) (rw_broker w) = (Ok tt, k) →
  marked_delivered (with_outbox
    (mark_published (eventId <$> find_batch batchSize (rw_outbox w)) (rw_clock w) (rw_outbox w))
    (with_broker k w)).
Proof.
  intros Hnd Hm Hp e (e0 & He0 & ->)%mark_published_elem Hu. cbn in *.
  case_bool_decide as Hid; [|by eapply delivered_grows, Hm].
  rewrite message_of_set_published, (publish_ok _ _ _ Hp). apply elem_of_app. right.
  apply list_elem_of_fmap in Hid as (e1 & Heq & Hin). apply list_elem_of_fmap. exists e1.
  split; [|done]. enough (e0 = e1) as -> by done.
  apply find_batch_elem in Hin as [Hin _].
  apply list_elem_of_lookup in He0 as [a Ha], Hin as [b Hb].
  enough (a = b) by congruence. eapply (NoDup_lookup _ a b (eventId e0) Hnd); rewrite list_lookup_fmap.
  - by rewrite Ha.
  - rewrite Hb. simpl. by f_equal.
Qed.
End relay_facts.

(** ** The relay drains the outbox *)

Section drain.
Context {K : Type} `{!Broker K} (batchSize : nat) (up : ∀ ms k, (publish ms k).1 = Ok tt).
Implicit Types (w : RelayWorld K).

Definition pending_rows (rows : list OutboxEvent) : list OutboxEvent :=
  filter (λ e, unpublished e = true) rows.

(** Marking the first [n] unpublished rows leaves the others. *)
Lemma pending_after_mark n at_ rows :
  NoDup (eventId <$> rows) →
  pending_rows (mark_published (eventId <$> take n (pending_rows rows)) at_ rows) =
  drop n (pending_rows rows).
Proof.
  intros Hnd. set (ids := eventId <$> take n (pending_rows rows)).
  assert (∀ l, pending_rows (mark_published ids at_ l) =
             filter (λ e, eventId e ∉ ids) (pending_rows l)) as Hfilter.
  { induction l as [|e l IH]; [done|]. unfold mark_published, pending_rows in *. csimpl.
    rewrite !filter_cons. destruct (bool_decide_reflect (eventId e ∈ ids)) as [Hin|Hin].
    - rewrite decide_False by done. rewrite IH. destruct (decide (unpublished e = true)); [|done].
      rewrite filter_cons, decide_False by tauto. done.
    - destruct (decide (unpublished e = true)); [|done]. rewrite filter_cons, decide_True by done.
      by rewrite IH. }
  rewrite Hfilter. unfold ids. clear Hfilter ids.
  assert (NoDup (eventId <$> pending_rows rows)) as Hnd'.
  { apply (sublist_NoDup _ _ Hnd), fmap_sublist, sublist_filter. }
  revert Hnd'. generalize (pending_rows rows). clear Hnd rows. intros l. revert n.
  induction l as [|e l IH]; intros n Hnd; [by destruct n|]. csimpl in Hnd.
  apply NoDup_cons in Hnd as [He Hnd]. destruct n as [|n]; csimpl.
  - assert (∀ l : list OutboxEvent, filter (λ e, eventId e ∉ ([] : list nat)) l = l) as Hall.
    { induction l0 as [|e0 l0 IH0]; [done|]. rewrite filter_cons, decide_True by set_solver. by f_equal. }
    apply Hall.
  - rewrite filter_cons, decide_False by set_solver. rewrite <- (IH n Hnd).
    apply list_filter_ext_in. intros e1 He1. rewrite not_elem_of_cons. split; [by intros [_ ?]|].
    intros ?. split; [|done]. intros Heq. apply He. apply list_elem_of_fmap. by exists e1.
Qed.

Lemma mark_eventIds ids at_ rows : eventId <$> mark_published ids at_ rows = eventId <$> rows.
Proof.
  unfold mark_published. rewrite <- list_fmap_compose. apply list_fmap_ext.
  intros ? e _. simpl. by case_bool_decide.
Qed.

Lemma drain_all n : ∀ w,
  batchSize ≠ 0 → NoDup (eventId <$> rw_outbox w) →
  length (pending_rows (rw_outbox w)) ≤ n * batchSize →
  ∃ w', run (drain batchSize n) w = (Ok tt, w') ∧
    pending_rows (rw_outbox w') = [] ∧
    delivered (rw_broker w') = delivered (rw_broker w) ++ (message_of <$> pending_rows (rw_outbox w)) ∧
    (message_of <$> rw_outbox w') = (message_of <$> rw_outbox w).
Proof.
  induction n as [|n IH]; intros w Hb Hnd Hlen.
  { assert (pending_rows (rw_outbox w) = []) as Hp by (apply nil_length_inv; lia).
    exists w. rewrite Hp, app_nil_r. by split_and!. }
  assert (find_batch batchSize (rw_outbox w) = take batchSize (pending_rows (rw_outbox w))) as Hfb
    by (unfold find_batch; by destruct batchSize).
  cbn [drain]. rewrite run_bind. destruct (decide (pending_rows (rw_outbox w) = [])) as [Hp|Hp].
  { destruct (relayOnce_empty batchSize w) as [-> _]; [by rewrite Hfb, Hp, take_nil|].
    exists w. rewrite Hp, app_nil_r. by split_and!. }
  assert (find_batch batchSize (rw_outbox w) ≠ []) as Hne.
  { rewrite Hfb. destruct (pending_rows (rw_outbox w)), batchSize; done. }
  destruct (publish (message_of <$> find_batch batchSize (rw_outbox w)) (rw_broker w)) as [r k] eqn:Hpub.
  pose proof (up (message_of <$> find_batch batchSize (rw_outbox w)) (rw_broker w)) as Hr.
  rewrite Hpub in Hr. simpl in Hr. subst r.
  destruct (run_relayOnce batchSize w _ k Hne Hpub) as [-> _].
  rewrite bool_decide_eq_false_2 by (by intros ?%nil_length_inv).
  match goal with |- ∃ w', run _ ?w2 = _ ∧ _ => set (w1 := w2) end.
  assert (pending_rows (rw_outbox w1) = drop batchSize (pending_rows (rw_outbox w))) as Hp1.
  { cbn. rewrite Hfb. by apply pending_after_mark. }
  destruct (IH w1 Hb) as (w' & Hrun & Hnone & Hdel & Hsame).
  - cbn. by rewrite mark_eventIds.
  - rewrite Hp1, length_drop. lia.
  - exists w'. split; [done|]. split; [done|]. split.
    + rewrite Hdel, Hp1. cbn. rewrite (publish_ok _ _ _ Hpub), Hfb, <- app_assoc, <- fmap_app.
      by rewrite take_drop.
    + rewrite Hsame. cbn. unfold mark_published. rewrite <- list_fmap_compose. apply list_fmap_ext.
      intros ? e _. simpl. by case_bool_decide.
Qed.
End drain.

(** ** Counting *)

(** The events of a day and a type. *)
Definition counted (now : ms) (d : Z) (ty : string) (es : list event) : Z :=
  Z.of_nat (length (filter (λ e, day_of now e = d ∧ e_type e = ty) es)).

Lemma counted_perm now d ty es es' : es ≡ₚ es' → counted now d ty es = counted now d ty es'.
Proof. unfold counted. by intros ->. Qed.

Lemma process_new consumer now e a :
  (consumer, e_id e) ∉ processed a →
  process consumer now e a =
    (Ok Applied, mkAnalytics ({[(consumer, e_id e)]} ∪ processed a)
       (<[(day_of now e, e_type e) := (default 0 (stats a !! (day_of now e, e_type e)) + 1)%Z]> (stats a))).
Proof.
  intros Hnew. unfold process, process_tx, mbind, tx_bind, tx_get. by rewrite bool_decide_eq_false_2.
Qed.

Lemma process_again consumer now e a :
  (consumer, e_id e) ∈ processed a → process consumer now e a = (Ok Duplicate, a).
Proof.
  intros Hold. unfold process, process_tx, mbind, tx_bind, tx_get. by rewrite bool_decide_eq_true_2.
Qed.

Lemma process_all_app consumer now es e a :
  process_all consumer now (es ++ [e]) a = (process consumer now e (process_all consumer now es a)).2.
Proof. unfold process_all. by rewrite foldl_app. Qed.

Definition no_analytics : Analytics := mkAnalytics ∅ ∅.

Lemma process_all_spec consumer now deliveries : ∀ events,
  NoDup (e_id <$> events) → (∀ e, e ∈ deliveries ↔ e ∈ events) →
  let a := process_all consumer now deliveries no_analytics in
  (∀ i, (consumer, i) ∈ processed a ↔ i ∈ e_id <$> events) ∧
  ∀ d ty, default 0%Z (stats a !! (d, ty)) = counted now d ty events.
Proof.
  induction deliveries as [|e es IH] using rev_ind; intros events Hnd Hev.
  { assert (events = []) as ->.
    { destruct events as [|e l]; [done|]. exfalso. apply (not_elem_of_nil e), Hev. left. }
    cbn. split; [|done]. set_solver. }
  cbv zeta. rewrite process_all_app. destruct (decide (e ∈ es)) as [Hin|Hnew].
  - destruct (IH events Hnd) as [Hp Hs].
    { intros e'. rewrite <- Hev, elem_of_app, list_elem_of_singleton. naive_solver. }
    rewrite process_again; [done|]. apply Hp, list_elem_of_fmap. exists e. split; [done|]. apply Hev. set_solver.
  - assert (e ∈ events) as He by (apply Hev; set_solver).
    apply elem_of_Permutation in He as [events' Hperm].
    assert (NoDup (e_id <$> e :: events')) as Hnd' by by rewrite <- Hperm.
    csimpl in Hnd'. apply NoDup_cons in Hnd' as [Hid Hnd'].
    destruct (IH events' Hnd') as [Hp Hs].
    { intros e'. pose proof (Hev e') as He'. rewrite Hperm, elem_of_app, list_elem_of_singleton, elem_of_cons in He'.
      split; intros H; destruct (decide (e' = e)) as [->|]; [done|naive_solver| |naive_solver].
      exfalso. apply Hid, list_elem_of_fmap. by exists e. }
    rewrite process_new; [|intros H; by apply Hid, Hp]. cbn [snd processed stats]. split.
    + intros i. rewrite elem_of_union, elem_of_singleton, Hp, Hperm. csimpl. rewrite elem_of_cons. naive_solver.
    + intros d ty. rewrite (counted_perm now d ty _ _ Hperm). unfold counted. rewrite filter_cons.
      destruct (decide (day_of now e = d ∧ e_type e = ty)) as [[<- <-]|Hne].
      * rewrite lookup_insert_eq. simpl. rewrite Hs. unfold counted. lia.
      * rewrite lookup_insert_ne by (intros [= <- <-]; by apply Hne). apply Hs.
Qed.

(** ** Properties *)

Section properties.
Context {K : Type} `{!Broker K} (batchSize : nat).

(** no event is lost.  A row is marked published only after Kafka has it,
    at every point where the relay may crash and whatever part of a batch a
    failing broker accepted; and when the broker answers, a tick that drains
    enough batches publishes every pending row, in the order of the outbox. *)
Theorem relay_loses_nothing (w : RelayWorld K) (n : nat)
    (Hnd : NoDup (eventId <$> rw_outbox w)) (Hm : marked_delivered w) (Hb : batchSize ≠ 0) :
  Forall marked_delivered (worlds (relayOnce batchSize) w) ∧
  ((∀ ms k, (publish ms k).1 = Ok tt) → length (pending_rows (rw_outbox w)) ≤ n * batchSize →
   ∃ w', run (drain batchSize n) w = (Ok tt, w') ∧ pending_rows (rw_outbox w') = [] ∧
     delivered (rw_broker w') = delivered (rw_broker w) ++ (message_of <$> pending_rows (rw_outbox w)) ∧
     (message_of <$> rw_outbox w') = (message_of <$> rw_outbox w)).
Proof.
  split; [|intros Hup Hlen; by apply drain_all].
  destruct (decide (find_batch batchSize (rw_outbox w) = [])) as [He|Hne].
  { destruct (relayOnce_empty batchSize w He) as [_ ->]. by repeat constructor. }
  destruct (publish (message_of <$> find_batch batchSize (rw_outbox w)) (rw_broker w)) as [r k] eqn:Hp.
  pose proof (run_relayOnce batchSize w r k Hne Hp) as Hrun.
  assert (marked_delivered (with_broker k w)) as Hk.
  { intros e Hin Hu. eapply delivered_grows; [exact Hp|]. by apply Hm. }
  destruct r as [[]|e]; destruct Hrun as [_ ->]; [|by repeat constructor].
  repeat constructor; [done..|]. by apply mark_keeps.
Qed.
End properties.

(** effectively once.  However often and in whatever order Kafka delivers
    the events, each is counted exactly once, under its day and its type. *)
Theorem events_counted_once (consumer : string) (now : ms) (events deliveries : list event)
    (Hnd : NoDup (e_id <$> events)) (Hdel : ∀ e, e ∈ deliveries ↔ e ∈ events) :
  let a := process_all consumer now deliveries no_analytics in
  ∀ d ty, default 0%Z (stats a !! (d, ty)) = counted now d ty events.
Proof. by apply process_all_spec. Qed.

(** ** Witnesses *)

(** A broker that is a log. *)
#[export, refine] Instance log_broker : Broker (list message) := {
  publish ms k := (Ok tt, k ++ ms);
  delivered k := k
}.
Proof.
  - by intros ms k k' [= <-].
  - intros ms k r k' [= _ <-]. by exists ms.
  - intros ms k r k' m [= _ <-]. apply elem_of_app.
Defined.

Definition two_rows : list OutboxEvent :=
  [mkOutboxEvent 0 "execution.started" "0" JNull 5 (Some 7%Z);
   mkOutboxEvent 1 "task.started" "0" JNull 6 None].

Lemma relay_loses_nothing_witness :
  let w := mkRelayWorld two_rows [message_of (mkOutboxEvent 0 "execution.started" "0" JNull 5 None)]
             (mkLockStore None 0 0 0) 9 in
  ∃ w', run (drain 100 20) w = (Ok tt, w') ∧ pending_rows (rw_outbox w') = [].
Proof.
  intros w. destruct (relay_loses_nothing 100 w 20) as [_ Hdrain].
  - apply (bool_decide_unpack _). vm_compute. exact I.
  - intros e He Hu. apply list_elem_of_In in He. destruct He as [<-|[<-|[]]]; [|done].
    apply list_elem_of_singleton. reflexivity.
  - discriminate.
  - destruct Hdrain as (w' & Hrun & Hp & _); [done|apply (bool_decide_unpack _); vm_compute; exact I|].
    exists w'. split; [exact Hrun|exact Hp].
Defined.

Lemma events_counted_once_witness :
  default 0%Z (stats (process_all "analytics" 0
     [mkEvent "1" "task.started" (Some 5%Z); mkEvent "2" "task.started" (Some 6%Z);
      mkEvent "1" "task.started" (Some 5%Z)] no_analytics) !! (0%Z, "task.started"%string)) = 2%Z.
Proof.
  apply (events_counted_once "analytics" 0
           [mkEvent "1" "task.started" (Some 5%Z); mkEvent "2" "task.started" (Some 6%Z)]).
  - apply (bool_decide_unpack _). vm_compute. exact I.
  - intros e. set_solver.
Defined.
