(* ===== verification/Relay.v ===== *)
(** * Relays at work ([src/events/relay.js])

    Every worker process runs a relay.  A lock elects one, but a leader whose
    lock has expired may still be in the middle of a batch when the next one
    starts, and any of them may crash at any point.  What holds of the outbox and
    of the topic however many relays are at work and whatever is added meanwhile. *)

From S2P Require Import Prelude Program Ownership Models Lock Outbox.

Section relays.
Context {K : Type} `{!Broker K} (batchSize : nat).
Implicit Types (w : RelayWorld K).

(** Ticks of any process. *)
Inductive relay_api : prog (RelayWorld K) unit → Prop :=
| ra_tick ttl held : relay_api (_ ← tick batchSize ttl held; Ret tt).

(** The engine appends rows, each under a new id; the lock and the clock move. *)
Record relay_outside w w' : Prop := {
  ro_rows : ∃ rows, rw_outbox w' = rw_outbox w ++ rows ∧ ∀ e, e ∈ rows → unpublished e = true;
  ro_ids : NoDup (eventId <$> rw_outbox w');
  ro_broker : rw_broker w' = rw_broker w
}.

(** *** The invariant *)

Record relay_inv w : Prop := {
  re_ids : NoDup (eventId <$> rw_outbox w);
  re_marked : marked_delivered w;
  re_only m : m ∈ delivered (rw_broker w) → m ∈ message_of <$> rw_outbox w
}.

(** Rows keep their contents, and the topic only grows. *)
Record relay_guar w w' : Prop := {
  rg_rows m : m ∈ message_of <$> rw_outbox w → m ∈ message_of <$> rw_outbox w';
  rg_topic m : m ∈ delivered (rw_broker w) → m ∈ delivered (rw_broker w')
}.

#[export] Instance relay_guar_refl : Reflexive relay_guar.
Proof. by split. Qed.

Lemma outside_keeps w w' : relay_outside w w' → relay_inv w → relay_inv w' ∧ relay_guar w w'.
Proof.
  intros [(rows & Hrows & Hnew) Hids Hb] [Hi Hm Ho]. split; split; rewrite ?Hb, ?Hrows, ?fmap_app.
  - by rewrite <- fmap_app, <- Hrows.
  - unfold marked_delivered. rewrite Hb, Hrows. intros e [He|He]%elem_of_app Hu; [by apply Hm|].
    apply Hnew in He. congruence.
  - intros m Hd. apply elem_of_app. left. by apply Ho.
  - intros m Hd. apply elem_of_app. by left.
  - done.
Qed.

(** What a relay knows after each of its steps. *)
Definition read_rows (batch : list OutboxEvent) w : Prop :=
  ∀ e, e ∈ batch → message_of e ∈ message_of <$> rw_outbox w.
Definition sent_rows (batch : list OutboxEvent) w : Prop :=
  read_rows batch w ∧ ∀ e, e ∈ batch → message_of e ∈ delivered (rw_broker w).

Lemma read_stable batch : stable relay_guar (read_rows batch).
Proof. intros w w' [Hr _] Hb e He. by apply Hr, Hb. Qed.
Lemma sent_stable batch : stable relay_guar (sent_rows batch).
Proof. intros w w' HG [Hr Hs]. split; [by eapply read_stable|]. intros e He. by apply HG, Hs. Qed.

Notation knowing := (knows relay_inv relay_guar).

(** Marking rows whose messages are in the topic. *)
Lemma mark_sent batch w :
  relay_inv w → sent_rows batch w →
  let w' := with_outbox (mark_published (eventId <$> batch) (rw_clock w) (rw_outbox w)) w in
  relay_inv w' ∧ relay_guar w w'.
Proof.
  intros [Hi Hm Ho] [Hr Hs] w'.
  assert (message_of <$> rw_outbox w' = message_of <$> rw_outbox w) as Hmsg.
  { unfold w', mark_published. cbn. rewrite <- list_fmap_compose. apply list_fmap_ext. intros ? e _. cbn. by case_bool_decide. }
  split; split; rewrite ?Hmsg; try done.
  - unfold w'. cbn. by rewrite mark_eventIds.
  - intros e (e0 & He0 & ->)%mark_published_elem Hu. change (rw_broker w') with (rw_broker w).
    case_bool_decide as Hid; [|by apply Hm]. rewrite message_of_set_published.
    apply list_elem_of_fmap in Hid as (b & Heq & Hb). pose proof (Hr b Hb) as (e1 & He1 & Hin1)%list_elem_of_fmap.
    assert (e0 = e1) as ->; [|rewrite <- He1; by apply Hs].
    apply list_elem_of_lookup in He0 as [j Hj], Hin1 as [k Hk]. enough (j = k) by congruence.
    eapply (NoDup_lookup _ j k (eventId e0) Hi); rewrite list_lookup_fmap; [by rewrite Hj|rewrite Hk; cbn].
    f_equal. rewrite Heq. symmetry. exact (f_equal m_eventId He1).
Qed.

Lemma knows_read F :
  knowing F (Atom (λ w, (find_batch batchSize (rw_outbox w), w)) Ret) (λ batch F', F' = read_rows batch).
Proof.
  intros w HI _. cbn. split_and!; [done|reflexivity|]. exists (read_rows (find_batch batchSize (rw_outbox w))).
  split_and!; [apply read_stable| |done]. intros e [He _]%find_batch_elem. by apply list_elem_of_fmap_2.
Qed.

Lemma knows_publish batch :
  knowing (read_rows batch)
    (await (λ w, let '(r, k) := publish (message_of <$> batch) (rw_broker w) in (r, with_broker k w)))
    (λ _ F', F' = sent_rows batch).
Proof.
  intros w [Hi Hm Ho] Hr. destruct (publish (message_of <$> batch) (rw_broker w)) as [r k] eqn:Hp. cbn [fst snd].
  assert (relay_inv (with_broker k w) ∧ relay_guar w (with_broker k w)) as [HI HG].
  { split; split; cbn; try done.
    - intros e He Hu. eapply delivered_grows; [exact Hp|]. by apply Hm.
    - intros m Hd. destruct (publish_only _ _ _ _ _ Hp Hd) as [|(e & -> & He)%list_elem_of_fmap]; [by apply Ho|by apply Hr].
    - intros m Hd. by eapply delivered_grows. }
  split_and!; [done..|]. destruct r as [[]|e]; [|exists (λ _, True); by split_and!].
  exists (sent_rows batch). split_and!; [apply sent_stable| |done].
  split; [done|]. intros e He. cbn. rewrite (publish_ok _ _ _ Hp). apply elem_of_app. right. by apply list_elem_of_fmap_2.
Qed.

Lemma knows_mark batch :
  knowing (sent_rows batch)
    (Atom (λ w, (tt, with_outbox (mark_published (eventId <$> batch) (rw_clock w) (rw_outbox w)) w)) Ret) (λ _ _, True).
Proof.
  intros w HI Hs. destruct (mark_sent batch w HI Hs) as [HI' HG]. split_and!; [done..|]. exists (λ _, True). by split_and!.
Qed.

Lemma knows_relayOnce F : knowing F (relayOnce batchSize) (λ _ _, True).
Proof.
  unfold relayOnce. apply knows_bind. eapply knows_impl; [|apply knows_read]. intros batch F' ->.
  case_bool_decide; [done|]. apply knows_bind. eapply knows_impl; [|apply knows_publish]. intros [] F' ->.
  apply knows_bind. eapply knows_impl; [|apply knows_mark]. done.
Qed.

Lemma knows_drain n : ∀ F, knowing F (drain batchSize n) (λ _ _, True).
Proof.
  induction n as [|n IH]; intros F; [done|]. cbn [drain]. apply knows_bind. eapply knows_impl; [|apply knows_relayOnce].
  intros k F' _. case_bool_decide; [done|]. apply IH.
Qed.

Lemma knows_tick p : relay_api p → knowing (λ _, True) p (λ _ _, True).
Proof.
  destruct 1 as [ttl held]. apply knows_bind. unfold tick. apply knows_bind. eapply knows_impl.
  2: { apply knows_steps; [done|]. apply (steps_ok_zoom _ _ (λ _, True) (λ _ _, True)); [done| |apply steps_ok_any].
       intros w v HI _ _. split; [by destruct HI|by split]. }
  intros [h|] F' _; [|done]. apply knows_bind. 
  eapply (knows_impl _ _ _ (λ _ _, True)); [by intros|]. apply knows_catch; [done|apply knows_drain].
Qed.

(** Before the first event. *)
Definition idle w : Prop := rw_outbox w = [] ∧ delivered (rw_broker w) = [].

Lemma idle_inv w : idle w → relay_inv w.
Proof.
  intros [Ho Hd]. split; unfold marked_delivered; rewrite ?Ho, ?Hd; [constructor|..].
  - by intros e ?%not_elem_of_nil.
  - by intros m ?%not_elem_of_nil.
Qed.

Lemma relays_keep w0 w : relay_inv w0 → reachable relay_api relay_outside w0 w → relay_inv w.
Proof. apply (reachable_informed relay_inv relay_guar relay_api relay_outside knows_tick outside_keeps). Qed.
End relays.
