(* ===== verification/Resilience.v ===== *)
(** * LLM providers: circuit breaker and fallback chain
    ([src/ai/providers/circuitBreaker.js], [src/ai/providers/fallback.js])

    The breakers of a chain live in one worker process and are shared by all
    the requests it has in flight: a request is a program whose steps are the
    calls of [allow], [success] and [failure].  A provider is any function from
    requests to results. *)

From S2P Require Import Prelude Program.

Local Open Scope string_scope.

(** ** The breaker *)

Inductive BREAKER_STATE : Type := CLOSED | OPEN | HALF_OPEN.

#[export] Instance breaker_state_eq_dec : EqDecision BREAKER_STATE.
Proof. solve_decision. Defined.

Set Primitive Projections.

Record Breaker := mkBreaker {
  b_state : BREAKER_STATE;
  b_failures : Z;
  b_openedAt : ms;
  b_trialInFlight : bool
}.

Unset Primitive Projections.

(** [{ failureThreshold, cooldownMs }]. *)
Record BreakerConfig := mkBreakerConfig { failureThreshold : Z; cooldownMs : ms }.

Definition createCircuitBreaker : Breaker := mkBreaker CLOSED 0 0 false.

Definition cooled (cfg : BreakerConfig) (now : ms) (b : Breaker) : bool :=
  bool_decide (b_state b = OPEN) && bool_decide (cooldownMs cfg ≤ now - b_openedAt b)%Z.

Definition allow (cfg : BreakerConfig) (now : ms) (b : Breaker) : bool * Breaker :=
  let b := if cooled cfg now b then mkBreaker HALF_OPEN (b_failures b) (b_openedAt b) false else b in
  match b_state b with
  | CLOSED => (true, b)
  | HALF_OPEN =>
      if negb (b_trialInFlight b)
      then (true, mkBreaker HALF_OPEN (b_failures b) (b_openedAt b) true) else (false, b)
  | OPEN => (false, b)
  end.

Definition success (b : Breaker) : Breaker := mkBreaker CLOSED 0 (b_openedAt b) false.

Definition failure (cfg : BreakerConfig) (now : ms) (b : Breaker) : Breaker :=
  let failures := (b_failures b + 1)%Z in
  if bool_decide (b_state b = HALF_OPEN) || bool_decide (failureThreshold cfg ≤ failures)%Z
  then mkBreaker OPEN failures now false
  else mkBreaker (b_state b) failures (b_openedAt b) false.

(** [get state()]. *)
Definition shown_state (cfg : BreakerConfig) (now : ms) (b : Breaker) : BREAKER_STATE :=
  if cooled cfg now b then HALF_OPEN else b_state b.

(** ** The chain *)

(** What a provider throws: the engine's retry policy reads [retryable]. *)
Record provider_error := mkProviderError { pe_message : string; pe_retryable : option bool }.

(** What a provider answers, and the answer with who produced it. *)
Inductive call_result (A : Type) : Type := CallOk (content : A) | CallError (err : provider_error).
Arguments CallOk {A} content.
Arguments CallError {A} err.

Inductive chat_result (A : Type) : Type :=
| ChatOk (content : A) (provider : string) (fallbackUsed : bool)
| ChatThrow (err : provider_error).
Arguments ChatOk {A} content provider fallbackUsed.
Arguments ChatThrow {A} err.

Record Entry := mkEntry { en_name : string; en_mapModel : option (string → string) }.

(** The state of the process: the breaker of each provider, and [Date.now()]. *)
Record Process := mkProcess { breakers : list Breaker; p_clock : ms }.

Definition circuit_open (name : string) : provider_error :=
  mkProviderError (name +:+ " circuit open") (Some true).

Definition all_failed (lastError : option provider_error) : provider_error :=
  mkProviderError ("All LLM providers failed: " +:+
                   match lastError with Some e => pe_message e | None => "none available" end) (Some true).

Section chain.
Context (cfg : BreakerConfig).

(** A call of a method of the [i]-th breaker. *)
Definition on_breaker {A} (i : nat) (f : ms → Breaker → A * Breaker) (default : A)
    : prog Process A :=
  Atom (λ p, match breakers p !! i with
             | Some b => let '(a, b) := f (p_clock p) b in
                         (a, mkProcess (<[i := b]> (breakers p)) (p_clock p))
             | None => (default, p)
             end) Ret.

Definition circuit_allow (i : nat) : prog Process bool := on_breaker i (allow cfg) false.
Definition circuit_success (i : nat) : prog Process unit := on_breaker i (λ _ b, (tt, success b)) tt.
Definition circuit_failure (i : nat) : prog Process unit :=
  on_breaker i (λ now b, (tt, failure cfg now b)) tt.

(** [provider.chat]: what the [i]-th provider answers to a request for a model,
    and what happens to the process meanwhile. *)
Context {R : Type} (call : nat → string → prog Process (call_result R)).

Fixpoint chat_from (i : nat) (entries : list Entry) (lastError : option provider_error)
    (requested : string) : prog Process (chat_result R) :=
  match entries with
  | [] => Ret (ChatThrow (all_failed lastError))
  | e :: entries =>
      allowed ← circuit_allow i;
      if negb allowed then chat_from (S i) entries (Some (circuit_open (en_name e))) requested else
      let model := match en_mapModel e with Some f => f requested | None => requested end in
      answer ← call i model;
      match answer with
      | CallOk content =>
          _ ← circuit_success i;
          Ret (ChatOk content (en_name e) (bool_decide (0 < i)))
      | CallError err =>
          if bool_decide (pe_retryable err = Some false) then Ret (ChatThrow err) else
          _ ← circuit_failure i;
          chat_from (S i) entries (Some err) requested
      end
  end.

Definition chat (entries : list Entry) (requested : string) : prog Process (chat_result R) :=
  chat_from 0 entries None requested.

(** [embed]: the primary only. *)
Definition embed (e : Entry) (input : string) : prog Process (chat_result R) :=
  allowed ← circuit_allow 0;
  if negb allowed then Ret (ChatThrow (circuit_open (en_name e))) else
  answer ← call 0 input;
  match answer with
  | CallOk content => _ ← circuit_success 0; Ret (ChatOk content (en_name e) false)
  | CallError err =>
      _ ← (if bool_decide (pe_retryable err ≠ Some false) then circuit_failure 0 else Ret tt);
      Ret (ChatThrow err)
  end.
End chain.

(** Providers whose answers are known: the time they take is the environment's. *)
Definition answers {R} (call : nat → string → call_result R) : nat → string → prog Process (call_result R) :=
  λ i model, Ret (call i model).

Lemma answers_bind {R B} (call : nat → string → call_result R) i model (k : call_result R → prog Process B) :
  (answers call i model ≫= k) = k (call i model).
Proof. done. Qed.

(** Every request any part of the process may make. *)
Inductive llm_api (cfg : BreakerConfig) : prog Process unit → Prop :=
| llm_chat (call : nat → string → call_result string) entries m :
    llm_api cfg (_ ← chat cfg (answers call) entries m; Ret tt)
| llm_embed (call : nat → string → call_result string) e m :
    llm_api cfg (_ ← embed cfg (answers call) e m; Ret tt).

(** Time passes. *)
Definition llm_env (p p' : Process) : Prop := breakers p' = breakers p.

(** ** Facts *)

(** A trial that is never reported. *)
Definition stuck (b : Breaker) : Prop := b_state b = HALF_OPEN ∧ b_trialInFlight b = true.

Lemma allow_stuck cfg now b : stuck b → allow cfg now b = (false, b).
Proof.
  intros [Hs Ht]. unfold allow, cooled. rewrite bool_decide_eq_false_2 by (by rewrite Hs).
  cbn. by rewrite Hs, Ht.
Qed.

Lemma allow_refuses cfg now b :
  b_state b = OPEN → (now - b_openedAt b < cooldownMs cfg)%Z → allow cfg now b = (false, b).
Proof.
  intros Hs Hc. unfold allow, cooled. rewrite (bool_decide_eq_false_2 (cooldownMs cfg ≤ _)%Z) by lia.
  rewrite andb_false_r. by rewrite Hs.
Qed.

Lemma allow_trial cfg now b :
  b_state b = OPEN → (cooldownMs cfg ≤ now - b_openedAt b)%Z →
  allow cfg now b = (true, mkBreaker HALF_OPEN (b_failures b) (b_openedAt b) true).
Proof. intros Hs Hc. unfold allow, cooled. by rewrite !bool_decide_eq_true_2. Qed.

(** Failures in a row, at the given times. *)
Definition failures_at (cfg : BreakerConfig) (times : list ms) (b : Breaker) : Breaker :=
  foldl (λ b now, failure cfg now b) b times.

Lemma closed_failures cfg times : ∀ b,
  b_state b = CLOSED → (b_failures b + Z.of_nat (length times) < failureThreshold cfg)%Z →
  failures_at cfg times b = mkBreaker CLOSED (b_failures b + Z.of_nat (length times))%Z (b_openedAt b)
    (match times with [] => b_trialInFlight b | _ => false end).
Proof.
  induction times as [|now times IH]; intros b Hs Hlt.
  { cbn. rewrite Z.add_0_r. destruct b; cbn in *. by rewrite Hs. }
  cbn [failures_at foldl]. cbn [length] in *. unfold failure at 2.
  rewrite (bool_decide_eq_false_2 (b_state b = HALF_OPEN)) by (by rewrite Hs).
  rewrite (bool_decide_eq_false_2 (failureThreshold cfg ≤ _)%Z) by lia. cbn [orb].
  match goal with |- foldl _ ?b1 _ = _ => change (failures_at cfg times b1 = mkBreaker CLOSED
    (b_failures b + Z.of_nat (S (length times)))%Z (b_openedAt b) false) end.
  rewrite IH; cbn; [|done|lia].
  f_equal; [lia|by destruct times].
Qed.

(** *** A stuck breaker stays stuck *)

Section stuck.
Context (cfg : BreakerConfig) (i : nat).

Definition stuck_at (p : Process) : Prop := ∃ b, breakers p !! i = Some b ∧ stuck b.

Notation ok := (steps_ok stuck_at (λ _ _, True)).

Lemma ok_other {A} j (f : ms → Breaker → A * Breaker) d (k : A → prog Process (chat_result string)) :
  j ≠ i → (∀ a, ok (k a)) → ok (on_breaker j f d ≫= k).
Proof.
  intros Hne Hk p (b & Hb & Hst). cbn.
  destruct (breakers p !! j) as [bj|] eqn:Hj; cbn; [|split_and!; [by exists b|done|apply Hk]].
  destruct (f (p_clock p) bj) as [a b']. cbn. split_and!; [|done|apply Hk].
  exists b. split; [|done]. cbn. by rewrite list_lookup_insert_ne.
Qed.

(** The gate of the stuck breaker refuses, so neither report is reached. *)
Lemma ok_gate (k : bool → prog Process (chat_result string)) : ok (k false) → ok (circuit_allow cfg i ≫= k).
Proof.
  intros Hk p (b & Hb & Hst). cbn. rewrite Hb, allow_stuck by done. cbn.
  split_and!; [|done|done]. exists b. split; [|done]. cbn.
  rewrite list_lookup_insert_eq; [done|]. by eapply lookup_lt_Some.
Qed.

Lemma ok_chat_from (call : nat → string → call_result string) entries : ∀ j lastError m,
  ok (chat_from cfg (answers call) j entries lastError m).
Proof.
  induction entries as [|e entries IH]; intros j lastError m; [done|]. cbn [chat_from].
  destruct (decide (j = i)) as [->|Hne]; [by apply ok_gate, IH|].
  apply ok_other; [done|]. intros [|]; cbn [negb]; [|apply IH].
  rewrite answers_bind. destruct (call j _) as [content|err]; [by apply ok_other|].
  case_bool_decide; [done|]. by apply ok_other.
Qed.

Lemma ok_embed (call : nat → string → call_result string) e m : ok (embed cfg (answers call) e m).
Proof.
  unfold embed. destruct (decide (0 = i)) as [He|Hne]; [rewrite He; by apply ok_gate|].
  apply ok_other; [done|]. intros [|]; cbn [negb]; [|done].
  rewrite answers_bind. destruct (call 0 m) as [content|err]; [by apply ok_other|].
  case_bool_decide; [by apply ok_other|done].
Qed.

Lemma llm_api_ok p : llm_api cfg p → ok p.
Proof. destruct 1; apply steps_ok_bind; (apply ok_chat_from || apply ok_embed || done). Qed.

Lemma stuck_forever p p' : stuck_at p → reachable (llm_api cfg) llm_env p p' → stuck_at p'.
Proof.
  intros Hp. apply (reachable_inv _ _ stuck_at (λ _ _, True)); [apply llm_api_ok| |done].
  intros w w' He (b & Hb & Hst). split; [|done]. exists b. by rewrite He.
Qed.
End stuck.

(** ** Properties *)

(** the contract of the breaker: it stays CLOSED below the threshold of
    consecutive failures and opens on reaching it; while OPEN it refuses every
    call until the cooldown is over, then lets exactly one trial through, whose
    report closes it or opens it again for a full cooldown. *)
Theorem breaker_contract (cfg : BreakerConfig) (b : Breaker) (times : list ms) (now : ms)
    (Hb : b_state b = CLOSED) (Hf : b_failures b = 0%Z)
    (Hlen : (Z.of_nat (length times) + 1 = failureThreshold cfg)%Z) :
  let almost := failures_at cfg times b in
  let opened := failure cfg now almost in
  let trial := mkBreaker HALF_OPEN (failureThreshold cfg) now true in
  b_state almost = CLOSED ∧
  b_state opened = OPEN ∧
  (∀ t, (t - now < cooldownMs cfg)%Z → allow cfg t opened = (false, opened)) ∧
  (∀ t, (cooldownMs cfg ≤ t - now)%Z → allow cfg t opened = (true, trial)) ∧
  (∀ t, allow cfg t trial = (false, trial)) ∧
  (∀ t, failure cfg t trial = mkBreaker OPEN (failureThreshold cfg + 1) t false) ∧
  b_state (success trial) = CLOSED ∧ b_failures (success trial) = 0%Z.
Proof.
  intros almost opened trial.
  assert (b_state almost = CLOSED ∧ b_failures almost = Z.of_nat (length times)) as [Hs Hn].
  { unfold almost. rewrite closed_failures by (done || lia). cbn. split; [done|lia]. }
  assert (opened = mkBreaker OPEN (failureThreshold cfg) now false) as Ho.
  { unfold opened, failure. rewrite Hn. rewrite (bool_decide_eq_true_2 (failureThreshold cfg ≤ _)%Z) by lia.
    rewrite orb_true_r. f_equal. lia. }
  split_and!; [done|by rewrite Ho| | | | |done|done].
  - intros t Ht. rewrite Ho. by apply allow_refuses.
  - intros t Ht. rewrite Ho. by apply allow_trial.
  - intros t. by apply allow_stuck.
  - done.
Qed.

Lemma breaker_contract_witness :
  let cfg := mkBreakerConfig 3 30000 in
  b_state (failure cfg 12 (failures_at cfg [10; 11]%Z createCircuitBreaker)) = OPEN.
Proof. apply (breaker_contract (mkBreakerConfig 3 30000) createCircuitBreaker [10; 11]%Z 12); reflexivity. Defined.

(** a non-retryable error during the trial wedges the breaker.  [chat] then
    throws without reporting to the breaker, the trial stays in flight, and from
    that moment on, in every reachable state of the process, whatever requests
    it makes and however long it waits, that provider is refused. *)
Theorem trial_leak_wedges (cfg : BreakerConfig) (call : nat → string → call_result string) (e : Entry)
    (entries : list Entry) (m : string) (p p' : Process) (b : Breaker) (err : provider_error)
    (Hb : breakers p !! 0 = Some b) (Ho : b_state b = OPEN)
    (Hc : (cooldownMs cfg ≤ p_clock p - b_openedAt b)%Z)
    (Hcall : ∀ model, call 0 model = CallError err) (Herr : pe_retryable err = Some false)
    (Hr : reachable (llm_api cfg) llm_env (run (chat cfg (answers call) (e :: entries) m) p).2 p') :
  (run (chat cfg (answers call) (e :: entries) m) p).1 = Ok (ChatThrow err) ∧
  (run (circuit_allow cfg 0) p').1 = Ok false.
Proof.
  assert (run (chat cfg (answers call) (e :: entries) m) p =
    (Ok (ChatThrow err), mkProcess (<[0 := mkBreaker HALF_OPEN (b_failures b) (b_openedAt b) true]> (breakers p))
                           (p_clock p))) as Hrun.
  { unfold chat. cbn [chat_from]. rewrite run_bind. cbn. rewrite Hb, allow_trial by done. cbn.
    rewrite Hcall. by rewrite bool_decide_eq_true_2. }
  rewrite Hrun in *. split; [done|].
  cbn [snd] in Hr. apply (stuck_forever cfg 0) in Hr as (b' & Hb' & Hst).
  - cbn. by rewrite Hb', allow_stuck.
  - eexists. cbn. split; [apply list_lookup_insert_eq; by eapply lookup_lt_Some|done].
Qed.

Lemma trial_leak_wedges_witness :
  let cfg := mkBreakerConfig 3 30000 in
  let p := mkProcess [mkBreaker OPEN 3 0 false] 30000 in
  let bad := λ (_ : nat) (_ : string), @CallError string (mkProviderError "bad request" (Some false)) in
  let p1 := (run (chat cfg (answers bad) [mkEntry "ollama" None] "small") p).2 in
  (run (circuit_allow cfg 0) (mkProcess (breakers p1) 999999)).1 = Ok false.
Proof.
  intros cfg p bad p1.
  refine (proj2 (trial_leak_wedges cfg bad (mkEntry "ollama" None) [] "small" p
    (mkProcess (breakers p1) 999999) (mkBreaker OPEN 3 0 false) (mkProviderError "bad request" (Some false))
    eq_refl eq_refl _ (λ _, eq_refl) eq_refl _)).
  - vm_compute. discriminate.
  - apply (reachable_env _ _ _ p1); [reflexivity|apply reachable_refl].
Defined.
