(* ===== verification/RateLimit.v ===== *)
(** * The rate limiter ([src/middleware/rateLimit.js])

    A sliding-window log: one sorted set per key, updated by one Lua script.
    The member of a request is its time and a unique suffix, and its score is
    the same time, so the sorted set is the set of its members. *)

From Stdlib Require Import Sorting.Sorted.
From S2P Require Import Prelude.

Set Primitive Projections.

(** The sorted set of one key, and when Redis will drop it ([PEXPIRE]). *)
Record Window := mkWindow {
  entries : gset (Z * nat);
  expires : option Z
}.

Unset Primitive Projections.

Definition empty_window : Window := mkWindow ∅ None.

(** An expired key reads as missing. *)
Definition live_entries (now : Z) (s : Window) : gset (Z * nat) :=
  match expires s with
  | Some e => if bool_decide (e ≤ now)%Z then ∅ else entries s
  | None => entries s
  end.

(** The lowest score ([ZRANGE key 0 0 WITHSCORES]). *)
Definition oldest (l : list (Z * nat)) : option Z :=
  foldr (λ m acc, Some (match acc with Some z => Z.min m.1 z | None => m.1 end)) None l.

(** [{ allowed, remaining, retryAfterMs }]; the script fails on an empty set of
    a limit below one. *)
Definition SLIDING_WINDOW (window : Z) (limit : nat) (unique : nat) (now : Z) (s : Window)
    : option (bool * Z * Z) * Window :=
  let kept := filter (λ m : Z * nat, now - window < m.1)%Z (live_entries now s) in
  let count := size kept in
  if bool_decide (count < limit) then
    (Some (true, Z.of_nat limit - Z.of_nat count - 1, 0)%Z,
     mkWindow ({[(now, unique)]} ∪ kept) (Some (now + window)%Z))
  else
    let expires := match expires s with
                   | Some e => if bool_decide (e ≤ now)%Z then None else Some e
                   | None => None
                   end in
    ((λ first, (false, 0, first + window - now)%Z) <$> oldest (elements kept), mkWindow kept expires).

(** ** The middleware *)

Inductive verdict : Type :=
| Next
| NextError (e : exn).

(** [Math.max(1, Math.ceil(retryAfterMs / 1000))]. *)
Definition retry_seconds (retryAfterMs : Z) : Z := Z.max 1 (- (- retryAfterMs / 1000)).

Definition too_many (seconds : Z) : exn :=
  AppErr 429 "RATE_LIMITED" ("Too many requests, retry in " +:+ pretty seconds +:+ "s")%string
    (JObj [("retryAfterSeconds"%string, JNum seconds)]).

(** [who] is [key(req)] ([None] or empty: not limited); [reply] is what Redis
    answers, [None] when it fails. *)
Definition rateLimitMiddleware (failClosed : bool) (who : option string)
    (reply : option (bool * Z * Z)) : verdict :=
  match who with
  | None => Next
  | Some w =>
      if bool_decide (w = ""%string) then Next else
      match reply with
      | None =>
          if failClosed
          then NextError (AppErr 503 "RATE_LIMITER_UNAVAILABLE" "Temporarily unavailable, try again shortly" JNull)
          else Next
      | Some (allowed, _, retryAfterMs) =>
          if allowed : bool then Next else NextError (too_many (retry_seconds retryAfterMs))
      end
  end.

(** ** Histories *)

(** Requests of one key, each at the time of the server, and the accepted ones. *)
Fixpoint serve (window : Z) (limit : nat) (reqs : list (Z * nat)) (s : Window) : list (Z * nat) * Window :=
  match reqs with
  | [] => ([], s)
  | (now, unique) :: reqs =>
      let '(reply, s) := SLIDING_WINDOW window limit unique now s in
      let '(accepted, s) := serve window limit reqs s in
      (match reply with Some (true, _, _) => (now, unique) :: accepted | _ => accepted end, s)
  end.

(** The accepted requests in the window that ends at [T]. *)
Definition in_window (window T : Z) (l : list (Z * nat)) : list (Z * nat) :=
  filter (λ m : Z * nat, T - window < m.1 ∧ m.1 ≤ T)%Z l.

Section limiter.
Context (window : Z) (limit : nat) (Hwindow : (0 ≤ window)%Z).

(** [acc]: the requests accepted so far; [now]: the time of the last step. *)
Record window_inv (now : Z) (acc : list (Z * nat)) (s : Window) : Prop := {
  wi_nodup : NoDup acc;
  wi_past m : m ∈ acc → (m.1 ≤ now)%Z;
  wi_kept m : m ∈ acc → (now - window < m.1)%Z → m ∈ live_entries now s;
  wi_expires e m : expires s = Some e → m ∈ acc → (m.1 + window ≤ e)%Z;
  wi_bound T : length (in_window window T acc) ≤ limit
}.

Lemma live_mono now now' s m :
  (now ≤ now')%Z → m ∈ live_entries now s →
  (∀ e, expires s = Some e → (m.1 + window ≤ e)%Z) → (now' - window < m.1)%Z → m ∈ live_entries now' s.
Proof.
  intros Hle Hm He Hn. unfold live_entries in *. destruct (expires s) as [e|]; [|done].
  specialize (He e eq_refl). rewrite bool_decide_eq_false_2 by lia.
  by case_bool_decide.
Qed.

Lemma in_window_le (T : Z) (l : list (Z * nat)) (X : gset (Z * nat)) :
  NoDup l → (∀ m, m ∈ l → (T - window < m.1)%Z → m ∈ X) → length (in_window window T l) ≤ size X.
Proof.
  intros Hnd HX. unfold in_window.
  assert (NoDup (filter (λ m : Z * nat, T - window < m.1 ∧ m.1 ≤ T)%Z l)) as Hnd' by by apply NoDup_filter.
  rewrite <- (size_list_to_set (C := gset (Z * nat))) by done. apply subseteq_size.
  intros m Hm. apply elem_of_list_to_set, list_elem_of_filter in Hm as [[? ?] ?]. auto.
Qed.

Lemma serve_step now now' unique acc s reply s' :
  window_inv now acc s → (now ≤ now')%Z → (now', unique) ∉ acc →
  SLIDING_WINDOW window limit unique now' s = (reply, s') →
  window_inv now' (match reply with Some (true, _, _) => (now', unique) :: acc | _ => acc end) s'.
Proof.
  intros [Hnd Hp Hk He Hb] Hle Hnew. unfold SLIDING_WINDOW.
  set (kept := filter _ _).
  assert (∀ m, m ∈ acc → (now' - window < m.1)%Z → m ∈ kept) as Hkept.
  { intros m Hm Hn. apply elem_of_filter. split; [done|]. apply (live_mono now); [done| |by intros; eapply He|done].
    apply Hk; [done|lia]. }
  assert (∀ m, m ∈ kept → (now' - window < m.1)%Z) as Hin by (intros m [? _]%elem_of_filter; done).
  case_bool_decide as Hc; intros [= <- <-].
  - split.
    + by apply NoDup_cons.
    + intros m [->|Hm]%elem_of_cons; simpl; [lia|]. specialize (Hp m Hm). lia.
    + intros m Hm Hn. unfold live_entries. simpl. apply elem_of_cons in Hm as [->|Hm]; simpl in *.
      * rewrite bool_decide_eq_false_2 by lia. set_solver.
      * specialize (Hp m Hm). rewrite bool_decide_eq_false_2 by lia. apply elem_of_union_r. auto.
    + intros e m [= <-] [->|Hm]%elem_of_cons; simpl; [lia|]. specialize (Hp m Hm). lia.
    + intros T. destruct (decide (T < now')%Z) as [HT|HT].
      * unfold in_window. rewrite filter_cons, decide_False by (simpl; lia). apply Hb.
      * etrans; [apply (in_window_le T _ ({[(now', unique)]} ∪ kept)); [by apply NoDup_cons|]|].
        { intros m [->|Hm]%elem_of_cons Hn; [set_solver|]. apply elem_of_union_r, Hkept; [done|lia]. }
        rewrite size_union_alt, size_singleton.
        assert (size (kept ∖ {[(now', unique)]}) ≤ size kept) by (apply subseteq_size; set_solver). lia.
  - assert (window_inv now' acc (mkWindow kept (match expires s with
       | Some e => if bool_decide (e ≤ now')%Z then None else Some e | None => None end))) as Hinv.
    { split; [done| | | |done].
      - intros m Hm. specialize (Hp m Hm). lia.
      - intros m Hm Hn. unfold live_entries. cbn. destruct (expires s) as [e|]; [|by apply Hkept].
        case_bool_decide; cbn; [by apply Hkept|]. rewrite bool_decide_eq_false_2 by lia. by apply Hkept.
      - intros e m. cbn. destruct (expires s) as [e'|] eqn:Hexp; [|done].
        case_bool_decide; [done|]. intros [= <-] Hm. by apply (He e' m). }
    by destruct (oldest (elements kept)).
Qed.
End limiter.

(** ** Facts about histories *)

Definition times_from (now : Z) (reqs : list (Z * nat)) : Prop :=
  (∀ m, m ∈ reqs → now ≤ m.1)%Z ∧ StronglySorted (λ a b, a.1 ≤ b.1)%Z reqs.

Lemma serve_inv window limit (Hw : (0 ≤ window)%Z) reqs : ∀ now acc s,
  times_from now reqs → NoDup (reqs ++ acc) → window_inv window limit now acc s →
  ∃ now', window_inv window limit now' (reverse (serve window limit reqs s).1 ++ acc) (serve window limit reqs s).2.
Proof.
  induction reqs as [|[t u] reqs IH]; intros now acc s [Hle Hs] Hnd Hinv; [by exists now|].
  cbn [serve]. destruct (SLIDING_WINDOW window limit u t s) as [reply s1] eqn:Hstep.
  apply StronglySorted_inv in Hs as [Hs Ht]. rewrite <- app_comm_cons in Hnd.
  apply NoDup_cons in Hnd as [Hnew Hnd].
  assert (window_inv window limit t
    (match reply with Some (true, _, _) => (t, u) :: acc | _ => acc end) s1) as Hinv1.
  { eapply (serve_step window limit Hw now); [done| |set_solver|done]. by apply (Hle (t, u)); left. }
  assert (times_from t reqs) as Hreqs.
  { split; [|done]. intros m Hm. rewrite Forall_forall in Ht. by apply Ht. }
  destruct (serve window limit reqs s1) as [l s2] eqn:Hserve. cbn [fst snd].
  destruct reply as [[[[|] rem] after]|]; cbn [fst snd] in *.
  - destruct (IH t ((t, u) :: acc) s1) as [now' H]; [done| |done|].
    { rewrite <- Permutation_middle. by apply NoDup_cons. }
    exists now'. rewrite Hserve in H. cbn [fst snd] in H. by rewrite reverse_cons, <- app_assoc.
  - destruct (IH t acc s1) as [now' H]; [done..|]. rewrite Hserve in H. by exists now'.
  - destruct (IH t acc s1) as [now' H]; [done..|]. rewrite Hserve in H. by exists now'.
Qed.

Lemma oldest_spec l z : oldest l = Some z → (∃ m, m ∈ l ∧ m.1 = z) ∧ ∀ m, m ∈ l → (z ≤ m.1)%Z.
Proof.
  revert z. induction l as [|m l IH]; intros z; [done|]. cbn [oldest foldr].
  fold (oldest l). destruct (oldest l) as [z'|] eqn:Ho; intros [= <-].
  - destruct (IH z' eq_refl) as [(m' & Hm' & He) Hmin]. split.
    + destruct (Z.min_spec m.1 z') as [[_ ->]|[_ ->]]; [exists m; set_solver|exists m'; set_solver].
    + intros m0 [->|H0]%elem_of_cons; [lia|]. specialize (Hmin m0 H0). lia.
  - destruct l as [|m' l']; [|by cbn in Ho; destruct (foldr _ _ _)].
    split; [exists m; set_solver|]. intros m0 ->%list_elem_of_singleton. lia.
Qed.

Lemma oldest_Some l : l ≠ [] → is_Some (oldest l).
Proof. destruct l as [|m l]; [done|]. cbn. by eexists. Qed.

(** ** Properties *)

(** C27: the limit holds in every window.  Whatever the requests of a key, the
    accepted ones among those of any window-sized period never exceed the limit,
    also across the boundary of two periods. *)
Theorem never_exceeds_limit (window : Z) (limit : nat) (reqs : list (Z * nat)) (T : Z)
    (Hw : (0 ≤ window)%Z) (Hnd : NoDup reqs) (Hs : StronglySorted (λ a b, a.1 ≤ b.1)%Z reqs) :
  length (in_window window T (serve window limit reqs empty_window).1) ≤ limit.
Proof.
  destruct reqs as [|r reqs]; [cbn; lia|].
  destruct (serve_inv window limit Hw (r :: reqs) r.1 [] empty_window) as [now' Hinv].
  - split; [|done]. apply StronglySorted_inv in Hs as [_ Hr]. rewrite Forall_forall in Hr.
    intros m [->|Hm]%elem_of_cons; [lia|by apply Hr].
  - by rewrite app_nil_r.
  - split; [constructor|by intros m ?%elem_of_nil..| |]; [|cbn; lia].
    by intros e m _ ?%elem_of_nil.
  - pose proof (wi_bound _ _ _ _ _ Hinv T) as Hb. rewrite app_nil_r in Hb.
    unfold in_window in *. by rewrite reverse_Permutation in Hb.
Qed.

(** a refusal tells the truth: after [retryAfterMs], which lies between one
    and the window, the next request is accepted if nobody else was. *)
Theorem retry_after_is_honest (window now : Z) (limit unique unique' : nat) (s : Window)
    (Hw : (0 < window)%Z) (Hlimit : 0 < limit)
    (Hpast : ∀ m, m ∈ live_entries now s → (m.1 ≤ now)%Z)
    (Hsize : size (filter (λ m : Z * nat, now - window < m.1)%Z (live_entries now s)) ≤ limit) :
  match SLIDING_WINDOW window limit unique now s with
  | (Some (true, remaining, _), _) => (0 ≤ remaining < Z.of_nat limit)%Z
  | (Some (false, _, after), s') =>
      (0 < after ≤ window)%Z ∧
      ∃ remaining s'', SLIDING_WINDOW window limit unique' (now + after) s' = (Some (true, remaining, 0%Z), s'')
  | (None, _) => False
  end.
Proof.
  unfold SLIDING_WINDOW at 1. set (kept := filter _ _) in *.
  case_bool_decide as Hc; [lia|].
  assert (∀ m, m ∈ kept → (now - window < m.1 ≤ now)%Z) as Hin.
  { intros m [Hm Hl]%elem_of_filter. specialize (Hpast m Hl). lia. }
  assert (elements kept ≠ []) as Hne.
  { intros He. apply elements_empty_inv in He. assert (kept = ∅) as Hk by by apply leibniz_equiv.
    rewrite Hk, size_empty in Hc. lia. }
  destruct (oldest_Some _ Hne) as [z Hz]. rewrite Hz. cbn [fmap option_fmap option_map].
  destruct (oldest_spec _ _ Hz) as [(m0 & Hm0 & Hz0) Hmin]. apply elem_of_elements in Hm0.
  pose proof (Hin m0 Hm0) as Hm0'. split; [lia|].
  unfold SLIDING_WINDOW. set (s' := mkWindow kept _). set (now' := (now + (z + window - now))%Z).
  set (kept' := filter (λ m : Z * nat, now' - window < m.1)%Z (live_entries now' s')).
  assert (kept' ⊆ kept ∖ {[m0]}) as Hsub.
  { intros m [Hm Hl]%elem_of_filter. assert (m ∈ kept) as Hk.
    { unfold live_entries in Hl. cbn in Hl. destruct (expires s) as [e|]; [|done].
      destruct (bool_decide (e ≤ now)%Z); [done|]. by case_bool_decide. }
    apply elem_of_difference. split; [done|]. intros ->%elem_of_singleton. lia. }
  apply subseteq_size in Hsub. rewrite size_difference, size_singleton in Hsub by set_solver.
  rewrite bool_decide_eq_true_2 by lia. by eexists _, _.
Qed.

(** ** Witnesses *)

(** Two requests at the end of one minute and two at the start of the next,
    under a limit of three per minute. *)
Definition burst : list (Z * nat) := [(59000%Z, 0); (59500%Z, 1); (60500%Z, 2); (61000%Z, 3)].

Lemma never_exceeds_limit_witness :
  length (in_window 60000 61000 (serve 60000 3 burst empty_window).1) ≤ 3 ∧
  (serve 60000 3 burst empty_window).1 = [(59000%Z, 0); (59500%Z, 1); (60500%Z, 2)].
Proof.
  split; [|vm_compute; reflexivity]. apply never_exceeds_limit.
  - lia.
  - apply (bool_decide_unpack _). vm_compute. exact I.
  - repeat (constructor; [|repeat constructor; simpl; lia]). constructor.
Defined.

Definition full_window : Window := (serve 60000 3 burst empty_window).2.

Lemma retry_after_is_honest_witness :
  ∃ after s', SLIDING_WINDOW 60000 3 9 61000 full_window = (Some (false, 0%Z, after), s') ∧
    (0 < after ≤ 60000)%Z.
Proof.
  pose proof (retry_after_is_honest 60000 61000 3 9 10 full_window) as H.
  destruct (SLIDING_WINDOW 60000 3 9 61000 full_window) as [reply s'] eqn:Hrun.
  assert (reply = Some (false, 0%Z, 58000%Z)) as -> by (apply (f_equal fst) in Hrun; vm_compute in Hrun; congruence).
  exists 58000%Z, s'. split; [reflexivity|]. apply H; [lia|lia| |].
  - assert (live_entries 61000 full_window = list_to_set [(59000%Z, 0); (59500%Z, 1); (60500%Z, 2)]) as ->
      by (vm_compute; reflexivity).
    intros m Hm. apply elem_of_list_to_set, list_elem_of_In in Hm.
    destruct Hm as [<-|[<-|[<-|[]]]]; simpl; lia.
  - apply (bool_decide_unpack _). vm_compute. exact I.
Defined.
