(* ===== verification/Access.v ===== *)
(** * Who may do what ([src/auth/permissions.js], [src/auth/ownership.js],
    [src/middleware/authorize.js], [src/utils/errors.js])

    Roles and permissions are strings, as in the source, where they are read
    from the database and from tokens. *)

From S2P Require Import Prelude Models.

Local Open Scope string_scope.

(** ** Errors *)

Definition ValidationError (message code : string) (details : json) : exn := AppErr 400 code message details.
Definition UnauthorizedError : exn := AppErr 401 "UNAUTHENTICATED" "Authentication required" JNull.
Definition ForbiddenError (details : json) : exn :=
  AppErr 403 "FORBIDDEN" "You do not have permission to perform this action" details.
Definition NotFoundError (message : string) : exn := AppErr 404 "NOT_FOUND" message JNull.
Definition ConflictError (message code : string) (details : json) : exn := AppErr 409 code message details.

(** ** Roles and permissions *)

Definition ADMIN : string := "admin".
Definition OPERATOR : string := "operator".
Definition VIEWER : string := "viewer".

Definition WORKFLOW_CREATE : string := "workflow:create".
Definition WORKFLOW_READ : string := "workflow:read".
Definition WORKFLOW_RUN : string := "workflow:run".
Definition APPROVAL_DECIDE : string := "approval:decide".
Definition ANALYTICS_READ : string := "analytics:read".
Definition USER_MANAGE : string := "user:manage".

Definition PERMISSIONS : list string :=
  [WORKFLOW_CREATE; WORKFLOW_READ; WORKFLOW_RUN; APPROVAL_DECIDE; ANALYTICS_READ; USER_MANAGE].

Definition ROLE_PERMISSIONS : gmap string (gset string) :=
  <[ADMIN := list_to_set PERMISSIONS]>
  (<[OPERATOR := list_to_set [WORKFLOW_CREATE; WORKFLOW_READ; WORKFLOW_RUN; APPROVAL_DECIDE; ANALYTICS_READ]]>
  (<[VIEWER := list_to_set [WORKFLOW_READ; ANALYTICS_READ]]> ∅)).

(** The properties every object inherits: reading one of these of the table
    gives a value that has no method [has]. *)
Definition inherited : list string :=
  ["constructor"; "toString"; "toLocaleString"; "valueOf"; "hasOwnProperty"; "isPrototypeOf";
   "propertyIsEnumerable"; "__proto__"; "__defineGetter__"; "__defineSetter__"; "__lookupGetter__";
   "__lookupSetter__"].

(** [ROLE_PERMISSIONS[role]?.has(permission) ?? false]. *)
Definition hasPermission (role permission : string) : res bool :=
  match ROLE_PERMISSIONS !! role with
  | Some granted => Ok (bool_decide (permission ∈ granted))
  | None => if bool_decide (role ∈ inherited) then Exn TypeErr else Ok false
  end.

(** [req.user], set by [authenticate]. *)
Record User := mkUser { u_id : oid; u_role : string }.

(** The middleware calls [next] or stops with an error. *)
Definition requirePermission (permission : string) (user : option User) : res unit :=
  match user with
  | None => Exn UnauthorizedError
  | Some u =>
      allowed ← hasPermission (u_role u) permission;
      if allowed : bool then Ok tt else Exn (ForbiddenError (JObj [("required", JStr permission)]))
  end.

(** ** Ownership: the part of a query that selects the documents of a user. *)
Definition ownerScope (user : User) (ownerId : oid) : bool :=
  bool_decide (u_role user = ADMIN) || bool_decide (ownerId = u_id user).

(** ** Properties *)

(** least privilege.  An action passes exactly when the request has a user
    whose role is known and was granted it; a viewer can do nothing but read,
    an operator everything except managing users, and only an admin can manage
    users; everyone else is refused with 401 or 403. *)
Theorem least_privilege (permission : string) (user : option User)
    (Hknown : ∀ u, user = Some u → u_role u ∉ inherited) :
  match requirePermission permission user with
  | Ok _ => ∃ u, user = Some u ∧
      (u_role u = ADMIN ∧ permission ∈ PERMISSIONS ∨
       u_role u = OPERATOR ∧ permission ∈ PERMISSIONS ∧ permission ≠ USER_MANAGE ∨
       u_role u = VIEWER ∧ (permission = WORKFLOW_READ ∨ permission = ANALYTICS_READ))
  | Exn e => (user = None ∧ e = UnauthorizedError) ∨ (∃ d, e = ForbiddenError d) ∧
      ∀ u, user = Some u → u_role u ≠ ADMIN ∨ permission ∉ PERMISSIONS
  end.
Proof.
  destruct user as [u|]; [|by left]. specialize (Hknown u eq_refl).
  unfold requirePermission, hasPermission, ROLE_PERMISSIONS.
  destruct (decide (u_role u = ADMIN)) as [Ha|Ha].
  { rewrite Ha, lookup_insert_eq. cbn. rewrite (bool_decide_ext _ (permission ∈ PERMISSIONS)) by set_solver.
    case_bool_decide; [exists u; auto|]. right. split; [by eexists|]. intros u' [= <-]. by right. }
  rewrite lookup_insert_ne by done. destruct (decide (u_role u = OPERATOR)) as [Ho|Ho].
  { rewrite Ho, lookup_insert_eq. cbn. case_bool_decide as Hp.
    - exists u. split; [done|]. right; left. split; [done|]. unfold PERMISSIONS. set_solver.
    - right. split; [by eexists|]. intros u' [= <-]. by left. }
  rewrite lookup_insert_ne by done. destruct (decide (u_role u = VIEWER)) as [Hv|Hv].
  { rewrite Hv, lookup_insert_eq. cbn. case_bool_decide as Hp.
    - exists u. split; [done|]. right; right. split; [done|]. set_solver.
    - right. split; [by eexists|]. intros u' [= <-]. by left. }
  rewrite lookup_insert_ne, lookup_empty by done. rewrite bool_decide_eq_false_2 by done. cbn.
  right. split; [by eexists|]. intros u' [= <-]. by left.
Qed.

Lemma least_privilege_witness :
  match requirePermission USER_MANAGE (Some (mkUser 7 OPERATOR)) with
  | Ok _ => False
  | Exn e => ∃ d, e = ForbiddenError d
  end.
Proof.
  pose proof (least_privilege USER_MANAGE (Some (mkUser 7 OPERATOR))) as H.
  assert (∀ u, Some (mkUser 7 OPERATOR) = Some u → u_role u ∉ inherited) as Hk.
  { intros u [= <-]. apply (bool_decide_unpack _). vm_compute. exact I. }
  specialize (H Hk). destruct (requirePermission USER_MANAGE (Some (mkUser 7 OPERATOR))) as [x|e] eqn:E.
  - vm_compute in E. discriminate.
  - destruct H as [[H _]|[H _]]; [discriminate|exact H].
Defined.

(** "unknown role" is not always "no": for a role that is the name of a
    property every object inherits, the check throws instead of refusing. *)
Theorem inherited_role_throws (role permission : string) (Hrole : role ∈ inherited) :
  hasPermission role permission = Exn TypeErr.
Proof.
  unfold hasPermission. assert (ROLE_PERMISSIONS !! role = None) as ->.
  { unfold inherited in Hrole. repeat (apply elem_of_cons in Hrole as [->|Hrole]; [by vm_compute|]).
    by apply not_elem_of_nil in Hrole. }
  by rewrite bool_decide_eq_true_2.
Qed.

Lemma inherited_role_throws_witness : hasPermission "constructor" WORKFLOW_READ = Exn TypeErr.
Proof. apply inherited_role_throws. left. Defined.
