(* ===== verification/Services.v ===== *)
(** * Operations on behalf of a user
    ([src/services/execution.service.js], [src/services/workflow.service.js],
    [src/routes/approval.routes.js])

    The services look documents up within the scope of the user and call the
    engine.  They act on the engine's world and on the collection of workflow
    definitions.  The hash of a request ([node:crypto]) and the schema of a
    schedule are parameters. *)

From Stdlib Require Import Sorting.Mergesort.
From S2P Require Import Prelude Program States Dag Models TaskRepo Dispatcher Engine Access.

Local Open Scope string_scope.

Set Primitive Projections.

(** [models/workflow.model.js], the [schedule] of a workflow. *)
Record Schedule := mkSchedule {
  s_cron : string;
  s_timezone : string;
  s_enabled : bool;
  s_input : json;
  s_nextRunAt : ms;
  s_lastRunAt : option ms;
  s_lastError : option string
}.

(** [models/workflow.model.js]: the stored definition. *)
Record StoredWorkflow := mkStoredWorkflow {
  sw_ownerId : oid;
  sw_name : string;
  sw_description : string;
  sw_tasks : list TaskDefinition;
  sw_version : Z;
  sw_schedule : option Schedule
}.

Record AppWorld (Q : Type) := mkAppWorld {
  aw_world : World Q;
  aw_workflows : gmap oid StoredWorkflow
}.

Unset Primitive Projections.

Arguments mkAppWorld {Q} _ _.
Arguments aw_world {Q} _.
Arguments aw_workflows {Q} _.

(** The document the engine is given. *)
Definition workflow_doc (i : oid) (s : StoredWorkflow) : Workflow :=
  mkWorkflow i (sw_ownerId s) (sw_version s) (sw_tasks s).

Definition set_workflows {Q} (ws : gmap oid StoredWorkflow) (w : AppWorld Q) : AppWorld Q :=
  mkAppWorld (aw_world w) ws.
Definition set_world {Q} (v : World Q) (w : AppWorld Q) : AppWorld Q := mkAppWorld v (aw_workflows w).

(** ** The canonical form of a request *)

(** [JSON.stringify] of a string. *)
Definition escape_char (c : Ascii.ascii) : string :=
  let n := Ascii.nat_of_ascii c in
  if bool_decide (n = 34) then String (Ascii.ascii_of_nat 92) (String c "")
  else if bool_decide (n = 92) then String c (String c "")
  else if bool_decide (n = 8) then "\b" else if bool_decide (n = 9) then "\t"
  else if bool_decide (n = 10) then "\n" else if bool_decide (n = 12) then "\f"
  else if bool_decide (n = 13) then "\r"
  else if bool_decide (n < 32)
  then "\u00" +:+ (if bool_decide (n < 16) then "0" else "1")
       +:+ String (nth (n mod 16) (String.list_ascii_of_string "0123456789abcdef") Ascii.zero) ""
  else String c "".

Fixpoint escape (s : string) : string :=
  match s with
  | "" => ""
  | String c s => escape_char c +:+ escape s
  end.

Definition stringify_string (s : string) : string := quote (escape s).

(** The order of [Array.prototype.sort] on strings. *)
Module KeyOrder <: Orders.TotalLeBool.
Definition t : Type := string * string.
Definition leb (a b : t) : bool :=
  match String.compare a.1 b.1 with Gt => false | _ => true end.
Lemma leb_total a b : leb a b = true ∨ leb b a = true.
Proof. unfold leb. rewrite (String.compare_antisym b.1 a.1). destruct (String.compare a.1 b.1); auto. Qed.
End KeyOrder.

Module KeySort := Sort KeyOrder.

Definition member (kv : string * string) : string := stringify_string kv.1 +:+ ":" +:+ kv.2.

(** Object keys are sorted, so two spellings of one request have one form. *)
Fixpoint canonical (v : json) : string :=
  match v with
  | JNull => "null"
  | JBool b => if b then "true" else "false"
  | JNum z => pretty z
  | JStr s => stringify_string s
  | JArr l => "[" +:+ join "," (map canonical l) +:+ "]"
  | JObj fields =>
      "{" +:+ join "," (member <$> KeySort.sort (map (λ kv, (kv.1, canonical kv.2)) fields)) +:+ "}"
  end.

Section services.
Context {Q : Type} `{!Dispatcher Q} (cfg : EngineConfig) (hash : string → string).
Notation app := (prog (AppWorld Q)).

(** Calls of the engine and single database calls. *)
Definition engine_call {A} (p : prog (World Q) A) : app A := zoom aw_world set_world p.
Definition read {A} (f : AppWorld Q → A) : app A := Atom (λ w, (f w, w)) Ret.
Definition try_ {A} (p : app A) : app (res A) := catch (a ← p; Ret (Ok a)) (λ e, Ret (Exn e)).

(** [Workflow.findOne({ _id, ...ownerScope(user) })]. *)
Definition own_workflow (u : User) (i : oid) (ws : gmap oid StoredWorkflow) : option StoredWorkflow :=
  findOne i (λ s, ownerScope u (sw_ownerId s)) ws.
Definition own_execution (u : User) (e : oid) (db : DB) : option WorkflowExecution :=
  findOne e (λ x, ownerScope u (x_ownerId x)) (executions db).

(** ** [execution.service.js] *)

Definition truthy (key : option string) : bool :=
  match key with Some k => negb (bool_decide (k = "")) | None => false end.

Definition request_hash (workflowId : oid) (input : json) : string :=
  hash (canonical (JObj [("workflowId", JStr (oid_str workflowId)); ("input", input)])).

Definition is_key_clash (key : option string) (e : exn) : bool :=
  truthy key && match e with DuplicateKey ks => bool_decide ("idempotencyKey" ∈ ks) | _ => false end.

(** [WorkflowExecution.findOne({ triggeredBy, idempotencyKey })]. *)
Definition run_of_key (u : User) (key : option string) (db : DB) : option (oid * WorkflowExecution) :=
  head (find (λ x, bool_decide (triggeredBy x = Some (u_id u)) && bool_decide (idempotencyKey x = key))
          (executions db)).

(** Returns the execution, and whether it is a replay. *)
Definition run_workflow (u : User) (workflowId : oid) (input : json) (key : option string)
    : app (oid * bool) :=
  found ← read (λ w, own_workflow u workflowId (aw_workflows w));
  match found with
  | None => Throw (NotFoundError "Workflow not found")
  | Some s =>
      let requestHash := if truthy key then Some (request_hash workflowId input) else None in
      started ← try_ (engine_call (startExecution cfg (workflow_doc workflowId s)
                   (mkStartParams input (Some (u_id u)) TRIGGER_manual key requestHash)));
      match started with
      | Ok e => Ret (e, false)
      | Exn err =>
          if negb (is_key_clash key err) then Throw err else
          existing ← read (λ w, run_of_key u key (w_db (aw_world w)));
          match existing with
          | None => Throw TypeErr
          | Some (e, x) =>
              if bool_decide (Models.requestHash x = requestHash) then Ret (e, true)
              else Throw (AppErr 422 "IDEMPOTENCY_KEY_REUSED"
                            "Idempotency-Key was already used with a different request" JNull)
          end
      end
  end.

Inductive ACTION : Type := ACTION_pause | ACTION_resume | ACTION_cancel.

Definition action_str (a : ACTION) : string :=
  match a with ACTION_pause => "pause" | ACTION_resume => "resume" | ACTION_cancel => "cancel" end.

Definition action_op (a : ACTION) (e : oid) : prog (World Q) bool :=
  match a with
  | ACTION_pause => pauseExecution cfg e
  | ACTION_resume => resumeExecution cfg e
  | ACTION_cancel => cancelExecution cfg e
  end.

Definition control (u : User) (executionId : oid) (a : ACTION) : app (option WorkflowExecution) :=
  found ← read (λ w, own_execution u executionId (w_db (aw_world w)));
  match found with
  | None => Throw (NotFoundError "Execution not found")
  | Some x =>
      changed ← engine_call (action_op a executionId);
      if negb changed then
        Throw (AppErr 409 "INVALID_STATE"
                 ("Cannot " +:+ action_str a +:+ " an execution that is " +:+ execution_status_str (x_status x))
                 (JObj [("status", JStr (execution_status_str (x_status x)))]))
      else read (λ w, executions (w_db (aw_world w)) !! executionId)
  end.

Definition get_execution (u : User) (executionId : oid) : app (WorkflowExecution * list (oid * Task)) :=
  found ← read (λ w, own_execution u executionId (w_db (aw_world w)));
  match found with
  | None => Throw (NotFoundError "Execution not found")
  | Some x =>
      tasks ← read (λ w, find (of_run executionId) (tasks (w_db (aw_world w))));
      Ret (x, tasks)
  end.

(** ** [workflow.service.js] *)

(** What a client sends. *)
Record Definition_ := mkDefinition {
  def_name : string;
  def_description : string;
  def_tasks : list TaskDefinition
}.

Definition assertValidGraph (tasks : list TaskDefinition) : res unit :=
  match validateDag (dag_task <$> tasks) with
  | Some (Ok r) =>
      if valid r then Ok tt
      else Exn (ValidationError "Workflow task graph is invalid" "INVALID_WORKFLOW_GRAPH"
                  (JArr (graph_error_json <$> errors r)))
  | Some (Exn e) => Exn e
  | None => Exn (PlainErr "out of fuel")
  end.

Definition create_workflow (u : User) (d : Definition_) : app oid :=
  _ ← lift (assertValidGraph (def_tasks d));
  Atom (λ w, let '(i, ws) := insert_new (mkStoredWorkflow (u_id u) (def_name d) (def_description d)
                                           (def_tasks d) 1 None) (aw_workflows w) in
             (i, set_workflows ws w)) Ret.

Definition get_workflow (u : User) (i : oid) : app StoredWorkflow :=
  found ← read (λ w, own_workflow u i (aw_workflows w));
  match found with Some s => Ret s | None => Throw (NotFoundError "Workflow not found") end.

(** [findOneAndUpdate] within the scope of the user. *)
Definition update_own (u : User) (i : oid) (p : StoredWorkflow → bool)
    (f : StoredWorkflow → StoredWorkflow) : app (option StoredWorkflow) :=
  Atom (λ w, let '(s, ws) := findOneAndUpdate i (λ s, ownerScope u (sw_ownerId s) && p s) f (aw_workflows w) in
             (s, set_workflows ws w)) Ret.

Definition replace_definition (d : Definition_) (s : StoredWorkflow) : StoredWorkflow :=
  mkStoredWorkflow (sw_ownerId s) (def_name d) (def_description d) (def_tasks d) (sw_version s + 1)
    (sw_schedule s).

Definition version_conflict (sent current : Z) : exn :=
  ConflictError ("Workflow was modified by someone else (you sent version " +:+ pretty sent +:+
                 ", current is " +:+ pretty current +:+ "). Reload and retry.")
    "VERSION_CONFLICT" (JObj [("currentVersion", JNum current)]).

Definition update_workflow (u : User) (i : oid) (version : Z) (d : Definition_) : app StoredWorkflow :=
  _ ← lift (assertValidGraph (def_tasks d));
  updated ← update_own u i (λ s, bool_decide (sw_version s = version)) (replace_definition d);
  match updated with
  | Some s => Ret s
  | None =>
      current ← read (λ w, own_workflow u i (aw_workflows w));
      match current with
      | None => Throw (NotFoundError "Workflow not found")
      | Some s => Throw (version_conflict version (sw_version s))
      end
  end.

Definition with_schedule (sch : option Schedule) (s : StoredWorkflow) : StoredWorkflow :=
  mkStoredWorkflow (sw_ownerId s) (sw_name s) (sw_description s) (sw_tasks s) (sw_version s) sch.

(** [cron-parser] and [Intl] are not part of the repository: whether an
    expression is valid, and the first slot strictly after an instant. *)
Context (assertValidCron : string → string → res unit) (nextRunAfter : string → ms → string → ms).

Definition setSchedule (u : User) (i : oid) (cron timezone : string) (enabled : bool) (input : json)
    : app StoredWorkflow :=
  _ ← lift (assertValidCron cron timezone);
  current ← read (λ w, w_clock (aw_world w));
  updated ← update_own u i (λ _, true)
    (with_schedule (Some (mkSchedule cron timezone enabled input (nextRunAfter cron current timezone) None None)));
  match updated with Some s => Ret s | None => Throw (NotFoundError "Workflow not found") end.

Definition clearSchedule (u : User) (i : oid) : app StoredWorkflow :=
  updated ← update_own u i (λ _, true) (with_schedule None);
  match updated with Some s => Ret s | None => Throw (NotFoundError "Workflow not found") end.

(** ** [approval.routes.js] *)

Definition approval_status_str (s : APPROVAL_STATUS) : string :=
  match s with
  | P_PENDING => "PENDING" | P_APPROVED => "APPROVED" | P_REJECTED => "REJECTED"
  | P_EXPIRED => "EXPIRED" | P_CANCELLED => "CANCELLED"
  end.

Definition already_decided (s : APPROVAL_STATUS) : exn :=
  ConflictError ("Approval is already " +:+ approval_status_str s) "ALREADY_DECIDED"
    (JObj [("status", JStr (approval_status_str s))]).

(** The handlers of [POST /approvals/:id/approve] and [.../reject]. *)
Definition decide_approval (u : User) (approvalId : oid) (d : DECISION) (comment : option string)
    : app (option ApprovalRequest) :=
  let scope := λ p, ownerScope u (p_ownerId p) in
  existing ← read (λ w, findOne approvalId scope (approvals (w_db (aw_world w))));
  match existing with
  | None => Throw (NotFoundError "Approval not found")
  | Some p =>
      if bool_decide (p_status p ≠ P_PENDING) then Throw (already_decided (p_status p)) else
      outcome ← engine_call (resolveApproval cfg approvalId (mkDecision d (Some (u_id u)) comment) scope);
      match outcome with
      | None =>
          now ← read (λ w, approvals (w_db (aw_world w)) !! approvalId);
          p ← lift (get_or_type_error now);
          Throw (already_decided (p_status p))
      | Some _ => read (λ w, approvals (w_db (aw_world w)) !! approvalId)
      end
  end.
End services.
