(* ===== verification/ServicesProps.v ===== *)
(** * What users can rely on

    Object-level authorization, optimistic concurrency of definitions, and
    idempotent starts. *)

From stdpp Require Import sorting.
From S2P Require Import Prelude Program States Dag DagFacts DagSpec Models Retry TaskRepo.
From S2P Require Import Dispatcher Engine RunInv EngineTx EngineInv EngineStart.
From S2P Require Import EngineSafety EngineProps Access Services.

Local Open Scope string_scope.

(** ** Sequential runs *)

Section runs.
Context {Q : Type} `{!Dispatcher Q} (cfg : EngineConfig) (hash : string → string).
Implicit Types (w : AppWorld Q).

Lemma run_read {A} (f : AppWorld Q → A) w : run (read f) w = (Ok (f w), w).
Proof. done. Qed.

Lemma run_engine_call {A} (p : prog (World Q) A) w :
  run (engine_call p) w = let '(r, v) := run p (aw_world w) in (r, set_world v w).
Proof. apply run_zoom; done. Qed.

Lemma run_try {A} (p : prog (AppWorld Q) A) w :
  run (try_ p) w = let '(r, w') := run p w in (Ok r, w').
Proof. unfold try_. rewrite run_catch, run_bind. by destruct (run p w) as [[a|e] w']. Qed.

Lemma own_none u (ws : gmap oid StoredWorkflow) i :
  (∀ s, ws !! i = Some s → ownerScope u (sw_ownerId s) = false) → own_workflow u i ws = None.
Proof. intros H. unfold own_workflow. by apply findOne_None. Qed.

Lemma own_some u (ws : gmap oid StoredWorkflow) i s :
  ws !! i = Some s → ownerScope u (sw_ownerId s) = true → own_workflow u i ws = Some s.
Proof. intros H1 H2. unfold own_workflow. by apply findOne_Some. Qed.

Lemma run_update_own_miss u i p f w :
  (∀ s, aw_workflows w !! i = Some s → ownerScope u (sw_ownerId s) && p s = false) →
  run (update_own u i p f) w = (Ok None, w).
Proof.
  intros H. unfold update_own. cbn.
  destruct (findOneAndUpdate_cases i (λ s, ownerScope u (sw_ownerId s) && p s) f (aw_workflows w))
    as [(s & Hs & Hp & _)|[_ ->]]; [by rewrite H in Hp|by destruct w].
Qed.

Lemma run_update_own_hit u i (p : StoredWorkflow → bool) f w s :
  aw_workflows w !! i = Some s → ownerScope u (sw_ownerId s) = true → p s = true →
  run (update_own u i p f) w = (Ok (Some (f s)), set_workflows (<[i := f s]> (aw_workflows w)) w).
Proof.
  intros H1 H2 H3. unfold update_own. cbn. unfold findOneAndUpdate. by rewrite H1, H2, H3.
Qed.

(** ** Starting under a key that was used *)

Lemma run_startExecution_duplicate wf p (v : World Q) r :
  validateDag (dag_task <$> wf_tasks wf) = Some (Ok r) → valid r = true →
  idempotency_clash p (w_db v) = true →
  run (startExecution cfg wf p) v = (Exn (DuplicateKey ["triggeredBy"; "idempotencyKey"]), v).
Proof.
  intros Hv Hok Hc. unfold startExecution. rewrite Hv, Hok. cbn [negb].
  destruct (valid_startable wf r Hv Hok) as (children & -> & _).
  change (run (e ← transaction (start_tx cfg wf p children); _ ← dispatchReady e; Ret e) v =
          (Exn (DuplicateKey ["triggeredBy"; "idempotencyKey"]), v)).
  unfold transaction. apply run_db_throw. by apply start_tx_duplicate.
Qed.

Lemma run_of_key_unique (u : User) k db e x :
  (∀ e1 e2 x1 x2, executions db !! e1 = Some x1 → executions db !! e2 = Some x2 →
     triggeredBy x1 = Some (u_id u) → triggeredBy x2 = Some (u_id u) →
     idempotencyKey x1 = Some k → idempotencyKey x2 = Some k → e1 = e2) →
  executions db !! e = Some x → triggeredBy x = Some (u_id u) → idempotencyKey x = Some k →
  run_of_key u (Some k) db = Some (e, x).
Proof.
  intros Huniq Hx Hu Hk. unfold run_of_key.
  assert (Hin : (e, x) ∈ find (λ x, bool_decide (triggeredBy x = Some (u_id u)) &&
     bool_decide (idempotencyKey x = Some k)) (executions db)).
  { apply elem_of_find. by rewrite !bool_decide_eq_true_2. }
  destruct (find _ _) as [|[e' x'] l] eqn:Hf; [by apply not_elem_of_nil in Hin|]. cbn.
  assert ((e', x') ∈ (e', x') :: l) as He' by left. rewrite <- Hf in He'.
  apply elem_of_find in He' as [Hx' Hp]. apply andb_true_iff in Hp as [Hu' Hk'].
  apply bool_decide_eq_true in Hu', Hk'. rewrite (Huniq e e' x x') in * by done. congruence.
Qed.
End runs.

(** ** Properties *)

Section properties.
Context {Q : Type} `{!Dispatcher Q} (cfg : EngineConfig) (hash : string → string).


(** no lost update.  An edit applies exactly when it is based on the current
    version, and bumps it; of two edits based on the same version the second is
    refused with the current version, and changes nothing. *)
Theorem no_lost_update (w : AppWorld Q) (u1 u2 : User) (i : oid) (s : StoredWorkflow)
    (d1 d2 : Definition_)
    (Hs : aw_workflows w !! i = Some s)
    (Hu1 : ownerScope u1 (sw_ownerId s) = true) (Hu2 : ownerScope u2 (sw_ownerId s) = true)
    (Hd1 : assertValidGraph (def_tasks d1) = Ok tt) (Hd2 : assertValidGraph (def_tasks d2) = Ok tt) :
  ∃ w', run (update_workflow u1 i (sw_version s) d1) w = (Ok (replace_definition d1 s), w') ∧
    aw_workflows w' !! i = Some (replace_definition d1 s) ∧
    run (update_workflow u2 i (sw_version s) d2) w' =
      (Exn (version_conflict (sw_version s) (sw_version s + 1)), w').
Proof.
  set (w' := set_workflows (<[i := replace_definition d1 s]> (aw_workflows w)) w).
  assert (aw_workflows w' !! i = Some (replace_definition d1 s)) as Hi by apply lookup_insert_eq.
  exists w'. split_and!; [|exact Hi|].
  - unfold update_workflow. rewrite Hd1, run_bind. cbn [lift run].
    rewrite run_bind, (run_update_own_hit _ _ _ _ _ s) by (done || by apply bool_decide_eq_true). done.
  - unfold update_workflow. rewrite Hd2, run_bind. cbn [lift run]. rewrite run_bind, run_update_own_miss.
    + cbv beta iota. rewrite run_bind, run_read.
      by rewrite (own_some _ _ _ _ Hi) by exact Hu2.
    + intros s' Hs'. rewrite Hi in Hs'. injection Hs' as <-.
      apply andb_false_intro2, bool_decide_eq_false. cbn. lia.
Qed.

End properties.

(** ** The canonical form of a request *)

Definition key_le (a b : string * string) : Prop := KeyOrder.leb a b = true.

Lemma compare_le_trans x y z :
  String.compare x y ≠ Gt → String.compare y z ≠ Gt → String.compare x z ≠ Gt.
Proof.
  revert y z. induction x as [|c x IH]; intros y z Hxy Hyz.
  - by destruct z.
  - destruct y as [|d y]; [done|]. destruct z as [|e z]; [done|]. simpl in *.
    destruct (Ascii.compare c d) eqn:Hcd; [| |congruence].
    + apply Ascii.compare_eq_iff in Hcd. subst d.
      destruct (Ascii.compare c e); [by apply (IH y)|congruence..].
    + destruct (Ascii.compare d e) eqn:Hde; [| |congruence].
      * apply Ascii.compare_eq_iff in Hde. subst e. by rewrite Hcd.
      * assert (Ascii.compare c e = Lt) as ->; [|done]. unfold Ascii.compare in *.
        rewrite N.compare_lt_iff in *. lia.
Qed.

Instance key_le_trans : Transitive key_le.
Proof.
  intros a b c. unfold key_le, KeyOrder.leb. intros Hab Hbc.
  pose proof (compare_le_trans a.1 b.1 c.1) as Ht.
  destruct (String.compare a.1 b.1), (String.compare b.1 c.1), (String.compare a.1 c.1); try done;
    by destruct Ht.
Qed.

Lemma key_le_antisym a b : key_le a b → key_le b a → a.1 = b.1.
Proof.
  unfold key_le, KeyOrder.leb. rewrite (String.compare_antisym b.1 a.1).
  destruct (String.compare a.1 b.1) eqn:Hc; [|done..]. intros _ _. by apply String.compare_eq_iff.
Qed.

Lemma sort_sorted l : StronglySorted key_le (KeySort.sort l).
Proof.
  apply Sorted_StronglySorted; [apply key_le_trans|exact (KeySort.Sorted_sort l)].
Qed.

Lemma sort_perm l l' : l ≡ₚ l' → NoDup l.*1 → KeySort.sort l = KeySort.sort l'.
Proof.
  intros Hp Hnd. pose proof (KeySort.Permuted_sort l) as H1. pose proof (KeySort.Permuted_sort l') as H2.
  apply (StronglySorted_unique_strong key_le); [|apply sort_sorted..|by rewrite <- H1, <- H2].
  intros a b Ha Hb Hab Hba. pose proof (key_le_antisym a b Hab Hba) as Hk.
  rewrite <- H1 in Ha. rewrite <- H2, <- Hp in Hb.
  apply list_elem_of_lookup in Ha as [m Hm], Hb as [n Hn].
  assert (m = n) as ->; [|congruence].
  apply (NoDup_lookup _ m n a.1 Hnd); rewrite list_lookup_fmap; [by rewrite Hm|by rewrite Hn, Hk].
Qed.

(** the hash of a request does not depend on the order of its keys, so a
    client that serializes the same request differently still replays it. *)
Theorem canonical_ignores_key_order (fields fields' : list (string * json))
    (Hp : fields ≡ₚ fields') (Hnd : NoDup fields.*1) :
  canonical (JObj fields) = canonical (JObj fields').
Proof.
  cbn [canonical]. do 2 f_equal. f_equal. f_equal. apply sort_perm.
  - by apply fmap_Permutation.
  - change (map ?f fields) with (f <$> fields). rewrite <- list_fmap_compose. exact Hnd.
Qed.

(** ** Witnesses *)

Import Demo.

(** The demonstration run with its stored definition, owned by user 1. *)
Definition stored : StoredWorkflow := mkStoredWorkflow 1 "diamond" "" (wf_tasks diamond) 1 None.
Definition app : AppWorld unit := mkAppWorld w2 {[7 := stored]}.
Definition edit (name : string) : Definition_ := mkDefinition name "" (wf_tasks diamond).

Lemma app_graph : assertValidGraph (wf_tasks diamond) = Ok tt.
Proof. vm_compute. reflexivity. Qed.


Lemma no_lost_update_witness :
  ∃ w', run (update_workflow (mkUser 1 OPERATOR) 7 1 (edit "first")) app =
      (Ok (replace_definition (edit "first") stored), w') ∧
    run (update_workflow (mkUser 9 ADMIN) 7 1 (edit "second")) w' = (Exn (version_conflict 1 2), w').
Proof.
  destruct (no_lost_update app (mkUser 1 OPERATOR) (mkUser 9 ADMIN) 7 stored (edit "first") (edit "second"))
    as (w' & H1 & _ & H2); [reflexivity|reflexivity|reflexivity|exact app_graph|exact app_graph|].
  exists w'. split; [exact H1|exact H2].
Defined.


Lemma canonical_ignores_key_order_witness :
  canonical (JObj [("b", JNum 1); ("a", JStr "x")]) = canonical (JObj [("a", JStr "x"); ("b", JNum 1)]).
Proof.
  apply canonical_ignores_key_order; [apply Permutation_swap|].
  apply (bool_decide_unpack _). vm_compute. exact I.
Defined.
