(* ===== verification/Scheduler.v ===== *)
(** * The cron scheduler ([src/scheduler/scheduler.js])

    Starts the runs of workflows whose schedule is due, on the world of the
    services.  [cron-parser] is a parameter: the first slot after an instant. *)

From stdpp Require Import sorting.
From S2P Require Import Prelude Program States Dag DagFacts DagSpec Models Retry TaskRepo.
From S2P Require Import Dispatcher Engine RunInv EngineTx EngineInv EngineStart.
From S2P Require Import EngineSafety EngineProps EngineSpec Access Services ServicesProps.
From S2P Require Import Lock.

Local Open Scope string_scope.

(** ** [Date.prototype.toISOString], for the years 0 to 9999 *)

Definition pad (width : nat) (n : Z) : string :=
  let digits := pretty n in
  String.concat "" (replicate (width - String.length digits) "0") +:+ digits.

Definition civil (days : Z) : Z * Z * Z :=
  (let z := days + 719468 in
   let era := z / 146097 in
   let doe := z mod 146097 in
   let yoe := (doe - doe / 1460 + doe / 36524 - doe / 146096) / 365 in
   let doy := doe - (365 * yoe + yoe / 4 - yoe / 100) in
   let mp := (5 * doy + 2) / 153 in
   let month := if bool_decide (mp < 10) then mp + 3 else mp - 9 in
   (yoe + era * 400 + (if bool_decide (month <= 2) then 1 else 0), month, doy - (153 * mp + 2) / 5 + 1))%Z.

Definition toISOString (t : ms) : string :=
  let '(year, month, day) := civil (t / 86400000)%Z in
  let rest := (t mod 86400000)%Z in
  pad 4 year +:+ "-" +:+ pad 2 month +:+ "-" +:+ pad 2 day +:+ "T" +:+
  pad 2 (rest / 3600000)%Z +:+ ":" +:+ pad 2 (rest / 60000 mod 60)%Z +:+ ":" +:+
  pad 2 (rest / 1000 mod 60)%Z +:+ "." +:+ pad 3 (rest mod 1000)%Z +:+ "Z".

Example iso_epoch : toISOString 0 = "1970-01-01T00:00:00.000Z".
Proof. vm_compute. reflexivity. Qed.
Example iso_leap : toISOString 1709210096789 = "2024-02-29T12:34:56.789Z".
Proof. vm_compute. reflexivity. Qed.

(** [err.message]. *)
Definition exn_message (e : exn) : string :=
  match e with
  | InvalidTransitionError machine from to => "Invalid " +:+ machine +:+ " transition: " +:+ from +:+ " -> " +:+ to
  | AppErr _ _ message _ => message
  | DuplicateKey _ => "E11000 duplicate key error"
  | TypeErr => "TypeError"
  | PlainErr message => message
  end.

(** ** The scheduler *)

Section scheduler.
Context {Q : Type} `{!Dispatcher Q} (cfg : EngineConfig).
Context (nextRunAfter : string → ms → string → ms) (batchSize : nat).
Notation app := (prog (AppWorld Q)).

Definition is_due (current : ms) (s : StoredWorkflow) : bool :=
  match sw_schedule s with
  | Some sch => s_enabled sch && bool_decide (s_nextRunAt sch ≤ current)%Z
  | None => false
  end.

(** [.sort({ "schedule.nextRunAt": 1 })]. *)
Definition slot_of (s : StoredWorkflow) : ms :=
  match sw_schedule s with Some sch => s_nextRunAt sch | None => 0%Z end.
Definition slot_le (a b : oid * StoredWorkflow) : Prop := (slot_of a.2 ≤ slot_of b.2)%Z.
#[local] Instance slot_le_dec a b : Decision (slot_le a b).
Proof. unfold slot_le. apply _. Defined.

Definition find_due (current : ms) (ws : gmap oid StoredWorkflow) : list (oid * StoredWorkflow) :=
  limit_to batchSize (merge_sort slot_le (find (is_due current) ws)).

(** [`schedule:${workflow._id}:${slot.toISOString()}`]. *)
Definition slot_key (i : oid) (slot : ms) : string :=
  "schedule:" +:+ oid_str i +:+ ":" +:+ toISOString slot.

Definition slot_params (i : oid) (s : StoredWorkflow) (sch : Schedule) : StartParams :=
  mkStartParams (match s_input sch with JNull => JObj [] | j => j end) (Some (sw_ownerId s))
    TRIGGER_schedule (Some (slot_key i (s_nextRunAt sch))) None.

Definition already_started (e : exn) : bool :=
  match e with DuplicateKey ks => bool_decide ("idempotencyKey" ∈ ks) | _ => false end.

(** [updateOne({ _id, "schedule.nextRunAt": slot }, { $set: ... })]. *)
Definition advance (i : oid) (slot next current : ms) (lastError : option string)
    (ws : gmap oid StoredWorkflow) : gmap oid StoredWorkflow :=
  (updateOne i
    (λ s, match sw_schedule s with Some sch => bool_decide (s_nextRunAt sch = slot) | None => false end)
    (λ s, match sw_schedule s with
          | Some sch => with_schedule (Some (mkSchedule (s_cron sch) (s_timezone sch) (s_enabled sch)
                          (s_input sch) next (Some current) lastError)) s
          | None => s
          end) ws).2.

(** One due workflow: 1 when a run was started. *)
Definition run_slot (current : ms) (i : oid) (s : StoredWorkflow) (sch : Schedule) : app nat :=
  started ← try_ (engine_call (startExecution cfg (workflow_doc i s) (slot_params i s sch)));
  let slot := s_nextRunAt sch in
  let lastError := match started with
                   | Ok _ => None
                   | Exn e => if already_started e then None else Some (exn_message e)
                   end in
  let next := nextRunAfter (s_cron sch) (Z.max slot current) (s_timezone sch) in
  _ ← Atom (λ w, (tt, set_workflows (advance i slot next current lastError (aw_workflows w)) w)) Ret;
  Ret (match started with Ok _ => 1 | Exn _ => 0 end).

Definition runDue : app nat :=
  current ← read (λ w, w_clock (aw_world w));
  due ← read (λ w, find_due current (aw_workflows w));
  for_fold due 0 (λ n '(i, s),
    match sw_schedule s with
    | Some sch => k ← run_slot current i s sch; Ret (n + k)
    | None => Ret n
    end).

(** ** The tick, with the leader election *)

Record SchedulerWorld := mkSchedulerWorld { scw_app : AppWorld Q; scw_lock : LockStore }.

Definition scheduler_tick (ttl : Z) (held : option (nat * Z))
    : prog SchedulerWorld (option (nat * Z) * nat) :=
  held ← zoom scw_lock (λ l w, mkSchedulerWorld (scw_app w) l) (lead ttl held);
  match held with
  | None => Ret (None, 0)
  | Some h =>
      n ← catch (zoom scw_app (λ a w, mkSchedulerWorld a (scw_lock w)) runDue) (λ _, Ret 0);
      Ret (Some h, n)
  end.

(** ** Facts *)

Lemma run_slot_eq current i s sch (w : AppWorld Q) :
  let '(r, v) := run (startExecution cfg (workflow_doc i s) (slot_params i s sch)) (aw_world w) in
  let next := nextRunAfter (s_cron sch) (Z.max (s_nextRunAt sch) current) (s_timezone sch) in
  let err := match r with Ok _ => None | Exn e => if already_started e then None else Some (exn_message e) end in
  run (run_slot current i s sch) w =
    (Ok (match r with Ok _ => 1 | Exn _ => 0 end),
     mkAppWorld v (advance i (s_nextRunAt sch) next current err (aw_workflows w))).
Proof.
  unfold run_slot. rewrite run_bind, run_try, run_engine_call.
  by destruct (run (startExecution _ _ _) (aw_world w)) as [r v].
Qed.

Lemma advance_lookup i slot next current err ws s sch :
  ws !! i = Some s → sw_schedule s = Some sch → s_nextRunAt sch = slot →
  advance i slot next current err ws !! i =
    Some (with_schedule (Some (mkSchedule (s_cron sch) (s_timezone sch) (s_enabled sch)
            (s_input sch) next (Some current) err)) s).
Proof.
  intros Hi Hs Hslot. unfold advance. rewrite (updateOne_hit _ _ _ _ s Hi).
  - cbn [snd]. by rewrite lookup_insert_eq, Hs.
  - rewrite Hs. by apply bool_decide_eq_true.
Qed.

Lemma run_startExecution_new wf p (v : World Q) r children :
  validateDag (dag_task <$> wf_tasks wf) = Some (Ok r) → valid r = true →
  dependents_of (wf_tasks wf) = Ok children →
  idempotency_clash p (w_db v) = false → forallb definition_ok (wf_tasks wf) = true →
  let e := fresh (dom (executions (w_db v))) in
  ∃ v', run (startExecution cfg wf p) v = (Ok e, v') ∧
    executions (w_db v') = <[e := new_execution wf p (w_clock v)]> (executions (w_db v)).
Proof.
  intros Hv Hok Hch Hc Hd e. unfold startExecution. rewrite Hv, Hok. cbn [negb]. rewrite Hch.
  destruct (start_tx_applies cfg (readings v) wf p children (w_db v) Hc Hd) as (db' & Htx & [Hxs _ _ _]).
  destruct (run_dispatchReady e (set_db v db')) as (w' & Hrun & Hw').
  exists w'. split.
  - change (run (e ← transaction (start_tx cfg wf p children); _ ← dispatchReady e; Ret e) v = (Ok e, w')).
    unfold transaction. rewrite (run_db_bind _ _ v _ _ Htx). rewrite run_bind. fold e. by rewrite Hrun.
  - destruct (bool_decide _) in Hw'; [destruct Hw' as [-> _]|rewrite Hw']; exact Hxs.
Qed.

(** ** Properties *)

End scheduler.

(** ** Witness *)

Import Demo.

Definition nightly : Schedule := mkSchedule "0 2 * * *" "UTC" true JNull 0 None None.
Definition scheduled : StoredWorkflow := mkStoredWorkflow 1 "diamond" "" (wf_tasks diamond) 1 (Some nightly).
Definition scheduled_app : AppWorld unit := mkAppWorld w0 {[7 := scheduled]}.

(** The clock of the scheduler, once a day. *)
Definition tomorrow (cron : string) (after : ms) (timezone : string) : ms := (after + 86400000)%Z.

