(* ===== verification/Text.v ===== *)
(** * Text

    The string methods of JavaScript that the modelled code uses, on strings of
    ASCII characters, and what is known about replacing a substring. *)

From Stdlib Require Import Ascii.
From S2P Require Import Prelude.

Local Open Scope string_scope.

Definition space : ascii := ascii_of_nat 32.
Definition newline : string := String (ascii_of_nat 10) "".
Definition double_quote : string := String (ascii_of_nat 34) "".

(** ** Characters *)

Definition is_space (c : ascii) : bool :=
  let n := nat_of_ascii c in ((n =? 32) || ((9 <=? n) && (n <=? 13)))%nat.

Definition is_upper (c : ascii) : bool := ((65 <=? nat_of_ascii c) && (nat_of_ascii c <=? 90))%nat.
Definition is_lower (c : ascii) : bool := ((97 <=? nat_of_ascii c) && (nat_of_ascii c <=? 122))%nat.
Definition is_digit (c : ascii) : bool := ((48 <=? nat_of_ascii c) && (nat_of_ascii c <=? 57))%nat.

Definition lower_char (c : ascii) : ascii :=
  if is_upper c then ascii_of_nat (nat_of_ascii c + 32) else c.

(** ** [toLowerCase], [trim], [split] *)

Definition on_chars (f : list ascii → list ascii) (s : string) : string :=
  String.string_of_list_ascii (f (String.list_ascii_of_string s)).

Definition toLowerCase : string → string := on_chars (map lower_char).

Fixpoint drop_spaces (l : list ascii) : list ascii :=
  match l with c :: l' => if is_space c then drop_spaces l' else l | [] => [] end.

Definition trimStart : string → string := on_chars drop_spaces.
Definition trim : string → string := on_chars (λ l, reverse (drop_spaces (reverse (drop_spaces l)))).

Fixpoint split_at (sep : ascii) (l : list ascii) (word : list ascii) : list (list ascii) :=
  match l with
  | [] => [reverse word]
  | c :: l' => if bool_decide (c = sep) then reverse word :: split_at sep l' [] else split_at sep l' (c :: word)
  end.

(** [s.split(" ")]. *)
Definition split (s : string) : list string :=
  String.string_of_list_ascii <$> split_at space (String.list_ascii_of_string s) [].

(** [s.split(/\s+/).length]: the number of runs of blanks, plus one. *)
Fixpoint count_runs (inside : bool) (l : list ascii) : nat :=
  match l with
  | [] => 0
  | c :: l' => if is_space c then (if inside then count_runs true l' else S (count_runs true l'))
               else count_runs false l'
  end.
Definition count_words (s : string) : nat := S (count_runs false (String.list_ascii_of_string s)).

Lemma split_at_word sep l word : sep ∉ l → split_at sep l word = [(reverse word ++ l)%list].
Proof.
  revert word. induction l as [|c l IH]; intros word Hn; simpl; [by rewrite app_nil_r|].
  apply not_elem_of_cons in Hn as [Hc Hn]. rewrite bool_decide_eq_false_2 by done.
  rewrite IH by done. by rewrite reverse_cons, <- app_assoc.
Qed.

(** ** [indexOf], [str_lastIndexOf], [includes], [slice] *)

Definition str_indexOf (pat s : string) : option nat := String.index 0 pat s.
Definition includes (pat s : string) : bool := match str_indexOf pat s with Some _ => true | None => false end.

(** The last position of a character. *)
Fixpoint last_from (i : nat) (c : ascii) (s : string) (found : option nat) : option nat :=
  match s with
  | "" => found
  | String d s' => last_from (S i) c s' (if bool_decide (c = d) then Some i else found)
  end.
Definition str_lastIndexOf (c : ascii) (s : string) : option nat := last_from 0 c s None.

(** [s.slice(from, to)] with [from <= to], and [s.slice(0, n)]. *)
Definition str_slice (from to : nat) (s : string) : string := String.substring from (to - from) s.
Definition str_slice_from (from : nat) (s : string) : string := String.substring from (String.length s - from) s.
Definition truncate (n : nat) (s : string) : string := String.substring 0 n s.

(** ** [replaceAll] *)

(** Replacement of the occurrences found from left to right; [skip] characters
    belong to the occurrence that was just replaced. *)
Fixpoint replace_from (pat rep : string) (skip : nat) (s : string) : string :=
  match s with
  | "" => ""
  | String c s' =>
      match skip with
      | S k => replace_from pat rep k s'
      | O => if String.prefix pat s then rep +:+ replace_from pat rep (String.length pat - 1) s'
             else String c (replace_from pat rep 0 s')
      end
  end.

Definition replaceAll (pat rep s : string) : string := replace_from pat rep 0 s.

(** An occurrence of [pat] in [s]. *)
Definition occurs (pat s : string) : Prop := ∃ a b, s = a +:+ pat +:+ b.


(** ** Facts about occurrences *)

#[local] Arguments String.append !_ _ /.

Fixpoint has_char (c : ascii) (s : string) : bool :=
  match s with "" => false | String d s' => bool_decide (c = d) || has_char c s' end.

Lemma has_char_app c s t : has_char c (s +:+ t) = has_char c s || has_char c t.
Proof. induction s as [|d s IH]; [done|]. simpl. by rewrite IH, orb_assoc. Qed.

Lemma prefix_spec p s : String.prefix p s = true ↔ ∃ r, s = p +:+ r.
Proof.
  revert s. induction p as [|c p IH]; intros s; simpl.
  - split; [by exists s|by destruct s].
  - destruct s as [|d s]; [split; [done|by intros [??]]|]. simpl. destruct (ascii_dec c d) as [<-|Hne].
    + rewrite IH. split; intros [r Hr]; exists r; [by rewrite Hr|by injection Hr].
    + split; [done|]. intros [r Hr]. simpl in Hr. congruence.
Qed.

Lemma app_string_assoc (a b c : string) : (a +:+ b) +:+ c = a +:+ (b +:+ c).
Proof. induction a as [|x a IH]; [done|]. simpl. by rewrite IH. Qed.

(** An occurrence of a word without the character [c] does not cross a [c]. *)
Lemma prefix_before_char c p b s t :
  has_char c p = false → p +:+ b = s +:+ String c t → ∃ r, s = p +:+ r.
Proof.
  revert s. induction p as [|d p IH]; intros s Hp He; simpl in *; [by exists s|].
  apply orb_false_iff in Hp as [Hc Hp]. apply bool_decide_eq_false in Hc.
  destruct s as [|e s]; simpl in He; [congruence|]. injection He as <- He.
  destruct (IH s Hp He) as [r ->]. by exists r.
Qed.

Lemma occurs_after_char c pat s t a b :
  pat ≠ "" → has_char c pat = false → ¬ occurs pat s →
  s +:+ String c t = a +:+ pat +:+ b → ∃ a', t = a' +:+ pat +:+ b.
Proof.
  intros Hne Hc. revert a. induction s as [|d s IH]; intros a Hfree He.
  - destruct a as [|e a]; simpl in He; [|injection He as _ ->; by exists a].
    destruct pat as [|d pat]; [done|]. simpl in *. injection He as -> _.
    by rewrite bool_decide_eq_true_2 in Hc.
  - destruct a as [|e a].
    + change ("" +:+ pat +:+ b) with (pat +:+ b) in He. symmetry in He.
      apply prefix_before_char in He as [r Hr]; [|done]. destruct Hfree. exists "", r. done.
    + simpl in He. injection He as <- He. apply (IH a); [|done].
      intros (a' & b' & ->). apply Hfree. by exists (String d a'), b'.
Qed.

Section replacing.
(** A word that starts with [c], and a replacement that starts with [c] and has
    no other. *)
Context (c : ascii) (pat rep : string).
Context (Hpat : has_char c pat = false) (Hrep : has_char c rep = false).
Context (Hdiff : ∀ r r', pat +:+ r ≠ rep +:+ r').

Lemma replaced_prefix p s :
  has_char c p = false → String.prefix p (replaceAll (String c pat) (String c rep) s) = true →
  String.prefix p s = true.
Proof.
  revert s. induction p as [|d p IH]; intros s Hp Hpre; [by destruct s|].
  simpl in Hp. apply orb_false_iff in Hp as [Hc Hp]. apply bool_decide_eq_false in Hc.
  unfold replaceAll in Hpre. destruct s as [|e s]; [done|].
  cbn [replace_from] in Hpre. destruct (String.prefix (String c pat) (String e s)).
  - simpl in Hpre. by destruct (ascii_dec d c).
  - simpl in *. destruct (ascii_dec d e); [|done]. by apply IH.
Qed.

Lemma replaceAll_free s : ¬ occurs (String c pat) (replaceAll (String c pat) (String c rep) s).
Proof.
  unfold replaceAll. cut (∀ skip, ¬ occurs (String c pat) (replace_from (String c pat) (String c rep) skip s)); [done|].
  induction s as [|e s IH]; intros skip (a & b & He).
  { by destruct skip, a. }
  destruct skip as [|k]; [|apply (IH k); by exists a, b].
  cbn [replace_from] in He. destruct (String.prefix (String c pat) (String e s)) eqn:Hp.
  - set (k := String.length (String c pat) - 1) in *.
    destruct a as [|d a]; simpl in He.
    { injection He as He. by destruct (Hdiff b (replace_from (String c pat) (String c rep) k s)). }
    injection He as _ He. pose proof (IH k) as Hfree. revert Hfree He.
    generalize (replace_from (String c pat) (String c rep) k s) as out. intros out Hfree He.
    clear Hdiff Hp. revert a He. induction rep as [|x r IHr] in Hrep |- *; intros a He.
    + apply Hfree. by exists a, b.
    + simpl in Hrep. apply orb_false_iff in Hrep as [Hx Hr]. apply bool_decide_eq_false in Hx.
      destruct a as [|y a]; simpl in He; injection He as Hxy He; [by destruct Hx|]. by apply (IHr Hr a).
  - destruct a as [|d a]; simpl in He; injection He as He1 He2.
    + subst e. simpl in Hp. destruct (ascii_dec c c); [|done].
      rewrite (replaced_prefix pat s) in Hp; [done..|]. apply prefix_spec. by exists b.
    + apply (IH 0). by exists a, b.
Qed.
End replacing.

Lemma truncate_length n s : (String.length (truncate n s) ≤ n)%nat.
Proof.
  unfold truncate. revert s. induction n as [|n IH]; intros s; destruct s as [|c s]; simpl; [lia..|].
  specialize (IH s). lia.
Qed.
