(* ===== verification/Accounts.v ===== *)
(** * Accounts: tokens, sign-in and roles ([src/auth/tokens.js],
    [src/auth/password.js], [src/middleware/authenticate.js],
    [src/services/auth.service.js], [src/models/user.model.js],
    [scripts/create-admin.js])

    The libraries [jsonwebtoken] and [bcryptjs] are interfaces with the laws the
    service relies on.  The operations are programs on the collection of users,
    so that they interleave with those of other requests. *)

From stdpp Require Import countable.
From S2P Require Import Prelude Text Program Models Access.

Local Open Scope string_scope.

(** ** The libraries *)

(** What the service writes into a token and reads from it. *)
Record Claims := mkClaims {
  cl_sub : string;
  cl_role : option string;
  cl_tv : option Z;
  cl_type : string
}.

Inductive jwt_result : Type :=
| Verified (claims : Claims)
| TokenExpiredError
| JsonWebTokenError.

(** [jwt.sign(payload, secret, { algorithm, issuer, expiresIn })] and
    [jwt.verify(token, secret, { algorithms, issuer })], at a given time. *)
Class Jwt := {
  jwt_sign : Claims → string → string → string → string → ms → string;
  jwt_verify : string → string → list string → string → ms → jwt_result
}.

(** A signed token is a single word; it verifies with its secret, algorithm and
    issuer until it expires, and never with another secret. *)
Class JwtLaws `{!Jwt} := {
  jwt_ttl : string → ms;
  jwt_sign_word p secret alg iss ttl t :
    jwt_sign p secret alg iss ttl t ≠ "" ∧
    space ∉ String.list_ascii_of_string (jwt_sign p secret alg iss ttl t);
  jwt_verify_signed p secret alg algs iss ttl t0 t :
    alg ∈ algs → (t < t0 + jwt_ttl ttl)%Z →
    jwt_verify (jwt_sign p secret alg iss ttl t0) secret algs iss t = Verified p;
  jwt_verify_expired p secret alg algs iss ttl t0 t :
    alg ∈ algs → (t0 + jwt_ttl ttl ≤ t)%Z →
    jwt_verify (jwt_sign p secret alg iss ttl t0) secret algs iss t = TokenExpiredError;
  jwt_verify_other_secret p secret secret' alg algs iss ttl t0 t :
    secret ≠ secret' →
    jwt_verify (jwt_sign p secret alg iss ttl t0) secret' algs iss t = JsonWebTokenError
}.

(** [bcrypt.hash(plain, cost)], with the salt it draws, and [bcrypt.compare]. *)
Class Bcrypt := {
  bcrypt_hash : string → Z → nat → string;
  bcrypt_compare : string → string → bool
}.

Class BcryptLaws `{!Bcrypt} := {
  bcrypt_hash_nonempty p cost salt : bcrypt_hash p cost salt ≠ "";
  bcrypt_compare_hash p cost salt : bcrypt_compare p (bcrypt_hash p cost salt) = true
}.

(** ** Users *)

Record UserDoc := mkUserDoc {
  us_email : string;
  us_passwordHash : string;
  us_role : string;
  tokenVersion : Z
}.

(** The world of the account operations.  [ac_compares] counts the bcrypt
    comparisons, which is what an observer can time. *)
Record AccountWorld := mkAccountWorld {
  ac_users : gmap oid UserDoc;
  ac_clock : ms;
  ac_salts : nat;
  ac_compares : nat
}.

Definition with_users (us : gmap oid UserDoc) (w : AccountWorld) : AccountWorld :=
  mkAccountWorld us (ac_clock w) (ac_salts w) (ac_compares w).

(** [lowercase: true, trim: true], applied to stored and to queried values. *)
Definition cast_email (s : string) : string := toLowerCase (trim s).

Definition has_email (email : string) (u : UserDoc) : bool := bool_decide (us_email u = cast_email email).

Definition ROLES : list string := [ADMIN; OPERATOR; VIEWER].

Notation accounts := (prog AccountWorld).

Definition users_read {A} (f : gmap oid UserDoc → A) : accounts A := Atom (λ w, (f (ac_users w), w)) Ret.

Definition User_findByEmail (email : string) : accounts (option (oid * UserDoc)) :=
  users_read (λ us, head (find (has_email email) us)).

Definition User_findById (i : oid) : accounts (option UserDoc) := users_read (λ us, us !! i).

(** The user whose id is written in a token. *)
Definition User_findBySub (sub : string) : accounts (option (oid * UserDoc)) :=
  users_read (λ us, head (List.filter (λ '(i, _), bool_decide (oid_str i = sub)) (map_to_list us))).

(** The unique index on [email] decides, not an earlier query. *)
Definition User_create (email passwordHash role : string) : accounts (oid * UserDoc) :=
  let u := mkUserDoc (cast_email email) passwordHash role 0 in
  await (λ w,
    if bool_decide (us_email u = "") || bool_decide (passwordHash = "")
    then (Exn (PlainErr "User validation failed"), w)
    else if bool_decide (find (has_email email) (ac_users w) ≠ [])
    then (Exn (DuplicateKey ["email"]), w)
    else let '(i, us) := insert_new u (ac_users w) in (Ok (i, u), with_users us w)).

(** [$inc: { tokenVersion: 1 }], with a new role or the old one. *)
Definition bump (role : option string) (u : UserDoc) : UserDoc :=
  mkUserDoc (us_email u) (us_passwordHash u) (default (us_role u) role) (tokenVersion u + 1).

Definition User_update (i : oid) (f : UserDoc → UserDoc) : accounts (option UserDoc) :=
  Atom (λ w, match ac_users w !! i with
             | Some u => (Some (f u), with_users (<[i := f u]> (ac_users w)) w)
             | None => (None, w)
             end) Ret.

(** ** Tokens *)

Definition ISSUER : string := "workflow-engine".
Definition ALGORITHM : string := "HS256".

Record TokenConfig := mkTokenConfig {
  accessSecret : string;
  refreshSecret : string;
  accessTtl : string;
  refreshTtl : string
}.

Definition Unauthorized (message code : string) : exn := AppErr 401 code message JNull.

Section accounts.
Context `{!Jwt, !Bcrypt} (tc : TokenConfig) (bcryptCost : Z).
(** The hash unknown addresses are compared with. *)
Context (dummyHash : string).

Definition sign (payload : Claims) (secret expiresIn : string) : accounts string :=
  Atom (λ w, (jwt_sign payload secret ALGORITHM ISSUER expiresIn (ac_clock w), w)) Ret.

(** The check of a token at a given time. *)
Definition verify_at (token secret expectedType : string) (now : ms) : res Claims :=
  match jwt_verify token secret [ALGORITHM] ISSUER now with
  | TokenExpiredError => Exn (Unauthorized "Token has expired" "TOKEN_EXPIRED")
  | JsonWebTokenError => Exn (Unauthorized "Invalid token" "INVALID_TOKEN")
  | Verified claims =>
      if bool_decide (cl_type claims ≠ expectedType)
      then Exn (Unauthorized "Invalid token" "INVALID_TOKEN")
      else Ok claims
  end.

Definition verify (token secret expectedType : string) : accounts Claims :=
  await (λ w, (verify_at token secret expectedType (ac_clock w), w)).

Definition access_claims (i : oid) (u : UserDoc) : Claims :=
  mkClaims (oid_str i) (Some (us_role u)) None "access".
Definition refresh_claims (i : oid) (u : UserDoc) : Claims :=
  mkClaims (oid_str i) None (Some (tokenVersion u)) "refresh".

Definition signAccessToken (i : oid) (u : UserDoc) : accounts string :=
  sign (access_claims i u) (accessSecret tc) (accessTtl tc).
Definition signRefreshToken (i : oid) (u : UserDoc) : accounts string :=
  sign (refresh_claims i u) (refreshSecret tc) (refreshTtl tc).
Definition verifyAccessToken (token : string) : accounts Claims := verify token (accessSecret tc) "access".
Definition verifyRefreshToken (token : string) : accounts Claims := verify token (refreshSecret tc) "refresh".

(** [req.user] of an authenticated request, or the error and the
    [WWW-Authenticate] header of the answer. *)
Record Identity := mkIdentity { id_sub : string; id_role : option string }.

Definition authenticate (header : option string) : accounts (Identity + exn * string) :=
  match split (default "" header) with
  | scheme :: token :: _ =>
      if bool_decide (scheme ≠ "Bearer") || bool_decide (token = "") then
        Ret (inr (Unauthorized "Missing or malformed Authorization header" "UNAUTHENTICATED", "Bearer"))
      else
        catch (claims ← verifyAccessToken token; Ret (inl (mkIdentity (cl_sub claims) (cl_role claims))))
          (λ err, Ret (inr (err, "Bearer error=" +:+ String (Ascii.ascii_of_nat 34) "invalid_token" +:+
                                 String (Ascii.ascii_of_nat 34) "")))
  | _ => Ret (inr (Unauthorized "Missing or malformed Authorization header" "UNAUTHENTICATED", "Bearer"))
  end.

(** ** The service *)

Definition hashPassword (plain : string) : accounts string :=
  Atom (λ w, (bcrypt_hash plain bcryptCost (ac_salts w),
              mkAccountWorld (ac_users w) (ac_clock w) (S (ac_salts w)) (ac_compares w))) Ret.

Definition verifyPassword (plain hash : string) : accounts bool :=
  Atom (λ w, (bcrypt_compare plain hash,
              mkAccountWorld (ac_users w) (ac_clock w) (ac_salts w) (S (ac_compares w)))) Ret.

Record Tokens := mkTokens {
  tokenType : string;
  accessToken : string;
  expiresIn : string;
  refreshToken : string
}.

Definition issueTokens (i : oid) (u : UserDoc) : accounts Tokens :=
  access ← signAccessToken i u;
  refresh ← signRefreshToken i u;
  Ret (mkTokens "Bearer" access (accessTtl tc) refresh).

Definition is_duplicate_key (e : exn) : bool := match e with DuplicateKey _ => true | _ => false end.

Definition register (email password : string) : accounts (oid * UserDoc) :=
  passwordHash ← hashPassword password;
  catch (User_create email passwordHash VIEWER)
    (λ err, if is_duplicate_key err
            then Throw (ConflictError "An account with this email already exists" "EMAIL_TAKEN" JNull)
            else Throw err).

Definition invalid_credentials : exn := Unauthorized "Invalid email or password" "INVALID_CREDENTIALS".

Definition login (email password : string) : accounts (oid * Tokens) :=
  user ← User_findByEmail email;
  ok ← verifyPassword password (match user with Some (_, u) => us_passwordHash u | None => dummyHash end);
  match user with
  | Some (i, u) => if negb ok then Throw invalid_credentials else ts ← issueTokens i u; Ret (i, ts)
  | None => Throw invalid_credentials
  end.

Definition token_revoked : exn := Unauthorized "Refresh token has been revoked" "TOKEN_REVOKED".

Definition refresh (token : string) : accounts Tokens :=
  claims ← verifyRefreshToken token;
  user ← User_findBySub (cl_sub claims);
  match user with
  | Some (i, u) =>
      if bool_decide (Some (tokenVersion u) ≠ cl_tv claims) then Throw token_revoked else issueTokens i u
  | None => Throw token_revoked
  end.

Definition logoutAll (userId : oid) : accounts unit := _ ← User_update userId (bump None); Ret tt.

Definition getUser (userId : oid) : accounts UserDoc :=
  user ← User_findById userId;
  match user with Some u => Ret u | None => Throw (NotFoundError "User not found") end.

(** [actorId] comes from the access token.  The validators run before the
    update. *)
Definition changeRole (actorId : string) (targetId : oid) (role : string) : accounts UserDoc :=
  if bool_decide (actorId = oid_str targetId) then
    Throw (AppErr 403 "SELF_ROLE_CHANGE" "You cannot change your own role" JNull)
  else if negb (bool_decide (role ∈ ROLES)) then Throw (PlainErr "Validation failed")
  else
    user ← User_update targetId (bump (Some role));
    match user with Some u => Ret u | None => Throw (NotFoundError "User not found") end.

(** ** [scripts/create-admin.js], after the validation of its environment *)
Definition create_admin (email password : string) : accounts unit :=
  existing ← User_findByEmail email;
  match existing with
  | Some (i, _) => _ ← User_update i (bump (Some ADMIN)); Ret tt
  | None =>
      passwordHash ← hashPassword password;
      _ ← User_create email passwordHash ADMIN;
      Ret tt
  end.

(** Everything that touches the users, with any arguments. *)
Inductive account_api : accounts unit → Prop :=
| aa_register email password : account_api (_ ← register email password; Ret tt)
| aa_login email password : account_api (_ ← login email password; Ret tt)
| aa_refresh token : account_api (_ ← refresh token; Ret tt)
| aa_logout i : account_api (logoutAll i)
| aa_get i : account_api (_ ← getUser i; Ret tt)
| aa_role actor target role : account_api (_ ← changeRole actor target role; Ret tt)
| aa_admin email password : account_api (create_admin email password)
| aa_authenticate header : account_api (_ ← authenticate header; Ret tt).
End accounts.

(** Time passes, and processes have different clocks. *)
Definition account_env (w w' : AccountWorld) : Prop := ac_users w' = ac_users w.

Definition no_accounts : AccountWorld := mkAccountWorld ∅ 0 0 0.
