(* ===== verification/AccountsProps.v ===== *)
(** * What tokens and accounts guarantee

    Revocation, the round trip from registration to an authenticated request,
    the separation of the two kinds of token, and sign-in without user
    enumeration. *)

From stdpp Require Import countable.
From S2P Require Import Prelude Text Program Models Access Accounts.

Local Open Scope string_scope.

(** ** The collection of users over time *)

(** What one step may do to the users: it keeps their addresses and passwords,
    and a change of role comes with a new token version. *)
Definition user_later (u u' : UserDoc) : Prop :=
  us_email u' = us_email u ∧ us_passwordHash u' = us_passwordHash u ∧
  (tokenVersion u ≤ tokenVersion u')%Z ∧
  (us_role u' ≠ us_role u → (tokenVersion u < tokenVersion u')%Z).

Definition users_later (w w' : AccountWorld) : Prop :=
  ∀ i u, ac_users w !! i = Some u → ∃ u', ac_users w' !! i = Some u' ∧ user_later u u'.

(** One account per address. *)
Definition users_ok (w : AccountWorld) : Prop :=
  ∀ i j u v, ac_users w !! i = Some u → ac_users w !! j = Some v → us_email u = us_email v → i = j.

#[export] Instance user_later_preorder : PreOrder user_later.
Proof.
  split.
  - intros u. unfold user_later. split_and!; [done..|lia|congruence].
  - intros u1 u2 u3 (? & ? & ? & Hr) (? & ? & ? & Hr'). unfold user_later. split_and!; [congruence..|lia|].
    intros Hne. destruct (decide (us_role u2 = us_role u1)) as [He|He].
    + rewrite <- He in Hne. specialize (Hr' Hne). lia.
    + specialize (Hr He). lia.
Qed.

#[export] Instance users_later_preorder : PreOrder users_later.
Proof.
  split; [by intros w i u Hu; eexists|].
  intros w1 w2 w3 H12 H23 i u Hu. destruct (H12 i u Hu) as (u2 & H2 & ?).
  destruct (H23 i u2 H2) as (u3 & ? & ?). exists u3. split; [done|by etrans].
Qed.

Lemma users_later_same w w' : ac_users w' = ac_users w → users_later w w'.
Proof. intros He i u Hu. exists u. by rewrite He. Qed.

Lemma bump_later role u : user_later u (bump role u).
Proof. unfold user_later, bump. split_and!; [done..|simpl; lia|simpl; lia]. Qed.

Section steps.
Context `{!Jwt, !Bcrypt} (tc : TokenConfig) (cost : Z) (dummyHash : string).
Notation ok := (steps_ok users_ok users_later).

Lemma ok_read {A B} (f : AccountWorld → A) (g : AccountWorld → AccountWorld) (k : A → accounts B) :
  (∀ w, ac_users (g w) = ac_users w) → (∀ a, ok (k a)) → ok (Atom (λ w, (f w, g w)) k).
Proof.
  intros Hg Hk w Hw. simpl. split_and!; [|by apply users_later_same|apply Hk].
  unfold users_ok. by rewrite Hg.
Qed.

Lemma ok_update i role : ok (User_update i (bump role)).
Proof.
  intros w Hw. unfold User_update. simpl. destruct (ac_users w !! i) as [u|] eqn:Hu; simpl; [|by split_and!].
  split_and!; [| |done].
  - intros j1 j2 v1 v2 H1 H2. simpl in H1, H2. rewrite lookup_insert_Some in H1, H2.
    destruct H1 as [[<- <-]|[? H1]], H2 as [[<- <-]|[? H2]]; simpl; intros He; [done|..];
      by eapply Hw; try eassumption.
  - intros j v Hv. simpl. destruct (decide (i = j)) as [<-|Hne].
    + rewrite lookup_insert_eq. eexists. split; [done|]. simplify_eq. apply bump_later.
    + rewrite lookup_insert_ne by done. by exists v.
Qed.

Lemma ok_create email hash role : ok (User_create email hash role).
Proof.
  apply steps_ok_await. intros w Hw. destruct (_ || _); [done|]. case_bool_decide as Hf; [done|].
  destruct (insert_new (mkUserDoc (cast_email email) hash role 0) (ac_users w)) as [i us] eqn:Hi. simpl.
  unfold insert_new in Hi. injection Hi as <- <-.
  assert (Hfresh : ac_users w !! fresh (dom (ac_users w)) = None) by apply not_elem_of_dom, is_fresh.
  set (i := fresh (dom (ac_users w))) in *.
  assert (Hnew : ∀ j v, ac_users w !! j = Some v → us_email v ≠ cast_email email).
  { intros j v Hv He. assert (Hin : (j, v) ∈ find (has_email email) (ac_users w)).
    { apply elem_of_find. split; [done|]. by apply bool_decide_eq_true_2. }
    rewrite Hf in Hin. by apply not_elem_of_nil in Hin. }
  split.
  - intros j1 j2 v1 v2 H1 H2. simpl in H1, H2. rewrite lookup_insert_Some in H1, H2.
    destruct H1 as [[<- <-]|[? H1]], H2 as [[<- <-]|[? H2]]; simpl; intros He; [done|..].
    + by destruct (Hnew _ _ H2).
    + by destruct (Hnew _ _ H1).
    + by eapply Hw.
  - intros j v Hv. exists v. simpl. rewrite lookup_insert_ne by congruence. done.
Qed.

Hint Resolve ok_update ok_create : wf.

Ltac acc_step :=
  match goal with
  | |- ok (_ ≫= _) => apply steps_ok_bind; [|intros]
  | |- ok (catch _ _) => apply steps_ok_catch; [|intros]
  | |- ok (await (λ w, (_, w))) => apply steps_ok_await; intros; split; [done|by apply users_later_same]
  | |- ok (Atom (λ w, (_, _)) _) => apply ok_read; [done|intros]
  | |- ok (match ?x with _ => _ end) => destruct x
  | |- ok (let '(_, _) := ?x in _) => destruct x
  end.
Ltac acc_steps := repeat (acc_step || solve [eauto with wf] || exact Logic.I).

Lemma account_api_ok p : account_api tc cost dummyHash p → ok p.
Proof.
  destruct 1; unfold register, login, refresh, logoutAll, getUser, changeRole, create_admin, authenticate,
    issueTokens, verifyAccessToken, verifyRefreshToken, verify, signAccessToken, signRefreshToken, sign,
    hashPassword, verifyPassword, User_findByEmail, User_findById, User_findBySub, users_read; acc_steps.
Qed.

Notation reach := (reachable (account_api tc cost dummyHash) account_env no_accounts).
Notation hist := (history (account_api tc cost dummyHash) account_env no_accounts).

Lemma account_env_ok w w' : account_env w w' → users_ok w → users_ok w' ∧ users_later w w'.
Proof.
  intros He Hw. split; [|by apply users_later_same]. unfold users_ok. by rewrite He.
Qed.

Lemma no_accounts_ok : users_ok no_accounts.
Proof. intros i j u v Hu. simpl in Hu. by rewrite lookup_empty in Hu. Qed.

Lemma reachable_users_ok w : reach w → users_ok w.
Proof.
  apply (reachable_inv _ _ users_ok users_later account_api_ok account_env_ok).
  apply no_accounts_ok.
Qed.

Lemma history_users_later w w' : hist w w' → users_later w w'.
Proof.
  intros Hh. apply (history_guarantee _ _ users_ok users_later account_api_ok account_env_ok) in Hh.
  - by induction Hh as [|? ? ? ? _ ?]; [|etrans].
  - apply no_accounts_ok.
Qed.
End steps.

(** ** Looking users up *)

Lemma find_by_sub (us : gmap oid UserDoc) i u :
  us !! i = Some u →
  head (List.filter (λ '(i', _), bool_decide (oid_str i' = oid_str i)) (map_to_list us)) = Some (i, u).
Proof.
  intros Hu.
  assert (Hin : (i, u) ∈ List.filter (λ '(i', _), bool_decide (oid_str i' = oid_str i)) (map_to_list us)).
  { apply list_elem_of_In, filter_In. split; [by apply list_elem_of_In, elem_of_map_to_list|].
    by apply bool_decide_eq_true_2. }
  destruct (List.filter _ _) as [|[j v] l] eqn:Hf; [by apply not_elem_of_nil in Hin|]. simpl.
  assert (In (j, v) ((j, v) :: l)) as Hj by by left. rewrite <- Hf in Hj. apply filter_In in Hj as [Hj He].
  apply bool_decide_eq_true, (inj _) in He as ->. apply list_elem_of_In, elem_of_map_to_list in Hj. congruence.
Qed.

Lemma find_by_email w email i u :
  users_ok w → ac_users w !! i = Some u → us_email u = cast_email email →
  head (find (has_email email) (ac_users w)) = Some (i, u).
Proof.
  intros Hok Hu He. assert (Hin : (i, u) ∈ find (has_email email) (ac_users w)).
  { apply elem_of_find. split; [done|]. by apply bool_decide_eq_true_2. }
  destruct (find _ _) as [|[j v] l] eqn:Hf; [by apply not_elem_of_nil in Hin|]. simpl.
  assert ((j, v) ∈ (j, v) :: l) as Hj by left. rewrite <- Hf in Hj. apply elem_of_find in Hj as [Hj Hv].
  apply bool_decide_eq_true in Hv. assert (j = i) as -> by (apply (Hok j i v u Hj Hu); congruence). congruence.
Qed.

(** ** Single operations *)

Lemma split_bearer token :
  space ∉ String.list_ascii_of_string token → split ("Bearer " +:+ token) = ["Bearer"; token].
Proof.
  intros Hn. unfold split. simpl. rewrite split_at_word by done. simpl.
  by rewrite String.string_of_list_ascii_of_string.
Qed.

Section operations.
Context `{!Jwt, !JwtLaws, !Bcrypt, !BcryptLaws} (tc : TokenConfig) (cost : Z) (dummyHash : string).

Lemma run_verify token secret type w :
  run (verify token secret type) w = (verify_at token secret type (ac_clock w), w).
Proof. unfold verify. by rewrite run_await. Qed.

Lemma verify_at_signed p secret ttl t0 t type :
  cl_type p = type → (t < t0 + jwt_ttl ttl)%Z →
  verify_at (jwt_sign p secret ALGORITHM ISSUER ttl t0) secret type t = Ok p.
Proof.
  intros <- Ht. unfold verify_at. rewrite jwt_verify_signed by (done || left).
  by rewrite bool_decide_eq_false_2 by (intros []; done).
Qed.

(** Whatever the time, a token of the wrong kind or of another secret is
    refused, and a good one is refused only when it has expired. *)
Lemma verify_at_cases p secret secret' ttl t0 t type :
  match verify_at (jwt_sign p secret ALGORITHM ISSUER ttl t0) secret' type t with
  | Ok c => c = p ∧ cl_type p = type ∧ secret' = secret
  | Exn e => e = Unauthorized "Token has expired" "TOKEN_EXPIRED" ∧ (t0 + jwt_ttl ttl ≤ t)%Z ∨
             e = Unauthorized "Invalid token" "INVALID_TOKEN" ∧ (cl_type p ≠ type ∨ secret' ≠ secret)
  end.
Proof.
  unfold verify_at. destruct (decide (secret = secret')) as [<-|Hs].
  - destruct (decide (t < t0 + jwt_ttl ttl)%Z).
    + rewrite jwt_verify_signed by (done || left). case_bool_decide; [by right; auto|].
      by split_and!.
    + rewrite jwt_verify_expired by (left || lia). left. split; [done|lia].
  - rewrite jwt_verify_other_secret by done. right. split; [done|by right].
Qed.

(** A refresh with a token that was signed for this user. *)
Lemma run_refresh i u u' t0 w :
  ac_users w !! i = Some u' →
  run (refresh tc (jwt_sign (refresh_claims i u) (refreshSecret tc) ALGORITHM ISSUER (refreshTtl tc) t0)) w =
  match verify_at (jwt_sign (refresh_claims i u) (refreshSecret tc) ALGORITHM ISSUER (refreshTtl tc) t0)
          (refreshSecret tc) "refresh" (ac_clock w) with
  | Ok _ => if bool_decide (tokenVersion u' ≠ tokenVersion u) then (Exn token_revoked, w)
            else run (issueTokens tc i u') w
  | Exn e => (Exn e, w)
  end.
Proof.
  intros Hu'. unfold refresh, verifyRefreshToken. rewrite run_bind, run_verify.
  pose proof (verify_at_cases (refresh_claims i u) (refreshSecret tc) (refreshSecret tc) (refreshTtl tc) t0
                (ac_clock w) "refresh") as Hc.
  destruct (verify_at _ _ _ _) as [c|e]; [|done]. destruct Hc as (-> & _). cbn [cl_sub cl_tv refresh_claims].
  rewrite run_bind. unfold User_findBySub, users_read. cbn [run].
  rewrite (find_by_sub _ i u' Hu').
  rewrite (bool_decide_ext (Some (tokenVersion u') ≠ Some (tokenVersion u)) (tokenVersion u' ≠ tokenVersion u))
    by (split; intros Hn He; apply Hn; congruence).
  by case_bool_decide.
Qed.

Lemma run_issueTokens i u w :
  run (issueTokens tc i u) w =
  (Ok (mkTokens "Bearer" (jwt_sign (access_claims i u) (accessSecret tc) ALGORITHM ISSUER (accessTtl tc) (ac_clock w))
         (accessTtl tc)
         (jwt_sign (refresh_claims i u) (refreshSecret tc) ALGORITHM ISSUER (refreshTtl tc) (ac_clock w))), w).
Proof. done. Qed.

Lemma run_authenticate_bearer p secret ttl t0 w :
  run (authenticate tc (Some ("Bearer " +:+ jwt_sign p secret ALGORITHM ISSUER ttl t0))) w =
  (Ok match verify_at (jwt_sign p secret ALGORITHM ISSUER ttl t0) (accessSecret tc) "access" (ac_clock w) with
      | Ok c => inl (mkIdentity (cl_sub c) (cl_role c))
      | Exn e => inr (e, "Bearer error=" +:+ String (Ascii.ascii_of_nat 34) "invalid_token" +:+
                         String (Ascii.ascii_of_nat 34) "")
      end, w).
Proof.
  destruct (jwt_sign_word p secret ALGORITHM ISSUER ttl t0) as [Hne Hw].
  unfold authenticate. cbn [from_option id].
  rewrite (split_bearer _ Hw). rewrite (bool_decide_eq_false_2 ("Bearer" ≠ "Bearer")) by (intros []; done).
  rewrite bool_decide_eq_false_2 by done. cbn [orb]. rewrite run_catch, run_bind.
  unfold verifyAccessToken. rewrite run_verify. by destruct (verify_at _ _ _ _).
Qed.
End operations.

(** ** Properties *)

Section properties.
Context `{!Jwt, !JwtLaws, !Bcrypt, !BcryptLaws} (tc : TokenConfig) (cost : Z) (dummyHash : string).
Notation reach := (reachable (account_api tc cost dummyHash) account_env no_accounts).
Notation hist := (history (account_api tc cost dummyHash) account_env no_accounts).

Definition token_expired : exn := Unauthorized "Token has expired" "TOKEN_EXPIRED".

(** A refresh token that was issued to the user when the document was [u]. *)
Definition refresh_token_of (i : oid) (u : UserDoc) (t0 : ms) : string :=
  jwt_sign (refresh_claims i u) (refreshSecret tc) ALGORITHM ISSUER (refreshTtl tc) t0.

Definition refused (i : oid) (u : UserDoc) (w : AccountWorld) : Prop :=
  ∀ t0, ∃ e, run (refresh tc (refresh_token_of i u t0)) w = (Exn e, w) ∧ (e = token_revoked ∨ e = token_expired).

Lemma newer_version_refused i u u' w :
  ac_users w !! i = Some u' → (tokenVersion u < tokenVersion u')%Z → refused i u w.
Proof.
  intros Hu' Hlt t0. unfold refresh_token_of. rewrite (run_refresh tc i u u' t0 w Hu').
  pose proof (verify_at_cases (refresh_claims i u) (refreshSecret tc) (refreshSecret tc) (refreshTtl tc) t0
                (ac_clock w) "refresh") as Hc.
  destruct (verify_at _ _ _ _) as [c|e].
  - rewrite bool_decide_eq_true_2 by lia. exists token_revoked. auto.
  - exists e. split; [done|]. destruct Hc as [[-> _]|[_ [?|?]]]; [by right|done..].
Qed.

(** C33: revocation.  After a user logs out everywhere, or their role changes,
    every refresh token issued before is refused for good, whatever other
    requests do in between and whoever holds it. *)
Theorem revoked_tokens_refused (w : AccountWorld) (i : oid) (u : UserDoc)
    (Hu : ac_users w !! i = Some u) :
  (∀ w', hist (run (logoutAll i) w).2 w' → refused i u w') ∧
  (∀ actor role w1 w', run (changeRole actor i role) w = (Ok (bump (Some role) u), w1) →
     hist w1 w' → refused i u w') ∧
  (∀ w' u', hist w w' → ac_users w' !! i = Some u' → us_role u' ≠ us_role u → refused i u w').
Proof.
  assert (Hbump : ∀ role w1 w', ac_users w1 !! i = Some (bump role u) → hist w1 w' → refused i u w').
  { intros role w1 w' Hw1 Hh. apply history_users_later in Hh.
    destruct (Hh i _ Hw1) as (u' & Hu' & _ & _ & Hv & _). apply (newer_version_refused i u u' w' Hu').
    unfold bump in Hv. simpl in Hv. lia. }
  split_and!.
  - intros w'. apply (Hbump None). unfold logoutAll. rewrite run_bind. unfold User_update. cbn [run].
    rewrite Hu. simpl. apply lookup_insert_eq.
  - intros actor role w1 w' Hrun. apply (Hbump (Some role)). unfold changeRole in Hrun.
    case_bool_decide; [done|]. destruct (bool_decide (role ∈ ROLES)); [|done]. cbn [negb] in Hrun.
    rewrite run_bind in Hrun. unfold User_update in Hrun. cbn [run] in Hrun. rewrite Hu in Hrun.
    injection Hrun as <-. simpl. apply lookup_insert_eq.
  - intros w' u' Hh Hu' Hr. apply history_users_later in Hh.
    destruct (Hh i u Hu) as (u2 & Hu2 & _ & _ & _ & Hlt). simplify_eq.
    by apply (newer_version_refused i u u' w' Hu'), Hlt.
Qed.

(** C34: the round trip.  Whoever registered signs in with the same address (in
    any case, with any surrounding blanks) and password, at any later time; the
    access token authenticates exactly that user, with the role they had at
    sign-in, until it expires, and the refresh token gives a new pair as long
    as it was not revoked. *)
Theorem registered_user_signs_in (w w1 w' : AccountWorld) (i : oid) (u : UserDoc) (email email' password : string)
    (Hrun : run (register cost email password) w = (Ok (i, u), w1))
    (Hh : hist w1 w') (Hemail : cast_email email' = cast_email email) :
  us_role u = VIEWER ∧ ∃ u' ts w2, ac_users w' !! i = Some u' ∧
    run (login tc dummyHash email' password) w' = (Ok (i, ts), w2) ∧ ac_users w2 = ac_users w' ∧
    (∀ w3, (ac_clock w3 < ac_clock w' + jwt_ttl (accessTtl tc))%Z →
       run (authenticate tc (Some ("Bearer " +:+ accessToken ts))) w3 =
         (Ok (inl (mkIdentity (oid_str i) (Some (us_role u')))), w3)) ∧
    (∀ w3 u3, ac_users w3 !! i = Some u3 → tokenVersion u3 = tokenVersion u' →
       (ac_clock w3 < ac_clock w' + jwt_ttl (refreshTtl tc))%Z →
       ∃ ts', run (refresh tc (refreshToken ts)) w3 = (Ok ts', w3)).
Proof.
  unfold register in Hrun. rewrite run_bind in Hrun. cbn [hashPassword run] in Hrun.
  rewrite run_catch in Hrun. set (wh := mkAccountWorld _ _ _ _) in Hrun.
  unfold User_create in Hrun. rewrite run_await in Hrun.
  destruct (_ || _); [done|]. case_bool_decide; [done|].
  destruct (insert_new _ _) as [i0 us] eqn:Hi. unfold insert_new in Hi. injection Hi as Hi0 Hus.
  injection Hrun as <- <- <-. split; [done|].
  set (u0 := mkUserDoc (cast_email email) (bcrypt_hash password cost (ac_salts w)) VIEWER 0) in *.
  pose proof (history_users_later tc cost dummyHash _ _ Hh i0 u0) as (u' & Hu' & He & Hp & _).
  { simpl. rewrite <- Hus, Hi0. apply lookup_insert_eq. }
  assert (Hok : users_ok w') by (by eapply reachable_users_ok, history_reachable).
  assert (Hf : head (find (has_email email') (ac_users w')) = Some (i0, u')).
  { apply find_by_email; [done..|]. rewrite He. by rewrite Hemail. }
  exists u'. do 2 eexists. split; [done|]. split; [|split; [|split]].
  - unfold login. rewrite run_bind. unfold User_findByEmail, users_read. cbn [run]. rewrite Hf.
    rewrite run_bind. cbn [verifyPassword run]. rewrite Hp. unfold u0. cbn [us_passwordHash].
    rewrite bcrypt_compare_hash. cbn [negb]. rewrite run_bind, run_issueTokens. reflexivity.
  - done.
  - intros w3 Ht. cbn [accessToken]. rewrite run_authenticate_bearer.
    rewrite verify_at_signed by done. done.
  - intros w3 u3 Hu3 Htv Ht. cbn [refreshToken]. rewrite (run_refresh tc i0 u' u3 _ w3 Hu3).
    rewrite verify_at_signed by done. rewrite bool_decide_eq_false_2 by congruence.
    rewrite run_issueTokens. by eexists.
Qed.

(** the two kinds of token never mix: whatever the time, an access token is
    no refresh token and a refresh token no access token, even when both
    secrets are the same. *)
Theorem token_kinds_never_mix (i : oid) (u : UserDoc) (t0 : ms) (w : AccountWorld) :
  (∃ e, run (refresh tc (jwt_sign (access_claims i u) (accessSecret tc) ALGORITHM ISSUER (accessTtl tc) t0)) w
        = (Exn e, w)) ∧
  (∃ e h, run (authenticate tc (Some ("Bearer " +:+ refresh_token_of i u t0))) w = (Ok (inr (e, h)), w)).
Proof.
  split.
  - unfold refresh, verifyRefreshToken. rewrite run_bind, run_verify.
    pose proof (verify_at_cases (access_claims i u) (accessSecret tc) (refreshSecret tc) (accessTtl tc) t0
                  (ac_clock w) "refresh") as Hc.
    destruct (verify_at _ _ _ _) as [c|e]; [by destruct Hc as (_ & ? & _)|by eexists].
  - unfold refresh_token_of. rewrite run_authenticate_bearer.
    pose proof (verify_at_cases (refresh_claims i u) (refreshSecret tc) (accessSecret tc) (refreshTtl tc) t0
                  (ac_clock w) "access") as Hc.
    destruct (verify_at _ _ _ _) as [c|e]; [by destruct Hc as (_ & ? & _)|by do 2 eexists].
Qed.

(** signing in reveals nothing.  It costs exactly one bcrypt comparison and
    fails with the same error whether the address is unknown or the password
    wrong; it succeeds only for the user of that address, whose hash accepts
    the password. *)
Theorem login_reveals_nothing (email password : string) (w : AccountWorld) :
  let '(r, w') := run (login tc dummyHash email password) w in
  ac_compares w' = S (ac_compares w) ∧ ac_users w' = ac_users w ∧
  match r with
  | Ok (i, _) => ∃ u, ac_users w !! i = Some u ∧ us_email u = cast_email email ∧
      bcrypt_compare password (us_passwordHash u) = true
  | Exn e => e = invalid_credentials
  end.
Proof.
  unfold login. rewrite run_bind. unfold User_findByEmail, users_read. cbn [run].
  rewrite run_bind. cbn [verifyPassword run].
  destruct (find (has_email email) (ac_users w)) as [|[i u] l] eqn:Hf; cbn [head]; [done|].
  assert ((i, u) ∈ (i, u) :: l) as Hin by left. rewrite <- Hf in Hin. apply elem_of_find in Hin as [Hu He].
  destruct (bcrypt_compare password (us_passwordHash u)) eqn:Hc; cbn [negb]; [|done].
  rewrite run_bind, run_issueTokens. cbn [run]. split_and!; [done..|]. exists u.
  split_and!; [done| |done]. by apply bool_decide_eq_true in He.
Qed.

(** Nobody can demote themselves, but the last two admins can demote each
    other: the second still holds an access token that says "admin", and
    afterwards the system has no admin. *)
Theorem admins_can_vanish (w : AccountWorld) (a b : oid) (ua ub : UserDoc) (t0 : ms) (Hab : a ≠ b)
    (Ha : ac_users w !! a = Some ua) (Hb : ac_users w !! b = Some ub) (Hrole : us_role ub = ADMIN)
    (Honly : ∀ i u, ac_users w !! i = Some u → us_role u = ADMIN → i = a ∨ i = b)
    (Ht : (ac_clock w < t0 + jwt_ttl (accessTtl tc))%Z) :
  let token := jwt_sign (access_claims b ub) (accessSecret tc) ALGORITHM ISSUER (accessTtl tc) t0 in
  ∃ w1 w2, run (changeRole (oid_str a) b VIEWER) w = (Ok (bump (Some VIEWER) ub), w1) ∧
    run (authenticate tc (Some ("Bearer " +:+ token))) w1 = (Ok (inl (mkIdentity (oid_str b) (Some ADMIN))), w1) ∧
    run (changeRole (oid_str b) a VIEWER) w1 = (Ok (bump (Some VIEWER) ua), w2) ∧
    ∀ i u, ac_users w2 !! i = Some u → us_role u ≠ ADMIN.
Proof.
  assert (Hrun : ∀ i j u w, i ≠ j → ac_users w !! j = Some u → run (changeRole (oid_str i) j VIEWER) w =
     (Ok (bump (Some VIEWER) u), with_users (<[j := bump (Some VIEWER) u]> (ac_users w)) w)).
  { intros i j u v Hne Hu. unfold changeRole. rewrite bool_decide_eq_false_2 by (intros He; by apply (inj _) in He).
    rewrite (bool_decide_eq_true_2 (VIEWER ∈ ROLES)) by (unfold ROLES; set_solver). cbn [negb].
    rewrite run_bind. unfold User_update. cbn [run]. by rewrite Hu. }
  intros token. do 2 eexists. split; [by apply Hrun|]. split; [|split].
  - unfold token. rewrite run_authenticate_bearer, verify_at_signed by done. cbn [cl_sub cl_role access_claims].
    by rewrite Hrole.
  - apply Hrun; [done|]. simpl. by rewrite lookup_insert_ne.
  - intros i u Hu. simpl in Hu. apply lookup_insert_Some in Hu as [[<- <-]|[Hne Hu]]; [done|].
    apply lookup_insert_Some in Hu as [[<- <-]|[Hne' Hu]]; [done|]. intros Hr.
    by destruct (Honly i u Hu Hr).
Qed.
End properties.

(** ** Witnesses: a token spells its contents, a hash is the password behind a mark *)

Module Toy.
Definition letter (n : nat) : Ascii.ascii := Ascii.ascii_of_nat n.

Fixpoint spell (p : positive) : string :=
  match p with
  | xH => String (letter 104) ""
  | xO p => String (letter 111) (spell p)
  | xI p => String (letter 105) (spell p)
  end.

Fixpoint read_back (s : string) : option positive :=
  match s with
  | "" => None
  | String c s' =>
      if bool_decide (c = letter 104) then Some xH
      else if bool_decide (c = letter 111) then xO <$> read_back s'
      else xI <$> read_back s'
  end.

Lemma read_spell p : read_back (spell p) = Some p.
Proof. induction p as [p IH|p IH|]; cbn -[bool_decide]; by rewrite ?IH. Qed.

Lemma spell_word p : spell p ≠ "" ∧ space ∉ String.list_ascii_of_string (spell p).
Proof.
  split; [by destruct p|]. induction p as [p IH|p IH|]; simpl; rewrite not_elem_of_cons;
    (split; [done|]); [done..|apply not_elem_of_nil].
Qed.

(** Claims, secret, algorithm, issuer, time. *)
Abbreviation contents :=
  (string * option string * option Z * string * string * string * string * Z)%type.

Definition pack (p : Claims) (secret alg iss : string) (t : Z) : contents :=
  (cl_sub p, cl_role p, cl_tv p, cl_type p, secret, alg, iss, t).

#[export] Instance jwt : Jwt := {
  jwt_sign p secret alg iss _ t := spell (encode (pack p secret alg iss t));
  jwt_verify token secret algs iss now :=
    match read_back token ≫= @decode contents _ _ with
    | Some (sub, role, tv, type, secret', alg, iss', t) =>
        if bool_decide (secret' = secret) && bool_decide (alg ∈ algs) && bool_decide (iss' = iss) then
          if bool_decide (now < t + 900000)%Z then Verified (mkClaims sub role tv type) else TokenExpiredError
        else JsonWebTokenError
    | None => JsonWebTokenError
    end
}.

Lemma verify_pack p secret alg iss ttl t secret' algs now :
  alg ∈ algs →
  jwt_verify (jwt_sign p secret alg iss ttl t) secret' algs iss now =
  if bool_decide (secret = secret') then
    if bool_decide (now < t + 900000)%Z then Verified p else TokenExpiredError
  else JsonWebTokenError.
Proof.
  intros Ha. cbn [jwt_verify jwt_sign jwt]. rewrite read_spell. cbn [mbind option_bind].
  rewrite decode_encode. cbv beta iota delta [pack].
  rewrite (bool_decide_eq_true_2 (alg ∈ algs)), (bool_decide_eq_true_2 (iss = iss)), !andb_true_r by done.
  by destruct p.
Qed.

#[export, refine] Instance jwt_laws : JwtLaws := { jwt_ttl _ := 900000%Z }.
Proof.
  - intros. apply spell_word.
  - intros p secret alg algs iss ttl t0 t Ha Ht. rewrite verify_pack by done.
    by rewrite !bool_decide_eq_true_2.
  - intros p secret alg algs iss ttl t0 t Ha Ht. rewrite verify_pack by done.
    rewrite bool_decide_eq_true_2, bool_decide_eq_false_2 by (done || lia). done.
  - intros p secret secret' alg algs iss ttl t0 t Hs. cbn [jwt_verify jwt_sign jwt].
    rewrite read_spell. cbn [mbind option_bind]. rewrite decode_encode. cbv beta iota delta [pack].
    by rewrite (bool_decide_eq_false_2 (secret = secret')).
Defined.

#[export] Instance bcrypt : Bcrypt := {
  bcrypt_hash p _ _ := "$" +:+ p;
  bcrypt_compare p h := bool_decide (h = "$" +:+ p)
}.

#[export] Instance bcrypt_laws : BcryptLaws.
Proof. split; [done|]. intros. by apply bool_decide_eq_true_2. Qed.

Definition tc : TokenConfig := mkTokenConfig "access" "refresh" "15m" "7d".
Definition ada : accounts (oid * UserDoc) := register 12 " Ada@Example.com" "correct horse".
Definition w_ada : AccountWorld := (run ada no_accounts).2.
Definition u_ada : UserDoc := mkUserDoc "ada@example.com" "$correct horse" VIEWER 0.

Lemma hist_refl w : reachable (account_api tc 12 "$") account_env no_accounts w →
  history (account_api tc 12 "$") account_env no_accounts w w.
Proof. intros [ps Hps]. by exists ps, ps. Qed.

Lemma w_ada_reachable : reachable (account_api tc 12 "$") account_env no_accounts w_ada.
Proof.
  assert (w_ada = (run (_ ← ada; Ret tt) no_accounts).2) as -> by (vm_compute; reflexivity).
  apply reachable_run; [apply aa_register|apply reachable_refl].
Qed.
End Toy.

Import Toy.

Lemma revoked_tokens_refused_witness :
  ∃ e, run (refresh tc (refresh_token_of tc 0 u_ada 0)) (run (logoutAll 0) w_ada).2 =
    (Exn e, (run (logoutAll 0) w_ada).2) ∧ (e = token_revoked ∨ e = token_expired).
Proof.
  assert (ac_users w_ada !! 0 = Some u_ada) as Hu by (vm_compute; reflexivity).
  refine (proj1 (revoked_tokens_refused tc 12 "$" w_ada 0 u_ada Hu) _ _ 0%Z).
  apply hist_refl. apply (reachable_run _ _ (logoutAll 0)); [apply aa_logout|apply w_ada_reachable].
Defined.

Lemma registered_user_signs_in_witness :
  ∃ ts w2, run (login tc "$" "ada@example.com" "correct horse") w_ada = (Ok (0, ts), w2) ∧
    run (authenticate tc (Some ("Bearer " +:+ accessToken ts))) w2 =
      (Ok (inl (mkIdentity "0" (Some VIEWER))), w2).
Proof.
  assert (run ada no_accounts = (Ok (0, u_ada), w_ada)) as Hrun by (vm_compute; reflexivity).
  destruct (registered_user_signs_in tc 12 "$" no_accounts w_ada w_ada 0 u_ada
              " Ada@Example.com" "ada@example.com" "correct horse" Hrun
              (hist_refl _ w_ada_reachable)) as (_ & u' & ts & w2 & Hu' & Hl & _ & Ha & _).
  - vm_compute. reflexivity.
  - assert (u' = u_ada) as -> by (vm_compute in Hu'; injection Hu' as <-; reflexivity).
    exists ts, w2. split; [exact Hl|]. apply Ha.
    assert (w2 = (run (login tc "$" "ada@example.com" "correct horse") w_ada).2) as ->
      by (rewrite Hl; reflexivity).
    vm_compute. reflexivity.
Defined.

Lemma admins_can_vanish_witness :
  let w := mkAccountWorld {[0 := mkUserDoc "a" "$a" ADMIN 0; 1 := mkUserDoc "b" "$b" ADMIN 0]} 0 0 0 in
  ∃ w1 w2, run (changeRole "0" 1 VIEWER) w = (Ok (mkUserDoc "b" "$b" VIEWER 1), w1) ∧
    run (changeRole "1" 0 VIEWER) w1 = (Ok (mkUserDoc "a" "$a" VIEWER 1), w2) ∧
    ∀ i u, ac_users w2 !! i = Some u → us_role u ≠ ADMIN.
Proof.
  intros w.
  destruct (admins_can_vanish tc w 0 1 (mkUserDoc "a" "$a" ADMIN 0) (mkUserDoc "b" "$b" ADMIN 0) 0)
    as (w1 & w2 & H1 & _ & H2 & H3); [done|reflexivity|reflexivity|done| |reflexivity|].
  - intros i u Hu _. unfold w in Hu. simpl in Hu.
    apply lookup_insert_Some in Hu as [[<- _]|[_ Hu]]; [by left|].
    apply lookup_singleton_Some in Hu as [<- _]. by right.
  - by exists w1, w2.
Defined.
