(* ===== verification/Router.v ===== *)
(** * Classifying and routing a request ([src/ai/classifier.js],
    [src/ai/router.js])

    Enumerations are the strings of the source, since the values come from a
    model and from stored outputs. *)

From S2P Require Import Prelude Text Program Dag Models Retry TaskRepo Dispatcher Engine TaskQueue Worker.
From S2P Require Import Structured.

Local Open Scope string_scope.

(** ** Classifications *)

Definition TASK_TYPES : list string :=
  ["question_answering"; "summarization"; "extraction"; "classification"; "generation"; "reasoning"; "tool_use"].
Definition COMPLEXITIES : list string := ["low"; "medium"; "high"].
Definition TIERS : list string := ["small"; "large"].

Record Classification := mkClassification {
  taskType : string;
  complexity : string;
  requiresRAG : bool;
  requiresAgent : bool;
  recommendedModel : string;
  rationale : string
}.

(** What [ClassificationSchema] demands of the values. *)
Definition classification_ok (c : Classification) : bool :=
  bool_decide (taskType c ∈ TASK_TYPES) && bool_decide (complexity c ∈ COMPLEXITIES) &&
  bool_decide (recommendedModel c ∈ TIERS) && (String.length (rationale c) <=? 300)%nat.

(** [v.name] of an object: the last field of that name, as [JSON.parse] keeps it. *)
Fixpoint field (name : string) (fields : list (string * json)) : option json :=
  match fields with
  | [] => None
  | (k, v) :: fields' =>
      match field name fields' with Some v' => Some v' | None => if bool_decide (k = name) then Some v else None end
  end.

Definition prop (name : string) (v : json) : option json :=
  match v with JObj fields => field name fields | _ => None end.

Definition as_string (o : option json) : option string := match o with Some (JStr s) => Some s | _ => None end.
Definition as_bool (o : option json) : option bool := match o with Some (JBool b) => Some b | _ => None end.

(** The object of the declared fields; others are dropped. *)
Definition read_classification (v : json) : option Classification :=
  ty ← as_string (prop "taskType" v); co ← as_string (prop "complexity" v);
  rag ← as_bool (prop "requiresRAG" v); ag ← as_bool (prop "requiresAgent" v);
  rec ← as_string (prop "recommendedModel" v); why ← as_string (prop "rationale" v);
  let c := mkClassification ty co rag ag rec why in
  if classification_ok c then Some c else None.

(** [z.toJSONSchema] and the wording of issues are zod's. *)
Section classifier.
Context (schema_text : string) (issues_of : json → list Issue).

Definition ClassificationSchema : Schema Classification :=
  mkSchema schema_text (λ v, match read_classification v with Some c => inr c | None => inl (issues_of v) end).

Definition CLASSIFIER_PROMPT_VERSION : string := "classifier.v2".

(** The fixed part of the prompt. *)
Context (SYSTEM : string).

(** [err.message]: [None] is the [TypeError] of reading a property of [null] or
    [undefined], and [Some None] is [undefined]. *)
Definition err_message (err : thrown) : option (option string) :=
  match err with
  | Nullish => None
  | Primitive _ _ => Some None
  | ErrorObject e => Some (e_message e)
  end.

Definition property_of_null : thrown :=
  ErrorObject (mkError false (Some "TypeError") (Some "Cannot read properties of null (reading 'message')") None
    "TypeError: Cannot read properties of null (reading 'message')").

(** ** The fallback *)

Definition has (t : string) (words : list string) : bool := existsb (λ w, includes w t) words.

Definition heuristicClassify (text : string) : Classification :=
  let t := toLowerCase text in
  let requiresAgent := has t ["status of"; "calculate"; "how many"; "look up"; "check the workflow"; "execution"] in
  let requiresRAG := has t ["policy"; "according to"; "our docs"; "document"; "handbook"; "knowledge base"; "refund"] in
  let taskType :=
    if requiresAgent then "tool_use"
    else if has t ["summarize"; "summarise"; "tl;dr"] then "summarization"
    else if has t ["extract"] then "extraction"
    else if has t ["why"; "explain"; "compare"; "plan"] then "reasoning"
    else "question_answering" in
  let words := count_words t in
  let complexity :=
    if requiresAgent || bool_decide (taskType = "reasoning") || (80 <? words)%nat then "high"
    else if (25 <? words)%nat then "medium" else "low" in
  mkClassification taskType complexity requiresRAG requiresAgent
    (if bool_decide (complexity = "low") then "small" else "large")
    "keyword heuristic (LLM classification unavailable)".

Inductive source : Type := FromLlm | FromHeuristic.

Record Classified := mkClassified {
  classification : Classification;
  cl_source : source;
  cl_usage : Usage;
  cl_attempts : nat;
  fallbackReason : option string
}.

Definition classifyTask (provider : Provider) (json_parse : string → string + json) (model request : string)
    (fallback : bool) : ai Classified :=
  ai_catch
    (r ← generateStructured provider json_parse model ClassificationSchema SYSTEM
           (wrapUntrusted "user_input" request) 2;
     mret (mkClassified (st_data r) FromLlm (st_usage r) (st_attempts r) None))
    (λ err, if negb fallback then reject err else
       match err_message err with
       | Some message =>
           mret (mkClassified (heuristicClassify request) FromHeuristic no_usage 0 message)
       | None => reject property_of_null
       end).
End classifier.

(** ** Routing *)

Record ModelNames := mkModelNames { small : string; large : string }.

Record Route := mkRoute { mode : string; tier : string; route_model : string; rule : string }.

Definition pick (models : ModelNames) (tier mode rule : string) : Route :=
  mkRoute mode tier (if bool_decide (tier = "small") then small models else large models) rule.

Definition routeTask (c : Classification) (models : ModelNames) : Route :=
  if requiresAgent c then pick models "large" "agent" "requires-tools"
  else if requiresRAG c then
    pick models (if bool_decide (complexity c = "low") then "small" else "large") "rag" "requires-knowledge"
  else if bool_decide (complexity c = "high") || bool_decide (taskType c = "reasoning") then
    pick models "large" "direct" "high-complexity"
  else
    pick models (if bool_decide (recommendedModel c = "large") && negb (bool_decide (complexity c = "low"))
                 then "large" else "small") "direct" "default-small".

(** ** Facts *)

Lemma read_classification_ok v c : read_classification v = Some c → classification_ok c = true.
Proof.
  unfold read_classification. intros H.
  repeat match goal with
  | H : (?m ≫= _) = Some _ |- _ => apply bind_Some in H as (? & _ & H)
  end.
  destruct (classification_ok _) eqn:He in H; [|done]. by injection H as <-.
Qed.

(** The fallback obeys the schema, whatever the text. *)
Lemma heuristic_ok text : classification_ok (heuristicClassify text) = true.
Proof.
  unfold heuristicClassify. set (t := toLowerCase text).
  repeat match goal with |- context [has t ?ws] => destruct (has t ws) end;
    destruct (80 <? count_words t)%nat, (25 <? count_words t)%nat; reflexivity.
Qed.

(** ** Property *)

(** a request is always classified and routed.  With the fallback on,
    [classifyTask] resolves whatever the model does, with a classification that
    satisfies the schema and says where it came from; and its route goes to the
    agent exactly when tools are needed, then with the large model, and to the
    knowledge base exactly when documents are needed and tools are not; the
    small model gets no request of high complexity. *)
Theorem always_classified_and_routed (schema_text : string) (issues_of : json → list Issue)
    (SYSTEM : string) (provider : Provider) (json_parse : string → string + json)
    (model request : string) (models : ModelNames) (n : nat)
    (Herrors : ∀ k m messages, provider k m messages ≠ Rejected Nullish) :
  ∃ r n', classifyTask schema_text issues_of SYSTEM provider json_parse model request true n = (Resolved r, n') ∧
    n < n' ≤ n + 3 ∧ classification_ok (classification r) = true ∧
    (cl_source r = FromHeuristic → classification r = heuristicClassify request) ∧
    let c := classification r in
    let route := routeTask c models in
    (mode route = "agent" ↔ requiresAgent c = true) ∧
    (mode route = "rag" ↔ requiresAgent c = false ∧ requiresRAG c = true) ∧
    (mode route = "agent" → tier route = "large") ∧
    (tier route = "small" → complexity c ≠ "high" ∧ route_model route = small models).
Proof.
  assert (Hroute : ∀ c, let route := routeTask c models in
    (mode route = "agent" ↔ requiresAgent c = true) ∧
    (mode route = "rag" ↔ requiresAgent c = false ∧ requiresRAG c = true) ∧
    (mode route = "agent" → tier route = "large") ∧
    (tier route = "small" → complexity c ≠ "high" ∧ route_model route = small models)).
  { intros c. unfold routeTask. destruct (requiresAgent c), (requiresRAG c); simpl.
    1,2: split_and!; naive_solver.
    - case_bool_decide as Hl; simpl; split_and!; (done || naive_solver || (split; [congruence|done])).
    - destruct (bool_decide (complexity c = "high")) eqn:Hh; simpl; [split_and!; naive_solver|].
      apply bool_decide_eq_false in Hh.
      destruct (bool_decide (taskType c = "reasoning")); simpl; [split_and!; naive_solver|].
      destruct (bool_decide _ && negb _); simpl; split_and!; naive_solver. }
  unfold classifyTask, ai_catch. pose proof (structured_loop_spec provider json_parse model
    (ClassificationSchema schema_text issues_of) 3 1
    (first_messages (ClassificationSchema schema_text issues_of) SYSTEM (wrapUntrusted "user_input" request))
    no_usage n) as H.
  unfold generateStructured, mbind, ai_bind.
  destruct (structured_loop _ _ _ _ _ _ _ _ _) as [[r|e] n'].
  - destruct H as (k & ms & res & Hk & -> & _ & _ & Hj). do 2 eexists. split; [done|]. split; [lia|].
    split; [|split; [done|apply Hroute]]. cbn [classification]. unfold judge in Hj.
    destruct (extractJson json_parse (content res)) as [?|v]; [done|]. cbn [safeParse ClassificationSchema] in Hj.
    destruct (read_classification v) as [c|] eqn:Hc; [|done]. injection Hj as <-. by eapply read_classification_ok.
  - assert (n < n' ≤ n + 3) as Hn by (destruct H as [[_ ->]|(k & ms & Hk & -> & _)]; lia).
    assert (is_Some (err_message e)) as [m Hm].
    { destruct H as [[-> _]|(k & ms & _ & _ & Hp)]; [by eexists|].
      destruct e; [by destruct (Herrors (n + k) model ms)|by eexists|by eexists]. }
    cbn [negb]. rewrite Hm. do 2 eexists. split; [done|]. split; [done|].
    split; [apply heuristic_ok|]. split; [done|apply Hroute].
Qed.

Definition silent_provider : Provider := λ _ _ _, Rejected (new_Error "connection refused").

Lemma always_classified_and_routed_witness :
  ∃ r, classifyTask "{}" (λ _, []) "" silent_provider (λ _, inl "") "m" "What is the status of run 7?" true 0 =
         (Resolved r, 1) ∧ cl_source r = FromHeuristic ∧
       mode (routeTask (classification r) (mkModelNames "s" "l")) = "agent".
Proof.
  destruct (always_classified_and_routed "{}" (λ _, []) "" silent_provider (λ _, inl "") "m"
              "What is the status of run 7?" (mkModelNames "s" "l") 0) as (r & n' & Hr & _ & _ & Hh & Hmode & _).
  { intros k m ms. discriminate. }
  assert (cl_source r = FromHeuristic ∧ n' = 1) as [Hs ->] by (vm_compute in Hr; injection Hr as <- <-; done).
  exists r. split; [exact Hr|]. split; [exact Hs|]. apply Hmode. rewrite (Hh Hs). vm_compute. reflexivity.
Defined.
