(* ===== verification/Agent.v ===== *)
(** * The controlled agent loop ([src/ai/agent/agent.js], and [selectTools] of
    [src/ai/agent/tools.js])

    The model only proposes tool calls.  What a proposal may be, which tools
    there are and when the loop stops is decided here. *)

From S2P Require Import Prelude Text Program Dag Models Retry TaskRepo Dispatcher Engine TaskQueue Worker.
From S2P Require Import Access Services Structured Router.

Local Open Scope string_scope.

(** ** Tools *)

(** The context of a tool call: whose data it may read. *)
Record ToolCtx := mkToolCtx { tc_ownerId : string }.

Record Tool := mkTool {
  tl_description : string;
  tl_schema : Schema json;
  tl_permission : option string;
  tl_timeoutMs : ms;
  tl_run : json → ToolCtx → promise json
}.

(** The value of a property of an object whose own properties are tools: a
    function that every object inherits is a value too. *)
Inductive tool_entry : Type := OwnTool (t : Tool) | InheritedFunction.

Fixpoint own_tool (name : string) (registry : list (string * Tool)) : option Tool :=
  match registry with
  | [] => None
  | (k, t) :: registry' => if bool_decide (k = name) then Some t else own_tool name registry'
  end.

(** [registry[name]]. *)
Definition tool_at (registry : list (string * Tool)) (name : string) : option tool_entry :=
  match own_tool name registry with
  | Some t => Some (OwnTool t)
  | None => if bool_decide (name ∈ inherited) then Some InheritedFunction else None
  end.

(** [allowed[name] = tool]: a key keeps its first place, and assigning to
    [__proto__] adds no key. *)
Definition assign (name : string) (t : tool_entry) (allowed : list (string * tool_entry))
    : list (string * tool_entry) :=
  if bool_decide (name ∈ allowed.*1) || bool_decide (name = "__proto__") then allowed
  else (allowed ++ [(name, t)])%list.

(** [tool.permission && !hasPermission(role, tool.permission)]. *)
Definition denies (role : string) (t : tool_entry) : res bool :=
  match t with
  | OwnTool t =>
      match tl_permission t with
      | Some p => granted ← hasPermission role p; Ok (negb granted)
      | None => Ok false
      end
  | InheritedFunction => Ok false
  end.

Fixpoint select_loop (registry : list (string * Tool)) (role : string) (names : list string)
    (allowed : list (string * tool_entry)) (denied : list string)
    : res (list (string * tool_entry) * list string) :=
  match names with
  | [] => Ok (allowed, denied)
  | name :: names' =>
      match tool_at registry name with
      | None => Exn TypeErr
      | Some t =>
          no ← denies role t;
          if no : bool then select_loop registry role names' allowed (denied ++ [name])%list
          else select_loop registry role names' (assign name t allowed) denied
      end
  end.

Definition is_unknown (registry : list (string * Tool)) (name : string) : bool :=
  match tool_at registry name with Some _ => false | None => true end.

Definition selectTools (registry : list (string * Tool)) (allowlist : option (list string)) (role : string)
    : res (list (string * tool_entry) * list string) :=
  let names := default (registry.*1) allowlist in
  match List.filter (is_unknown registry) names with
  | [] => select_loop registry role names [] []
  | unknown => Exn (PlainErr ("Unknown agent tool(s): " +:+ join ", " unknown))
  end.

(** ** Steps *)

(** What the model may propose. *)
Inductive AgentStep : Type :=
| CallTool (thought tool : string) (args : list (string * json))
| FinalAnswer (thought answer : string).

(** An optional string, with its default. *)
Definition read_thought (v : json) : option string :=
  match prop "thought" v with
  | None => Some ""
  | Some (JStr s) => if (String.length s <=? 500)%nat then Some s else None
  | Some _ => None
  end.

Definition read_args (v : json) : option (list (string * json)) :=
  match prop "args" v with None => Some [] | Some (JObj fields) => Some fields | Some _ => None end.

(** The discriminated union on [action]; tools outside of the allowlist and
    empty or overlong answers are not part of it. *)
Definition read_step (names : list string) (v : json) : option AgentStep :=
  action ← as_string (prop "action" v);
  thought ← read_thought v;
  if bool_decide (action = "tool") then
    tool ← as_string (prop "tool" v);
    args ← read_args v;
    if bool_decide (tool ∈ names) then Some (CallTool thought tool args) else None
  else if bool_decide (action = "final") then
    answer ← as_string (prop "answer" v);
    if ((1 <=? String.length answer) && (String.length answer <=? 3000))%nat
    then Some (FinalAnswer thought answer) else None
  else None.

(** [JSON.stringify]. *)
Fixpoint stringify (v : json) : string :=
  match v with
  | JNull => "null"
  | JBool b => if b then "true" else "false"
  | JNum z => pretty z
  | JStr s => stringify_string s
  | JArr l => "[" +:+ join "," (map stringify l) +:+ "]"
  | JObj fields => "{" +:+ join "," (map (λ kv, member (kv.1, stringify kv.2)) fields) +:+ "}"
  end.

(** [!!v]. *)
Definition truthy_json (v : option json) : bool :=
  match v with
  | None | Some JNull | Some (JBool false) => false
  | Some (JNum z) => negb (bool_decide (z = 0%Z))
  | Some (JStr s) => negb (bool_decide (s = ""))
  | Some _ => true
  end.

(** An entry of [steps]. *)
Inductive StepLog : Type :=
| LogTool (tool : string) (args : json) (ok : bool) (observation : string) (thought : string)
| LogFinal (thought : string)
| LogStopped (reason : string) (tool : option string).

Inductive AgentStatus : Type := AgentFinal | AgentMaxIterations | AgentLoopDetected.

Record AgentResult := mkAgentResult {
  ag_status : AgentStatus;
  ag_answer : option string;
  ag_steps : list StepLog;
  ag_usage : Usage;
  ag_iterations : nat
}.

Definition error_object (message : option string) : json :=
  JObj match message with Some m => [("error", JStr m)] | None => [] end.

Definition MAX_OBSERVATION_CHARS : nat := 2000.

(** One tool call: its arguments as logged, whether it succeeded and what it
    observed; or the error that escapes the loop. *)
Definition observe (tool : Tool) (name : string) (args : json) (ctx : ToolCtx) : settled (json * bool * json) :=
  match safeParse (tl_schema tool) args with
  | inl issues =>
      Resolved (args, false,
        error_object (Some ("invalid arguments: " +:+
          join "; " ((λ i, issue_path i +:+ ": " +:+ issue_message i) <$> issues))))
  | inr data =>
      match withTimeout (tl_run tool data ctx) (tl_timeoutMs tool) ("tool " +:+ name) with
      | Resolved v => Resolved (data, negb (truthy_json (prop "error" v)), v)
      | Rejected err =>
          match err_message err with
          | Some m => Resolved (data, false, error_object m)
          | None => Rejected property_of_null
          end
      end
  end.

(** *** The prompt *)

(** The text with its single quotes turned into double ones, which Rocq strings
    would have to double. *)
Definition quoted (s : string) : string :=
  on_chars (map (λ c, if bool_decide (c = Ascii.ascii_of_nat 39) then Ascii.ascii_of_nat 34 else c)) s.

Definition tool_doc (t : string * Tool) : string :=
  "- " +:+ t.1 +:+ ": " +:+ tl_description t.2 +:+ " Args JSON Schema: " +:+ json_schema (tl_schema t.2).

Definition system_prompt (tools : list (string * Tool)) : string :=
  "You are an assistant that can use tools. Each turn, reply with exactly one JSON object:" +:+ newline +:+
  quoted "  {'action':'tool','thought':'...','tool':'<name>','args':{...}}  to call a tool, or" +:+ newline +:+
  quoted "  {'action':'final','thought':'...','answer':'...'}  when you can answer." +:+ newline +:+
  "Available tools (you may use ONLY these):" +:+ newline +:+ join newline (tool_doc <$> tools) +:+ newline +:+
  "Use tool results to answer. Do not call the same tool with the same arguments twice.".

Section agent.
Context (provider : Provider) (json_parse : string → string + json).
(** The text zod derives for the schema of a step, and the issues it reports. *)
Context (step_schema_text : list string → string) (step_issues : json → list Issue).
(** What [z.toJSONSchema(undefined)] throws. *)
Context (no_schema_error : thrown).
(** The reason the signal was aborted with before an iteration, if it was. *)
Context (aborted : nat → option thrown).

Definition StepSchema (names : list string) : Schema AgentStep :=
  mkSchema (step_schema_text names)
    (λ v, match read_step names v with Some s => inr s | None => inl (step_issues v) end).

Definition call_key (tool : string) (args : json) : string := tool +:+ ":" +:+ stringify args.

Definition transcript_entry (i : nat) (tool : string) (args : json) (text : string) : string :=
  "Step " +:+ pretty i +:+ ": you called " +:+ tool +:+ " with " +:+ stringify args +:+ "." +:+ newline +:+
  "Result:" +:+ newline +:+ wrapUntrusted "tool_result" text.

Fixpoint agent_loop (model system : string) (tools : list (string * Tool)) (ctx : ToolCtx) (maxIterations : nat)
    (budget i : nat) (transcript : list string) (steps : list StepLog) (used : Usage) (lastCallKey : option string)
    : ai AgentResult :=
  match budget with
  | O =>
      mret (mkAgentResult AgentMaxIterations None
              (steps ++ [LogStopped ("max iterations (" +:+ pretty maxIterations +:+ ") reached") None])%list
              used maxIterations)
  | S budget =>
      match aborted i with Some reason => reject reason | None =>
      r ← generateStructured provider json_parse model (StepSchema tools.*1) system
            (join (newline +:+ newline) transcript) 2;
      let used := add_usage used (st_usage r) in
      match st_data r with
      | FinalAnswer thought answer =>
          mret (mkAgentResult AgentFinal (Some answer) (steps ++ [LogFinal thought])%list used i)
      | CallTool thought name fields =>
          let args := JObj fields in
          let key := call_key name args in
          if bool_decide (lastCallKey = Some key) then
            mret (mkAgentResult AgentLoopDetected None
                    (steps ++ [LogStopped "repeated identical tool call" (Some name)])%list used i)
          else
            match own_tool name tools with
            | None => reject property_of_null
            | Some tool =>
                match observe tool name args ctx with
                | Rejected err => reject err
                | Resolved (logged, ok, observation) =>
                    let text := truncate MAX_OBSERVATION_CHARS (stringify observation) in
                    agent_loop model system tools ctx maxIterations budget (S i)
                      (transcript ++ [transcript_entry i name args text])%list
                      (steps ++ [LogTool name logged ok text thought])%list used (Some key)
                end
            end
      end
      end
  end.

(** Entries without a schema make the construction of the prompt throw. *)
Definition own_tools (tools : list (string * tool_entry)) : option (list (string * Tool)) :=
  mapM (λ '(k, e), match e with OwnTool t => Some (k, t) | InheritedFunction => None end) tools.

Definition runAgent (model : string) (tools : list (string * tool_entry)) (goal : string) (ctx : ToolCtx)
    (maxIterations : nat) : ai AgentResult :=
  match tools with
  | [] => reject (new_Error "agent has no allowed tools")
  | _ =>
      match own_tools tools with
      | None => reject no_schema_error
      | Some tools =>
          agent_loop model (system_prompt tools) tools ctx maxIterations maxIterations 1
            ["Goal:" +:+ newline +:+ wrapUntrusted "user_input" goal] [] no_usage None
      end
  end.
End agent.

(** ** Facts *)

Lemma own_tool_elem name tools t : own_tool name tools = Some t → (name, t) ∈ tools.
Proof.
  induction tools as [|[k t'] tools IH]; [done|]. simpl. case_bool_decide as Hk.
  - intros [= ->]. subst. left.
  - intros H. right. by apply IH.
Qed.

Lemma own_tools_elem tools tools' k t : own_tools tools = Some tools' → (k, t) ∈ tools' → (k, OwnTool t) ∈ tools.
Proof.
  unfold own_tools. intros H Hin. apply mapM_Some in H. revert Hin.
  induction H as [|[k' e] [k2 t2] l l' He _ IH]; [by intros ?%not_elem_of_nil|].
  intros [Heq|Hin]%elem_of_cons; [|right; by apply IH].
  destruct e; [|done]. simplify_eq. left.
Qed.

Lemma select_loop_elem registry role names allowed denied allowed' denied' k e :
  select_loop registry role names allowed denied = Ok (allowed', denied') → (k, e) ∈ allowed' →
  (k, e) ∈ allowed ∨ k ∈ names ∧ tool_at registry k = Some e ∧ denies role e = Ok false.
Proof.
  revert allowed denied. induction names as [|name names IH]; intros allowed denied; simpl.
  { intros [= -> ->]. by left. }
  destruct (tool_at registry name) as [t|] eqn:Ht; [|done].
  destruct (denies role t) as [[|]|] eqn:Hd; unfold mbind, res_bind; [| |done].
  - intros H Hin. destruct (IH _ _ H Hin) as [?|(? & ?)]; [by left|]. right. split; [by right|done].
  - intros H Hin. destruct (IH _ _ H Hin) as [Ha|(? & ?)]; [|right; split; [by right|done]].
    unfold assign in Ha. destruct (_ || _); [by left|].
    apply elem_of_app in Ha as [?|Ha]; [by left|]. apply list_elem_of_singleton in Ha as [= -> ->].
    right. split_and!; [left|done..].
Qed.

Section loop.
Context (provider : Provider) (json_parse : string → string + json).
Context (step_schema_text : list string → string) (step_issues : json → list Issue).
Context (no_schema_error : thrown).
Context (aborted : nat → option thrown) (tools : list (string * Tool)) (ctx : ToolCtx).

(** A logged call names one of the tools; when it succeeded, that tool ran in
    time on arguments its schema accepted. *)
Definition call_ok (log : StepLog) : Prop :=
  match log with
  | LogTool name args ok observation _ =>
      ∃ tool, own_tool name tools = Some tool ∧ (String.length observation ≤ MAX_OBSERVATION_CHARS)%nat ∧
        (ok = true → ∃ raw v, safeParse (tl_schema tool) raw = inr args ∧
           withTimeout (tl_run tool args ctx) (tl_timeoutMs tool) ("tool " +:+ name) = Resolved v)
  | _ => True
  end.

Lemma observe_ok tool name args logged ok v :
  observe tool name args ctx = Resolved (logged, ok, v) → ok = true →
  safeParse (tl_schema tool) args = inr logged ∧
  withTimeout (tl_run tool logged ctx) (tl_timeoutMs tool) ("tool " +:+ name) = Resolved v.
Proof.
  unfold observe. destruct (safeParse _ _) as [issues|data]; [by intros [= <- <- <-]|].
  destruct (withTimeout _ _ _) as [v'|err] eqn:Hw.
  - intros [= <- <- <-] _. by rewrite Hw.
  - destruct (err_message err); [by intros [= <- <- <-]|done].
Qed.

Lemma read_step_answer names v thought answer :
  read_step names v = Some (FinalAnswer thought answer) → (1 ≤ String.length answer ≤ 3000)%nat.
Proof.
  unfold read_step. intros H.
  apply bind_Some in H as (action & _ & H). apply bind_Some in H as (th & _ & H).
  case_bool_decide; [|case_bool_decide; [|done]].
  - apply bind_Some in H as (tool & _ & H). apply bind_Some in H as (args & _ & H). by case_bool_decide.
  - apply bind_Some in H as (a & _ & H). destruct (_ && _) eqn:Hl in H; [|done]. injection H as _ <-.
    apply andb_true_iff in Hl as [Hlo%Nat.leb_le Hhi%Nat.leb_le]. lia.
Qed.

Lemma agent_loop_spec model system maxIterations budget i transcript steps used lastKey n :
  (i + budget = S maxIterations)%nat → (length steps < i)%nat → Forall call_ok steps →
  let '(s, n') := agent_loop provider json_parse step_schema_text step_issues aborted model system tools ctx
                    maxIterations budget i transcript steps used lastKey n in
  (n' ≤ n + 3 * budget)%nat ∧ ∀ r, s = Resolved r →
    (ag_iterations r ≤ maxIterations ∧ length (ag_steps r) ≤ S maxIterations)%nat ∧ Forall call_ok (ag_steps r) ∧
    (ag_status r = AgentFinal ↔ is_Some (ag_answer r)) ∧
    ∀ a, ag_answer r = Some a → (1 ≤ String.length a ≤ 3000)%nat.
Proof.
  revert i transcript steps used lastKey n. induction budget as [|budget IH];
    intros i transcript steps used lastKey n Hi Hlen Hok.
  { split; [lia|]. intros r [= <-]. cbn. split_and!; [lia|rewrite length_app; cbn; lia| |by split; [|intros []]|done].
    apply Forall_app. split; [done|]. by apply Forall_singleton. }
  cbn [agent_loop]. destruct (aborted i) as [reason|]; [split; [cbn; lia|done]|].
  unfold mbind, ai_bind, generateStructured.
  pose proof (structured_loop_spec provider json_parse model (StepSchema step_schema_text step_issues tools.*1) 3 1
    (first_messages (StepSchema step_schema_text step_issues tools.*1) system
       (join (newline +:+ newline) transcript)) no_usage n) as Hs.
  destruct (structured_loop _ _ _ _ _ _ _ _ _) as [[r0|e] n1].
  2: { destruct Hs as [[_ ->]|(k & ms & Hk & -> & _)]; (split; [lia|done]). }
  destruct Hs as (k & ms & res & Hk & -> & _ & _ & Hj).
  destruct (st_data r0) as [thought name fields|thought answer] eqn:Hd.
  - case_bool_decide.
    { split; [cbn; lia|]. intros r [= <-]. cbn. split_and!; [lia|rewrite length_app; cbn; lia| |by split; [|intros []]|done].
      apply Forall_app. split; [done|]. by apply Forall_singleton. }
    destruct (own_tool name tools) as [tool|] eqn:Ht; [|split; [cbn; lia|done]].
    destruct (observe tool name (JObj fields) ctx) as [[[logged ok] v]|err] eqn:Ho; [|split; [cbn; lia|done]].
    match goal with |- context [agent_loop _ _ _ _ _ _ _ _ _ _ _ _ ?tr ?st ?us ?ky ?m] =>
      specialize (IH (S i) tr st us ky m) end.
    destruct (agent_loop _ _ _ _ _ _ _ _ _ _ _ _ _ _ _ _ _) as [s n'].
    destruct IH as [Hn Hr]; [lia|rewrite length_app; cbn; lia| |split; [lia|exact Hr]].
    apply Forall_app. split; [done|]. apply Forall_singleton. exists tool.
    split_and!; [done|apply truncate_length|]. intros Hok'.
    destruct (observe_ok _ _ _ _ _ _ Ho Hok'). by exists (JObj fields), v.
  - split; [cbn; lia|]. intros r [= <-]. cbn. split_and!; [lia|rewrite length_app; cbn; lia| |by split; [eexists|]|].
    { apply Forall_app. split; [done|]. by apply Forall_singleton. }
    intros a [= <-]. unfold judge in Hj. destruct (extractJson _ _) as [?|v]; [done|].
    cbn [safeParse StepSchema] in Hj. destruct (read_step tools.*1 v) as [st|] eqn:Hrs; [|done].
    assert (st = FinalAnswer thought answer) as -> by congruence. by eapply read_step_answer.
Qed.
End loop.

(** ** The whole run *)

(** The agent is confined.  Whatever the model proposes, an agent run makes
    at most three requests per iteration, stops within [maxIterations], and
    every tool it ran is in the registry and in the task's allowlist, was
    granted to the owner's role, and ran in time on arguments its own schema
    accepted; an answer is a validated one. *)
Lemma runAgent_confined (provider : Provider) (json_parse : string → string + json)
    (step_schema_text : list string → string) (step_issues : json → list Issue)
    (no_schema_error : thrown) (aborted : nat → option thrown)
    (registry : list (string * Tool)) (allowlist : option (list string)) (role model goal : string)
    (ctx : ToolCtx) (allowed : list (string * tool_entry)) (denied : list string) (maxIterations n : nat)
    (Hsel : selectTools registry allowlist role = Ok (allowed, denied)) :
  let '(s, n') := runAgent provider json_parse step_schema_text step_issues no_schema_error aborted
                    model allowed goal ctx maxIterations n in
  (n' ≤ n + 3 * maxIterations)%nat ∧ ∀ r, s = Resolved r →
    (ag_iterations r ≤ maxIterations)%nat ∧
    (ag_status r = AgentFinal ↔ is_Some (ag_answer r)) ∧
    (∀ a, ag_answer r = Some a → (1 ≤ String.length a ≤ 3000)%nat) ∧
    ∀ name args ok observation thought, LogTool name args ok observation thought ∈ ag_steps r →
      ∃ tool, own_tool name registry = Some tool ∧ (∀ l, allowlist = Some l → name ∈ l) ∧
        (∀ p, tl_permission tool = Some p → hasPermission role p = Ok true) ∧
        (String.length observation ≤ 2000)%nat ∧
        (ok = true → ∃ raw v, safeParse (tl_schema tool) raw = inr args ∧
           withTimeout (tl_run tool args ctx) (tl_timeoutMs tool) ("tool " +:+ name) = Resolved v).
Proof.
  unfold runAgent. destruct allowed as [|a0 allowed0] eqn:Ha; [split; [cbn; lia|done]|]. rewrite <- Ha in *. clear Ha.
  destruct (own_tools allowed) as [tools|] eqn:Ht; [|split; [cbn; lia|done]].
  pose proof (agent_loop_spec provider json_parse step_schema_text step_issues aborted tools ctx model
    (system_prompt tools) maxIterations maxIterations 1 ["Goal:" +:+ newline +:+ wrapUntrusted "user_input" goal]
    [] no_usage None n) as Hspec.
  destruct (agent_loop _ _ _ _ _ _ _ _ _ _ _ _ _ _ _ _ _) as [s n'].
  destruct Hspec as [Hn Hr]; [lia|cbn; lia|by constructor|]. split; [exact Hn|].
  intros r Hs. destruct (Hr r Hs) as ([Hit _] & Hsteps & Hst & Hans). split_and!; [exact Hit|exact Hst|exact Hans|].
  intros name args ok observation thought Hin.
  destruct (proj1 (Forall_forall _ _) Hsteps _ Hin) as (tool & Htool & Hlen & Hran).
  apply own_tool_elem, (own_tools_elem _ _ _ _ Ht) in Htool. unfold selectTools in Hsel.
  destruct (List.filter _ _) in Hsel; [|done].
  apply (select_loop_elem _ _ _ _ _ _ _ _ _ Hsel) in Htool as [?%not_elem_of_nil|(Hname & Hat & Hdeny)]; [done|].
  unfold tool_at in Hat. destruct (own_tool name registry) as [tool'|] eqn:Hown; [|by case_bool_decide].
  injection Hat as ->. exists tool. split_and!; [done| | |exact Hlen|exact Hran].
  - intros l ->. exact Hname.
  - intros p Hp. cbn [denies] in Hdeny. rewrite Hp in Hdeny.
    destruct (hasPermission role p) as [[|]|]; [done|discriminate Hdeny..].
Qed.

(** ** Witness: an agent with one harmless tool and one its role may not use *)

Definition echo_tool (permission : option string) : Tool :=
  mkTool "echo" (mkSchema "{}" (λ v, inr v)) permission 1000 (λ v _, Some (5%Z, Resolved v)).

Definition demo_registry : list (string * Tool) :=
  [("echo", echo_tool None); ("admin_echo", echo_tool (Some USER_MANAGE))].

(** It calls [echo] once, then answers. *)
Definition demo_provider : Provider := λ n _ _, Resolved (mkChatResponse (if bool_decide (n = 0) then "{call}" else "{done}") no_usage).
Definition demo_parse (s : string) : string + json :=
  if bool_decide (s = "{call}")
  then inr (JObj [("action", JStr "tool"); ("tool", JStr "echo"); ("args", JObj [("x", JNum 1)])])
  else inr (JObj [("action", JStr "final"); ("answer", JStr "done")]).

Lemma demo_agent_confined :
  ∃ r, runAgent demo_provider demo_parse (λ _, "") (λ _, []) Nullish (λ _, None) "m"
         [("echo", OwnTool (echo_tool None))] "try it" (mkToolCtx "7") 3 0 = (Resolved r, 2) ∧
       ag_answer r = Some "done" ∧ (ag_iterations r ≤ 3)%nat.
Proof.
  assert (Hsel : selectTools demo_registry (Some ["echo"; "admin_echo"]) VIEWER =
                 Ok ([("echo", OwnTool (echo_tool None))], ["admin_echo"])) by (vm_compute; reflexivity).
  pose proof (runAgent_confined demo_provider demo_parse (λ _, "") (λ _, []) Nullish (λ _, None)
                demo_registry (Some ["echo"; "admin_echo"]) VIEWER "m" "try it" (mkToolCtx "7") _ _ 3 0 Hsel) as H.
  destruct (runAgent _ _ _ _ _ _ _ _ _ _ _ _) as [s n'] eqn:Hrun.
  destruct H as [_ H]. vm_compute in Hrun. injection Hrun as <- <-.
  eexists. split; [reflexivity|]. split; [reflexivity|]. exact (proj1 (H _ eq_refl)).
Defined.
