(* ===== verification/Consumer.v ===== *)
(** * The analytics consumer and its group
    ([src/consumers/analytics.js], [src/events/analyticsProcessor.js])

    What the consumer does with a message of the topic, whatever its bytes are,
    and the consumer group around it: Kafka keeps the partitions and the
    committed offsets, delivers every message at least once, and any member may
    crash between the effect of a message and the commit of its offset.
    Together with the outbox and the relay: every lifecycle event of the engine
    is counted exactly once. *)

From S2P Require Import Prelude Text Program Dag Models Retry TaskRepo Dispatcher Engine TaskQueue Worker.
From S2P Require Import Structured Router Lock Outbox Relay.

Local Open Scope string_scope.

(** ** One message *)

Section messages.
(** [JSON.parse]; [new Date(v)] of a JSON value, [None] for an invalid date; and
    mongoose's casts: to a required string, and of the type in a filter. *)
Context (json_parse : string → option json) (date_of : json → option ms)
        (cast_required : option json → option string) (cast_filter : option json → option string).

(** [new Date(event.occurredAt ?? Date.now())]. *)
Definition occurred (now : ms) (event : json) : res ms :=
  match event with
  | JNull => Exn TypeErr
  | _ =>
      match prop "occurredAt" event with
      | None | Some JNull => Ok now
      | Some v => match date_of v with Some t => Ok t | None => Exn (PlainErr "Invalid time value") end
      end
  end.

(** [processor.process(event)], for whatever the message held.  The marker is
    inserted first: a processed id is a duplicate whatever the type is. *)
Definition process_value (consumer : string) (now : ms) (event : json) (a : Analytics) : res outcome * Analytics :=
  match occurred now event with
  | Exn e => (Exn e, a)
  | Ok t =>
      match cast_required (prop "eventId" event) with
      | None => (Exn (PlainErr "ProcessedEvent validation failed"), a)
      | Some id =>
          match cast_filter (prop "type" event) with
          | Some type => process consumer now (mkEvent id type (Some t)) a
          | None =>
              if bool_decide ((consumer, id) ∈ processed a) then (Ok Duplicate, a)
              else (Exn (PlainErr "Cast to string failed"), a)
          end
      end
  end.

(** [message.value.toString()] of a message without a value throws inside the
    [try], like [JSON.parse]. *)
Definition parse_value (value : option string) : option json := value ≫= json_parse.

(** The callback given to [consumer.run].  A message that is not JSON is skipped. *)
Definition eachMessage (consumer : string) (now : ms) (value : option string) (a : Analytics) : res unit * Analytics :=
  match parse_value value with
  | None => (Ok tt, a)
  | Some event =>
      let '(r, a') := process_value consumer now event a in
      (match r with Ok _ => Ok tt | Exn e => Exn e end, a')
  end.

(** ** The consumer group *)

(** [g_done]: the (partition, offset) for which the callback has resolved. *)
Record Group := mkGroup {
  g_log : nat → list (option string);
  g_done : gset (nat * nat);
  g_committed : nat → nat;
  g_db : Analytics
}.

(** What Kafka and kafkajs may do: the log grows; a message is given to the
    callback, any number of times, by any member; the callback throws, or its
    process crashes after it took effect; and an offset is committed when the
    callback has resolved for every message below it. *)
Inductive group_step (consumer : string) : Group → Group → Prop :=
| Written p value g :
    group_step consumer g (mkGroup (λ p', if decide (p' = p) then (g_log g p ++ [value])%list else g_log g p')
                             (g_done g) (g_committed g) (g_db g))
| Resolves p o value now db g :
    g_log g p !! o = Some value → eachMessage consumer now value (g_db g) = (Ok tt, db) →
    group_step consumer g (mkGroup (g_log g) ({[(p, o)]} ∪ g_done g) (g_committed g) db)
| Interrupted p o value now r db g :
    g_log g p !! o = Some value → eachMessage consumer now value (g_db g) = (r, db) →
    group_step consumer g (mkGroup (g_log g) (g_done g) (g_committed g) db)
| Commits p n g :
    (∀ o, o < n → (p, o) ∈ g_done g) →
    group_step consumer g (mkGroup (g_log g) (g_done g) (λ p', if decide (p' = p) then n else g_committed g p') (g_db g)).

(** No group has read the topic yet. *)
Definition new_group (log : nat → list (option string)) : Group := mkGroup log ∅ (λ _, 0) no_analytics.

(** A member at the committed offset of a partition: the callback, then the
    commit.  [None]: the callback throws, or there is no message. *)
Definition take_message (consumer : string) (now : ms) (p : nat) (g : Group) : option Group :=
  value ← g_log g p !! g_committed g p;
  match eachMessage consumer now value (g_db g) with
  | (Ok _, db) =>
      Some (mkGroup (g_log g) ({[(p, g_committed g p)]} ∪ g_done g)
              (λ p', if decide (p' = p) then S (g_committed g p) else g_committed g p') db)
  | (Exn _, _) => None
  end.

(** ** Messages that are events *)

(** The event in a message. *)
Definition event_in (value : option string) : option event :=
  json ← parse_value value;
  at_ ← prop "occurredAt" json;
  t ← (match at_ with JNull => None | _ => date_of at_ end);
  id ← cast_required (prop "eventId" json);
  type ← cast_filter (prop "type" json);
  Some (mkEvent id type (Some t)).

(** Not JSON, or an event. *)
Definition acceptable (value : option string) : Prop := parse_value value = None ∨ is_Some (event_in value).

Definition in_log (g : Group) (e : event) : Prop := ∃ p o value, g_log g p !! o = Some value ∧ event_in value = Some e.

Section group.
Context (consumer : string).

Lemma process_any_time now e t a :
  e_occurredAt e = Some t → process consumer now e a = process consumer 0 e a.
Proof. intros He. unfold process, day_of. by rewrite He. Qed.

(** The callback on an acceptable message: it resolves, and counts its event. *)
Lemma eachMessage_acceptable now value a :
  acceptable value →
  eachMessage consumer now value a = (Ok tt, match event_in value with Some e => (process consumer 0 e a).2 | None => a end).
Proof.
  unfold acceptable, eachMessage, event_in. destruct (parse_value value) as [j|] eqn:Hp; [|done].
  intros [[=]|[e He]]. cbn in He |- *. rewrite He.
  destruct (prop "occurredAt" j) as [at_|] eqn:Hat; [|done]. cbn in He.
  destruct (match at_ with JNull => None | _ => date_of at_ end) as [t|] eqn:Ht; [|done]. cbn in He.
  destruct (cast_required _) as [id|] eqn:Hid; [|done]. cbn in He.
  destruct (cast_filter _) as [ty|] eqn:Hty; [|done]. injection He as <-.
  assert (occurred now j = Ok t) as Hocc.
  { unfold occurred. destruct j; try done. rewrite Hat. by destruct at_; try done; rewrite Ht. }
  unfold process_value. rewrite Hocc, Hid, Hty, (process_any_time now _ t) by done.
  destruct (decide ((consumer, id) ∈ processed a)) as [Hin|Hnew].
  - by rewrite process_again.
  - by rewrite process_new.
Qed.

(** *** Every run of the group *)

Definition all_acceptable (g : Group) : Prop := ∀ p o value, g_log g p !! o = Some value → acceptable value.

Lemma group_step_log g g' p : group_step consumer g g' → g_log g p `prefix_of` g_log g' p.
Proof.
  intros Hstep. destruct Hstep; cbn; try done. case_decide as Hp; [subst|done]. by exists [value].
Qed.

Lemma group_steps_log g g' p : rtc (group_step consumer) g g' → g_log g p `prefix_of` g_log g' p.
Proof. induction 1 as [|g g1 g' H1 _ IH]; [done|]. etrans; [by eapply group_step_log|done]. Qed.

(** What was counted is a list of deliveries of events of the log, which has
    the event of every message that is done. *)
Definition accounted (g : Group) : Prop :=
  ∃ ds, g_db g = process_all consumer 0 ds no_analytics ∧ (∀ e, e ∈ ds → in_log g e) ∧
    (∀ p o, (p, o) ∈ g_done g → ∃ value, g_log g p !! o = Some value ∧ ∀ e, event_in value = Some e → e ∈ ds) ∧
    (∀ p o, o < g_committed g p → (p, o) ∈ g_done g).

Lemma in_log_grows g g' e : (∀ p, g_log g p `prefix_of` g_log g' p) → in_log g e → in_log g' e.
Proof. intros Hg (p & o & value & Ho & He). exists p, o, value. split; [|done]. by eapply prefix_lookup_Some. Qed.

(** A message is delivered: the list of deliveries grows by its event. *)
Lemma delivered_accounted (g : Group) (p o : nat) (value : option string) (now : ms) (r : res unit) (db : Analytics) (done' : gset (nat * nat)) :
  accounted g → acceptable value → g_log g p !! o = Some value → eachMessage consumer now value (g_db g) = (r, db) →
  (∀ q, q ∈ done' → q ∈ g_done g ∨ q = (p, o)) → (∀ q, q ∈ g_done g → q ∈ done') →
  accounted (mkGroup (g_log g) done' (g_committed g) db).
Proof.
  intros (ds & Hdb & Hlog & Hdone & Hcom) Hacc Ho Heach Hnew Hold. rewrite eachMessage_acceptable in Heach by done.
  injection Heach as _ <-. exists (ds ++ match event_in value with Some e => [e] | None => [] end)%list. cbn. split_and!.
  - destruct (event_in value) as [e|]; [by rewrite process_all_app, Hdb|by rewrite app_nil_r].
  - intros e [?|Hin]%elem_of_app; [by apply Hlog|]. destruct (event_in value) as [e'|] eqn:He; [|by apply not_elem_of_nil in Hin].
    apply list_elem_of_singleton in Hin as ->. by exists p, o, value.
  - intros p' o' [Hin|[= -> ->]]%Hnew.
    + destruct (Hdone p' o' Hin) as (v & Hv & He). exists v. split; [done|]. intros e ?%He. apply elem_of_app. by left.
    + exists value. split; [done|]. intros e ->. apply elem_of_app. right. by apply list_elem_of_singleton.
  - intros p' o' ?%Hcom. by apply Hold.
Qed.

Lemma group_accounted log g :
  rtc (group_step consumer) (new_group log) g → all_acceptable g → accounted g.
Proof.
  revert g. apply (rtc_ind_r (λ g, all_acceptable g → accounted g)); [|intros g g' Hsteps Hstep IH].
  { intros _. exists []. split_and!; [done|by intros ? ?%not_elem_of_nil|by intros ?? ?%elem_of_empty|]. cbn. lia. }
  intros Hacc. destruct IH as (ds & Hdb & Hlog & Hdone & Hcom).
  { intros p o value Ho. apply (Hacc p o). eapply prefix_lookup_Some; [done|by eapply group_step_log]. }
  assert (accounted g) as Hg by by exists ds.
  destruct Hstep as [p value g|p o value now db g Ho He|p o value now r db g Ho He|p n g Hn].
  - exists ds. cbn. split_and!; [done| | |done].
    + intros e Hin%Hlog. eapply in_log_grows, Hin. intros p'. cbn. case_decide; [subst; by eexists|done].
    + intros p' o (v & Hv & Hev)%Hdone. exists v. split; [|done]. case_decide; [subst; by apply lookup_app_l_Some|done].
  - eapply delivered_accounted; [done|by eapply Hacc|done|done|set_solver|set_solver].
  - eapply delivered_accounted; [done|by eapply Hacc|done|done|set_solver|set_solver].
  - exists ds. cbn. split_and!; [done..|]. intros p' o. case_decide; [subst; by apply Hn|by apply Hcom].
Qed.

(** Offsets are committed behind the callback. *)
Lemma group_committed log g :
  rtc (group_step consumer) (new_group log) g → ∀ p o, o < g_committed g p → (p, o) ∈ g_done g.
Proof.
  revert g. apply (rtc_ind_r (λ g, ∀ p o, o < g_committed g p → (p, o) ∈ g_done g)); [cbn; lia|].
  intros g g' _ Hstep IH p o. destruct Hstep as [p' value g|p' o' value now db g _ _|p' o' value now r db g _ _|p' n g Hn]; cbn.
  - apply IH.
  - intros ?%IH. set_solver.
  - apply IH.
  - case_decide; [subst; apply Hn|apply IH].
Qed.

(** A message is done only when the callback resolved for it. *)
Lemma group_done log g :
  rtc (group_step consumer) (new_group log) g → ∀ p o, (p, o) ∈ g_done g →
  ∃ value now a, g_log g p !! o = Some value ∧ is_ok (eachMessage consumer now value a).1 = true.
Proof.
  revert g. apply (rtc_ind_r (λ g, ∀ p o, (p, o) ∈ g_done g →
    ∃ value now a, g_log g p !! o = Some value ∧ is_ok (eachMessage consumer now value a).1 = true)); [set_solver|].
  intros g g' _ Hstep IH p o Hin.
  assert ((p, o) ∈ g_done g → ∃ value now a, g_log g' p !! o = Some value ∧ is_ok (eachMessage consumer now value a).1 = true) as Hold.
  { intros (value & now & a & Hv & Hok)%IH. exists value, now, a. split; [|done].
    eapply prefix_lookup_Some; [done|by eapply group_step_log]. }
  destruct Hstep as [p' value g|p' o' value now db g Hv He|p' o' value now r db g Hv He|p' n g Hn]; cbn in *; [by apply Hold| |by apply Hold..].
  apply elem_of_union in Hin as [[= -> ->]%elem_of_singleton|Hin]; [|by apply Hold].
  exists value, now, (g_db g). by rewrite He.
Qed.

Lemma take_message_steps now p g g' :
  (∀ o, o < g_committed g p → (p, o) ∈ g_done g) → take_message consumer now p g = Some g' →
  rtc (group_step consumer) g g'.
Proof.
  unfold take_message. intros Hcom. destruct (g_log g p !! g_committed g p) as [value|] eqn:Ho; [|done]. cbn.
  destruct (eachMessage _ _ _ _) as [[[]|e] db] eqn:He; [|done]. intros [= <-].
  eapply rtc_l; [by eapply Resolves|]. eapply rtc_l; [eapply (Commits _ p (S (g_committed g p)))|].
  - cbn. intros o Hlt. destruct (decide (o = g_committed g p)) as [->|]; [set_solver|].
    apply elem_of_union. right. apply Hcom. lia.
  - cbn. apply rtc_refl.
Qed.

(** [n] messages of one partition. *)
Fixpoint take_messages (now : ms) (p : nat) (n : nat) (g : Group) : option Group :=
  match n with O => Some g | S n => g ← take_message consumer now p g; take_messages now p n g end.

(** on acceptable messages the callback never throws, and a member
    that keeps taking them reaches the end of its partition: no message, and in
    particular none that is not JSON, blocks the ones behind it. *)
Lemma consumer_keeps_up now p n : ∀ log g,
  rtc (group_step consumer) (new_group log) g → all_acceptable g → g_committed g p + n = length (g_log g p) →
  ∃ g', take_messages now p n g = Some g' ∧ rtc (group_step consumer) g g' ∧
    g_committed g' p = length (g_log g' p) ∧ g_log g' = g_log g ∧ ∀ p', p' ≠ p → g_committed g' p' = g_committed g p'.
Proof.
  induction n as [|n IH]; intros log g Hr Hacc Hn; cbn [take_messages].
  { exists g. split_and!; [done|done|lia|done|done]. }
  destruct (lookup_lt_is_Some_2 (g_log g p) (g_committed g p)) as [value Ho]; [lia|].
  destruct (take_message consumer now p g) as [g1|] eqn:Ht.
  2: { unfold take_message in Ht. rewrite Ho in Ht. cbn in Ht. by rewrite (eachMessage_acceptable _ _ _ (Hacc _ _ _ Ho)) in Ht. }
  assert (rtc (group_step consumer) g g1) as Hs.
  { eapply take_message_steps; [|done]. intros o. by apply (group_committed log). }
  assert (g_log g1 = g_log g ∧ g_committed g1 p = S (g_committed g p) ∧ ∀ p', p' ≠ p → g_committed g1 p' = g_committed g p')
    as (Hlog & Hc & Hother).
  { unfold take_message in Ht. rewrite Ho in Ht. cbn in Ht. destruct (eachMessage _ _ _ _) as [[[]|] db]; [|done].
    injection Ht as <-. cbn. rewrite decide_True by done. split_and!; [done..|]. intros p' Hp'. by rewrite decide_False. }
  destruct (IH log g1) as (g' & Hrun & Hs' & Hend & Hlog' & Hother'); [by etrans| | |].
  { intros p' o value'. rewrite Hlog. apply Hacc. }
  { rewrite Hlog, Hc. lia. }
  exists g'. split_and!; [done|by etrans|done|congruence|]. intros p' Hp'. rewrite Hother' by done. by apply Hother.
Qed.

(** A message that is JSON but no event throws each time: its offset is never
    committed, and nothing behind it in the partition is. *)
Lemma malformed_message_blocks log g p o value :
  rtc (group_step consumer) (new_group log) g → g_log g p !! o = Some value →
  (∀ now a, is_ok (eachMessage consumer now value a).1 = false) → (g_committed g p ≤ o)%nat.
Proof.
  intros Hr Ho Hbad. destruct (decide (g_committed g p ≤ o)%nat) as [|Hlt]; [done|].
  destruct (group_done log g Hr p o) as (v & now & a & Hv & Hok); [apply (group_committed log g Hr); lia|].
  rewrite Ho in Hv. injection Hv as <-. by rewrite Hbad in Hok.
Qed.
End group.
End messages.

(** ** The whole way of an event *)

Section pipeline.
Context (json_parse : string → option json) (date_of : json → option ms)
        (cast_required : option json → option string) (cast_filter : option json → option string).
(** [JSON.stringify] and [toISOString]. *)
Context (json_text : json → string) (iso : ms → string).

Lemma pretty_N_go_nonempty x : ∀ s, s ≠ "" → pretty_N_go x s ≠ "".
Proof.
  induction (N.lt_wf_0 x) as [x _ IH]. intros s Hs. destruct (decide (x = 0)%N) as [->|Hx]; [by rewrite pretty_N_go_0|].
  rewrite pretty_N_go_step by lia. apply IH; [|done]. apply N.div_lt; lia.
Qed.

Lemma uuid_str_nonempty i : uuid_str i ≠ "".
Proof.
  unfold uuid_str, pretty, pretty_nat. unfold pretty, pretty_N. case_decide as H; [done|].
  rewrite pretty_N_go_step by lia. by apply pretty_N_go_nonempty.
Qed.

(** The value that the relay sends. *)
Definition event_json (m : message) : json :=
  JObj [("eventId", JStr (uuid_str (m_eventId m))); ("type", JStr (m_type m)); ("aggregateId", JStr (m_aggregateId m));
        ("occurredAt", JStr (iso (m_occurredAt m))); ("payload", m_payload m)].

Definition value_of (m : message) : option string := Some (json_text (event_json m)).

(** Kafka appends a message to the partition of its key. *)
Definition topic (partition : string → nat) (ms : list message) (p : nat) : list (option string) :=
  value_of <$> filter (λ m, partition (m_key m) = p) ms.

(** What the standard library and mongoose document, for the values of [ms]. *)
Record reads_back (ms : list message) : Prop := {
  rb_parse m : m ∈ ms → json_parse (json_text (event_json m)) = Some (event_json m);
  rb_date m : m ∈ ms → date_of (JStr (iso (m_occurredAt m))) = Some (m_occurredAt m);
  rb_required s : s ≠ "" → cast_required (Some (JStr s)) = Some s;
  rb_filter s : cast_filter (Some (JStr s)) = Some s
}.

Context (ms : list message) (Hback : reads_back ms).
Notation event_in := (event_in json_parse date_of cast_required cast_filter).
Notation group_step := (group_step json_parse date_of cast_required cast_filter).

Lemma message_fields m :
  prop "occurredAt" (event_json m) = Some (JStr (iso (m_occurredAt m))) ∧
  prop "eventId" (event_json m) = Some (JStr (uuid_str (m_eventId m))) ∧
  prop "type" (event_json m) = Some (JStr (m_type m)).
Proof. by split_and!. Qed.

Lemma event_in_message m : m ∈ ms → event_in (value_of m) = Some (event_of m).
Proof.
  intros Hm. destruct (message_fields m) as (Hat & Hid & Hty).
  unfold event_in, parse_value, value_of. cbn [mbind option_bind]. rewrite (rb_parse _ Hback) by done. cbn [mbind option_bind].
  rewrite Hat. cbn [mbind option_bind].
  rewrite (rb_date _ Hback) by done. cbn [mbind option_bind].
  by rewrite Hid, (rb_required _ Hback), Hty, (rb_filter _ Hback) by apply uuid_str_nonempty.
Qed.

Lemma in_topic partition g e :
  (∀ p, g_log g p = topic partition ms p) →
  in_log json_parse date_of cast_required cast_filter g e ↔ e ∈ event_of <$> ms.
Proof.
  intros Hlog. unfold in_log. rewrite list_elem_of_fmap. setoid_rewrite Hlog. unfold topic. split.
  - intros (p & o & value & Ho & He). apply list_elem_of_lookup_2, list_elem_of_fmap in Ho as (m & -> & [_ Hm]%list_elem_of_filter).
    rewrite event_in_message in He by done. injection He as <-. by exists m.
  - intros (m & -> & Hm). assert (m ∈ filter (λ m', partition (m_key m') = partition (m_key m)) ms) as Hf
      by by apply list_elem_of_filter.
    apply (list_elem_of_fmap_2 value_of) in Hf. apply list_elem_of_lookup in Hf as [o Ho].
    exists (partition (m_key m)), o, (value_of m). split; [done|]. by apply event_in_message.
Qed.

Lemma topic_acceptable partition g :
  (∀ p, g_log g p = topic partition ms p) → all_acceptable json_parse date_of cast_required cast_filter g.
Proof.
  intros Hlog p o value. rewrite Hlog. intros Ho. apply list_elem_of_lookup_2, list_elem_of_fmap in Ho as (m & -> & [_ Hm]%list_elem_of_filter).
  right. rewrite event_in_message by done. by eexists.
Qed.
End pipeline.

(** ** Properties *)


(** A message [null] is JSON, but reading [occurredAt] of it throws outside of
    the [try] that skips poison messages: the partition stops there. *)
Lemma null_message_blocks json_parse date_of cast_required cast_filter consumer log g p o text :
  json_parse text = Some JNull →
  rtc (group_step json_parse date_of cast_required cast_filter consumer) (new_group log) g →
  g_log g p !! o = Some (Some text) → (g_committed g p ≤ o)%nat.
Proof.
  intros Hnull Hr Ho. eapply malformed_message_blocks; [done..|]. intros now a. unfold eachMessage. cbn. by rewrite Hnull.
Qed.

(** ** Witness *)

Section witness.

Definition published_rows : list OutboxEvent :=
  [mkOutboxEvent 0 "task.started" "run-1" JNull 5 (Some 7%Z); mkOutboxEvent 1 "task.started" "run-2" JNull 86400006 (Some 7%Z)].
Definition row_messages : list message := message_of <$> published_rows.

(** The relay published the first row twice. *)
Definition demo_log : list message := (take 1 row_messages ++ row_messages)%list.
Definition demo_partition (key : string) : nat := if bool_decide (key = "run-1") then 0 else 1.

Definition demo_iso (t : ms) : string := pretty t.
Definition demo_text (j : json) : string := default "" (as_string (prop "eventId" j)).
Definition demo_parse (text : string) : option json :=
  event_json demo_iso <$> (row_messages !! (if bool_decide (text = "0") then 0 else 1)).
Definition demo_date (j : json) : option ms :=
  match j with JStr s => if bool_decide (s = "5") then Some 5%Z else Some 86400006%Z | _ => None end.
Definition demo_cast (o : option json) : option string := as_string o.

Lemma demo_back : reads_back demo_parse demo_date demo_cast demo_cast demo_text demo_iso demo_log.
Proof.
  split; [| |done|done]; intros m Hm; unfold demo_log, row_messages in Hm; cbn in Hm; repeat (apply elem_of_cons in Hm as [-> | Hm]; [vm_compute; reflexivity|]);
    by apply not_elem_of_nil in Hm.
Qed.

(** Two relays: the first publishes the first row and crashes before it marks it,
    the second finds both rows when the lock has expired. *)
Definition demo_tick : prog (RelayWorld (list message)) unit := _ ← tick 100 10000 None; Ret tt.
Definition free_lock : LockStore := mkLockStore None 0 0 0.
Definition demo_idle : RelayWorld (list message) := mkRelayWorld [] [] free_lock 7.
Definition pending (e : OutboxEvent) : OutboxEvent :=
  mkOutboxEvent (eventId e) (ev_type e) (aggregateId e) (ev_payload e) (occurredAt e) None.
Definition demo_one : RelayWorld (list message) := mkRelayWorld (pending <$> take 1 published_rows) [] free_lock 7.
Definition demo_crashed : RelayWorld (list message) := default demo_one (worlds demo_tick demo_one !! 4).
Definition demo_two : RelayWorld (list message) :=
  mkRelayWorld (pending <$> published_rows) (rw_broker demo_crashed) free_lock 7.
Definition demo_relayed : RelayWorld (list message) := (run demo_tick demo_two).2.

Example demo_relayed_eq :
  rw_outbox demo_crashed = pending <$> take 1 published_rows ∧ rw_broker demo_crashed = take 1 row_messages ∧
  rw_outbox demo_relayed = published_rows ∧ rw_broker demo_relayed = demo_log.
Proof. by vm_compute. Qed.

Lemma demo_relayed_reachable : reachable (relay_api 100) relay_outside demo_idle demo_relayed.
Proof.
  unfold demo_relayed. apply reachable_run; [constructor|]. apply (reachable_env _ _ _ demo_crashed).
  { split; [|apply (bool_decide_unpack _); vm_compute; exact I|done]. exists (pending <$> drop 1 published_rows).
    split; [by vm_compute|]. intros e (e0 & -> & _)%list_elem_of_fmap. done. }
  apply (reachable_crash _ _ demo_tick _ demo_one); [constructor| |].
  - apply (reachable_env _ _ _ demo_idle); [|apply reachable_refl].
    split; [|apply (bool_decide_unpack _); vm_compute; exact I|done]. exists (pending <$> take 1 published_rows).
    split; [done|]. intros e (e0 & -> & _)%list_elem_of_fmap. done.
  - apply (list_elem_of_lookup_2 _ 4). by vm_compute.
Qed.

(** One delivery is interrupted after its effect, and repeated. *)
Definition demo_start : Group := new_group (topic demo_text demo_iso demo_partition demo_log).
Definition demo_interrupted : Group :=
  mkGroup (g_log demo_start) ∅ (λ _, 0)
    (eachMessage demo_parse demo_date demo_cast demo_cast "analytics" 9 (Some "1") no_analytics).2.

Lemma demo_reached :
  ∃ g, rtc (group_step demo_parse demo_date demo_cast demo_cast "analytics") demo_start g ∧
    g_log g = g_log demo_start ∧ ∀ p, g_committed g p = length (g_log g p).
Proof.
  assert (all_acceptable demo_parse demo_date demo_cast demo_cast demo_interrupted) as Hacc
    by (eapply topic_acceptable; [exact demo_back|done]).
  assert (rtc (group_step demo_parse demo_date demo_cast demo_cast "analytics") demo_start demo_interrupted) as H0.
  { eapply rtc_once, (Interrupted _ _ _ _ _ 1 0 (Some "1") 9 (Ok tt)); vm_compute; reflexivity. }
  destruct (consumer_keeps_up _ _ _ _ "analytics" 9 1 1 _ _ H0 Hacc) as (g1 & _ & H1 & Hc1 & Hl1 & Ho1); [vm_compute; reflexivity|].
  assert (rtc (group_step demo_parse demo_date demo_cast demo_cast "analytics") demo_start g1) as H01 by by etrans.
  destruct (consumer_keeps_up _ _ _ _ "analytics" 9 0 2 _ g1 H01) as (g2 & _ & H2 & Hc2 & Hl2 & Ho2).
  { intros p o value. rewrite Hl1. apply Hacc. }
  { rewrite Ho1, Hl1 by done. vm_compute. reflexivity. }
  exists g2. split_and!; [by etrans|by rewrite Hl2, Hl1|]. intros p.
  destruct p as [|[|p]]; [done|by rewrite Ho2, Hc1, Hl2|]. by rewrite Ho2, Ho1, Hl2, Hl1.
Qed.
End witness.

