(* ===== verification/Double.v ===== *)
(** * JavaScript numbers

    IEEE 754 doubles with their exact rounding, executable: the Standard
    Library's [spec_float] at 53 bits of precision, with the operations of
    JavaScript that it does not have (decimal literals, [%], [toPrecision]). *)

From Stdlib Require Import SpecFloat.
From S2P Require Import Prelude.

Local Open Scope Z_scope.

Definition double : Type := spec_float.

Definition plus : double → double → double := SFadd 53 1024.
Definition minus : double → double → double := SFsub 53 1024.
Definition times : double → double → double := SFmul 53 1024.
Definition over : double → double → double := SFdiv 53 1024.
Definition negate : double → double := SFopp.
Definition absolute : double → double := SFabs.
Definition squareRoot : double → double := SFsqrt 53 1024.

(** [===] and [>] on numbers. *)
Definition same_number : double → double → bool := SFeqb.
Definition greater (x y : double) : bool := SFltb y x.

Definition isFinite (x : double) : bool :=
  match x with S754_finite _ _ _ | S754_zero _ => true | _ => false end.

(** The double nearest to an integer times a sign. *)
Definition of_integer (sx : bool) (m : Z) : double :=
  match m with
  | Zpos p => binary_round 53 1024 sx p 0
  | _ => S754_zero sx
  end.

Definition of_Z (z : Z) : double := of_integer (z <? 0) (Z.abs z).

Example of_Z_100 : of_Z 100 = S754_finite false 7036874417766400 (-46).
Proof. vm_compute. reflexivity. Qed.

(** The double nearest to [m / d], with the sign [sx]. *)
Definition of_ratio (sx : bool) (m : Z) (d : positive) : double :=
  match m with
  | Zpos p => over (S754_finite sx p 0) (S754_finite false d 0)
  | _ => S754_zero sx
  end.

Definition pow10 (k : Z) : positive := Pos.pow 10 (Z.to_pos k).

(** The double nearest to [m * 10^k]. *)
Definition of_decimal (sx : bool) (m k : Z) : double :=
  if k <? 0 then of_ratio sx m (pow10 (- k)) else of_integer sx (m * 10 ^ k).

(** [x % y]: the exact remainder, with the sign of [x]. *)
Definition remainder (x y : double) : double :=
  match x, y with
  | S754_nan, _ | _, S754_nan | S754_infinity _, _ | _, S754_zero _ => S754_nan
  | _, S754_infinity _ => x
  | S754_zero _, _ => x
  | S754_finite sx mx ex, S754_finite _ my ey =>
      let e := Z.min ex ey in
      match (Z.shiftl (Zpos mx) (ex - e)) mod (Z.shiftl (Zpos my) (ey - e)) with
      | Zpos r => binary_round 53 1024 sx r e
      | _ => S754_zero sx
      end
  end.

(** ** [Number(x.toPrecision(15))] *)

(** A positive double as a fraction. *)
Definition fraction (m : positive) (e : Z) : Z * Z :=
  if e <? 0 then (Zpos m, 2 ^ (- e)) else (Zpos m * 2 ^ e, 1).

(** [10^k <= num / den]. *)
Definition ten_power_le (k num den : Z) : bool :=
  if k <? 0 then den <=? num * 10 ^ (- k) else den * 10 ^ k <=? num.

(** The decimal exponent: the largest [k] with [10^k <= num / den], looked for
    downwards. *)
Fixpoint exponent10 (budget : nat) (k num den : Z) : Z :=
  match budget with
  | O => k
  | S budget => if ten_power_le k num den then k else exponent10 budget (k - 1) num den
  end.

(** The integer nearest to [num / den * 10^j]; the larger of two. *)
Definition scaled (j num den : Z) : Z :=
  if j <? 0 then (2 * num + den * 10 ^ (- j)) / (2 * (den * 10 ^ (- j)))
  else (2 * (num * 10 ^ j) + den) / (2 * den).

(** Doubles lie between [10^-324] and [10^309]. *)
Definition toPrecision15 (x : double) : double :=
  match x with
  | S754_zero _ => S754_zero false
  | S754_finite sx m e =>
      let '(num, den) := fraction m e in
      let j := 14 - exponent10 634 309 num den in
      of_decimal sx (scaled j num den) (- j)
  | _ => x
  end.

(** [Number(x.toFixed(digits))]: up to [10^21], the nearest decimal with so many
    digits. *)
Definition toFixed (digits : Z) (x : double) : double :=
  match x with
  | S754_zero _ => S754_zero false
  | S754_finite sx m e =>
      let '(num, den) := fraction m e in
      if 10 ^ 21 * den <=? num then x else of_decimal sx (scaled digits num den) (- digits)
  | _ => x
  end.

(** [Math.round] of a finite number: halves upwards. *)
Definition round_half_up (x : double) : Z :=
  match x with
  | S754_finite sx m e =>
      let '(num, den) := fraction m e in
      (2 * (if sx then - num else num) + den) / (2 * den)
  | _ => 0
  end.

Example rounding : round_half_up <$> [of_decimal false 25 (-1); of_decimal true 25 (-1); of_decimal false 24 (-1)] = [3; -2; 2].
Proof. vm_compute. reflexivity. Qed.

Example precision_hides_rounding :
  let sum := plus (of_decimal false 1 (-1)) (of_decimal false 2 (-1)) in
  same_number sum (of_decimal false 3 (-1)) = false ∧ toPrecision15 sum = of_decimal false 3 (-1).
Proof. vm_compute. split; reflexivity. Qed.

Example remainder_sign : remainder (of_Z (-7)) (of_Z 3) = of_Z (-1) ∧ remainder (of_Z 7) (of_Z (-3)) = of_Z 1.
Proof. vm_compute. split; reflexivity. Qed.

(** ** Facts *)

(** The search for the decimal exponent finds it. *)
Lemma exponent10_spec budget k num den :
  ten_power_le (k - Z.of_nat budget) num den = true →
  let r := exponent10 budget k num den in
  ten_power_le r num den = true ∧ (r < k → ten_power_le (r + 1) num den = false).
Proof.
  revert k. induction budget as [|budget IH]; intros k Hlow; cbn [exponent10].
  { rewrite Z.sub_0_r in Hlow. split; [done|lia]. }
  destruct (ten_power_le k num den) eqn:Hk; [split; [done|lia]|].
  destruct (IH (k - 1)) as [Hr Hn]; [by replace (k - 1 - Z.of_nat budget) with (k - Z.of_nat (S budget)) by lia|].
  split; [done|]. intros Hlt. set (r := exponent10 budget (k - 1) num den) in *.
  destruct (Z.eq_dec r (k - 1)) as [->|]; [by rewrite Z.sub_add|].
  apply Hn. assert (r ≤ k - 1); [|lia]. unfold r. clear.
  generalize (k - 1) as j. induction budget as [|b IH]; intros j; cbn [exponent10]; [lia|].
  destruct (ten_power_le _ _ _); [lia|]. specialize (IH (j - 1)). lia.
Qed.
