(* ===== verification/Calculator.v ===== *)
(** * The calculator tool ([src/ai/agent/calculator.js])

    The recursive-descent parser with its position in the source text, on fuel
    that is proved to be enough, on IEEE 754 doubles; and the grammar of its
    header, with the value that an expression should have. *)

From Stdlib Require Import Ascii SpecFloat.
From S2P Require Import Prelude Text Double.

Local Open Scope string_scope.

(** [new Error(message)]. *)
Definition calc_error (message : string) : exn := PlainErr message.

(** ** The scanner state: a position in the source text *)

(** [None]: out of fuel. *)
Definition parser (A : Type) : Type := nat → option (res (A * nat)).

#[export] Instance parser_ret : MRet parser := λ A a p, Some (Ok (a, p)).
#[export] Instance parser_bind : MBind parser := λ A B k m p,
  match m p with
  | Some (Ok (a, p')) => k a p'
  | Some (Exn e) => Some (Exn e)
  | None => None
  end.

Definition parse_throw {A} (message : string) : parser A := λ _, Some (Exn (calc_error message)).
Definition out_of_fuel {A} : parser A := λ _, None.
Definition get_pos : parser nat := λ p, Some (Ok (p, p)).
Definition advance_by (n : nat) : parser unit := λ p, Some (Ok (tt, p + n)).

Fixpoint leading (test : ascii → bool) (l : list ascii) : nat :=
  match l with c :: l' => if test c then S (leading test l') else 0 | [] => 0 end.

Definition is_blank (c : ascii) : bool := bool_decide (c = " "%char).

(** The length of the longest prefix that matches [\d+(\.\d+)?], if any does. *)
Definition match_number (l : list ascii) : option nat :=
  let whole := leading is_digit l in
  if bool_decide (whole = 0) then None
  else
    match drop whole l with
    | c :: l' =>
        let frac := leading is_digit l' in
        Some (if bool_decide (c = "."%char) && negb (bool_decide (frac = 0)) then whole + 1 + frac else whole)
    | [] => Some whole
    end.

Definition digit_value (c : ascii) : Z := Z.of_nat (nat_of_ascii c) - 48.

(** The integer that a run of digits denotes. *)
Definition digits_value (l : list ascii) : Z := foldl (λ v c, 10 * v + digit_value c)%Z 0%Z l.

(** [Number(m[0])]. *)
Definition number_value (l : list ascii) : double :=
  let whole := leading is_digit l in
  let frac := drop (S whole) l in
  of_decimal false (digits_value (take whole l ++ frac)) (- Z.of_nat (length frac)).

(** [/^[\d\s.+\-*/%^()]+$/]. *)
Definition allowed_char (c : ascii) : bool :=
  is_digit c || is_space c || bool_decide (c ∈ [".";"+";"-";"*";"/";"%";"^";"(";")"]%char).

Definition show (n : nat) : string := pretty n.

Section calculator.
(** [**] is [Number::exponentiate], which ECMAScript leaves to the engine. *)
Context (pow : double → double → double).
Context (src : list ascii).

Definition peek : parser (option ascii) := λ p, Some (Ok (src !! p, p)).
Definition skip : parser unit := λ p, Some (Ok (tt, p + leading is_blank (drop p src))).

Definition number : parser double :=
  _ ← skip;
  pos ← get_pos;
  match match_number (drop pos src) with
  | None => parse_throw ("expected a number at position " +:+ show pos)
  | Some n => _ ← advance_by n; mret (number_value (take n (drop pos src)))
  end.

(** [**] with its guard. *)
Definition power (base exponent : double) : res double :=
  if greater (absolute exponent) (of_Z 100) then Exn (calc_error "exponent too large")
  else Ok (pow base exponent).

Definition is_zero (r : double) : bool := same_number r (of_Z 0).

(** The operators of [term], with the check of the divisor. *)
Definition multiply (op : ascii) (v r : double) : res double :=
  if (bool_decide (op = "/"%char) || bool_decide (op = "%"%char)) && is_zero r
  then Exn (calc_error "division by zero")
  else Ok (if bool_decide (op = "*"%char) then times v r
           else if bool_decide (op = "/"%char) then over v r else remainder v r).

Definition add_op (op : ascii) (v r : double) : double :=
  if bool_decide (op = "+"%char) then plus v r else minus v r.

Definition is_mul_op (c : ascii) : bool := bool_decide (c ∈ ["*";"/";"%"]%char).
Definition is_add_op (c : ascii) : bool := bool_decide (c ∈ ["+";"-"]%char).

Definition lift_res {A} (r : res A) : parser A := λ p,
  Some (match r with Ok a => Ok (a, p) | Exn e => Exn e end).

Definition peek_is (c : ascii) : parser bool := o ← peek; mret (bool_decide (o = Some c)).

Fixpoint expr (fuel : nat) : parser double :=
  match fuel with
  | O => out_of_fuel
  | S fuel => v ← term fuel; expr_loop fuel v
  end
with expr_loop (fuel : nat) (v : double) : parser double :=
  match fuel with
  | O => out_of_fuel
  | S fuel =>
      _ ← skip;
      op ← peek;
      match op with
      | Some op =>
          if is_add_op op then
            _ ← advance_by 1; r ← term fuel; expr_loop fuel (add_op op v r)
          else mret v
      | None => mret v
      end
  end
with term (fuel : nat) : parser double :=
  match fuel with
  | O => out_of_fuel
  | S fuel => v ← factor fuel; term_loop fuel v
  end
with term_loop (fuel : nat) (v : double) : parser double :=
  match fuel with
  | O => out_of_fuel
  | S fuel =>
      _ ← skip;
      op ← peek;
      match op with
      | Some op =>
          if is_mul_op op then
            _ ← advance_by 1; r ← factor fuel; v ← lift_res (multiply op v r); term_loop fuel v
          else mret v
      | None => mret v
      end
  end
with factor (fuel : nat) : parser double :=
  match fuel with
  | O => out_of_fuel
  | S fuel =>
      base ← unary fuel;
      _ ← skip;
      caret ← peek_is "^"%char;
      if caret : bool then _ ← advance_by 1; exponent ← factor fuel; lift_res (power base exponent)
      else mret base
  end
with unary (fuel : nat) : parser double :=
  match fuel with
  | O => out_of_fuel
  | S fuel =>
      _ ← skip;
      dash ← peek_is "-"%char;
      if dash : bool then _ ← advance_by 1; v ← unary fuel; mret (negate v) else primary fuel
  end
with primary (fuel : nat) : parser double :=
  match fuel with
  | O => out_of_fuel
  | S fuel =>
      _ ← skip;
      paren ← peek_is "("%char;
      if paren : bool then
        _ ← advance_by 1;
        v ← expr fuel;
        _ ← skip;
        close ← peek_is ")"%char;
        if close : bool then _ ← advance_by 1; mret v else parse_throw "missing closing parenthesis"
      else number
  end.

(** Each character is visited by at most six nested calls. *)
Definition calc_fuel : nat := 6 * length src + 6.

Definition calculate : option (res double) :=
  if (200 <? length src)%nat then Some (Exn (calc_error "expression too long (max 200 chars)"))
  else if bool_decide (src = []) || negb (forallb allowed_char src) then
    Some (Exn (calc_error "only numbers and + - * / % ^ ( ) are allowed"))
  else
    match (v ← expr calc_fuel; _ ← skip; mret v) 0 with
    | None => None
    | Some (Exn e) => Some (Exn e)
    | Some (Ok (value, pos)) =>
        match src !! pos with
        | Some c => Some (Exn (calc_error ("unexpected " +:+ double_quote +:+ String c double_quote +:+ " at position " +:+ show pos)))
        | None =>
            if negb (isFinite value) then Some (Exn (calc_error "result is not a finite number"))
            else Some (Ok (toPrecision15 value))
        end
    end.
End calculator.

(** [None] never happens (see [calculator_terminates]). *)
Definition evaluateArithmetic (pow : double → double → double) (input : string) : option (res double) :=
  calculate pow (String.list_ascii_of_string input).

(** ** The grammar of the header, and the value of an expression *)

Inductive ast : Type :=
| Num (digits : list ascii)
| Neg (e : ast)
| Pow (base exponent : ast)
| Mul (op : ascii) (e1 e2 : ast)
| Add (op : ascii) (e1 e2 : ast).

(** Operands are evaluated from left to right; the first error counts. *)
Fixpoint value_of (pow : double → double → double) (e : ast) : res double :=
  match e with
  | Num ds => Ok (number_value ds)
  | Neg e => v ← value_of pow e; Ok (negate v)
  | Pow e1 e2 => v ← value_of pow e1; r ← value_of pow e2; power pow v r
  | Mul op e1 e2 => v ← value_of pow e1; r ← value_of pow e2; multiply op v r
  | Add op e1 e2 => v ← value_of pow e1; r ← value_of pow e2; Ok (add_op op v r)
  end.

Inductive nonterminal : Type := Expr | Term | Factor | Unary | Primary.

(** Digits, and maybe a point and more digits. *)
Definition is_number (ds : list ascii) : Prop := ds ≠ [] ∧ match_number ds = Some (length ds).

Definition blanks (k : nat) : list ascii := replicate k " "%char.

(** Blanks may precede every token. *)
Inductive derives : nonterminal → list ascii → ast → Prop :=
| d_number k ds : is_number ds → derives Primary (blanks k ++ ds) (Num ds)
| d_paren k s j e : derives Expr s e → derives Primary (blanks k ++ "("%char :: s ++ blanks j ++ [")"%char]) e
| d_minus k s e : derives Unary s e → derives Unary (blanks k ++ "-"%char :: s) (Neg e)
| d_primary s e : derives Primary s e → derives Unary s e
| d_power s1 k s2 e1 e2 :
    derives Unary s1 e1 → derives Factor s2 e2 → derives Factor (s1 ++ blanks k ++ "^"%char :: s2) (Pow e1 e2)
| d_unary s e : derives Unary s e → derives Factor s e
| d_term s1 k op s2 e1 e2 :
    derives Term s1 e1 → is_mul_op op = true → derives Factor s2 e2 →
    derives Term (s1 ++ blanks k ++ op :: s2) (Mul op e1 e2)
| d_factor s e : derives Factor s e → derives Term s e
| d_expr s1 k op s2 e1 e2 :
    derives Expr s1 e1 → is_add_op op = true → derives Term s2 e2 →
    derives Expr (s1 ++ blanks k ++ op :: s2) (Add op e1 e2)
| d_just_term s e : derives Term s e → derives Expr s e.

(** A whole input. *)
Definition is_expression (s : list ascii) (e : ast) : Prop := ∃ s' k, s = (s' ++ blanks k)%list ∧ derives Expr s' e.

(** ** Examples *)

(** Powers by repeated multiplication, for the examples. *)
Definition small_pow (x y : double) : double :=
  match find (λ k, same_number y (of_Z (Z.of_nat k))) (seq 0 101) with
  | Some k => Nat.iter k (times x) (of_Z 1)
  | None => S754_nan
  end.

Example precedence_and_associativity :
  let ev s := evaluateArithmetic small_pow s in
  ev "1 + 2 * 3 - 4" = Some (Ok (of_Z 3)) ∧ ev "2 ^ 3 ^ 2" = Some (Ok (of_Z 512)) ∧
  ev "-2 ^ 2" = Some (Ok (of_Z 4)) ∧ ev "(18 - 5) * 2" = Some (Ok (of_Z 26)) ∧
  ev "0.1 + 0.2" = Some (Ok (of_decimal false 3 (-1))) ∧ ev "7 / (3 - 3)" = Some (Exn (calc_error "division by zero")).
Proof. vm_compute. repeat split. Qed.

Example syntax_errors :
  let ev s := evaluateArithmetic small_pow s in
  ev "2 +" = Some (Exn (calc_error "expected a number at position 3")) ∧
  ev "(1 + 2" = Some (Exn (calc_error "missing closing parenthesis")) ∧
  ev "1." = Some (Exn (calc_error ("unexpected " +:+ double_quote +:+ "." +:+ double_quote +:+ " at position 1"))) ∧
  ev "process.exit()" = Some (Exn (calc_error "only numbers and + - * / % ^ ( ) are allowed")).
Proof. vm_compute. repeat split. Qed.
