(* ===== verification/CalculatorProps.v ===== *)
(** * The calculator computes what its grammar says

    The parser halts on every input, accepts exactly the sentences of the
    grammar, and computes the value of the expression, or its first error. *)

From Stdlib Require Import Ascii SpecFloat.
From S2P Require Import Prelude Text Double Calculator.

Local Open Scope list_scope.

(** ** Runs of characters *)

Lemma leading_le test l : leading test l ≤ length l.
Proof. induction l as [|c l IH]; simpl; [lia|]. destruct (test c); lia. Qed.

Lemma leading_app test l r :
  leading test (l ++ r) = if bool_decide (leading test l = length l) then length l + leading test r else leading test l.
Proof.
  induction l as [|c l IH]; [done|]. simpl. destruct (test c); [|done]. rewrite IH.
  do 2 case_bool_decide; lia.
Qed.

Lemma leading_take test l : leading test (take (leading test l) l) = leading test l.
Proof. induction l as [|c l IH]; simpl; [done|]. destruct (test c) eqn:Hc; simpl; [by rewrite Hc, IH|done]. Qed.

Lemma leading_head test l : (∀ c, head l = Some c → test c = false) → leading test l = 0.
Proof. destruct l as [|c l]; simpl; [done|]. intros H. by rewrite H. Qed.

Lemma leading_next test l c : head (drop (leading test l) l) = Some c → test c = false.
Proof. induction l as [|d l IH]; simpl; [done|]. destruct (test d) eqn:Hd; [done|]. by intros [= ->]. Qed.

Lemma leading_blanks k r :
  (∀ c, head r = Some c → is_blank c = false) → leading is_blank (blanks k ++ r) = k.
Proof. intros Hr. unfold blanks. induction k as [|k IH]; simpl; [by apply leading_head|by rewrite IH]. Qed.

Lemma blanks_leading l : l = blanks (leading is_blank l) ++ drop (leading is_blank l) l.
Proof.
  induction l as [|c l IH]; [done|]. simpl. destruct (is_blank c) eqn:Hc; [|done].
  unfold is_blank in Hc. apply bool_decide_eq_true in Hc as ->. simpl. f_equal. exact IH.
Qed.

Lemma blanks_add j k l : blanks j ++ blanks k ++ l = blanks (j + k) ++ l.
Proof. unfold blanks. by rewrite app_assoc, replicate_add. Qed.

(** ** Number literals *)

Lemma match_number_take l n :
  match_number l = Some n → is_number (take n l) ∧ l = take n l ++ drop n l ∧ n = length (take n l).
Proof.
  intros Hm. assert (n ≠ 0 ∧ n ≤ length l ∧ match_number (take n l) = Some n) as (Hn & Hle & Ht).
  { unfold match_number in *. pose proof (leading_le is_digit l) as Hl. pose proof (leading_take is_digit l) as Hlt.
    set (whole := leading is_digit l) in *. case_bool_decide as Hw; [done|].
    assert (Hdt : drop whole (take whole l) = []) by (rewrite drop_ge by (rewrite length_take; lia); done).
    assert (Hshort : bool_decide (whole = 0) = false) by by apply bool_decide_eq_false_2.
    destruct (drop whole l) as [|c l'] eqn:Hd.
    { injection Hm as <-. by rewrite Hlt, Hdt, Hshort. }
    assert (Hlen : length l = whole + S (length l')).
    { apply (f_equal length) in Hd. rewrite length_drop in Hd. simpl in Hd. lia. }
    pose proof (leading_le is_digit l') as Hf'. pose proof (leading_take is_digit l') as Hft.
    set (f := leading is_digit l') in *.
    destruct (bool_decide (c = "."%char) && negb (bool_decide (f = 0))) eqn:Hc; injection Hm as <-;
      [|by rewrite Hlt, Hdt, Hshort].
    apply andb_true_iff in Hc as [Hc Hf]. rewrite bool_decide_eq_true in Hc. subst c.
    assert (take (whole + 1 + f) l = take whole l ++ "."%char :: take f l') as ->.
    { rewrite <- (take_drop whole l) at 1. rewrite Hd, take_app_ge, length_take_le by (rewrite ?length_take; lia).
      do 2 f_equal. by replace (whole + 1 + f - whole) with (S f) by lia. }
    assert (leading is_digit (take whole l ++ "."%char :: take f l') = whole) as ->.
    { rewrite leading_app, Hlt, length_take_le, bool_decide_eq_true_2 by lia. simpl. lia. }
    rewrite Hshort, drop_app_length' by (rewrite length_take; lia). rewrite Hft, Hf.
    split_and!; [lia|lia|done]. }
  assert (n = length (take n l)) as Heq by (rewrite length_take; lia).
  split_and!; [|by rewrite take_drop|done]. split; [|by rewrite <- Heq].
  intros He. rewrite He in Heq. done.
Qed.

(** The text after a number does not continue it. *)
Definition number_stop (r : list ascii) : Prop := ∀ c, head r = Some c → is_digit c = false ∧ c ≠ "."%char.

Lemma match_number_app ds r : is_number ds → number_stop r → match_number (ds ++ r) = Some (length ds).
Proof.
  intros [Hne Hm] Hr. unfold match_number in *. rewrite leading_app. pose proof (leading_le is_digit ds) as Hle.
  assert (Hr0 : leading is_digit r = 0) by (apply leading_head; intros c Hc; by apply Hr).
  set (whole := leading is_digit ds) in *. destruct (bool_decide (whole = 0)) eqn:Hw; [done|].
  destruct (decide (whole = length ds)) as [Hall|Hall];
    [rewrite (bool_decide_eq_true_2 (whole = length ds)) by done|rewrite (bool_decide_eq_false_2 (whole = length ds)) by done].
  - rewrite Hr0, Nat.add_0_r. rewrite <- Hall, Hw. rewrite Hall, drop_app_length.
    destruct r as [|c r]; [done|]. destruct (Hr c) as [_ Hdot]; [done|]. by rewrite bool_decide_eq_false_2.
  - rewrite Hw. rewrite drop_app_le by lia. destruct (drop whole ds) as [|c l'] eqn:Hd; [injection Hm; lia|]. cbn [app].
    assert (leading is_digit (l' ++ r) = leading is_digit l') as ->; [|done].
    rewrite leading_app, Hr0, Nat.add_0_r. by destruct (bool_decide_reflect (leading is_digit l' = length l')).
Qed.

(** ** The parser never runs out of fuel *)

(** [m], started at [p], halts; a result satisfies [Q]. *)
Definition halts {A} (m : parser A) (p : nat) (Q : A → nat → Prop) : Prop :=
  match m p with Some (Ok (a, p')) => Q a p' | Some (Exn _) => True | None => False end.

Lemma halts_bind {A B} (m : parser A) (k : A → parser B) p Q :
  halts m p (λ a p', halts (k a) p' Q) → halts (m ≫= k) p Q.
Proof. unfold halts, mbind, parser_bind. by destruct (m p) as [[[a p']|e]|]. Qed.

Lemma halts_weaken {A} (m : parser A) p (Q Q' : A → nat → Prop) :
  halts m p Q → (∀ a p', Q a p' → Q' a p') → halts m p Q'.
Proof. unfold halts. destruct (m p) as [[[a p']|e]|]; auto. Qed.

Section facts.
Context (pow : double → double → double) (src : list ascii).
Notation rest p := (drop p src).

Definition skip_to (p : nat) : nat := p + leading is_blank (rest p).

Lemma skip_to_le p : p ≤ length src → p ≤ skip_to p ≤ length src.
Proof.
  intros Hp. unfold skip_to. pose proof (leading_le is_blank (rest p)) as H. rewrite length_drop in H. lia.
Qed.

Lemma halts_skip {B} (k : unit → parser B) p Q : halts (k tt) (skip_to p) Q → halts (skip src ≫= k) p Q.
Proof. done. Qed.

(** Looking at the next character: it is one only before the end. *)
Lemma halts_peek_is {B} c (k : bool → parser B) p Q :
  (src !! p = Some c → p < length src → halts (k true) p Q) → halts (k false) p Q →
  halts (peek_is src c ≫= k) p Q.
Proof.
  intros Ht Hf. change (halts (k (bool_decide (src !! p = Some c))) p Q).
  destruct (bool_decide_reflect (src !! p = Some c)) as [Hc|]; [|done].
  apply Ht; [done|]. by apply lookup_lt_Some in Hc.
Qed.

Lemma number_halts p : p ≤ length src → halts (number src) p (λ _ p', p ≤ p' ≤ length src).
Proof.
  intros Hp. unfold number. apply halts_skip. apply skip_to_le in Hp. apply halts_bind. cbn.
  destruct (match_number _) as [n|] eqn:Hn; [|done]. apply match_number_take in Hn as (_ & _ & Hn).
  rewrite length_take, length_drop in Hn. change (p ≤ skip_to p + n ≤ length src). lia.
Qed.

Lemma halts_advance {B} n (k : unit → parser B) p Q : halts (k tt) (p + n) Q → halts (advance_by n ≫= k) p Q.
Proof. done. Qed.

Lemma halts_lift {A B} (r : res A) (k : A → parser B) p Q : (∀ a, halts (k a) p Q) → halts (lift_res r ≫= k) p Q.
Proof. intros H. apply halts_bind. unfold halts at 1, lift_res. destruct r; [apply H|done]. Qed.

Lemma halts_peek {B} (k : option ascii → parser B) p Q :
  (∀ c, src !! p = Some c → p < length src → halts (k (Some c)) p Q) → halts (k None) p Q →
  halts (peek src ≫= k) p Q.
Proof.
  intros Ht Hf. apply halts_bind. unfold halts, peek. cbn. destruct (src !! p) as [c|] eqn:Hc; [|done].
  apply Ht; [done|]. by apply lookup_lt_Some in Hc.
Qed.

Abbreviation progress := (λ (p : nat) (_ : double) (p' : nat), p ≤ p' ≤ length src).

(** Run a parser that is known to halt, then the rest; or last. *)
#[local] Ltac exact_halts H := eapply halts_weaken; [apply H; lia|cbn; intros; lia].
#[local] Ltac seq_halts H :=
  apply halts_bind; eapply halts_weaken; [apply H; lia|];
  let v := fresh "v" in let q := fresh "q" in let Hq := fresh "Hq" in intros v q Hq; cbn beta in Hq |- *.
#[local] Ltac peek_halts op H :=
  apply halts_peek; [intros op H ?|cbn; lia].

Lemma parsers_halt n :
  (∀ p, p ≤ length src → 6 * (length src - p) + 5 ≤ n → halts (expr pow src n) p (progress p)) ∧
  (∀ v p, p ≤ length src → 6 * (length src - p) + 1 ≤ n → halts (expr_loop pow src n v) p (progress p)) ∧
  (∀ p, p ≤ length src → 6 * (length src - p) + 4 ≤ n → halts (term pow src n) p (progress p)) ∧
  (∀ v p, p ≤ length src → 6 * (length src - p) + 1 ≤ n → halts (term_loop pow src n v) p (progress p)) ∧
  (∀ p, p ≤ length src → 6 * (length src - p) + 3 ≤ n → halts (factor pow src n) p (progress p)) ∧
  (∀ p, p ≤ length src → 6 * (length src - p) + 2 ≤ n → halts (unary pow src n) p (progress p)) ∧
  (∀ p, p ≤ length src → 6 * (length src - p) + 1 ≤ n → halts (primary pow src n) p (progress p)).
Proof.
  induction n as [|n (IHe & IHel & IHt & IHtl & IHf & IHu & IHp)]; [split_and!; intros; lia|].
  split_and!; cbn [expr expr_loop term term_loop factor unary primary].
  - intros p Hp Hn. seq_halts IHt. exact_halts IHel.
  - intros v p Hp Hn. apply halts_skip. apply skip_to_le in Hp. peek_halts op Hop.
    destruct (is_add_op op); [|cbn; lia]. apply halts_advance. seq_halts IHt. exact_halts IHel.
  - intros p Hp Hn. seq_halts IHf. exact_halts IHtl.
  - intros v p Hp Hn. apply halts_skip. apply skip_to_le in Hp. peek_halts op Hop.
    destruct (is_mul_op op); [|cbn; lia]. apply halts_advance. seq_halts IHf.
    apply halts_lift. intros v'. exact_halts IHtl.
  - intros p Hp Hn. seq_halts IHu. apply halts_skip. assert (H := skip_to_le q ltac:(lia)).
    apply halts_peek_is; [intros _ Hlt|cbn; lia]. apply halts_advance. seq_halts IHf.
    unfold halts, lift_res. destruct (power _ _ _); [lia|done].
  - intros p Hp Hn. apply halts_skip. assert (H := skip_to_le p Hp).
    apply halts_peek_is; [intros _ Hlt; apply halts_advance; seq_halts IHu; cbn; lia|]. exact_halts IHp.
  - intros p Hp Hn. apply halts_skip. assert (H := skip_to_le p Hp).
    apply halts_peek_is; [intros _ Hlt|exact_halts number_halts]. apply halts_advance. seq_halts IHe.
    apply halts_skip. assert (H' := skip_to_le q ltac:(lia)).
    apply halts_peek_is; [intros _ Hlt'; change (p ≤ skip_to q + 1 ≤ length src); lia|done].
Qed.
(** ** More fuel changes nothing *)

Lemma expr_S n : expr pow src (S n) = (v ← term pow src n; expr_loop pow src n v).
Proof. done. Qed.
Lemma expr_loop_S n v : expr_loop pow src (S n) v =
  (_ ← skip src; op ← peek src;
   match op with
   | Some op =>
       if is_add_op op then
         _ ← advance_by 1; r ← term pow src n; expr_loop pow src n (add_op op v r)
       else mret v
   | None => mret v
   end).
Proof. done. Qed.
Lemma term_S n : term pow src (S n) = (v ← factor pow src n; term_loop pow src n v).
Proof. done. Qed.
Lemma term_loop_S n v : term_loop pow src (S n) v =
  (_ ← skip src; op ← peek src;
   match op with
   | Some op =>
       if is_mul_op op then
         _ ← advance_by 1; r ← factor pow src n; v ← lift_res (multiply op v r); term_loop pow src n v
       else mret v
   | None => mret v
   end).
Proof. done. Qed.
Lemma factor_S n : factor pow src (S n) =
  (base ← unary pow src n; _ ← skip src; caret ← peek_is src "^"%char;
   if caret : bool then _ ← advance_by 1; exponent ← factor pow src n; lift_res (power pow base exponent)
   else mret base).
Proof. done. Qed.
Lemma unary_S n : unary pow src (S n) =
  (_ ← skip src; dash ← peek_is src "-"%char;
   if dash : bool then _ ← advance_by 1; v ← unary pow src n; mret (negate v) else primary pow src n).
Proof. done. Qed.
Lemma primary_S n : primary pow src (S n) =
  (_ ← skip src; paren ← peek_is src "("%char;
   if paren : bool then
     _ ← advance_by 1; v ← expr pow src n; _ ← skip src; close ← peek_is src ")"%char;
     if close : bool then _ ← advance_by 1; mret v else parse_throw "missing closing parenthesis"
   else number src).
Proof. done. Qed.

(** [m'] gives every answer of [m]. *)
Definition extends {A} (m m' : parser A) : Prop := ∀ p r, m p = Some r → m' p = Some r.

Lemma extends_refl {A} (m : parser A) : extends m m.
Proof. by intros p r. Qed.

Lemma extends_bind {A B} (m m' : parser A) (k k' : A → parser B) :
  extends m m' → (∀ a, extends (k a) (k' a)) → extends (m ≫= k) (m' ≫= k').
Proof.
  intros Hm Hk p r. unfold mbind, parser_bind. destruct (m p) as [x|] eqn:Hp; [|done].
  rewrite (Hm _ _ Hp). destruct x as [[a p']|e]; [apply Hk|done].
Qed.

Lemma parsers_grow n :
  extends (expr pow src n) (expr pow src (S n)) ∧ (∀ v, extends (expr_loop pow src n v) (expr_loop pow src (S n) v)) ∧
  extends (term pow src n) (term pow src (S n)) ∧ (∀ v, extends (term_loop pow src n v) (term_loop pow src (S n) v)) ∧
  extends (factor pow src n) (factor pow src (S n)) ∧ extends (unary pow src n) (unary pow src (S n)) ∧
  extends (primary pow src n) (primary pow src (S n)).
Proof.
  induction n as [|n (IHe & IHel & IHt & IHtl & IHf & IHu & IHp)]; [by split_and!|].
  rewrite (expr_S n), (expr_S (S n)), (term_S n), (term_S (S n)), (factor_S n), (factor_S (S n)),
    (unary_S n), (unary_S (S n)), (primary_S n), (primary_S (S n)).
  split_and!; try (intros v; rewrite ?expr_loop_S, ?(expr_loop_S (S n)), ?term_loop_S, ?(term_loop_S (S n)));
    repeat (assumption || apply extends_refl || apply IHel || apply IHtl ||
            (apply extends_bind; [|intros ?]) || case_match).
Qed.

Lemma expr_grows n n' p r : n ≤ n' → expr pow src n p = Some r → expr pow src n' p = Some r.
Proof. intros Hle Hr. induction Hle as [|n' _ IH]; [done|]. by apply parsers_grow. Qed.

(** ** Answers for all large enough fuels *)

Definition eventually {A} (f : nat → parser A) (p : nat) (r : res (A * nat)) : Prop :=
  ∃ n0, ∀ n, n0 ≤ n → f n p = Some r.

Lemma eventually_S {A} (f g : nat → parser A) p r :
  (∀ n, f (S n) = g n) → eventually g p r → eventually f p r.
Proof.
  intros He [n0 H]. exists (S n0). intros [|n] Hn; [lia|]. rewrite He. apply H. lia.
Qed.

Lemma eventually_ok {A B} (f : nat → parser A) (k : nat → A → parser B) p a p' r :
  eventually f p (Ok (a, p')) → eventually (λ n, k n a) p' r → eventually (λ n, f n ≫= k n) p r.
Proof.
  intros [n1 H1] [n2 H2]. exists (n1 + n2). intros n Hn. unfold mbind, parser_bind.
  rewrite H1 by lia. apply H2. lia.
Qed.

Lemma eventually_exn {A B} (f : nat → parser A) (k : nat → A → parser B) p e :
  eventually f p (Exn e) → eventually (λ n, f n ≫= k n) p (Exn e).
Proof. intros [n1 H1]. exists n1. intros n Hn. unfold mbind, parser_bind. by rewrite H1 by lia. Qed.

Lemma eventually_now {A} (m : parser A) p r : m p = Some r → eventually (λ _, m) p r.
Proof. intros H. by exists 0. Qed.

(** ** Sentences of the grammar are computed *)

Lemma skip_to_blanks p k r :
  rest p = blanks k ++ r → (∀ c, head r = Some c → is_blank c = false) → skip_to p = p + k ∧ rest (p + k) = r.
Proof.
  intros Hp Hr. unfold skip_to. rewrite Hp, leading_blanks by done. split; [done|].
  rewrite <- drop_drop, Hp. unfold blanks. by rewrite drop_app_length' by (by rewrite length_replicate).
Qed.

Lemma skip_to_idemp p : skip_to (skip_to p) = skip_to p.
Proof.
  unfold skip_to at 1. rewrite leading_head; [lia|]. unfold skip_to. rewrite <- drop_drop. apply leading_next.
Qed.

Lemma rest_app p s r : rest p = s ++ r → rest (p + length s) = r.
Proof. intros Hp. by rewrite <- drop_drop, Hp, drop_app_length. Qed.

Lemma rest_head p c r : rest p = c :: r → src !! p = Some c ∧ rest (p + 1) = r.
Proof.
  intros Hp. split; [|by rewrite <- drop_drop, Hp].
  rewrite <- (Nat.add_0_r p), <- lookup_drop, Hp. done.
Qed.

Lemma rest_lookup p : src !! p = head (rest p).
Proof. by rewrite <- (Nat.add_0_r p) at 1; rewrite <- lookup_drop, head_lookup. Qed.

(** The first character after blanks. *)
Definition next_token (r : list ascii) : option ascii := head (drop (leading is_blank r) r).

Lemma lookup_skip_to p : src !! skip_to p = next_token (rest p).
Proof. rewrite rest_lookup. unfold skip_to, next_token. by rewrite <- drop_drop. Qed.

Lemma next_token_blanks k r : (∀ c, head r = Some c → is_blank c = false) → next_token (blanks k ++ r) = head r.
Proof.
  intros Hr. unfold next_token. rewrite leading_blanks by done. unfold blanks.
  by rewrite drop_app_length' by (by rewrite length_replicate).
Qed.

(** What may follow a factor and a term. *)
Definition factor_stop (r : list ascii) : Prop := number_stop r ∧ next_token r ≠ Some "^"%char.
Definition term_stop (r : list ascii) : Prop := factor_stop r ∧ ∀ c, next_token r = Some c → is_mul_op c = false.
Definition expr_stop (r : list ascii) : Prop := term_stop r ∧ ∀ c, next_token r = Some c → is_add_op c = false.

(** A character that ends a number, like the operators and the parentheses. *)
Definition punctuation (c : ascii) : Prop := is_digit c = false ∧ c ≠ "."%char ∧ is_blank c = false.

Lemma number_stop_token k c r : punctuation c → number_stop (blanks k ++ c :: r).
Proof. intros (Hd & Hc & _) d. by destruct k; intros [= <-]. Qed.

Lemma next_token_cons k c r : punctuation c → next_token (blanks k ++ c :: r) = Some c.
Proof. intros (_ & _ & Hb). by rewrite next_token_blanks by (by intros d [= <-]). Qed.

Lemma add_op_punctuation c : is_add_op c = true → punctuation c ∧ c ≠ "^"%char ∧ is_mul_op c = false.
Proof. unfold is_add_op. intros H%bool_decide_eq_true. by repeat (apply elem_of_cons in H as [->|H]); [..|by apply not_elem_of_nil in H]. Qed.

Lemma mul_op_punctuation c : is_mul_op c = true → punctuation c ∧ c ≠ "^"%char.
Proof. unfold is_mul_op. intros H%bool_decide_eq_true. by repeat (apply elem_of_cons in H as [->|H]); [..|by apply not_elem_of_nil in H]. Qed.

Lemma factor_stop_op k c r : punctuation c → c ≠ "^"%char → factor_stop (blanks k ++ c :: r).
Proof. intros Hp Hc. split; [by apply number_stop_token|]. rewrite next_token_cons by done. congruence. Qed.

Lemma term_stop_op k c r : punctuation c → c ≠ "^"%char → is_mul_op c = false → term_stop (blanks k ++ c :: r).
Proof. intros Hp Hc Hm. split; [by apply factor_stop_op|]. rewrite next_token_cons by done. by intros d [= <-]. Qed.

Lemma expr_stop_close k r : expr_stop (blanks k ++ ")"%char :: r).
Proof. split; [by apply term_stop_op|]. rewrite next_token_cons by done. by intros d [= <-]. Qed.

Lemma expr_stop_end k : expr_stop (blanks k).
Proof.
  assert (next_token (blanks k) = None) as Hn by (rewrite <- (app_nil_r (blanks k)); by apply next_token_blanks).
  split; [split; [split; [|by rewrite Hn]|by rewrite Hn]|by rewrite Hn]. intros c. by destruct k; intros [= <-].
Qed.

(** The answer of a parser that has read a text up to [p]. *)
Definition answer_at (p : nat) (r : res double) : res (double * nat) := (λ v, (v, p)) <$> r.

(** Each non-terminal has its parser; those of terms and expressions are read
    with what their loops do next. *)
Definition computes (nt : nonterminal) (s : list ascii) (e : ast) : Prop :=
  match nt with
  | Primary => ∀ p r, rest p = s ++ r → number_stop r →
      eventually (primary pow src) p (answer_at (p + length s) (value_of pow e))
  | Unary => ∀ p r, rest p = s ++ r → number_stop r →
      eventually (unary pow src) p (answer_at (p + length s) (value_of pow e))
  | Factor => ∀ p r, rest p = s ++ r → factor_stop r →
      eventually (factor pow src) p (answer_at (skip_to (p + length s)) (value_of pow e))
  | Term => ∀ p r out, rest p = s ++ r → factor_stop r →
      match value_of pow e with
      | Ok v => eventually (λ n, term_loop pow src n v) (p + length s) out
      | Exn m => out = Exn m
      end → eventually (term pow src) p out
  | Expr => ∀ p r out, rest p = s ++ r → term_stop r →
      match value_of pow e with
      | Ok v => eventually (λ n, expr_loop pow src n v) (p + length s) out
      | Exn m => out = Exn m
      end → eventually (expr pow src) p out
  end.

Lemma eventually_skip {B} (k : nat → unit → parser B) p r :
  eventually (λ n, k n tt) (skip_to p) r → eventually (λ n, skip src ≫= k n) p r.
Proof. done. Qed.

Lemma eventually_advance {B} m (k : nat → unit → parser B) p r :
  eventually (λ n, k n tt) (p + m) r → eventually (λ n, advance_by m ≫= k n) p r.
Proof. done. Qed.

Lemma eventually_peek {B} (k : nat → option ascii → parser B) p r :
  eventually (λ n, k n (src !! p)) p r → eventually (λ n, peek src ≫= k n) p r.
Proof. done. Qed.

Lemma eventually_peek_is {B} c b (k : nat → bool → parser B) p r :
  bool_decide (src !! p = Some c) = b →
  eventually (λ n, k n b) p r → eventually (λ n, peek_is src c ≫= k n) p r.
Proof. by intros <-. Qed.

(** The loops start with [skip]. *)
Lemma term_loop_skip v p out :
  eventually (λ n, term_loop pow src n v) p out → eventually (λ n, term_loop pow src n v) (skip_to p) out.
Proof.
  intros [n0 H]. exists (S n0). intros [|n] Hn; [lia|]. rewrite <- (H (S n)) by lia. rewrite term_loop_S.
  unfold skip, mbind at 1, mbind at 2, parser_bind. fold (skip_to (skip_to p)). fold (skip_to p). by rewrite skip_to_idemp.
Qed.

Lemma expr_loop_skip v p out :
  eventually (λ n, expr_loop pow src n v) p out → eventually (λ n, expr_loop pow src n v) (skip_to p) out.
Proof.
  intros [n0 H]. exists (S n0). intros [|n] Hn; [lia|]. rewrite <- (H (S n)) by lia. rewrite expr_loop_S.
  unfold skip, mbind at 1, mbind at 2, parser_bind. fold (skip_to (skip_to p)). fold (skip_to p). by rewrite skip_to_idemp.
Qed.

Lemma primary_skip p out : eventually (primary pow src) p out → eventually (primary pow src) (skip_to p) out.
Proof.
  intros [n0 H]. exists (S n0). intros [|n] Hn; [lia|]. rewrite <- (H (S n)) by lia. rewrite primary_S.
  unfold skip, mbind at 1, mbind at 3, parser_bind. fold (skip_to (skip_to p)). fold (skip_to p). by rewrite skip_to_idemp.
Qed.

(** They stop where nothing continues the expression. *)
Lemma term_loop_stops v p r :
  rest p = r → (∀ c, next_token r = Some c → is_mul_op c = false) →
  eventually (λ n, term_loop pow src n v) p (Ok (v, skip_to p)).
Proof.
  intros Hp Hr. eapply eventually_S; [intros n; apply term_loop_S|]. apply eventually_skip, eventually_peek.
  rewrite lookup_skip_to, Hp. destruct (next_token r) as [c|]; [rewrite Hr by done|]; by apply eventually_now.
Qed.

Lemma expr_loop_stops v p r :
  rest p = r → (∀ c, next_token r = Some c → is_add_op c = false) →
  eventually (λ n, expr_loop pow src n v) p (Ok (v, skip_to p)).
Proof.
  intros Hp Hr. eapply eventually_S; [intros n; apply expr_loop_S|]. apply eventually_skip, eventually_peek.
  rewrite lookup_skip_to, Hp. destruct (next_token r) as [c|]; [rewrite Hr by done|]; by apply eventually_now.
Qed.

Lemma operator_at p k c r :
  rest p = blanks k ++ c :: r → punctuation c → skip_to p = p + k ∧ src !! (p + k) = Some c ∧ rest (p + k + 1) = r.
Proof.
  intros Hp (_ & _ & Hb). destruct (skip_to_blanks p k (c :: r) Hp) as [Hs Hr]; [by intros d [= <-]|].
  split; [done|]. by apply rest_head.
Qed.

(** One round of the loops. *)
Lemma term_loop_round v1 p k op s2 e2 r out :
  rest p = blanks k ++ op :: s2 ++ r → is_mul_op op = true → computes Factor s2 e2 → factor_stop r →
  match (v2 ← value_of pow e2; multiply op v1 v2) with
  | Ok v => eventually (λ n, term_loop pow src n v) (p + k + 1 + length s2) out
  | Exn m => out = Exn m
  end → eventually (λ n, term_loop pow src n v1) p out.
Proof.
  intros Hp Hop Hc Hr Hout. destruct (mul_op_punctuation op Hop) as [Hpun _].
  destruct (operator_at _ _ _ _ Hp Hpun) as (Hs & Hop' & Hrest).
  eapply eventually_S; [intros n; apply term_loop_S|]. apply eventually_skip, eventually_peek.
  rewrite Hs, Hop', Hop. apply eventually_advance. specialize (Hc _ _ Hrest Hr).
  destruct (value_of pow e2) as [v2|m]; cbn in Hout, Hc; [|subst out; by apply eventually_exn].
  eapply eventually_ok; [exact Hc|]. destruct (multiply op v1 v2) as [v|m] eqn:Hm.
  - eapply eventually_ok; [by apply eventually_now|]. by apply term_loop_skip.
  - subst out. by apply eventually_exn, eventually_now.
Qed.

Lemma expr_loop_round v1 p k op s2 e2 r out :
  rest p = blanks k ++ op :: s2 ++ r → is_add_op op = true → computes Term s2 e2 → term_stop r →
  match value_of pow e2 with
  | Ok v2 => eventually (λ n, expr_loop pow src n (add_op op v1 v2)) (p + k + 1 + length s2) out
  | Exn m => out = Exn m
  end → eventually (λ n, expr_loop pow src n v1) p out.
Proof.
  intros Hp Hop Hc [Hr Hmul] Hout. destruct (add_op_punctuation op Hop) as [Hpun _].
  destruct (operator_at _ _ _ _ Hp Hpun) as (Hs & Hop' & Hrest).
  eapply eventually_S; [intros n; apply expr_loop_S|]. apply eventually_skip, eventually_peek.
  rewrite Hs, Hop', Hop. apply eventually_advance. pose proof (Hc _ _ (answer_at (skip_to (p + k + 1 + length s2)) (value_of pow e2)) Hrest Hr) as H.
  destruct (value_of pow e2) as [v2|m].
  - eapply eventually_ok; [apply H; eapply term_loop_stops; [by apply rest_app|done]|]. by apply expr_loop_skip.
  - subst out. apply eventually_exn. by apply H.
Qed.

Lemma computes_power s1 k s2 e1 e2 :
  computes Unary s1 e1 → computes Factor s2 e2 → computes Factor (s1 ++ blanks k ++ "^"%char :: s2) (Pow e1 e2).
Proof.
  intros H1 H2 p r Hp Hr. rewrite <- !app_assoc in Hp. simpl in Hp.
  assert (Hpun : punctuation "^"%char) by done. pose proof (rest_app _ _ _ Hp) as Hp1.
  destruct (operator_at _ _ _ _ Hp1 Hpun) as (Hs & Hop & Hrest).
  specialize (H1 _ _ Hp (number_stop_token k _ _ Hpun)). specialize (H2 _ _ Hrest Hr).
  eapply eventually_S; [intros n; apply factor_S|]. cbn [value_of].
  destruct (value_of pow e1) as [v1|m]; [|by apply eventually_exn].
  eapply eventually_ok; [exact H1|]. apply eventually_skip. rewrite Hs.
  eapply eventually_peek_is; [by apply bool_decide_eq_true_2|]. apply eventually_advance.
  replace (p + length (s1 ++ blanks k ++ "^"%char :: s2)) with (p + length s1 + k + 1 + length s2)
    by (unfold blanks; rewrite !length_app, length_replicate; simpl; lia).
  destruct (value_of pow e2) as [v2|m]; [|by apply eventually_exn].
  eapply eventually_ok; [exact H2|]. apply eventually_now. unfold lift_res. cbn. by destruct (power pow v1 v2).
Qed.

Lemma computes_unary_factor s e : computes Unary s e → computes Factor s e.
Proof.
  intros H p r Hp [Hr Ht]. specialize (H _ _ Hp Hr). eapply eventually_S; [intros n; apply factor_S|].
  destruct (value_of pow e) as [v|m]; [|by apply eventually_exn].
  eapply eventually_ok; [exact H|]. apply eventually_skip. apply (eventually_peek_is _ false); [|by apply eventually_now].
  apply bool_decide_eq_false_2. rewrite lookup_skip_to. by rewrite (rest_app _ _ _ Hp).
Qed.

Lemma computes_minus k s e : computes Unary s e → computes Unary (blanks k ++ "-"%char :: s) (Neg e).
Proof.
  intros H p r Hp Hr. rewrite <- app_assoc in Hp. simpl in Hp.
  destruct (operator_at _ _ _ _ Hp) as (Hs & Hop & Hrest); [done|]. specialize (H _ _ Hrest Hr).
  eapply eventually_S; [intros n; apply unary_S|]. apply eventually_skip. rewrite Hs.
  eapply eventually_peek_is; [by apply bool_decide_eq_true_2|]. apply eventually_advance. cbn [value_of].
  replace (p + length (blanks k ++ "-"%char :: s)) with (p + k + 1 + length s)
    by (unfold blanks; rewrite length_app, length_replicate; simpl; lia).
  destruct (value_of pow e) as [v|m]; [|by apply eventually_exn].
  eapply eventually_ok; [exact H|]. by apply eventually_now.
Qed.

(** A primary starts with a parenthesis or a digit. *)
Lemma primary_start s e r : derives Primary s e → ∃ c, next_token (s ++ r) = Some c ∧ c ≠ "-"%char.
Proof.
  inversion 1 as [k ds Hds| k s' j e' Hs'| | | | | | | | ]; subst.
  - destruct Hds as [Hne Hm]. destruct ds as [|c ds]; [done|]. exists c.
    assert (is_digit c = true) as Hc by (unfold match_number in Hm; simpl in Hm; by destruct (is_digit c)).
    rewrite <- app_assoc. rewrite next_token_blanks; [|intros d [= <-]].
    + split; [done|]. by intros ->.
    + unfold is_blank. apply bool_decide_eq_false_2. by intros ->.
  - exists "("%char. rewrite <- app_assoc. simpl. by rewrite next_token_cons.
Qed.

Lemma computes_primary s e : derives Primary s e → computes Primary s e → computes Unary s e.
Proof.
  intros Hd H p r Hp Hr. specialize (H _ _ Hp Hr). destruct (primary_start s e r Hd) as (c & Hc & Hne).
  eapply eventually_S; [intros n; apply unary_S|]. apply eventually_skip.
  apply (eventually_peek_is _ false); [|by apply primary_skip]. apply bool_decide_eq_false_2.
  rewrite lookup_skip_to, Hp, Hc. congruence.
Qed.

Lemma computes_paren k s j e :
  computes Expr s e → computes Primary (blanks k ++ "("%char :: s ++ blanks j ++ [")"%char]) e.
Proof.
  intros H p r Hp Hr. rewrite <- app_assoc in Hp. simpl in Hp. rewrite <- !app_assoc in Hp. simpl in Hp.
  destruct (operator_at _ _ _ _ Hp) as (Hs & Hop & Hrest); [done|].
  pose proof (expr_stop_close j r) as [Ht Hadd]. pose proof (rest_app _ _ _ Hrest) as Hclose.
  destruct (operator_at _ _ _ _ Hclose) as (Hs' & Hop' & _); [done|].
  specialize (H _ _ (answer_at (skip_to (p + k + 1 + length s)) (value_of pow e)) Hrest Ht).
  eapply eventually_S; [intros n; apply primary_S|]. apply eventually_skip. rewrite Hs.
  eapply eventually_peek_is; [by apply bool_decide_eq_true_2|]. apply eventually_advance.
  replace (p + length (blanks k ++ "("%char :: s ++ blanks j ++ [")"%char])) with (p + k + 1 + length s + j + 1)
    by (unfold blanks; rewrite !length_app; simpl; rewrite !length_app, !length_replicate; simpl; lia).
  destruct (value_of pow e) as [v|m]; [|by apply eventually_exn, H].
  eapply eventually_ok; [apply H; by eapply expr_loop_stops|]. apply eventually_skip. rewrite skip_to_idemp, Hs'.
  eapply eventually_peek_is; [by apply bool_decide_eq_true_2|]. apply eventually_advance. by apply eventually_now.
Qed.

Lemma operator_length p s1 k c s2 : p + length (s1 ++ blanks k ++ c :: s2) = p + length s1 + k + 1 + length s2.
Proof. unfold blanks. rewrite !length_app, length_replicate. simpl. lia. Qed.

Lemma digit_starts ds : is_number ds → ∃ c ds', ds = c :: ds' ∧ is_digit c = true.
Proof.
  intros [Hne Hm]. destruct ds as [|c ds]; [done|]. exists c, ds. split; [done|].
  unfold match_number in Hm. simpl in Hm. by destruct (is_digit c).
Qed.

Lemma digit_not_blank c : is_digit c = true → is_blank c = false.
Proof. intros Hc. unfold is_blank. apply bool_decide_eq_false_2. by intros ->. Qed.

Lemma computes_number k ds : is_number ds → computes Primary (blanks k ++ ds) (Num ds).
Proof.
  intros Hds p r Hp Hr. destruct (digit_starts ds Hds) as (c & ds' & Hc & Hd).
  rewrite <- app_assoc in Hp. destruct (skip_to_blanks p k (ds ++ r) Hp) as [Hs Hrest].
  { subst ds. intros d [= <-]. by apply digit_not_blank. }
  eapply eventually_S; [intros n; apply primary_S|]. apply eventually_skip. rewrite Hs.
  apply (eventually_peek_is _ false).
  { apply bool_decide_eq_false_2. rewrite rest_lookup, Hrest, Hc. simpl. intros [= ->]. done. }
  apply eventually_now. unfold number, skip, mbind at 1, parser_bind at 1. fold (skip_to (p + k)).
  rewrite <- Hs, skip_to_idemp, Hs. unfold get_pos, mbind at 1, parser_bind at 1.
  rewrite Hrest, match_number_app by done. cbn [answer_at value_of fmap res_fmap].
  rewrite take_app_length. unfold blanks. rewrite length_app, length_replicate.
  unfold mbind, parser_bind, advance_by, mret, parser_ret. do 3 f_equal. lia.
Qed.

Lemma sentences_computed nt s e : derives nt s e → computes nt s e.
Proof.
  induction 1 as [k ds Hds|k s j e _ IH|k s e _ IH|s e Hd IH|s1 k s2 e1 e2 _ IH1 _ IH2|s e _ IH
                 |s1 k op s2 e1 e2 _ IH1 Hop _ IH2|s e _ IH|s1 k op s2 e1 e2 _ IH1 Hop _ IH2|s e _ IH].
  - by apply computes_number.
  - by apply computes_paren.
  - by apply computes_minus.
  - by apply computes_primary.
  - by apply computes_power.
  - by apply computes_unary_factor.
  - intros p r out Hp Hr Hout. rewrite <- !app_assoc in Hp. simpl in Hp.
    destruct (mul_op_punctuation op Hop) as [Hpun Hne]. apply (IH1 _ _ _ Hp); [by apply factor_stop_op|].
    cbn [value_of] in Hout. destruct (value_of pow e1) as [v1|m]; [|done].
    eapply (term_loop_round v1 _ k op s2 e2 r); [by apply (rest_app _ _ _ Hp)|done..|].
    unfold mbind, res_bind in Hout |- *. destruct (value_of pow e2) as [v2|m2]; [|done].
    destruct (multiply op v1 v2); [|done]. by rewrite operator_length in Hout.
  - intros p r out Hp Hr Hout. specialize (IH _ _ Hp Hr). eapply eventually_S; [intros n; apply term_S|].
    destruct (value_of pow e) as [v|m]; [|subst out; by apply eventually_exn].
    eapply eventually_ok; [exact IH|]. by apply term_loop_skip.
  - intros p r out Hp Hr Hout. rewrite <- !app_assoc in Hp. simpl in Hp.
    destruct (add_op_punctuation op Hop) as (Hpun & Hne & Hm). apply (IH1 _ _ _ Hp); [by apply term_stop_op|].
    cbn [value_of] in Hout. destruct (value_of pow e1) as [v1|m]; [|done].
    eapply (expr_loop_round v1 _ k op s2 e2 r); [by apply (rest_app _ _ _ Hp)|done..|].
    unfold mbind, res_bind in Hout |- *. destruct (value_of pow e2) as [v2|m2]; [|done]. by rewrite operator_length in Hout.
  - intros p r out Hp [Hr Hm] Hout. eapply eventually_S; [intros n; apply expr_S|].
    pose proof (IH _ _ (answer_at (skip_to (p + length s)) (value_of pow e)) Hp Hr) as H.
    destruct (value_of pow e) as [v|m]; [|subst out; by apply eventually_exn, H].
    eapply eventually_ok; [apply H; eapply term_loop_stops; [by apply rest_app|done]|]. by apply expr_loop_skip.
Qed.

(** ** What is accepted is a sentence *)

(** A result of [m] comes with a derivation of the text it has read, maybe with
    blanks behind it. *)
Definition sound (nt : nonterminal) (m : parser double) : Prop := ∀ p v p',
  m p = Some (Ok (v, p')) →
  ∃ s k e, rest p = s ++ blanks k ++ rest p' ∧ derives nt s e ∧ value_of pow e = Ok v.

(** The same for what a loop adds to a sentence [s0] that was read before. *)
Definition extends_soundly (nt : nonterminal) (loop : double → parser double) : Prop := ∀ v0 q s0 k0 e0 p v p',
  rest q = s0 ++ blanks k0 ++ rest p → derives nt s0 e0 → value_of pow e0 = Ok v0 →
  loop v0 p = Some (Ok (v, p')) →
  ∃ s k e, rest q = s ++ blanks k ++ rest p' ∧ derives nt s e ∧ value_of pow e = Ok v.

Lemma bind_ok {A B} (m : parser A) (k : A → parser B) p r :
  (m ≫= k) p = Some (Ok r) → ∃ a p1, m p = Some (Ok (a, p1)) ∧ k a p1 = Some (Ok r).
Proof. unfold mbind, parser_bind. destruct (m p) as [[[a p1]|e]|]; [|done..]. eauto. Qed.

Lemma rest_skip p : rest p = blanks (leading is_blank (rest p)) ++ rest (skip_to p).
Proof. unfold skip_to. rewrite <- drop_drop. apply blanks_leading. Qed.

Lemma rest_char p c : src !! p = Some c → rest p = c :: rest (p + 1).
Proof. intros H. rewrite Nat.add_1_r. by apply drop_S. Qed.

Lemma number_sound : sound Primary (number src).
Proof.
  intros p v p' H. unfold number in H. apply bind_ok in H as ([] & p1 & [= <-] & H). fold (skip_to p) in H.
  apply bind_ok in H as (p2 & p3 & [= <- <-] & H).
  destruct (match_number _) as [n|] eqn:Hn; [|done]. apply match_number_take in Hn as (Hds & Hl & Hlen).
  apply bind_ok in H as ([] & p4 & [= <-] & [= <- <-]).
  eexists _, 0, _. split; [|split; [by apply d_number|done]]. simpl. rewrite <- app_assoc.
  rewrite (rest_skip p) at 1. f_equal. rewrite Hl at 1. by rewrite drop_drop.
Qed.

(** The text up to an operator, when a sentence and then blanks were read. *)
Lemma rest_operator q s0 k0 p c :
  rest q = s0 ++ blanks k0 ++ rest p → src !! skip_to p = Some c →
  ∃ k, ∀ s k' p', rest (skip_to p + 1) = s ++ blanks k' ++ rest p' →
    rest q = (s0 ++ blanks k ++ c :: s) ++ blanks k' ++ rest p'.
Proof.
  intros Hq Hc. exists (k0 + leading is_blank (rest p)). intros s k' p' Hs.
  rewrite Hq, <- !app_assoc. f_equal. simpl. rewrite <- Hs, <- (rest_char _ _ Hc), <- blanks_add.
  by rewrite <- rest_skip.
Qed.

Lemma rest_after q s0 k0 p :
  rest q = s0 ++ blanks k0 ++ rest p → ∃ k, rest q = s0 ++ blanks k ++ rest (skip_to p).
Proof. intros Hq. exists (k0 + leading is_blank (rest p)). by rewrite <- blanks_add, <- rest_skip. Qed.

Lemma expr_loop_round_sound n :
  extends_soundly Expr (expr_loop pow src n) → sound Term (term pow src n) →
  extends_soundly Expr (expr_loop pow src (S n)).
Proof.
  intros IHl IHt v0 q s0 k0 e0 p v p' Hq Hd Hv H. rewrite expr_loop_S in H.
  apply bind_ok in H as ([] & p1 & [= <-] & H). fold (skip_to p) in H.
  apply bind_ok in H as (o & p1 & [= <- <-] & H).
  destruct (rest_after _ _ _ _ Hq) as [k Hk].
  destruct (src !! skip_to p) as [c|] eqn:Hc; [|injection H as <- <-; by exists s0, k, e0].
  destruct (is_add_op c) eqn:Hop; [|injection H as <- <-; by exists s0, k, e0].
  apply bind_ok in H as ([] & p1 & [= <-] & H). apply bind_ok in H as (r & p2 & Ht & H).
  apply IHt in Ht as (s & k1 & e & Hs & Hds & Hr). destruct (rest_operator _ _ _ _ _ Hq Hc) as [k2 Hk2].
  eapply (IHl _ q _ _ (Add c e0 e) _ _ _ (Hk2 _ _ _ Hs)); [by apply d_expr| |exact H].
  cbn. by rewrite Hv, Hr.
Qed.

Lemma term_loop_round_sound n :
  extends_soundly Term (term_loop pow src n) → sound Factor (factor pow src n) →
  extends_soundly Term (term_loop pow src (S n)).
Proof.
  intros IHl IHf v0 q s0 k0 e0 p v p' Hq Hd Hv H. rewrite term_loop_S in H.
  apply bind_ok in H as ([] & p1 & [= <-] & H). fold (skip_to p) in H.
  apply bind_ok in H as (o & p1 & [= <- <-] & H).
  destruct (rest_after _ _ _ _ Hq) as [k Hk].
  destruct (src !! skip_to p) as [c|] eqn:Hc; [|injection H as <- <-; by exists s0, k, e0].
  destruct (is_mul_op c) eqn:Hop; [|injection H as <- <-; by exists s0, k, e0].
  apply bind_ok in H as ([] & p1 & [= <-] & H). apply bind_ok in H as (r & p2 & Ht & H).
  apply bind_ok in H as (v1 & p3 & Hm & H). unfold lift_res in Hm.
  destruct (multiply c v0 r) as [v1'|] eqn:Hmul; [|done]. injection Hm as -> <-.
  apply IHf in Ht as (s & k1 & e & Hs & Hds & Hr). destruct (rest_operator _ _ _ _ _ Hq Hc) as [k2 Hk2].
  eapply (IHl _ q _ _ (Mul c e0 e) _ _ _ (Hk2 _ _ _ Hs)); [by apply d_term| |exact H].
  cbn. by rewrite Hv, Hr.
Qed.

Lemma factor_round_sound n :
  sound Unary (unary pow src n) → sound Factor (factor pow src n) → sound Factor (factor pow src (S n)).
Proof.
  intros IHu IHf p v p' H. rewrite factor_S in H.
  apply bind_ok in H as (b & p1 & Hu & H). apply IHu in Hu as (s1 & k1 & e1 & Hs1 & Hd1 & Hv1).
  apply bind_ok in H as ([] & p2 & [= <-] & H). fold (skip_to p1) in H.
  apply bind_ok in H as (caret & p2 & [= Hb <-] & H). destruct (rest_after _ _ _ _ Hs1) as [k Hk].
  destruct caret; [|injection H as <- <-; exists s1, k, e1; split_and!; [done|by apply d_unary|done]].
  apply bool_decide_eq_true in Hb. destruct (rest_operator _ _ _ _ _ Hs1 Hb) as [k2 Hk2].
  apply bind_ok in H as ([] & p3 & [= <-] & H). apply bind_ok in H as (x & p4 & Hf & H).
  apply IHf in Hf as (s2 & k3 & e2 & Hs2 & Hd2 & Hv2). unfold lift_res in H.
  destruct (power pow b x) as [v'|] eqn:Hp; [|done]. injection H as -> <-.
  eexists _, k3, (Pow e1 e2). split_and!; [by apply Hk2|by apply d_power|]. cbn. by rewrite Hv1, Hv2.
Qed.

(** A token that starts a sentence. *)
Lemma rest_prefix p c : src !! skip_to p = Some c → ∃ k, rest p = blanks k ++ c :: rest (skip_to p + 1).
Proof. intros Hc. eexists. rewrite (rest_skip p) at 1. by rewrite (rest_char _ _ Hc). Qed.

Lemma unary_round_sound n :
  sound Unary (unary pow src n) → sound Primary (primary pow src n) → sound Unary (unary pow src (S n)).
Proof.
  intros IHu IHp p v p' H. rewrite unary_S in H.
  apply bind_ok in H as ([] & p1 & [= <-] & H). fold (skip_to p) in H.
  apply bind_ok in H as (dash & p1 & [= Hb <-] & H). destruct dash.
  - apply bool_decide_eq_true in Hb. destruct (rest_prefix _ _ Hb) as [k Hk].
    apply bind_ok in H as ([] & p3 & [= <-] & H). apply bind_ok in H as (x & p4 & Hu & [= <- <-]).
    apply IHu in Hu as (s & k1 & e & Hs & Hd & Hv). eexists _, k1, (Neg e).
    split_and!; [|by apply (d_minus k)|cbn; by rewrite Hv]. rewrite Hk, Hs. by rewrite <- app_assoc.
  - apply IHp in H as (s & k1 & e & Hs & Hd & Hv). rewrite (rest_skip p), Hs, app_assoc.
    eexists _, k1, e. split_and!; [done| |done]. apply d_primary.
    inversion Hd; subst; rewrite blanks_add; by constructor.
Qed.

Lemma primary_round_sound n : sound Expr (expr pow src n) → sound Primary (primary pow src (S n)).
Proof.
  intros IHe p v p' H. rewrite primary_S in H.
  apply bind_ok in H as ([] & p1 & [= <-] & H). fold (skip_to p) in H.
  apply bind_ok in H as (paren & p1 & [= Hb <-] & H). destruct paren.
  - apply bool_decide_eq_true in Hb. destruct (rest_prefix _ _ Hb) as [k Hk].
    apply bind_ok in H as ([] & p3 & [= <-] & H). apply bind_ok in H as (x & p4 & He & H).
    apply IHe in He as (s & k1 & e & Hs & Hd & Hv).
    apply bind_ok in H as ([] & p5 & [= <-] & H). fold (skip_to p4) in H.
    apply bind_ok in H as (close & p5 & [= Hb' <-] & H). destruct close; [|done].
    apply bool_decide_eq_true in Hb'. apply bind_ok in H as ([] & p6 & [= <-] & [= <- <-]).
    destruct (rest_after _ _ _ _ Hs) as [j Hj]. rewrite (rest_char _ _ Hb') in Hj.
    eexists _, 0, e. split_and!; [|by apply (d_paren k s j)|done].
    rewrite Hk, Hj. simpl. rewrite <- !app_assoc. simpl. by rewrite <- !app_assoc.
  - apply number_sound in H as (s & k & e & Hs & Hd & Hv). rewrite (rest_skip p), Hs, app_assoc.
    eexists _, k, e. split_and!; [done| |done]. inversion Hd; subst; rewrite blanks_add; by constructor.
Qed.

Lemma parsers_sound n :
  sound Expr (expr pow src n) ∧ extends_soundly Expr (expr_loop pow src n) ∧
  sound Term (term pow src n) ∧ extends_soundly Term (term_loop pow src n) ∧
  sound Factor (factor pow src n) ∧ sound Unary (unary pow src n) ∧ sound Primary (primary pow src n).
Proof.
  induction n as [|n (IHe & IHel & IHt & IHtl & IHf & IHu & IHp)]; [split_and!; by repeat intros ?|].
  split_and!; [| by apply expr_loop_round_sound| |by apply term_loop_round_sound|by apply factor_round_sound
               |by apply unary_round_sound|by apply primary_round_sound].
  - intros p v p' H. rewrite expr_S in H. apply bind_ok in H as (v0 & p1 & Ht & H).
    apply IHt in Ht as (s & k & e & Hs & Hd & Hv). eapply IHel; [exact Hs|by apply d_just_term|done|done].
  - intros p v p' H. rewrite term_S in H. apply bind_ok in H as (v0 & p1 & Ht & H).
    apply IHf in Ht as (s & k & e & Hs & Hd & Hv). eapply IHtl; [exact Hs|by apply d_factor|done|done].
Qed.
End facts.

(** ** Sentences pass the character test *)

Lemma leading_forall test l : forallb test (take (leading test l) l) = true.
Proof. induction l as [|c l IH]; simpl; [done|]. destruct (test c) eqn:Hc; simpl; [by rewrite Hc, IH|done]. Qed.

Lemma digits_allowed l : forallb is_digit l = true → forallb allowed_char l = true.
Proof.
  induction l as [|c l IH]; [done|]. simpl. intros [Hc Hl]%andb_true_iff.
  unfold allowed_char at 1. by rewrite Hc, IH.
Qed.

Lemma number_allowed ds : is_number ds → forallb allowed_char ds = true.
Proof.
  intros [_ Hm]. unfold match_number in Hm. pose proof (leading_forall is_digit ds) as Hw.
  pose proof (take_drop (leading is_digit ds) ds) as Hds. set (w := leading is_digit ds) in *.
  destruct (bool_decide (w = 0)); [done|]. rewrite <- Hds, forallb_app, (digits_allowed _ Hw).
  destruct (drop w ds) as [|c l'] eqn:Hd; [done|].
  assert (Hlen : length ds = w + S (length l')).
  { apply (f_equal length) in Hd. rewrite length_drop in Hd. simpl in Hd. lia. }
  destruct (bool_decide (c = "."%char) && _) eqn:Hc; injection Hm; intros He; [|lia].
  apply andb_true_iff in Hc as [Hc _]. rewrite bool_decide_eq_true in Hc. subst c.
  pose proof (leading_forall is_digit l') as Hl. rewrite take_ge in Hl by lia.
  simpl. by apply digits_allowed.
Qed.

Lemma blanks_allowed k : forallb allowed_char (blanks k) = true.
Proof. induction k as [|k IH]; [done|exact IH]. Qed.

Lemma op_allowed c : is_add_op c = true ∨ is_mul_op c = true → allowed_char c = true.
Proof.
  unfold allowed_char, is_add_op, is_mul_op. rewrite !bool_decide_eq_true. intros H.
  rewrite (bool_decide_eq_true_2 (c ∈ _)), orb_true_r; [done|]. set_solver.
Qed.

Lemma derives_allowed nt s e : derives nt s e → s ≠ [] ∧ forallb allowed_char s = true.
Proof.
  induction 1 as [k ds Hds|k s j e _ [IHn IH]|k s e _ [IHn IH]|s e Hd IH|s1 k s2 e1 e2 _ [IHn1 IH1] _ [IHn2 IH2]|s e _ IH
                 |s1 k op s2 e1 e2 _ [IHn1 IH1] Hop _ [IHn2 IH2]|s e _ IH
                 |s1 k op s2 e1 e2 _ [IHn1 IH1] Hop _ [IHn2 IH2]|s e _ IH];
    try done; (split; [try (destruct Hds; intros [? ?]%app_nil; done); try (by destruct k); try (by intros [? _]%app_nil)|]);
    rewrite ?forallb_app; simpl; rewrite ?forallb_app, ?blanks_allowed, ?IH, ?IH1, ?IH2; try done.
  - by rewrite number_allowed.
  - rewrite op_allowed; [done|by right].
  - rewrite op_allowed; [done|by left].
Qed.

Lemma expression_allowed s e : is_expression s e → s ≠ [] ∧ forallb allowed_char s = true.
Proof.
  intros (s' & k & -> & Hd). apply derives_allowed in Hd as [Hne Hs].
  split; [by intros [? _]%app_nil|]. by rewrite forallb_app, Hs, blanks_allowed.
Qed.

(** ** The property *)

(** What is done with the value of a whole expression. *)
Definition finish (value : double) : res double :=
  if isFinite value then Ok (toPrecision15 value) else Exn (calc_error "result is not a finite number").

Lemma expression_parsed pow src e :
  is_expression src e →
  (v ← expr pow src (calc_fuel src); _ ← skip src; mret v : parser double) 0 =
    Some (answer_at (length src) (value_of pow e)).
Proof.
  intros (s & k & Hsrc & Hd). apply (sentences_computed pow src) in Hd.
  pose proof (expr_stop_end k) as [Hstop Hadd].
  pose proof (Hd 0 (blanks k) (answer_at (length src) (value_of pow e)) Hsrc Hstop) as [n0 H].
  { destruct (value_of pow e) as [v|m]; [|done]. replace (length src) with (skip_to src (0 + length s)).
    - eapply expr_loop_stops; [|exact Hadd]. by apply rest_app.
    - destruct (skip_to_blanks src (0 + length s) k []) as [-> _]; [by rewrite app_nil_r; apply rest_app|done|].
      subst src. unfold blanks. rewrite length_app, length_replicate. lia. }
  specialize (H (n0 + calc_fuel src) ltac:(lia)).
  pose proof (proj1 (parsers_halt pow src (calc_fuel src)) 0 ltac:(lia) ltac:(unfold calc_fuel; lia)) as Hhalt.
  unfold halts in Hhalt. destruct (expr pow src (calc_fuel src) 0) as [r|] eqn:Hr; [|done].
  rewrite (expr_grows pow src (calc_fuel src) (n0 + calc_fuel src) _ _ ltac:(lia) Hr) in H. injection H as ->.
  unfold mbind, parser_bind. rewrite Hr. destruct (value_of pow e) as [v|m]; [|done]. cbn.
  unfold mret, parser_ret. do 3 f_equal. rewrite drop_ge by lia. simpl. lia.
Qed.

(** C35: the calculator computes its grammar.  For any text and any
    implementation of powers: it always gives an answer; the answer to a
    sentence of the grammar, of at most 200 characters, is the value of the
    expression, rounded to 15 digits, or its first error; and it accepts
    nothing but sentences. *)
Theorem calculator_computes_grammar (pow : double → double → double) (input : string) :
  let src := String.list_ascii_of_string input in
  (∃ r, evaluateArithmetic pow input = Some r) ∧
  (∀ e, is_expression src e → length src ≤ 200 →
     evaluateArithmetic pow input = Some (x ← value_of pow e; finish x)) ∧
  (∀ v, evaluateArithmetic pow input = Some (Ok v) →
     length src ≤ 200 ∧ ∃ e x, is_expression src e ∧ value_of pow e = Ok x ∧ finish x = Ok v).
Proof.
  intros src. unfold evaluateArithmetic. fold src. unfold calculate.
  pose proof (proj1 (parsers_halt pow src (calc_fuel src)) 0 ltac:(lia) ltac:(unfold calc_fuel; lia)) as Hhalt.
  split_and!.
  - destruct (200 <? length src)%nat; [by eexists|]. destruct (_ || _); [by eexists|].
    unfold mbind, parser_bind. unfold halts in Hhalt. destruct (expr _ _ _ _) as [[[v p]|m]|]; [|by eexists|done].
    cbn. destruct (src !! _); [by eexists|]. destruct (negb _); by eexists.
  - intros e He Hlen. destruct (Nat.ltb_spec 200 (length src)); [lia|].
    destruct (expression_allowed _ _ He) as [Hne Hall]. rewrite bool_decide_eq_false_2, Hall by done. cbn [orb negb].
    rewrite (expression_parsed pow src e He). destruct (value_of pow e) as [x|m]; [|done]. cbn.
    rewrite lookup_ge_None_2 by lia. unfold finish. by destruct (isFinite x).
  - intros v H. destruct (Nat.ltb_spec 200 (length src)) as [|Hlen]; [done|]. split; [done|].
    destruct (_ || _); [done|].
    destruct (expr pow src (calc_fuel src) 0) as [[[x p]|m]|] eqn:Hx; unfold mbind, parser_bind in H; rewrite Hx in H;
      [|done..]. cbn in H. fold (skip_to src p) in H.
    destruct (src !! skip_to src p) eqn:Hend; [done|].
    apply (proj1 (parsers_sound pow src (calc_fuel src))) in Hx as (s & k & e & Hs & Hd & Hv).
    exists e, x. split_and!; [|done|unfold finish; by destruct (isFinite x); [injection H as ->|]].
    destruct (rest_after src 0 s k p Hs) as [k' Hk']. exists s, k'. split; [|done].
    rewrite (drop_ge src (skip_to src p)), app_nil_r in Hk'; [done|by apply lookup_ge_None_1].
Qed.

(** The check for a finite result comes before the rounding: the largest
    double is finite, but its 15 digits denote more than that. *)
Lemma rounding_can_overflow :
  evaluateArithmetic small_pow "((2^100)^10*2^23-(2^100)^9*2^70)*2" = Some (Ok (S754_infinity false)).
Proof. vm_compute. reflexivity. Qed.
