(* ===== verification/Numbers.v ===== *)
(** * [Number(s)]

    The conversion of strings to numbers of ECMAScript, which the source uses for
    environment variables and query parameters. *)

From Stdlib Require Import Ascii SpecFloat.
From S2P Require Import Prelude Text Double Calculator.

Local Open Scope string_scope.

(** Digits of base [b], in upper or lower case. *)
Definition digit_in (b : Z) (c : Ascii.ascii) : option Z :=
  let d := (if is_digit c then digit_value c
            else if is_lower c then Z.of_nat (Ascii.nat_of_ascii c) - 87
            else if is_upper c then Z.of_nat (Ascii.nat_of_ascii c) - 55 else b)%Z in
  if bool_decide (d < b)%Z then Some d else None.

(** After [0x], [0o] or [0b]. *)
Definition in_base (b : Z) (l : list Ascii.ascii) : double :=
  match l, mapM (digit_in b) l with
  | _ :: _, Some ds => of_Z (foldl (λ v d, b * v + d)%Z 0%Z ds)
  | _, _ => S754_nan
  end.

(** The exponent part of a decimal literal; [None] if there is something else. *)
Definition exponent_part (l : list Ascii.ascii) : option Z :=
  match l with
  | [] => Some 0%Z
  | e :: l =>
      let '(sign, ds) := match l with
                         | "+"%char :: ds => (1, ds)
                         | "-"%char :: ds => (-1, ds)
                         | ds => (1, ds)
                         end%Z in
      if bool_decide (e = "e"%char ∨ e = "E"%char) && negb (bool_decide (ds = [])) && forallb is_digit ds
      then Some (sign * digits_value ds)%Z else None
  end.

(** [digits.digits] with an exponent; there is a digit before or after the dot. *)
Definition decimal_literal (sx : bool) (l : list Ascii.ascii) : double :=
  if bool_decide (l = String.list_ascii_of_string "Infinity") then S754_infinity sx
  else
    let n := leading is_digit l in
    let whole := take n l in
    let '(frac, rest) := match drop n l with
                         | "."%char :: l' => (take (leading is_digit l') l', drop (leading is_digit l') l')
                         | l' => ([], l')
                         end in
    match exponent_part rest with
    | Some e =>
        if bool_decide (whole ++ frac = [])%list then S754_nan
        else of_decimal sx (digits_value (whole ++ frac)) (e - Z.of_nat (length frac))
    | None => S754_nan
    end.

Definition js_Number (s : string) : double :=
  match String.list_ascii_of_string (trim s) with
  | [] => S754_zero false
  | "0"%char :: x :: l =>
      if bool_decide (x = "x"%char ∨ x = "X"%char) then in_base 16 l
      else if bool_decide (x = "o"%char ∨ x = "O"%char) then in_base 8 l
      else if bool_decide (x = "b"%char ∨ x = "B"%char) then in_base 2 l
      else decimal_literal false ("0"%char :: x :: l)
  | "+"%char :: l => decimal_literal false l
  | "-"%char :: l => decimal_literal true l
  | l => decimal_literal false l
  end.

(** The integer that a double is. *)
Definition as_integer (x : double) : option Z :=
  match x with
  | S754_zero _ => Some 0%Z
  | S754_finite sx m e =>
      let '(num, den) := fraction m e in
      if bool_decide (num mod den = 0)%Z then Some (if sx then - (num / den) else num / den)%Z else None
  | _ => None
  end.

Example numbers_of_strings :
  (as_integer ∘ js_Number) <$> [" 4000 "; "1e3"; "0x10"; "1.5"; "12px"; ""; "-7"; "9007199254740993"]
  = [Some 4000; Some 1000; Some 16; None; None; Some 0; Some (-7); Some 9007199254740992]%Z.
Proof. vm_compute. reflexivity. Qed.
