(* ===== verification/RagText.v ===== *)
(** * Cleaning documents ([src/ai/rag/text.js])

    [cleanText] on ASCII text, pass by pass, and the normal form of what it
    gives.  The NFKC normalisation is the identity on ASCII. *)

From Stdlib Require Import Ascii.
From S2P Require Import Prelude Text Double.

Local Open Scope list_scope.

Definition newline_char : ascii := ascii_of_nat 10.

(** ** The passes *)

(** [/[^\S\n]+/g] becomes one space. *)
Definition is_horizontal (c : ascii) : bool := is_space c && negb (bool_decide (c = newline_char)).

Fixpoint collapse_blanks (inside : bool) (l : list ascii) : list ascii :=
  match l with
  | [] => []
  | c :: l' =>
      if is_horizontal c then (if inside then collapse_blanks true l' else space :: collapse_blanks true l')
      else c :: collapse_blanks false l'
  end.

(** [/[\u0000-\u0008\u000B\u000C\u000E-\u001F\u007F]/g] is removed. *)
Definition is_control (c : ascii) : bool :=
  let n := nat_of_ascii c in
  ((n <=? 8) || (n =? 11) || (n =? 12) || ((14 <=? n) && (n <=? 31)) || (n =? 127))%nat.

Definition drop_controls (l : list ascii) : list ascii := List.filter (λ c, negb (is_control c)) l.

(** [/ *\n */g] becomes a newline.  [pending] spaces were read and may still
    belong to a match; [after]: a match ended here. *)
Fixpoint tidy_lines (after : bool) (pending : nat) (l : list ascii) : list ascii :=
  match l with
  | [] => replicate pending space
  | c :: l' =>
      if bool_decide (c = space) then (if after then tidy_lines true 0 l' else tidy_lines false (S pending) l')
      else if bool_decide (c = newline_char) then newline_char :: tidy_lines true 0 l'
      else replicate pending space ++ c :: tidy_lines false 0 l'
  end.

(** [/\n{3,}/g] becomes two newlines; [seen] newlines were just written. *)
Fixpoint limit_newlines (seen : nat) (l : list ascii) : list ascii :=
  match l with
  | [] => []
  | c :: l' =>
      if bool_decide (c = newline_char)
      then if (2 <=? seen)%nat then limit_newlines seen l' else c :: limit_newlines (S seen) l'
      else c :: limit_newlines 0 l'
  end.

Definition trim_list (l : list ascii) : list ascii := reverse (drop_spaces (reverse (drop_spaces l))).

Definition clean (l : list ascii) : list ascii :=
  trim_list (limit_newlines 0 (tidy_lines false 0 (drop_controls (collapse_blanks false l)))).

Definition cleanText (raw : string) : string := on_chars clean raw.

(** ** [cosineSimilarity] *)

Fixpoint cosine_sums (a b : list double) (dot na nb : double) : double * double * double :=
  match a, b with
  | x :: a', y :: b' =>
      cosine_sums a' b' (plus dot (times x y)) (plus na (times x x)) (plus nb (times y y))
  | _, _ => (dot, na, nb)
  end.

(** [na && nb]: neither zero nor NaN. *)
Definition truthy_number (x : double) : bool :=
  match x with SpecFloat.S754_zero _ | SpecFloat.S754_nan => false | _ => true end.

Definition cosineSimilarity (a b : list double) : res double :=
  if bool_decide (length a ≠ length b) then Exn (PlainErr "vectors must have the same dimension")
  else
    let '(dot, na, nb) := cosine_sums a b (of_Z 0) (of_Z 0) (of_Z 0) in
    Ok (if truthy_number na && truthy_number nb then over dot (times (squareRoot na) (squareRoot nb)) else of_Z 0).

Example cosine_examples :
  let v (l : list Z) := of_Z <$> l in
  cosineSimilarity (v [3; 4]%Z) (v [3; 4]%Z) = Ok (of_Z 1) ∧ cosineSimilarity (v [3; 4]%Z) (v [4; -3]%Z) = Ok (of_Z 0) ∧
  cosineSimilarity (v [0; 0]%Z) (v [1; 2]%Z) = Ok (of_Z 0) ∧
  cosineSimilarity (v [1]%Z) (v [1; 2]%Z) = Exn (PlainErr "vectors must have the same dimension").
Proof. vm_compute. repeat split. Qed.

(** ** The normal form *)

(** [pat] does not occur in [l]. *)
Definition avoids (pat l : list ascii) : Prop := ∀ a b, l ≠ a ++ pat ++ b.

(** A printable character, a space or a newline. *)
Definition is_plain (c : ascii) : bool :=
  negb (is_control c) && (negb (is_space c) || bool_decide (c = space) || bool_decide (c = newline_char)).

Record normal (l : list ascii) : Prop := {
  normal_plain : forallb is_plain l = true;
  normal_before_newline : avoids [space; newline_char] l;
  normal_after_newline : avoids [newline_char; space] l;
  normal_breaks : avoids [newline_char; newline_char; newline_char] l;
  normal_ends : trim_list l = l
}.

(** ** Neighbours *)

(** No two neighbours are in the relation. *)
Fixpoint no_neighbours (bad : ascii → ascii → bool) (l : list ascii) : bool :=
  match l with
  | c :: (d :: _) as l' => negb (bad c d) && no_neighbours bad l'
  | _ => true
  end.

(** A space next to a newline; two spaces. *)
Definition ragged (c d : ascii) : bool :=
  bool_decide (c = space ∧ d = newline_char) || bool_decide (c = newline_char ∧ d = space).
Definition double_space (c d : ascii) : bool := bool_decide (c = space ∧ d = space).

Lemma no_neighbours_cons bad c l :
  no_neighbours bad (c :: l) = true ↔ (∀ d, head l = Some d → bad c d = false) ∧ no_neighbours bad l = true.
Proof.
  destruct l as [|d l]; simpl; [by split; [|intros [_ ?]]|]. rewrite andb_true_iff, negb_true_iff.
  split; intros [H1 H2]; (split; [|done]); [by intros ? [= <-]|by apply H1].
Qed.

Lemma no_neighbours_avoids bad c d l : no_neighbours bad l = true → bad c d = true → avoids [c; d] l.
Proof.
  intros Hl Hb a b ->. induction a as [|e a IH]; cbn [app] in Hl; apply no_neighbours_cons in Hl as [Hh Hl].
  - rewrite (Hh d eq_refl) in Hb. done.
  - by apply IH.
Qed.

Fixpoint newline_runs (seen : nat) (l : list ascii) : bool :=
  match l with
  | [] => true
  | c :: l' =>
      if bool_decide (c = newline_char) then (seen <=? 1)%nat && newline_runs (S seen) l' else newline_runs 0 l'
  end.

Lemma newline_runs_avoids n l :
  newline_runs n l = true → avoids [newline_char; newline_char; newline_char] l.
Proof.
  intros Hl a b ->. revert n Hl. induction a as [|c a IH]; intros n; cbn [app newline_runs].
  - rewrite bool_decide_eq_true_2 by done. rewrite !andb_true_iff. rewrite !Nat.leb_le. lia.
  - case_bool_decide; [rewrite andb_true_iff; intros [_ Hr]|intros Hr]; by apply IH in Hr.
Qed.

Lemma avoids_infix pat x y l : avoids pat (x ++ l ++ y) → avoids pat l.
Proof. intros H a b ->. apply (H (x ++ a) (b ++ y)). by rewrite !app_assoc. Qed.

(** ** What each pass achieves *)

Lemma collapse_horizontal inside l c : c ∈ collapse_blanks inside l → is_horizontal c = true → c = space.
Proof.
  revert inside. induction l as [|d l IH]; intros inside; cbn [collapse_blanks]; [by intros ?%not_elem_of_nil|].
  destruct (is_horizontal d) eqn:Hd; [destruct inside; [by apply IH|]|]; intros [->|Hin]%elem_of_cons; try done;
    try (by eapply IH). congruence.
Qed.

Lemma collapse_in inside l c : c ∈ collapse_blanks inside l → c = space ∨ c ∈ l.
Proof.
  revert inside. induction l as [|d l IH]; intros inside; cbn [collapse_blanks]; [by intros ?%not_elem_of_nil|].
  destruct (is_horizontal d); [destruct inside|];
    [intros Hin|intros [->|Hin]%elem_of_cons; [by left|]|intros [->|Hin]%elem_of_cons; [by right; left|]];
    apply IH in Hin as [->|?]; (by left) || (right; by right).
Qed.

Lemma collapse_double inside l :
  no_neighbours double_space (collapse_blanks inside l) = true ∧
  (inside = true → head (collapse_blanks inside l) ≠ Some space).
Proof.
  revert inside. induction l as [|c l IH]; intros inside; cbn [collapse_blanks]; [done|].
  destruct (is_horizontal c) eqn:Hc.
  - destruct (IH true) as [Hn Hh]. destruct inside; [done|]. split; [|done].
    apply no_neighbours_cons. split; [|done]. intros d Hd. apply bool_decide_eq_false_2.
    intros [_ ->]. by apply Hh.
  - destruct (IH false) as [Hn _]. assert (c ≠ space) as Hne by (by intros ->).
    split; [|by intros _ [= ->]]. apply no_neighbours_cons. split; [|done].
    intros d _. apply bool_decide_eq_false_2. by intros [-> _].
Qed.

Lemma drop_controls_plain inside l : forallb is_plain (drop_controls (collapse_blanks inside l)) = true.
Proof.
  apply forallb_forall. intros c Hc%list_elem_of_In. unfold drop_controls in Hc.
  apply list_elem_of_In, filter_In in Hc as [Hin%list_elem_of_In Hctl]. unfold is_plain. rewrite Hctl. simpl.
  destruct (is_space c) eqn:Hs; [|done]. simpl.
  destruct (decide (c = newline_char)) as [->|Hne]; [done|].
  rewrite (collapse_horizontal inside l c Hin); [done|].
  unfold is_horizontal. rewrite Hs. by rewrite bool_decide_eq_false_2.
Qed.

Lemma tidy_plain after n l : forallb is_plain l = true → forallb is_plain (tidy_lines after n l) = true.
Proof.
  assert (Hr : ∀ n, forallb is_plain (replicate n space) = true) by (intros k; by induction k).
  revert after n. induction l as [|c l IH]; intros after n Hl; cbn [tidy_lines]; [done|].
  simpl in Hl. apply andb_true_iff in Hl as [Hc Hl]. repeat case_bool_decide.
  - destruct after; by apply IH.
  - simpl. by apply IH.
  - rewrite forallb_app, Hr. simpl. rewrite Hc. by apply IH.
Qed.

Lemma limit_plain seen l : forallb is_plain l = true → forallb is_plain (limit_newlines seen l) = true.
Proof.
  revert seen. induction l as [|c l IH]; intros seen Hl; cbn [limit_newlines]; [done|].
  simpl in Hl. apply andb_true_iff in Hl as [Hc Hl].
  case_bool_decide; [destruct (_ <=? _)%nat|]; simpl; rewrite ?Hc; by apply IH.
Qed.

Lemma no_neighbours_spaces bad n c l :
  bad space space = false → bad space c = false → no_neighbours bad (c :: l) = true →
  no_neighbours bad (replicate n space ++ c :: l) = true.
Proof.
  intros Hss Hsc Hl. induction n as [|n IH]; [done|]. cbn [replicate app]. apply no_neighbours_cons. split; [|done].
  intros d. by destruct n; intros [= <-].
Qed.

Lemma tidy_ragged after n l :
  no_neighbours ragged (tidy_lines after n l) = true ∧
  (after = true → n = 0 → head (tidy_lines after n l) ≠ Some space).
Proof.
  revert after n. induction l as [|c l IH]; intros after n; cbn [tidy_lines].
  { split; [|by intros _ ->]. induction n as [|n IHn]; [done|]. apply no_neighbours_cons. split; [|done].
    intros d. by destruct n; [|intros [= <-]]. }
  repeat case_bool_decide.
  - destruct (IH true 0) as [H1 H2], (IH false (S n)). destruct after; [split; [done|intros _ _; by apply H2]|by split].
  - destruct (IH true 0) as [H1 H2]. split; [|by intros _ _ [=]]. apply no_neighbours_cons. split; [|done].
    intros d Hd. unfold ragged. rewrite !bool_decide_eq_false_2; [done|intros [_ ->]; by apply H2|by intros [? _]].
  - destruct (IH false 0) as [H1 _].
    assert (Hbad : ∀ d, ragged c d = false ∧ ragged d c = false).
    { intros d. unfold ragged. split; rewrite !bool_decide_eq_false_2; (done || by intros []). }
    split; [|intros _ ->; simpl; congruence]. apply no_neighbours_spaces; [done|apply Hbad|].
    apply no_neighbours_cons. split; [|done]. intros d _. apply Hbad.
Qed.

Lemma replicate_shift n l : replicate n space ++ space :: l = replicate (S n) space ++ l.
Proof. induction n as [|n IH]; [done|]. cbn [replicate app]. f_equal. exact IH. Qed.

Lemma tidy_double after n l :
  no_neighbours double_space (replicate n space ++ l) = true → (after = true → n = 0) →
  no_neighbours double_space (tidy_lines after n l) = true.
Proof.
  revert after n. induction l as [|c l IH]; intros after n Hl Hn; cbn [tidy_lines]; [by rewrite app_nil_r in Hl|].
  assert (Hl' : no_neighbours double_space l = true).
  { clear IH Hn. induction n as [|n IHn]; cbn [replicate app] in Hl; apply no_neighbours_cons in Hl as [_ Hl]; [done|by apply IHn]. }
  repeat case_bool_decide.
  - destruct after; [by apply IH|]. apply IH; [|done]. subst c. by rewrite replicate_shift in Hl.
  - apply no_neighbours_cons. split; [|by apply IH]. intros d _. apply bool_decide_eq_false_2. by intros [? _].
  - assert (Hc : ∀ d, double_space c d = false) by (intros d; apply bool_decide_eq_false_2; by intros [? _]).
    assert (Hrest : no_neighbours double_space (c :: tidy_lines false 0 l) = true).
    { apply no_neighbours_cons. split; [intros d _; apply Hc|by apply IH]. }
    clear IH Hn. induction n as [|n IHn]; [done|]. cbn [replicate app] in *.
    apply no_neighbours_cons in Hl as [Hh Hl]. apply no_neighbours_cons. split; [|by apply IHn].
    intros d Hd. apply Hh. by destruct n.
Qed.

Lemma limit_neighbours bad p seen l :
  no_neighbours bad (p :: l) = true → (seen ≠ 0 → p = newline_char) →
  no_neighbours bad (p :: limit_newlines seen l) = true.
Proof.
  revert p seen. induction l as [|c l IH]; intros p seen Hl Hp; cbn [limit_newlines]; [done|].
  apply no_neighbours_cons in Hl as [Hh Hl]. case_bool_decide as Hc.
  - destruct (Nat.leb_spec 2 seen).
    + rewrite Hp in * by lia. subst c. by apply IH.
    + apply no_neighbours_cons. split; [intros d [= <-]; by apply Hh|]. by apply IH.
  - apply no_neighbours_cons. split; [intros d [= <-]; by apply Hh|]. by apply IH.
Qed.

Lemma limit_runs seen l : newline_runs seen (limit_newlines seen l) = true.
Proof.
  revert seen. induction l as [|c l IH]; intros seen; cbn [limit_newlines]; [done|].
  case_bool_decide as Hc.
  - destruct (Nat.leb_spec 2 seen); [done|]. cbn [newline_runs]. rewrite bool_decide_eq_true_2 by done.
    rewrite IH, andb_true_r. apply Nat.leb_le. lia.
  - cbn [newline_runs]. by rewrite bool_decide_eq_false_2.
Qed.

(** [trim]. *)
Lemma drop_spaces_suffix l : ∃ x, l = x ++ drop_spaces l.
Proof.
  induction l as [|c l [x IH]]; [by exists []|]. simpl. destruct (is_space c); [|by exists []].
  exists (c :: x). simpl. by rewrite <- IH.
Qed.

Lemma drop_spaces_head l c : head (drop_spaces l) = Some c → is_space c = false.
Proof. induction l as [|d l IH]; [done|]. simpl. destruct (is_space d) eqn:Hd; [done|]. by intros [= <-]. Qed.

Lemma drop_spaces_id l : (∀ c, head l = Some c → is_space c = false) → drop_spaces l = l.
Proof. destruct l as [|c l]; [done|]. intros H. simpl. by rewrite H. Qed.

Lemma trim_infix l : ∃ x y, l = x ++ trim_list l ++ y.
Proof.
  destruct (drop_spaces_suffix l) as [x Hx]. destruct (drop_spaces_suffix (reverse (drop_spaces l))) as [y Hy].
  exists x, (reverse y). unfold trim_list. rewrite <- reverse_app, <- Hy, reverse_involutive. done.
Qed.

Lemma trim_idemp l : trim_list (trim_list l) = trim_list l.
Proof.
  unfold trim_list at 1. rewrite (drop_spaces_id (trim_list l)).
  - unfold trim_list. rewrite reverse_involutive. f_equal. apply drop_spaces_id, drop_spaces_head.
  - intros c Hc. apply (drop_spaces_head l). destruct (drop_spaces_suffix (reverse (drop_spaces l))) as [y Hy].
    apply (f_equal reverse) in Hy. rewrite reverse_involutive, reverse_app in Hy. fold (trim_list l) in Hy.
    rewrite Hy. destruct (trim_list l); [done|exact Hc].
Qed.

(** ** The passes leave a normal text without double spaces alone *)

Lemma avoids_tail pat c l : avoids pat (c :: l) → avoids pat l.
Proof. intros H. apply (avoids_infix pat [c] []). by rewrite app_nil_r. Qed.

Lemma avoids_head p c l : avoids [p; c] (p :: l) → head l ≠ Some c.
Proof. intros H Hc. destruct l as [|d l]; [done|]. injection Hc as ->. by apply (H [] l). Qed.

Lemma collapse_id inside l :
  forallb is_plain l = true → avoids [space; space] l → (inside = true → head l ≠ Some space) →
  collapse_blanks inside l = l.
Proof.
  revert inside. induction l as [|c l IH]; intros inside Hp Hd Hh; [done|]. cbn [collapse_blanks].
  simpl in Hp. apply andb_true_iff in Hp as [Hc Hp]. pose proof (avoids_tail _ _ _ Hd) as Hd'.
  destruct (is_horizontal c) eqn:Hh'.
  - assert (c = space) as ->.
    { unfold is_horizontal in Hh'. apply andb_true_iff in Hh' as [Hs Hn]. unfold is_plain in Hc. rewrite Hs in Hc.
      apply negb_true_iff, bool_decide_eq_false in Hn. rewrite (bool_decide_eq_false_2 (c = newline_char)) in Hc by done.
      apply andb_true_iff in Hc as [_ Hc]. rewrite orb_false_r in Hc. by apply bool_decide_eq_true in Hc. }
    destruct inside; [by destruct Hh|]. f_equal. apply IH; [done..|]. intros _. by apply (avoids_head space).
  - f_equal. by apply IH.
Qed.

Lemma drop_controls_id l : forallb is_plain l = true → drop_controls l = l.
Proof.
  induction l as [|c l IH]; [done|]. simpl. intros [Hc Hl]%andb_true_iff. unfold is_plain in Hc.
  apply andb_true_iff in Hc as [Hc _]. by rewrite Hc, IH.
Qed.

Lemma tidy_id after n l :
  avoids [space; newline_char] (replicate n space ++ l) → avoids [newline_char; space] l →
  (after = true → n = 0 ∧ head l ≠ Some space) → tidy_lines after n l = replicate n space ++ l.
Proof.
  revert after n. induction l as [|c l IH]; intros after n Hsn Hns Ha; cbn [tidy_lines]; [by rewrite app_nil_r|].
  pose proof (avoids_tail _ _ _ Hns) as Hns'. repeat case_bool_decide; subst.
  - destruct after; [by destruct Ha as [_ []]|]. rewrite replicate_shift. apply IH; [by rewrite <- replicate_shift|done..].
  - destruct n as [|n].
    + simpl. f_equal. apply IH; [by apply avoids_tail in Hsn|done|]. intros _. split; [done|]. by apply (avoids_head newline_char).
    + exfalso. apply (Hsn (replicate n space) l). simpl. by rewrite replicate_shift.
  - do 2 f_equal. apply IH; [|done..]. apply (avoids_infix _ (replicate n space ++ [c]) []).
    by rewrite app_nil_r, <- app_assoc.
Qed.

Lemma replicate_newline_shift n l :
  replicate n newline_char ++ newline_char :: l = replicate (S n) newline_char ++ l.
Proof. induction n as [|n IH]; [done|]. cbn [replicate app]. f_equal. exact IH. Qed.

Lemma limit_id seen l :
  avoids [newline_char; newline_char; newline_char] (replicate seen newline_char ++ l) → limit_newlines seen l = l.
Proof.
  revert seen. induction l as [|c l IH]; intros seen Hn; cbn [limit_newlines]; [done|]. case_bool_decide; subst.
  - rewrite replicate_newline_shift in Hn. destruct (Nat.leb_spec 2 seen).
    + exfalso. destruct seen as [|[|k]]; [lia..|]. by apply (Hn [] (replicate k newline_char ++ l)).
    + f_equal. by apply IH.
  - f_equal. apply IH. apply (avoids_infix _ (replicate seen newline_char ++ [c]) []).
    by rewrite app_nil_r, <- app_assoc.
Qed.

Lemma clean_id l : normal l → avoids [space; space] l → clean l = l.
Proof.
  intros [Hp Hsn Hns Hb He] Hd. unfold clean.
  rewrite collapse_id, drop_controls_id, tidy_id by done. simpl. by rewrite limit_id.
Qed.

Lemma clean_normal l : normal (clean l).
Proof.
  unfold clean. set (l2 := drop_controls (collapse_blanks false l)).
  assert (Hp2 : forallb is_plain l2 = true) by apply drop_controls_plain.
  set (l4 := limit_newlines 0 (tidy_lines false 0 l2)).
  assert (Hr : no_neighbours ragged l4 = true).
  { assert (no_neighbours ragged ("a"%char :: l4) = true) as H; [|by apply no_neighbours_cons in H as [_ H]].
    apply limit_neighbours; [|done]. apply no_neighbours_cons. split; [done|]. apply tidy_ragged. }
  destruct (trim_infix l4) as (x & y & Hxy). split.
  - assert (forallb is_plain l4 = true) as H by by apply limit_plain, tidy_plain.
    rewrite Hxy, !forallb_app in H. by apply andb_true_iff in H as [_ [H _]%andb_true_iff].
  - apply (avoids_infix _ x y). rewrite <- Hxy. by apply (no_neighbours_avoids ragged).
  - apply (avoids_infix _ x y). rewrite <- Hxy. by apply (no_neighbours_avoids ragged).
  - apply (avoids_infix _ x y). rewrite <- Hxy. apply (newline_runs_avoids 0), limit_runs.
  - apply trim_idemp.
Qed.

Lemma filter_everything (p : ascii → bool) l : (∀ c, c ∈ l → p c = true) → List.filter p l = l.
Proof.
  induction l as [|c l IH]; intros H; [done|]. simpl. rewrite H by left. f_equal. apply IH.
  intros d Hd. apply H. by right.
Qed.

(** Without control characters no two spaces meet. *)
Lemma clean_single_spaces l : forallb (λ c, negb (is_control c) || is_space c) l = true → avoids [space; space] (clean l).
Proof.
  intros Hl. unfold clean. set (l1 := collapse_blanks false l).
  assert (drop_controls l1 = l1) as ->.
  { apply filter_everything. intros c Hc. destruct (collapse_in _ _ _ Hc) as [->|Hin]; [done|].
    rewrite forallb_forall in Hl. specialize (Hl c (proj1 (list_elem_of_In _ _) Hin)).
    apply orb_true_iff in Hl as [?|Hs]; [done|]. destruct (decide (c = newline_char)) as [->|Hn]; [done|].
    rewrite (collapse_horizontal _ _ _ Hc); [done|]. unfold is_horizontal. by rewrite Hs, bool_decide_eq_false_2. }
  set (l4 := limit_newlines 0 (tidy_lines false 0 l1)).
  assert (no_neighbours double_space l4 = true) as H.
  { assert (no_neighbours double_space ("a"%char :: l4) = true) as H; [|by apply no_neighbours_cons in H as [_ H]].
    apply limit_neighbours; [|done]. apply no_neighbours_cons. split; [done|].
    apply tidy_double; [|done]. apply (collapse_double false l). }
  destruct (trim_infix l4) as (x & y & Hxy). apply (avoids_infix _ x y). rewrite <- Hxy.
  by apply (no_neighbours_avoids double_space).
Qed.

(** ** The property *)

Abbreviation chars := String.list_ascii_of_string.

(** the cleaned text has a normal form: printable characters, spaces and
    newlines only; no space next to a newline, no three newlines in a row, no
    blanks at its ends.  When the text has no control characters but blanks,
    its words are separated by single spaces and cleaning it again changes
    nothing, so that equal contents get equal hashes. *)
Theorem cleaned_text_normal (raw : string) :
  normal (chars (cleanText raw)) ∧
  ((∀ c, c ∈ chars raw → is_control c = true → is_space c = true) →
   avoids [space; space] (chars (cleanText raw)) ∧ cleanText (cleanText raw) = cleanText raw).
Proof.
  unfold cleanText, on_chars. rewrite String.list_ascii_of_string_of_list_ascii. split; [apply clean_normal|].
  intros Hraw.
  assert (Hs : avoids [space; space] (clean (chars raw))).
  { apply clean_single_spaces, forallb_forall. intros c Hc%list_elem_of_In. specialize (Hraw c Hc).
    destruct (is_control c); [by apply Hraw|done]. }
  split; [done|]. by rewrite clean_id by (apply clean_normal || done).
Qed.

(** Control characters are removed after the blanks were collapsed: the blanks
    around one become a double space, and a second cleaning differs. *)
Lemma control_character_hides_blanks :
  let raw := on_chars (λ l, l ++ [space; ascii_of_nat 1; space; "b"%char]) "a" in
  cleanText raw = "a  b"%string ∧ cleanText (cleanText raw) = "a b"%string.
Proof. vm_compute. by split. Qed.
