(* ===== verification/Rag.v ===== *)
(** * Retrieval-augmented generation ([src/ai/rag/pipeline.js],
    [src/ai/rag/vectorStore.js], [src/ai/rag/index.js], [src/models/knowledge.model.js])

    Ingestion of documents, the vector store with its collections, retrieval and
    cited answers.  The vector database Qdrant and the text splitter are
    interfaces; MongoDB's two collections are part of the world.  One operation
    at a time runs here; any call of Qdrant and of the provider may fail. *)

From S2P Require Import Prelude Text Double Program Dag Models Retry TaskRepo Dispatcher Engine TaskQueue Worker.
From S2P Require Import Access Structured Router RagText.

Local Open Scope string_scope.

(** ** Points and documents *)

Definition Vector : Type := list double.

Record Payload := mkPayload {
  pl_ownerId : string;
  pl_documentId : string;
  pl_chunkIndex : nat;
  pl_title : string;
  pl_text : string
}.

(** A missing vector is [undefined]. *)
Record Point := mkPoint { pt_id : string; pt_vector : option Vector; pt_payload : Payload }.

Record ScoredPoint := mkScored { sp_id : string; sp_score : double; sp_payload : Payload }.

Inductive DOC_STATUS : Type := PROCESSING | DOC_READY | DOC_FAILED.

#[export] Instance doc_status_eq_dec : EqDecision DOC_STATUS.
Proof. solve_decision. Defined.

Set Primitive Projections.

Record KnowledgeDocument := mkDocument {
  kd_ownerId : oid;
  kd_title : string;
  kd_mimeType : string;
  kd_contentHash : string;
  kd_status : DOC_STATUS;
  kd_chunkCount : nat;
  kd_embeddingModel : string;
  kd_vectorDims : option nat;
  kd_error : option string
}.

Unset Primitive Projections.

Record KnowledgeChunk := mkChunk {
  kc_documentId : oid;
  kc_ownerId : oid;
  kc_index : nat;
  kc_text : string;
  kc_pointId : string;
  kc_embeddingModel : string
}.

(** ** Qdrant *)

(** The client's calls, any of which may reject.  A query is filtered by owner,
    a deletion by document. *)
Class Qdrant := {
  qstate : Type;
  q_collectionExists : string → qstate → settled bool * qstate;
  q_createCollection : string → nat → qstate → settled unit * qstate;
  q_createPayloadIndex : string → string → qstate → settled unit * qstate;
  q_upsert : string → list Point → qstate → settled unit * qstate;
  q_query : string → Vector → nat → double → string → qstate → settled (list ScoredPoint) * qstate;
  q_delete : string → string → qstate → settled unit * qstate;
  (** The points of a collection. *)
  q_points : string → qstate → list Point
}.

(** What the pipeline relies on.  A rejected call may have been carried out in
    part. *)
Class QdrantLaws `{!Qdrant} := {
  q_exists_same name s : let '(_, s') := q_collectionExists name s in ∀ n, q_points n s' = q_points n s;
  q_create_same name d s : let '(_, s') := q_createCollection name d s in ∀ n, q_points n s' = q_points n s;
  q_index_same name f s : let '(_, s') := q_createPayloadIndex name f s in ∀ n, q_points n s' = q_points n s;
  q_query_same name v k t o s : let '(_, s') := q_query name v k t o s in ∀ n, q_points n s' = q_points n s;
  q_query_hits name v k t o s hits s' :
    q_query name v k t o s = (Resolved hits, s') →
    (length hits ≤ k)%nat ∧ ∀ h, h ∈ hits → ∃ p, p ∈ q_points name s ∧ pt_id p = sp_id h ∧
      pt_payload p = sp_payload h ∧ pl_ownerId (sp_payload h) = o;
  q_upsert_adds name ps s s' :
    NoDup (pt_id <$> ps) → q_upsert name ps s = (Resolved tt, s') → ∀ p, p ∈ ps → p ∈ q_points name s';
  q_upsert_only name ps s :
    let '(_, s') := q_upsert name ps s in
    ∀ n p, p ∈ q_points n s' → p ∈ q_points n s ∨ n = name ∧ p ∈ ps;
  q_delete_all name d s s' :
    q_delete name d s = (Resolved tt, s') → ∀ p, p ∈ q_points name s' → pl_documentId (pt_payload p) ≠ d;
  q_delete_only name d s :
    let '(_, s') := q_delete name d s in ∀ n p, p ∈ q_points n s' → p ∈ q_points n s
}.

(** ** The world, and computations on it *)

Section rag.
Context `{!Qdrant}.

Record RagWorld := mkRagWorld {
  rw_docs : gmap oid KnowledgeDocument;
  rw_chunks : list KnowledgeChunk;
  rw_q : qstate;
  rw_ready : gset string;
  rw_embeds : nat;
  rw_uuids : nat
}.

Definition set_docs (d : gmap oid KnowledgeDocument) (w : RagWorld) : RagWorld :=
  mkRagWorld d (rw_chunks w) (rw_q w) (rw_ready w) (rw_embeds w) (rw_uuids w).
Definition set_chunks (l : list KnowledgeChunk) (w : RagWorld) : RagWorld :=
  mkRagWorld (rw_docs w) l (rw_q w) (rw_ready w) (rw_embeds w) (rw_uuids w).
Definition set_q (q : qstate) (w : RagWorld) : RagWorld :=
  mkRagWorld (rw_docs w) (rw_chunks w) q (rw_ready w) (rw_embeds w) (rw_uuids w).
Definition set_ready (r : gset string) (w : RagWorld) : RagWorld :=
  mkRagWorld (rw_docs w) (rw_chunks w) (rw_q w) r (rw_embeds w) (rw_uuids w).

(** An error of the application, or whatever a library throws. *)
Inductive rag_error : Type := AppError (e : exn) | Thrown (t : thrown).

Definition rag (A : Type) : Type := RagWorld → (rag_error + A) * RagWorld.

#[export] Instance rag_ret : MRet rag := λ A a w, (inr a, w).
#[export] Instance rag_bind : MBind rag := λ A B k m w,
  match m w with (inr a, w') => k a w' | (inl e, w') => (inl e, w') end.

Definition rag_throw {A} (e : rag_error) : rag A := λ w, (inl e, w).
Definition rag_catch {A} (m : rag A) (h : rag_error → rag A) : rag A := λ w,
  match m w with (inr a, w') => (inr a, w') | (inl e, w') => h e w' end.
Definition of_settled {A} (s : settled A) : rag A := λ w,
  (match s with Resolved a => inr a | Rejected e => inl (Thrown e) end, w).
Definition modify_world (f : RagWorld → RagWorld) : rag unit := λ w, (inr tt, f w).

(** One call of the Qdrant client. *)
Definition client {A} (f : qstate → settled A * qstate) : rag A := λ w,
  let '(s, q) := f (rw_q w) in of_settled s (set_q q w).

Definition type_error (message : string) : thrown :=
  ErrorObject (mkError false (Some "TypeError") (Some message) None ("TypeError: " +:+ message)).

(** ** The vector store *)

(** [model.replace(/[^a-zA-Z0-9]+/g, "_")]. *)
Definition is_alnum (c : Ascii.ascii) : bool := is_lower c || is_upper c || is_digit c.

Fixpoint replace_runs (inside : bool) (l : list Ascii.ascii) : list Ascii.ascii :=
  match l with
  | [] => []
  | c :: l' =>
      if is_alnum c then c :: replace_runs false l'
      else if inside then replace_runs true l' else Ascii.ascii_of_nat 95 :: replace_runs true l'
  end.

Section store.
Context (prefix : string).

Definition collectionName (model : string) (dims : nat) : string :=
  prefix +:+ "_" +:+ on_chars (replace_runs false) model +:+ "_" +:+ pretty dims.

(** The creation of a collection; that another process created it meanwhile is
    fine. *)
Definition create_collection (name : string) (dims : nat) : rag unit :=
  exists_ ← client (q_collectionExists name);
  if exists_ : bool then mret tt
  else
    _ ← rag_catch (client (q_createCollection name dims))
          (λ err, now ← client (q_collectionExists name); if now : bool then mret tt else rag_throw err);
    _ ← client (q_createPayloadIndex name "ownerId");
    client (q_createPayloadIndex name "documentId").

(** Once per process; forgotten when it fails. *)
Definition ensureCollection (name : string) (dims : nat) : rag unit := λ w,
  if bool_decide (name ∈ rw_ready w) then (inr tt, w)
  else rag_catch (create_collection name dims)
         (λ err, _ ← modify_world (λ w, set_ready (rw_ready w ∖ {[name]}) w); rag_throw err)
         (set_ready (rw_ready w ∪ {[name]}) w).

Definition vs_upsert (model : string) (points : list Point) : rag unit :=
  match points with
  | [] => mret tt
  | p :: _ =>
      match pt_vector p with
      | None => rag_throw (Thrown (type_error "Cannot read properties of undefined (reading 'length')"))
      | Some v =>
          let name := collectionName model (length v) in
          _ ← ensureCollection name (length v);
          client (q_upsert name points)
      end
  end.

Definition vs_search (model : string) (vector : option Vector) (ownerId : string) (topK : nat) (minScore : double)
    : rag (list ScoredPoint) :=
  match vector with
  | None => rag_throw (Thrown (type_error "Cannot read properties of undefined (reading 'length')"))
  | Some v =>
      let name := collectionName model (length v) in
      _ ← ensureCollection name (length v);
      client (q_query name v topK minScore ownerId)
  end.

Definition vs_deleteByDocument (model : string) (dims : nat) (documentId : string) : rag unit :=
  let name := collectionName model dims in
  _ ← ensureCollection name dims;
  client (q_delete name documentId).
End store.
(** ** The pipeline *)

Definition EMBED_BATCH : nat := 16.
Definition RAG_PROMPT_VERSION : string := "rag-answer.v2".
Definition NO_ANSWER : string := "I don't have enough information in the knowledge base to answer that.".

(** What the pipeline is built from: the answer to the n-th [provider.embed],
    the text splitter, the hash, the n-th random UUID. *)
Record RagDeps := mkRagDeps {
  rd_embed : nat → string → list string → settled (list Vector);
  rd_splitText : nat → nat → string → settled (list string);
  rd_sha256 : string → string;
  rd_randomUUID : nat → string;
  rd_prefix : string;
  rd_embedding : string;
  rd_chunkSize : nat;
  rd_chunkOverlap : nat;
  rd_topK : nat;
  rd_minScore : double
}.

Section pipeline.
Context (deps : RagDeps).
Notation embedding := (rd_embedding deps).

Definition embed_call (input : list string) : rag (list Vector) := λ w,
  of_settled (rd_embed deps (rw_embeds w) embedding input)
    (mkRagWorld (rw_docs w) (rw_chunks w) (rw_q w) (rw_ready w) (S (rw_embeds w)) (rw_uuids w)).

(** Batches of [EMBED_BATCH] texts; the loop variable grows with each. *)
Fixpoint embed_batches (budget : nat) (texts : list string) (vectors : list Vector) : rag (list Vector) :=
  match budget, texts with
  | _, [] | O, _ => mret vectors
  | S budget, _ =>
      batch ← embed_call (take EMBED_BATCH texts);
      embed_batches budget (drop EMBED_BATCH texts) (vectors ++ batch)%list
  end.
Definition embedAll (texts : list string) : rag (list Vector) := embed_batches (length texts) texts [].

Record RagHit := mkHit {
  hit_pointId : string;
  hit_score : double;
  hit_documentId : string;
  hit_title : string;
  hit_chunkIndex : nat;
  hit_text : string
}.

Definition hit_of (h : ScoredPoint) : RagHit :=
  mkHit (sp_id h) (toFixed 4 (sp_score h)) (pl_documentId (sp_payload h)) (pl_title (sp_payload h))
    (pl_chunkIndex (sp_payload h)) (pl_text (sp_payload h)).

Definition retrieve (ownerId : oid) (query : string) (k : nat) : rag (list RagHit) :=
  vectors ← embed_call [query];
  hits ← vs_search (rd_prefix deps) embedding (head vectors) (oid_str ownerId) k (rd_minScore deps);
  mret (hit_of <$> hits).

(** *** Ingestion *)

Definition nextUUID : rag string := λ w,
  (inr (rd_randomUUID deps (rw_uuids w)),
   mkRagWorld (rw_docs w) (rw_chunks w) (rw_q w) (rw_ready w) (rw_embeds w) (S (rw_uuids w))).

Fixpoint make_chunks (documentId ownerId : oid) (index : nat) (pieces : list string) : rag (list KnowledgeChunk) :=
  match pieces with
  | [] => mret []
  | piece :: pieces' =>
      pointId ← nextUUID;
      chunks ← make_chunks documentId ownerId (S index) pieces';
      mret (mkChunk documentId ownerId index piece pointId embedding :: chunks)
  end.

Definition point_of (title : string) (vectors : list Vector) (i : nat) (c : KnowledgeChunk) : Point :=
  mkPoint (kc_pointId c) (vectors !! i)
    (mkPayload (oid_str (kc_ownerId c)) (oid_str (kc_documentId c)) (kc_index c) title (kc_text c)).

(** The unique index on owner and content. *)
Definition same_document (ownerId : oid) (hash : string) (d : KnowledgeDocument) : bool :=
  bool_decide (kd_ownerId d = ownerId) && bool_decide (kd_contentHash d = hash).

Definition Document_create (ownerId : oid) (title mimeType hash : string) : rag (oid * KnowledgeDocument) := λ w,
  if bool_decide (find (same_document ownerId hash) (rw_docs w) ≠ [])
  then (inl (AppError (DuplicateKey ["ownerId"; "contentHash"])), w)
  else
    let d := mkDocument ownerId title mimeType hash PROCESSING 0 embedding None None in
    let '(i, docs) := insert_new d (rw_docs w) in (inr (i, d), set_docs docs w).

Definition is_duplicate (e : rag_error) : bool :=
  match e with AppError (DuplicateKey _) => true | _ => false end.

(** [doc.save()] *)
Definition save (i : oid) (d : KnowledgeDocument) : rag unit := modify_world (λ w, set_docs (<[i := d]> (rw_docs w)) w).

Definition insertMany (chunks : list KnowledgeChunk) : rag unit :=
  modify_world (λ w, set_chunks (rw_chunks w ++ chunks)%list w).

Definition deleteMany (i : oid) : rag unit :=
  modify_world (λ w, set_chunks (List.filter (λ c, negb (bool_decide (kc_documentId c = i))) (rw_chunks w)) w).

(** [err.message], when it is a string. *)
Definition error_text (e : rag_error) : option string :=
  match e with
  | AppError (AppErr _ _ message _) => Some message
  | AppError _ => Some ""
  | Thrown t => match err_message t with Some m => m | None => None end
  end.

(** Chunks, vectors and points of a document; [dims] is set as soon as the first
    vector is there, and is returned with an error too. *)
Definition store_document (i : oid) (ownerId : oid) (title text : string)
    : rag ((option nat * rag_error) + (nat * nat)) := λ w,
  match rd_splitText deps (rd_chunkSize deps) (rd_chunkOverlap deps) text with
  | Rejected e => (inr (inl (None, Thrown e)), w)
  | Resolved pieces =>
      match embedAll pieces w with
      | (inl e, w) => (inr (inl (None, e)), w)
      | (inr vectors, w) =>
          match head vectors with
          | None => (inr (inl (None, Thrown (type_error "Cannot read properties of undefined (reading 'length')"))), w)
          | Some v =>
              match (chunks ← make_chunks i ownerId 0 pieces;
                     _ ← insertMany chunks;
                     vs_upsert (rd_prefix deps) embedding (imap (point_of title vectors) chunks) : rag unit) w with
              | (inl e, w) => (inr (inl (Some (length v), e)), w)
              | (inr _, w) => (inr (inr (length pieces, length v)), w)
              end
          end
      end
  end.

Definition ignore_error (m : rag unit) : rag unit := rag_catch m (λ _, mret tt).

(** The catch block: clean up, mark the document, throw again. *)
Definition abandon (i : oid) (doc : KnowledgeDocument) (dims : option nat) (err : rag_error)
    : rag (oid * KnowledgeDocument) :=
  _ ← deleteMany i;
  _ ← (match dims with
       | Some (S _ as d) => ignore_error (vs_deleteByDocument (rd_prefix deps) embedding d (oid_str i))
       | _ => mret tt
       end);
  match error_text err with
  | Some message => _ ← save i (doc {{ kd_status := DOC_FAILED; kd_error := Some (truncate 500 message) }}); rag_throw err
  | None => rag_throw (Thrown (type_error "Cannot read properties of undefined (reading 'slice')"))
  end.

Definition ingest (ownerId : oid) (title content mimeType : string) : rag (oid * KnowledgeDocument) :=
  let text := cleanText content in
  if (String.length text <? 20)%nat
  then rag_throw (AppError (ValidationError "Document has too little text after cleaning" "VALIDATION_ERROR" JNull))
  else
    let contentHash := rd_sha256 deps text in
    created ← rag_catch (Document_create ownerId title mimeType contentHash)
      (λ err, if is_duplicate err
              then rag_throw (AppError (ConflictError "This document was already uploaded" "DUPLICATE_DOCUMENT" JNull))
              else rag_throw err);
    let '(i, doc) := created in
    stored ← store_document i ownerId title text;
    match stored with
    | inr (chunkCount, dims) =>
        let doc := doc {{ kd_status := DOC_READY; kd_chunkCount := chunkCount; kd_vectorDims := Some dims }} in
        _ ← save i doc; mret (i, doc)
    | inl (dims, err) => abandon i doc dims err
    end.

Definition deleteDocument (scope : oid → bool) (documentId : oid) : rag unit := λ w,
  match rw_docs w !! documentId with
  | Some d =>
      if scope (kd_ownerId d) then
        (_ ← (match kd_vectorDims d with
              | Some (S _ as dims) => vs_deleteByDocument (rd_prefix deps) (kd_embeddingModel d) dims (oid_str documentId)
              | _ => mret tt
              end);
         _ ← deleteMany documentId;
         modify_world (λ w, set_docs (delete documentId (rw_docs w)) w) : rag unit) w
      else (inl (AppError (NotFoundError "Document not found")), w)
  | None => (inl (AppError (NotFoundError "Document not found")), w)
  end.

(** *** Answers *)

Record RagReply := mkRagReply { rr_answer : string; rr_citations : list string; rr_grounded : bool }.

Fixpoint read_citations (ids : list string) (l : list json) : option (list string) :=
  match l with
  | [] => Some []
  | JStr id :: l' => if bool_decide (id ∈ ids) then cons id <$> read_citations ids l' else None
  | _ => None
  end.

(** Only ids of retrieved sources, at most as many as there are. *)
Definition read_reply (ids : list string) (v : json) : option RagReply :=
  answer ← as_string (prop "answer" v);
  cited ← (match prop "citations" v with
           | Some (JArr l) => if (length l <=? length ids)%nat then read_citations ids l else None
           | _ => None
           end);
  grounded ← as_bool (prop "grounded" v);
  if ((1 <=? String.length answer) && (String.length answer <=? 3000))%nat
  then Some (mkRagReply answer cited grounded) else None.

(** The texts zod derives, and the fixed part of the prompt. *)
Context (schema_text : list string → string) (issues_of : json → list Issue) (SYSTEM : string).

Definition AnswerSchema (ids : list string) : Schema RagReply :=
  mkSchema (schema_text ids) (λ v, match read_reply ids v with Some r => inr r | None => inl (issues_of v) end).

Record Citation := mkCitation {
  ct_id : string;
  ct_documentId : string;
  ct_title : string;
  ct_chunkIndex : nat;
  ct_score : double
}.

Record RagAnswer := mkRagAnswer {
  ra_answer : string;
  ra_citations : list Citation;
  ra_grounded : bool;
  ra_retrieved : nat;
  ra_usage : Usage;
  ra_model : option string
}.

(** [S1], [S2], ... *)
Definition source_ids (hits : list RagHit) : list string := imap (λ i _, "S" +:+ pretty (i + 1)%nat) hits.

Definition context_of (hits : list RagHit) : string :=
  join (newline +:+ newline)
    (imap (λ i h, "[" +:+ "S" +:+ pretty (i + 1)%nat +:+ "] " +:+ hit_title h +:+ " (chunk " +:+
                  pretty (hit_chunkIndex h) +:+ ")" +:+ newline +:+ hit_text h) hits).

(** [[...new Set(l)]]: the first occurrences. *)
Fixpoint distinct (seen l : list string) : list string :=
  match l with
  | [] => []
  | x :: l' => if bool_decide (x ∈ seen) then distinct seen l' else x :: distinct (x :: seen) l'
  end.

(** [hits[ids.indexOf(id)]]. *)
Definition hit_named (hits : list RagHit) (id : string) : option RagHit :=
  match list_find (λ x, x = id) (source_ids hits) with Some (i, _) => hits !! i | None => None end.

Definition cite (hits : list RagHit) (id : string) : option Citation :=
  h ← hit_named hits id;
  Some (mkCitation id (hit_documentId h) (hit_title h) (hit_chunkIndex h) (hit_score h)).

(** What is done with the hits; the ids of the citations are those of hits (see
    [cite_total]). *)
Definition answer_from (provider : Provider) (json_parse : string → string + json) (model question : string)
    (hits : list RagHit) : ai RagAnswer :=
  if bool_decide (length hits = 0) then mret (mkRagAnswer NO_ANSWER [] false 0 no_usage None)
  else
      let ids := source_ids hits in
      r ← generateStructured provider json_parse model (AnswerSchema ids) SYSTEM
            (wrapUntrusted "document" (context_of hits) +:+ newline +:+ newline +:+
             "Question:" +:+ newline +:+ wrapUntrusted "user_input" question) 2;
      match mapM (cite hits) (distinct [] (rr_citations (st_data r))) with
      | None => reject (type_error "Cannot read properties of undefined (reading 'documentId')")
      | Some cited =>
          let grounded := rr_grounded (st_data r) && negb (bool_decide (cited = [])) in
          mret (mkRagAnswer (if grounded then rr_answer (st_data r) else NO_ANSWER)
                  (if grounded then cited else []) grounded (length hits) (st_usage r) (Some model))
      end.

(** The request counter of the language model is not part of the world. *)
Definition answer (provider : Provider) (json_parse : string → string + json) (ownerId : oid)
    (question model : string) (n : nat) (w : RagWorld) : (rag_error + RagAnswer) * nat * RagWorld :=
  match retrieve ownerId question (rd_topK deps) w with
  | (inl e, w') => (inl e, n, w')
  | (inr hits, w') =>
      match answer_from provider json_parse model question hits n with
      | (Resolved a, n') => (inr a, n', w')
      | (Rejected e, n') => (inl (Thrown e), n', w')
      end
  end.
End pipeline.
End rag.
Arguments RagWorld {_}.
Arguments mkRagWorld {_} _ _ _ _ _ _.
