(* ===== verification/RagProps.v ===== *)
(** * What ingestion and answers guarantee

    A document is ingested as a whole or not at all, as far as the vector
    database lets it; and an answer cites only sources of the asker. *)

From S2P Require Import Prelude Text Double Program Dag Models Retry TaskRepo Dispatcher Engine TaskQueue Worker.
From S2P Require Import Access Structured Router RagText Rag.

Local Open Scope string_scope.

Section facts.
Context `{qd : !Qdrant, ql : !QdrantLaws}.

(** ** Steps that leave documents, chunks and points alone *)

Definition quiet (w w' : RagWorld) : Prop :=
  rw_docs w' = rw_docs w ∧ rw_chunks w' = rw_chunks w ∧ ∀ n, q_points n (rw_q w') = q_points n (rw_q w).

#[export] Instance quiet_preorder : PreOrder quiet.
Proof.
  split; [by intros w|]. intros w1 w2 w3 (? & ? & H1) (? & ? & H2). split_and!; [congruence..|].
  intros n. by rewrite H2, H1.
Qed.

(** [m] is quiet, however it ends. *)
Definition calm {A} (m : rag A) : Prop := ∀ w, quiet w (m w).2.

Lemma calm_bind {A B} (m : rag A) (k : A → rag B) : calm m → (∀ a, calm (k a)) → calm (m ≫= k).
Proof.
  intros Hm Hk w. specialize (Hm w). unfold mbind, rag_bind. destruct (m w) as [[e|a] w1]; [done|].
  etrans; [exact Hm|apply Hk].
Qed.

Lemma calm_catch {A} (m : rag A) h : calm m → (∀ e, calm (h e)) → calm (rag_catch m h).
Proof.
  intros Hm Hh w. specialize (Hm w). unfold rag_catch. destruct (m w) as [[e|a] w1]; [|done].
  etrans; [exact Hm|apply Hh].
Qed.

Lemma calm_ret {A} (a : A) : calm (mret a).
Proof. by intros w. Qed.

Lemma calm_throw {A} e : calm (rag_throw (A := A) e).
Proof. by intros w. Qed.

Lemma calm_settled {A} (s : settled A) : calm (of_settled s).
Proof. by intros w. Qed.

Lemma calm_ready f : calm (modify_world (λ w, set_ready (f w) w)).
Proof. by intros w. Qed.

Lemma calm_client {A} (f : qstate → settled A * qstate) :
  (∀ s, let '(_, s') := f s in ∀ n, q_points n s' = q_points n s) → calm (client f).
Proof. intros Hf w. unfold client. specialize (Hf (rw_q w)). by destruct (f (rw_q w)). Qed.

Lemma calm_embed deps input : calm (embed_call deps input).
Proof. by intros w. Qed.

Lemma calm_exists name : calm (client (q_collectionExists name)).
Proof. apply calm_client. intros s. apply q_exists_same. Qed.
Lemma calm_createCollection name d : calm (client (q_createCollection name d)).
Proof. apply calm_client. intros s. apply q_create_same. Qed.
Lemma calm_index name f : calm (client (q_createPayloadIndex name f)).
Proof. apply calm_client. intros s. apply q_index_same. Qed.
Lemma calm_query name v k t o : calm (client (q_query name v k t o)).
Proof. apply calm_client. intros s. apply q_query_same. Qed.

#[local] Hint Resolve calm_bind calm_catch calm_ret calm_throw calm_settled calm_ready calm_embed
  calm_exists calm_createCollection calm_index calm_query : calm.

Lemma calm_create name dims : calm (create_collection name dims).
Proof.
  unfold create_collection. apply calm_bind; [auto with calm|]. intros [|]; [auto with calm|].
  apply calm_bind; [|auto with calm]. apply calm_catch; [auto with calm|]. intros e.
  apply calm_bind; [auto with calm|]. intros [|]; auto with calm.
Qed.

Lemma calm_ensure name dims : calm (ensureCollection name dims).
Proof.
  intros w. unfold ensureCollection. case_bool_decide; [done|].
  set (w1 := set_ready _ w). assert (quiet w w1) as Hq by done. etrans; [exact Hq|].
  apply (calm_catch (create_collection name dims)); [apply calm_create|]. auto with calm.
Qed.

(** It is remembered when it succeeds. *)
Lemma ready_bind {A B} (m : rag A) (k : A → rag B) w :
  (∀ w, rw_ready (m w).2 = rw_ready w) → (∀ a w, rw_ready (k a w).2 = rw_ready w) → rw_ready ((m ≫= k) w).2 = rw_ready w.
Proof.
  intros Hm Hk. specialize (Hm w). unfold mbind, rag_bind. destruct (m w) as [[e|a] w1]; [done|]. by rewrite Hk.
Qed.

Lemma ready_client {A} (f : qstate → settled A * qstate) w : rw_ready (client f w).2 = rw_ready w.
Proof. unfold client. by destruct (f (rw_q w)). Qed.

Lemma ready_create name dims w : rw_ready (create_collection name dims w).2 = rw_ready w.
Proof.
  unfold create_collection. apply ready_bind; [intros; apply ready_client|]. intros [|] w'; [done|].
  apply ready_bind; [|intros; apply ready_bind; intros; apply ready_client].
  intros w2. unfold rag_catch. pose proof (ready_client (q_createCollection name dims) w2) as H.
  destruct (client _ w2) as [[e|a] w3]; [|done]. rewrite <- H. apply ready_bind; [intros; apply ready_client|].
  by intros [|].
Qed.

Lemma ensure_ready name dims w w' : ensureCollection name dims w = (inr tt, w') → name ∈ rw_ready w'.
Proof.
  unfold ensureCollection. case_bool_decide; [by intros [= <-]|]. unfold rag_catch. set (w1 := set_ready _ w).
  pose proof (ready_create name dims w1) as H1. destruct (create_collection name dims w1) as [[e|[]] w2]; [done|].
  intros [= <-]. cbn in H1. rewrite H1. unfold w1. cbn. set_solver.
Qed.

Lemma ensure_again name dims w : name ∈ rw_ready w → ensureCollection name dims w = (inr tt, w).
Proof. intros H. unfold ensureCollection. by rewrite bool_decide_eq_true_2. Qed.

Lemma calm_embed_batches deps budget texts vectors : calm (embed_batches deps budget texts vectors).
Proof.
  revert texts vectors. induction budget as [|budget IH]; intros texts vectors; [by destruct texts|].
  destruct texts as [|t texts]; [done|]. cbn [embed_batches]. apply calm_bind; auto with calm.
Qed.

Lemma calm_make_chunks deps i o k pieces : calm (make_chunks deps i o k pieces).
Proof.
  revert k. induction pieces as [|t pieces IH]; intros k; cbn [make_chunks]; [auto with calm|].
  apply calm_bind; [by intros w|]. intros u. apply calm_bind; auto with calm.
Qed.

Lemma bind_inr {A B} (m : rag A) (k : A → rag B) w b w' :
  (m ≫= k) w = (inr b, w') ↔ ∃ a w1, m w = (inr a, w1) ∧ k a w1 = (inr b, w').
Proof.
  unfold mbind, rag_bind. destruct (m w) as [[e|a] w1].
  - split; [done|]. by intros (? & ? & [=] & _).
  - split; [eauto|]. by intros (? & ? & [= <- <-] & ?).
Qed.

(** ** Retrieval *)

Lemma calm_search prefix model v o k t : calm (vs_search prefix model v o k t).
Proof.
  unfold vs_search. destruct v as [v|]; [|auto with calm]. apply calm_bind; [apply calm_ensure|]. auto with calm.
Qed.

(** A hit shows a point of the owner. *)
Definition shows (w : RagWorld) (ownerId : oid) (h : RagHit) : Prop :=
  ∃ n p, p ∈ q_points n (rw_q w) ∧ pl_ownerId (pt_payload p) = oid_str ownerId ∧
    hit_documentId h = pl_documentId (pt_payload p) ∧ hit_title h = pl_title (pt_payload p) ∧
    hit_chunkIndex h = pl_chunkIndex (pt_payload p) ∧ hit_text h = pl_text (pt_payload p).

Lemma retrieve_own deps ownerId query k w hits w' :
  retrieve deps ownerId query k w = (inr hits, w') → (length hits ≤ k)%nat ∧ Forall (shows w ownerId) hits.
Proof.
  intros H. unfold retrieve in H. apply bind_inr in H as (vs & w1 & He & H).
  pose proof (calm_embed deps [query] w) as Hq1. rewrite He in Hq1.
  apply bind_inr in H as (scored & w2 & Hs & [= <- <-]). unfold vs_search in Hs.
  destruct (head vs) as [v|]; [|done]. apply bind_inr in Hs as ([] & w3 & Hen & Hc).
  pose proof (calm_ensure (collectionName (rd_prefix deps) (rd_embedding deps) (length v)) (length v) w1) as Hq2.
  rewrite Hen in Hq2. unfold client in Hc. destruct (q_query _ _ _ _ _ _) as [s q] eqn:Hqq.
  unfold of_settled in Hc. destruct s as [scored'|e]; [|done]. injection Hc as -> <-.
  apply q_query_hits in Hqq as [Hlen Hhits]. split; [by rewrite length_fmap|].
  apply Forall_fmap, Forall_forall. intros h Hh. destruct (Hhits h Hh) as (p & Hp & _ & Hpl & Ho).
  assert (Hq : quiet w w3) by (by etrans). destruct Hq as (_ & _ & Hq). rewrite Hq in Hp.
  eexists _, p. rewrite Hpl. split_and!; [exact Hp|done..].
Qed.

(** ** Citations *)

Lemma source_ids_length hits : length (source_ids hits) = length hits.
Proof. apply length_imap. Qed.

Lemma hit_named_some hits id : id ∈ source_ids hits → ∃ h, hit_named hits id = Some h ∧ h ∈ hits.
Proof.
  intros Hin. unfold hit_named. destruct (list_find_elem_of (λ x, x = id) (source_ids hits) id Hin eq_refl) as [[i x] Hf].
  rewrite Hf. apply list_find_Some in Hf as (Hi & _ & _). apply lookup_lt_Some in Hi. rewrite source_ids_length in Hi.
  destruct (lookup_lt_is_Some_2 hits i Hi) as [h Hh]. exists h. split; [done|]. by eapply list_elem_of_lookup_2.
Qed.

Lemma distinct_spec seen l : NoDup (distinct seen l) ∧ ∀ x, x ∈ distinct seen l → x ∈ l ∧ x ∉ seen.
Proof.
  revert seen. induction l as [|y l IH]; intros seen; cbn [distinct].
  - split; [constructor|]. by intros x ?%not_elem_of_nil.
  - case_bool_decide as Hy.
    + destruct (IH seen) as [Hn Hx]. split; [done|]. intros x H. destruct (Hx x H). split; [by right|done].
    + destruct (IH (y :: seen)) as [Hn Hx]. split.
      * constructor; [|done]. intros H. destruct (Hx y H) as [_ []]. left.
      * intros x [->|H]%elem_of_cons; [split; [left|done]|]. destruct (Hx x H) as [? Hns].
        split; [by right|]. intros ?. apply Hns. by right.
Qed.

Lemma read_citations_in ids l cited : read_citations ids l = Some cited → Forall (λ id, id ∈ ids) cited.
Proof.
  revert cited. induction l as [|v l IH]; intros cited; cbn [read_citations]; [by intros [= <-]|].
  destruct v as [|b|z|id|l0|fs]; try done. case_bool_decide; [|done].
  intros (c & Hc & ->)%fmap_Some. constructor; [done|by apply IH].
Qed.

Lemma read_reply_ok ids v r :
  read_reply ids v = Some r →
  Forall (λ id, id ∈ ids) (rr_citations r) ∧ (1 ≤ String.length (rr_answer r) ≤ 3000)%nat.
Proof.
  unfold read_reply. intros H. apply bind_Some in H as (a & _ & H). apply bind_Some in H as (cited & Hc & H).
  apply bind_Some in H as (g & _ & H). destruct (_ && _) eqn:Hl; [|done]. injection H as <-. simpl.
  apply andb_true_iff in Hl as [Hl1%Nat.leb_le Hl2%Nat.leb_le]. split; [|done].
  destruct (prop "citations" v) as [[]|]; try done. destruct (_ <=? _)%nat; [|done]. by eapply read_citations_in.
Qed.

(** The citations of ids of hits always exist. *)
Lemma cite_total hits ids :
  Forall (λ id, id ∈ source_ids hits) ids →
  ∃ cited, mapM (cite hits) ids = Some cited ∧ ct_id <$> cited = ids ∧
    Forall (λ c, ∃ h, h ∈ hits ∧ ct_documentId c = hit_documentId h ∧ ct_title c = hit_title h ∧
                      ct_chunkIndex c = hit_chunkIndex h) cited.
Proof.
  induction 1 as [|id ids Hid _ (cited & Hm & Hids & Hc)]; [by exists []|].
  destruct (hit_named_some hits id Hid) as (h & Hh & Hin).
  set (c := mkCitation id (hit_documentId h) (hit_title h) (hit_chunkIndex h) (hit_score h)).
  assert (Hcite : cite hits id = Some c) by (unfold cite; by rewrite Hh).
  exists (c :: cited). split_and!.
  - change (mapM (cite hits) (id :: ids)) with (y ← cite hits id; k ← mapM (cite hits) ids; Some (y :: k)).
    by rewrite Hcite, Hm.
  - cbn. by rewrite Hids.
  - constructor; [|done]. by exists h.
Qed.
(** ** Ingestion *)

Section ingestion.
Context (deps : RagDeps) (uuid_inj : Inj (=) (=) (rd_randomUUID deps)).
Notation embedding := (rd_embedding deps).
Notation collection d := (collectionName (rd_prefix deps) embedding d).

(** The chunks of a document. *)
Definition chunks_of (i o : oid) (k u : nat) (pieces : list string) : list KnowledgeChunk :=
  imap (λ j piece, mkChunk i o (k + j)%nat piece (rd_randomUUID deps (u + j)%nat) embedding) pieces.

Lemma make_chunks_spec i o k pieces w :
  ∃ w', make_chunks deps i o k pieces w = (inr (chunks_of i o k (rw_uuids w) pieces), w') ∧ quiet w w' ∧ rw_ready w' = rw_ready w.
Proof.
  revert k w. induction pieces as [|t pieces IH]; intros k w; cbn [make_chunks]; [by exists w|].
  set (w1 := mkRagWorld (rw_docs w) (rw_chunks w) (rw_q w) (rw_ready w) (rw_embeds w) (S (rw_uuids w))).
  destruct (IH (S k) w1) as (w' & Hm & Hq & Hr). exists w'. split; [|done].
  unfold mbind, rag_bind, nextUUID at 1. fold w1. rewrite Hm. unfold mret, rag_ret. do 3 f_equal.
  unfold chunks_of. cbn [imap]. f_equal; [by rewrite !Nat.add_0_r|].
  apply imap_ext. intros j x _. cbn. by rewrite <- !plus_n_Sm.
Qed.

Lemma chunks_of_fields i o k u pieces c :
  c ∈ chunks_of i o k u pieces → kc_documentId c = i ∧ kc_ownerId c = o.
Proof. unfold chunks_of. intros (j & t & -> & _)%elem_of_lookup_imap_1. done. Qed.

Lemma chunks_of_text i o k u pieces : kc_text <$> chunks_of i o k u pieces = pieces.
Proof.
  unfold chunks_of. revert k u. induction pieces as [|t pieces IH]; intros k u; [done|]. cbn. f_equal.
  etrans; [|apply (IH k u)]. rewrite !fmap_imap. apply imap_ext. by intros.
Qed.

Lemma chunks_of_index i o u pieces : kc_index <$> chunks_of i o 0 u pieces = seq 0 (length pieces).
Proof.
  unfold chunks_of. rewrite fmap_imap. apply list_eq. intros j. rewrite list_lookup_imap.
  destruct (pieces !! j) as [t|] eqn:Hj; cbn.
  - symmetry. apply lookup_seq. split; [done|by eapply lookup_lt_Some].
  - symmetry. apply lookup_seq_ge. by apply lookup_ge_None.
Qed.

Abbreviation points_of title vectors cs := (imap (point_of title vectors) cs).

Lemma points_of_NoDup title vectors i o k u pieces :
  NoDup (pt_id <$> points_of title vectors (chunks_of i o k u pieces)).
Proof.
  apply NoDup_alt. intros a b x. rewrite !list_lookup_fmap, !list_lookup_imap. unfold chunks_of. rewrite !list_lookup_imap.
  destruct (pieces !! a), (pieces !! b); cbn; try done. intros [= <-] [= He]. apply uuid_inj in He. lia.
Qed.

Lemma points_of_document title vectors i o k u pieces p :
  p ∈ points_of title vectors (chunks_of i o k u pieces) → pl_documentId (pt_payload p) = oid_str i.
Proof.
  intros (j & c & -> & Hc)%elem_of_lookup_imap_1. cbn. apply list_elem_of_lookup_2 in Hc.
  by destruct (chunks_of_fields _ _ _ _ _ _ Hc) as [-> _].
Qed.

(** The vectors that may have been stored by an upsert, and all of them when it
    succeeds. *)
Lemma upsert_spec ps w :
  let '(r, w') := vs_upsert (rd_prefix deps) embedding ps w in
  rw_docs w' = rw_docs w ∧ rw_chunks w' = rw_chunks w ∧
  (∀ n p, p ∈ q_points n (rw_q w') → p ∈ q_points n (rw_q w) ∨
     p ∈ ps ∧ n ∈ rw_ready w' ∧ ∃ p0 v, head ps = Some p0 ∧ pt_vector p0 = Some v ∧ n = collection (length v)) ∧
  (r = inr tt → NoDup (pt_id <$> ps) → ∀ p0 v, head ps = Some p0 → pt_vector p0 = Some v →
     ∀ p, p ∈ ps → p ∈ q_points (collection (length v)) (rw_q w')).
Proof.
  unfold vs_upsert. destruct ps as [|p0 ps0] eqn:Hps.
  { cbn. split_and!; [done|done|by left|done]. }
  rewrite <- Hps. destruct (pt_vector p0) as [v|] eqn:Hv.
  2: { cbn. split_and!; [done|done|by left|done]. }
  unfold mbind, rag_bind. pose proof (calm_ensure (collection (length v)) (length v) w) as (Hd & Hc & Hp).
  destruct (ensureCollection _ _ w) as [[e|[]] w1] eqn:He; cbn in Hd, Hc, Hp.
  { split_and!; [done|done| |done]. intros n p. rewrite Hp. by left. }
  pose proof (q_upsert_only (collection (length v)) ps (rw_q w1)) as Ho.
  unfold client. destruct (q_upsert _ _ _) as [s q] eqn:Hu. apply ensure_ready in He. cbn.
  split_and!; [done|done| |].
  - intros n p Hin. destruct (Ho n p Hin) as [Hw|[-> Hin']]; [left; by rewrite <- Hp|right].
    split_and!; [done|done|]. exists p0, v. by rewrite Hps.
  - intros Hr Hn p1 v1 Hp1 Hv1 p Hin. rewrite Hps in Hp1. injection Hp1 as <-. rewrite Hv in Hv1. injection Hv1 as <-.
    destruct s as [[]|e]; [|done]. by eapply q_upsert_adds.
Qed.

Lemma embed_batches_proper budget texts vectors w vs w' :
  (∀ k m l vs, rd_embed deps k m l = Resolved vs → [] ∉ vs) → [] ∉ vectors →
  embed_batches deps budget texts vectors w = (inr vs, w') → [] ∉ vs.
Proof.
  intros He. revert texts vectors w. induction budget as [|budget IH]; intros texts vectors w Hn H.
  { destruct texts; by injection H as <- _. }
  destruct texts as [|t texts]; [by injection H as <- _|]. cbn [embed_batches] in H.
  apply bind_inr in H as (batch & w1 & Hb & H). apply (IH _ _ _) in H; [done|].
  unfold embed_call, of_settled in Hb. destruct (rd_embed _ _ _ _) as [b|e] eqn:Hb'; [|done]. injection Hb as -> _.
  rewrite elem_of_app. intros [?|?]; [done|]. by eapply He.
Qed.

Abbreviation nonempty_vectors := (∀ k m l vs, rd_embed deps k m l = Resolved vs → [] ∉ vs).

(** The points that a failed attempt may leave behind, and where. *)
Definition leftovers (i : oid) (dims : option nat) (w w' : RagWorld) : Prop := ∀ n p,
  p ∈ q_points n (rw_q w') → p ∈ q_points n (rw_q w) ∨
  pl_documentId (pt_payload p) = oid_str i ∧ n ∈ rw_ready w' ∧ ∃ d, dims = Some d ∧ n = collection d.

Lemma store_document_spec i o title text w :
  let '(r, w') := store_document deps i o title text w in
  rw_docs w' = rw_docs w ∧ ∃ cs, rw_chunks w' = (rw_chunks w ++ cs)%list ∧
  (∀ c, c ∈ cs → kc_documentId c = i ∧ kc_ownerId c = o) ∧
  match r with
  | inl _ => False
  | inr (inl (dims, _)) => leftovers i dims w w' ∧ (nonempty_vectors → dims ≠ Some 0)
  | inr (inr (k, d)) =>
      ∃ pieces, rd_splitText deps (rd_chunkSize deps) (rd_chunkOverlap deps) text = Resolved pieces ∧
        k = length pieces ∧ kc_text <$> cs = pieces ∧ kc_index <$> cs = seq 0 k ∧
        (∀ c, c ∈ cs → ∃ p, p ∈ q_points (collection d) (rw_q w') ∧ pt_id p = kc_pointId c ∧
           pt_payload p = mkPayload (oid_str o) (oid_str i) (kc_index c) title (kc_text c))
  end.
Proof.
  unfold store_document.
  destruct (rd_splitText _ _ _ _) as [pieces|e] eqn:Hsplit.
  2: { cbn. split; [done|]. exists []. rewrite app_nil_r. split_and!; [done|by intros ? ?%not_elem_of_nil|by left|done]. }
  pose proof (calm_embed_batches deps (length pieces) pieces [] w) as (Hd & Hc & Hp).
  fold (embedAll deps pieces) in Hd, Hc, Hp. destruct (embedAll deps pieces w) as [[e|vectors] w1] eqn:He; cbn in Hd, Hc, Hp.
  { split; [done|]. exists []. rewrite app_nil_r.
    split_and!; [done|by intros ? ?%not_elem_of_nil|intros n p; rewrite Hp; by left|done]. }
  destruct (head vectors) as [v|] eqn:Hv.
  2: { split; [done|]. exists []. rewrite app_nil_r.
       split_and!; [done|by intros ? ?%not_elem_of_nil|intros n p; cbn; rewrite Hp; by left|done]. }
  destruct (make_chunks_spec i o 0 pieces w1) as (w2 & Hm & (Hd2 & Hc2 & Hp2) & _).
  set (cs := chunks_of i o 0 (rw_uuids w1) pieces) in *.
  unfold mbind at 1, rag_bind at 1. rewrite Hm. unfold mbind at 1, rag_bind at 1, insertMany, modify_world.
  set (w3 := set_chunks _ w2). pose proof (upsert_spec (points_of title vectors cs) w3) as Hu.
  destruct (vs_upsert _ _ _ _) as [r w4]. destruct Hu as (Hd4 & Hc4 & Hleft & Hok).
  assert (Hcs : ∀ c, c ∈ cs → kc_documentId c = i ∧ kc_ownerId c = o) by (intros c; apply chunks_of_fields).
  assert (Hhead : ∀ p0, head (points_of title vectors cs) = Some p0 → pt_vector p0 = Some v).
  { intros p0. unfold cs, chunks_of. destruct pieces; [done|]. cbn. intros [= <-]. cbn. by rewrite <- head_lookup. }
  assert (Hnz : nonempty_vectors → length v ≠ 0).
  { intros Hne Hz. assert (v = []) as -> by by apply nil_length_inv.
    apply (embed_batches_proper _ _ _ _ _ _ Hne) in He; [|apply not_elem_of_nil]. apply He.
    destruct vectors; [done|]. injection Hv as ->. left. }
  assert (rw_docs w4 = rw_docs w ∧ rw_chunks w4 = (rw_chunks w ++ cs)%list) as [Hd' Hc'].
  { split; [rewrite Hd4; cbn; congruence|]. rewrite Hc4. cbn. congruence. }
  destruct r as [e|[]].
  - split; [exact Hd'|]. exists cs. split_and!; [done|done| |].
    + intros n p Hin. destruct (Hleft n p Hin) as [Hw|(Hps & Hr & p0 & v0 & Hh & Hv0 & ->)].
      * left. rewrite <- Hp, <- Hp2. exact Hw.
      * right. split; [by eapply points_of_document|]. split; [done|].
        exists (length v). split; [done|]. rewrite (Hhead _ Hh) in Hv0. by injection Hv0 as ->.
    + intros Hne [= Hz]. by apply Hnz.
  - split; [exact Hd'|]. exists cs. split_and!; [done|done|]. exists pieces.
    split_and!; [done|done|apply chunks_of_text|apply chunks_of_index|].
    intros c Hc0. apply list_elem_of_lookup in Hc0 as [j Hj].
    exists (point_of title vectors j c). split_and!; [|done|].
    + destruct (points_of title vectors cs) as [|p0 ps0] eqn:Hps.
      { apply (f_equal length) in Hps. rewrite length_imap in Hps. cbn in Hps. by destruct cs. }
      eapply Hok; [done|rewrite <- Hps; apply points_of_NoDup|done|by apply Hhead|]. rewrite <- Hps.
      eapply elem_of_lookup_imap_2. exact Hj.
    + cbn. apply list_elem_of_lookup_2 in Hj. by destruct (Hcs c Hj) as [-> ->].
Qed.

(** What is left of a failed attempt. *)
Lemma deletion_spec i d w w1 :
  leftovers i (Some d) w1 w → d ≠ 0 →
  let w' := (ignore_error (vs_deleteByDocument (rd_prefix deps) embedding d (oid_str i)) w).2 in
  rw_docs w' = rw_docs w ∧ rw_chunks w' = rw_chunks w ∧
  (∀ n p, p ∈ q_points n (rw_q w') → p ∈ q_points n (rw_q w)) ∧
  ((∀ name s, (q_delete name (oid_str i) s).1 = Resolved tt) →
   ∀ n p, p ∈ q_points n (rw_q w') → p ∈ q_points n (rw_q w1)).
Proof.
  intros Hleft _ w'. unfold ignore_error, vs_deleteByDocument, rag_catch, mbind, rag_bind in w'.
  pose proof (calm_ensure (collection d) d w) as (Hd & Hc & Hp).
  pose proof (ensure_again (collection d) d w) as Hagain.
  destruct (ensureCollection _ _ w) as [[e|[]] w2] eqn:He; cbn in Hd, Hc, Hp.
  { subst w'. cbn. split_and!; [done|done|intros n p; by rewrite Hp|]. intros _ n p. rewrite Hp. intros Hin.
    destruct (Hleft n p Hin) as [?|(_ & Hr & d' & [= <-] & ->)]; [done|]. by specialize (Hagain Hr). }
  unfold client in w'. pose proof (q_delete_only (collection d) (oid_str i) (rw_q w2)) as Hsub.
  pose proof (q_delete_all (collection d) (oid_str i) (rw_q w2)) as Hall.
  destruct (q_delete (collection d) (oid_str i) (rw_q w2)) as [s q] eqn:Hq.
  assert (w' = set_q q w2) as -> by (unfold w', of_settled; by destruct s). cbn.
  split_and!; [done|done|intros n p Hin; rewrite <- Hp; by apply Hsub|].
  intros Hacc n p Hin. specialize (Hacc (collection d) (rw_q w2)). rewrite Hq in Hacc. cbn in Hacc. subst s.
  pose proof (Hsub n p Hin) as Hin2. rewrite Hp in Hin2.
  destruct (Hleft n p Hin2) as [?|(Hi & _ & d' & [= <-] & ->)]; [done|]. by destruct (Hall q eq_refl p Hin).
Qed.

Lemma abandon_spec i doc dims e w w1 :
  leftovers i dims w1 w →
  let '(r, w') := abandon deps i doc dims e w in
  (∃ e', r = inl e') ∧
  (rw_docs w' = rw_docs w ∨ ∃ m, rw_docs w' = <[i := doc {{ kd_status := DOC_FAILED; kd_error := Some m }}]> (rw_docs w)) ∧
  rw_chunks w' = List.filter (λ c, negb (bool_decide (kc_documentId c = i))) (rw_chunks w) ∧
  (∀ n p, p ∈ q_points n (rw_q w') → p ∈ q_points n (rw_q w1) ∨ pl_documentId (pt_payload p) = oid_str i) ∧
  ((∀ name s, (q_delete name (oid_str i) s).1 = Resolved tt) → dims ≠ Some 0 →
   ∀ n p, p ∈ q_points n (rw_q w') → p ∈ q_points n (rw_q w1)).
Proof.
  intros Hleft. unfold abandon. unfold mbind at 1, rag_bind at 1, deleteMany, modify_world. set (w2 := set_chunks _ w).
  assert (∃ w3, (match dims with
       | Some (S _ as d) => ignore_error (vs_deleteByDocument (rd_prefix deps) embedding d (oid_str i))
       | _ => mret tt
       end : rag unit) w2 = (inr tt, w3) ∧ rw_docs w3 = rw_docs w2 ∧ rw_chunks w3 = rw_chunks w2 ∧
     (∀ n p, p ∈ q_points n (rw_q w3) → p ∈ q_points n (rw_q w2)) ∧
     ((∀ name s, (q_delete name (oid_str i) s).1 = Resolved tt) → dims ≠ Some 0 →
      ∀ n p, p ∈ q_points n (rw_q w3) → p ∈ q_points n (rw_q w1))) as (w3 & Hrun & Hd3 & Hc3 & Hsub & Hclean).
  { destruct dims as [[|d]|]; [by exists w2|..].
    - pose proof (deletion_spec i (S d) w2 w1 Hleft ltac:(done)) as (Hd & Hc & Hsub & Hclean).
      destruct (ignore_error (vs_deleteByDocument (rd_prefix deps) embedding (S d) (oid_str i)) w2) as [r3 w3] eqn:Hr.
      exists w3. assert (r3 = inr tt) as ->.
      { unfold ignore_error, rag_catch in Hr. destruct (vs_deleteByDocument _ _ _ _ _) as [[?|[]] ?]; by injection Hr. }
      split_and!; auto.
    - exists w2. split_and!; [done..|]. intros _ _ n p Hin.
      by destruct (Hleft n p Hin) as [?|(_ & _ & d & [=] & _)]. }
  unfold mbind, rag_bind. rewrite Hrun.
  assert (Hor : ∀ n p, p ∈ q_points n (rw_q w3) → p ∈ q_points n (rw_q w1) ∨ pl_documentId (pt_payload p) = oid_str i).
  { intros n p Hin. destruct (Hleft n p (Hsub n p Hin)) as [?|(? & _)]; auto. }
  destruct (error_text e) as [m|]; cbn.
  - split_and!; [by eexists|right; eexists; by rewrite Hd3|by rewrite Hc3|done|done].
  - split_and!; [by eexists|by left|by rewrite Hc3|done|done].
Qed.
End ingestion.
End facts.

(** C37: answers cite only the asker's own sources.  Whatever the model, the
    provider and other calls do: an answer takes at most three requests to the
    model, and none when nothing was retrieved; unless it is grounded it is the
    fixed sentence without citations; a grounded one is short, cites something
    and nothing twice; and every citation is a point of the vector store that
    belongs to the asker. *)
Theorem answers_cite_own_sources `{qd : !Qdrant, ql : !QdrantLaws} (deps : RagDeps) (schema_text : list string → string)
    (issues_of : json → list Issue) (SYSTEM : string) (provider : Provider) (json_parse : string → string + json)
    (ownerId : oid) (question model : string) (n : nat) (w : RagWorld) :
  let '(r, n', w') := answer deps schema_text issues_of SYSTEM provider json_parse ownerId question model n w in
  (n' ≤ n + 3)%nat ∧
  match r with
  | inl _ => True
  | inr a =>
      (ra_retrieved a = 0 → n' = n) ∧ (ra_retrieved a ≤ rd_topK deps)%nat ∧
      (if ra_grounded a then ra_citations a ≠ [] ∧ (1 ≤ String.length (ra_answer a) ≤ 3000)%nat
       else ra_answer a = NO_ANSWER ∧ ra_citations a = []) ∧
      NoDup (ct_id <$> ra_citations a) ∧
      ∀ c, c ∈ ra_citations a → ∃ name p, p ∈ q_points name (rw_q w) ∧
        pl_ownerId (pt_payload p) = oid_str ownerId ∧ pl_documentId (pt_payload p) = ct_documentId c ∧
        pl_title (pt_payload p) = ct_title c ∧ pl_chunkIndex (pt_payload p) = ct_chunkIndex c
  end.
Proof.
  unfold answer. destruct (retrieve _ _ _ _ _) as [[e|hits] w1] eqn:Hr; [split; [lia|done]|].
  apply retrieve_own in Hr as [Hlen Hown]. unfold answer_from. destruct (bool_decide_reflect (length hits = 0)) as [Hh|Hne].
  { cbn. split; [lia|]. split_and!; [done|lia|done|done|constructor|]. by intros c ?%not_elem_of_nil. }
  unfold mbind, ai_bind, generateStructured.
  set (schema := AnswerSchema _ _ (source_ids hits)). set (messages := first_messages _ _ _).
  pose proof (structured_loop_spec provider json_parse model schema 3 1 messages no_usage n) as Hs.
  destruct (structured_loop _ _ _ _ _ _ _ _ _) as [[r|e] n1].
  2: { destruct Hs as [[_ ->]|(k & ms & Hk & -> & _)]; (split; [lia|done]). }
  destruct Hs as (k & ms & res & Hk & -> & _ & _ & Hj). unfold judge in Hj.
  destruct (extractJson _ _) as [?|v]; [done|]. cbn [safeParse schema AnswerSchema] in Hj.
  destruct (read_reply (source_ids hits) v) as [rr|] eqn:Hrr; [|done].
  apply read_reply_ok in Hrr as [Hcit Hans]. assert (rr = st_data r) as -> by congruence.
  destruct (distinct_spec [] (rr_citations (st_data r))) as [Hnd Hsub].
  destruct (cite_total hits (distinct [] (rr_citations (st_data r)))) as (cited & -> & Hids & Hc).
  { apply Forall_forall. intros id Hid. destruct (Hsub id Hid) as [Hid' _].
    by apply (proj1 (Forall_forall _ _) Hcit). }
  split; [lia|]. cbn [ra_retrieved ra_grounded ra_citations ra_answer].
  assert (Hcite : ∀ c, c ∈ cited → ∃ name p, p ∈ q_points name (rw_q w) ∧
     pl_ownerId (pt_payload p) = oid_str ownerId ∧ pl_documentId (pt_payload p) = ct_documentId c ∧
     pl_title (pt_payload p) = ct_title c ∧ pl_chunkIndex (pt_payload p) = ct_chunkIndex c).
  { intros c Hin. destruct (proj1 (Forall_forall _ _) Hc c Hin) as (h & Hin' & -> & -> & ->).
    destruct (proj1 (Forall_forall _ _) Hown h Hin') as (name & p & Hp & Ho & -> & -> & -> & _). by exists name, p. }
  destruct (rr_grounded (st_data r) && negb (bool_decide (cited = []))) eqn:Hg.
  - apply andb_true_iff in Hg as [_ Hg]. apply negb_true_iff, bool_decide_eq_false in Hg.
    split; [done|]. split; [done|]. split; [done|]. split; [by rewrite Hids|exact Hcite].
  - split; [done|]. split; [done|]. split; [done|]. split; [constructor|]. by intros c ?%not_elem_of_nil.
Qed.


(** ** What a failed upload leaves behind *)

(** The failed document still holds its content: the same upload is refused as a
    duplicate until the owner deletes it. *)
Lemma failed_upload_blocks_retry `{qd : !Qdrant} (deps : RagDeps) (i o : oid) (title content mime : string)
    (d : KnowledgeDocument) (w : RagWorld) :
  rw_docs w !! i = Some d → kd_status d = DOC_FAILED → kd_ownerId d = o →
  kd_contentHash d = rd_sha256 deps (cleanText content) → (20 ≤ String.length (cleanText content))%nat →
  ingest deps o title content mime w =
    (inl (AppError (ConflictError "This document was already uploaded" "DUPLICATE_DOCUMENT" JNull)), w).
Proof.
  intros Hd _ Ho Hh Hlen. unfold ingest. destruct (Nat.ltb_spec (String.length (cleanText content)) 20); [lia|].
  unfold mbind, rag_bind, rag_catch, Document_create. rewrite bool_decide_eq_true_2; [done|].
  intros He. assert ((i, d) ∈ find (same_document o (rd_sha256 deps (cleanText content))) (rw_docs w)) as Hin.
  { apply elem_of_find. split; [done|]. unfold same_document. by rewrite !bool_decide_eq_true_2. }
  rewrite He in Hin. by apply not_elem_of_nil in Hin.
Qed.

(** Deleting it does not touch the vector database: its dimension was never
    recorded. *)
Lemma deleting_failed_keeps_vectors `{qd : !Qdrant} (deps : RagDeps) (scope : oid → bool) (i : oid)
    (d : KnowledgeDocument) (w : RagWorld) :
  rw_docs w !! i = Some d → scope (kd_ownerId d) = true → kd_vectorDims d = None →
  ∃ w', deleteDocument deps scope i w = (inr tt, w') ∧ rw_docs w' !! i = None ∧ rw_q w' = rw_q w.
Proof.
  intros Hd Hs Hv. unfold deleteDocument. rewrite Hd, Hs, Hv. eexists. split; [done|]. split; [|done].
  cbn. apply lookup_delete_eq.
Qed.

(** One collection per model is not what the name gives: different models share
    one. *)
Lemma collections_collide :
  collectionName "knowledge" "embed:v1.5" 768 = collectionName "knowledge" "embed-v1/5" 768.
Proof. vm_compute. reflexivity. Qed.

(** ** Witnesses: a vector store in memory, which may be broken: then it stores
    points and reports an error *)

Module ToyStore.
Definition state : Type := gmap string (list Point) * bool.
Definition unavailable : thrown := new_Error "unavailable".
Definition get (name : string) (s : state) : list Point := default [] (s.1 !! name).
Definition replying {A} (s : state) (a : A) : settled A := if s.2 then Rejected unavailable else Resolved a.

Definition put (name : string) (ps : list Point) (s : state) : state :=
  (<[name := (ps ++ List.filter (λ p, negb (bool_decide (pt_id p ∈ pt_id <$> ps))) (get name s))%list]> s.1, s.2).
Definition remove (name d : string) (s : state) : state :=
  (<[name := List.filter (λ p, negb (bool_decide (pl_documentId (pt_payload p) = d))) (get name s)]> s.1, s.2).
Definition hits (name : string) (k : nat) (o : string) (s : state) : list ScoredPoint :=
  (λ p, mkScored (pt_id p) (of_Z 1) (pt_payload p)) <$>
    take k (List.filter (λ p, bool_decide (pl_ownerId (pt_payload p) = o)) (get name s)).

#[export] Instance store : Qdrant := {
  qstate := state;
  q_collectionExists name s := (Resolved true, s);
  q_createCollection name d s := (Resolved tt, s);
  q_createPayloadIndex name f s := (Resolved tt, s);
  q_upsert name ps s := (replying s tt, put name ps s);
  q_query name v k t o s := (Resolved (hits name k o s), s);
  q_delete name d s := (replying s tt, if s.2 then s else remove name d s);
  q_points := get
}.

Lemma elem_of_filter_list {A} (p : A → bool) l x : x ∈ List.filter p l ↔ x ∈ l ∧ p x = true.
Proof. by rewrite !list_elem_of_In, filter_In. Qed.

#[export] Instance store_laws : QdrantLaws.
Proof.
  split; try done.
  - intros name v k t o s h s' [= <- <-]. unfold hits. split; [rewrite length_fmap, length_take; lia|].
    intros x (p & -> & Hp)%list_elem_of_fmap. apply elem_of_take in Hp as (j & Hj & _).
    apply list_elem_of_lookup_2, elem_of_filter_list in Hj as [Hin Ho]. exists p.
    split_and!; [done|done|done|]. by apply bool_decide_eq_true in Ho.
  - intros name ps s s' _ [= _ <-] p Hp. cbn. unfold get, put. cbn. rewrite lookup_insert_eq. cbn.
    apply elem_of_app. by left.
  - intros name ps s n p. cbn. unfold get at 1, put. cbn. destruct (decide (n = name)) as [->|Hne].
    + rewrite lookup_insert_eq. cbn. rewrite elem_of_app, elem_of_filter_list. intros [?|[? _]]; [by right|by left].
    + rewrite lookup_insert_ne by done. by left.
  - intros name d s s' H p. cbn in H. unfold replying in H. destruct s as [m b]. cbn in H. destruct b; [done|].
    injection H as <-. cbn. unfold get at 1, remove. cbn. rewrite lookup_insert_eq. cbn.
    rewrite elem_of_filter_list, negb_true_iff, bool_decide_eq_false. by intros [_ ?].
  - intros name d s n p. cbn. destruct s as [m b]. cbn. destruct b; [done|].
    unfold get at 1, remove. cbn. destruct (decide (n = name)) as [->|Hne].
    + rewrite lookup_insert_eq. cbn. rewrite elem_of_filter_list. by intros [? _].
    + by rewrite lookup_insert_ne.
Qed.

Definition deps : RagDeps :=
  mkRagDeps (λ _ _ l, Resolved ((λ _, [of_Z 1]) <$> l)) (λ _ _ t, Resolved [t]) id pretty
    "knowledge" "embed" 800 100 4 (of_Z 0).
Definition empty_store (broken : bool) : RagWorld := mkRagWorld ∅ [] (∅ : gmap string (list Point), broken) ∅ 0 0.
Definition handbook : string := "The notice period is three months.".
Definition uploaded : RagWorld := (ingest deps 7 "Handbook" handbook "text/plain" (empty_store false)).2.

Definition reply_provider : Provider := λ _ _ _, Resolved (mkChatResponse "{}" no_usage).
Definition reply_parse (_ : string) : string + json :=
  inr (JObj [("answer", JStr "Three months."); ("citations", JArr [JStr "S1"]); ("grounded", JBool true)]).
End ToyStore.

Import ToyStore.

Definition demo_answer : (rag_error + RagAnswer) * nat * RagWorld :=
  answer ToyStore.deps (λ _, "") (λ _, []) "" ToyStore.reply_provider ToyStore.reply_parse 7
    "What is the notice period?" "m" 0 ToyStore.uploaded.

Lemma answers_cite_own_sources_witness :
  match demo_answer.1.1 with
  | inr a => ct_id <$> ra_citations a = ["S1"] ∧
      ∀ c, c ∈ ra_citations a → ∃ name p, p ∈ q_points name (rw_q ToyStore.uploaded) ∧
        pl_ownerId (pt_payload p) = "7" ∧ pl_documentId (pt_payload p) = ct_documentId c ∧
        pl_title (pt_payload p) = ct_title c ∧ pl_chunkIndex (pt_payload p) = ct_chunkIndex c
  | inl _ => False
  end.
Proof.
  assert (Hr : match demo_answer.1.1 with inr a => ct_id <$> ra_citations a = ["S1"] | inl _ => False end)
    by (vm_compute; reflexivity).
  pose proof (answers_cite_own_sources ToyStore.deps (λ _, "") (λ _, []) "" ToyStore.reply_provider
                ToyStore.reply_parse 7 "What is the notice period?" "m" 0 ToyStore.uploaded) as Ha.
  fold demo_answer in Ha. destruct demo_answer as [[r n'] w']. cbn [fst] in *. destruct r as [e|a]; [exact Hr|].
  split; [exact Hr|]. exact (proj2 (proj2 (proj2 (proj2 (proj2 Ha))))).
Defined.

Definition demo_ingest : (rag_error + oid * KnowledgeDocument) * RagWorld :=
  ingest ToyStore.deps 7 "Handbook" ToyStore.handbook "text/plain" (ToyStore.empty_store false).


(** A half-ingested document can be found: when the vector database stores the
    points but the call fails, and the clean-up fails too, searches return the
    text of a FAILED document, and deleting the document does not help. *)
Lemma failed_document_stays_searchable :
  let w := (ingest ToyStore.deps 7 "Handbook" ToyStore.handbook "text/plain" (ToyStore.empty_store true)).2 in
  let w2 := (deleteDocument ToyStore.deps (λ _, true) 0 w).2 in
  let found w := match (retrieve ToyStore.deps 7 "notice" 4 w).1 with inr hits => hit_text <$> hits | inl _ => [] end in
  (kd_status <$> rw_docs w !! 0) = Some DOC_FAILED ∧ found w = [ToyStore.handbook] ∧
  (kd_status <$> rw_docs w2 !! 0) = None ∧ found w2 = [ToyStore.handbook].
Proof. vm_compute. repeat split. Qed.
