(* ===== verification/Handlers.v ===== *)
(** * Task handlers ([src/handlers/index.js], [src/handlers/ai.js])

    The built-in handlers in the shape the worker calls them, and the AI
    handlers over the classifier, the router, the RAG pipeline and the agent. *)

From S2P Require Import Prelude Text Double Program Dag Models Retry TaskRepo Dispatcher Engine TaskQueue Worker.
From S2P Require Import Access Services Structured Router Agent RagText Rag.

Local Open Scope string_scope.

(** ** JavaScript conversions *)

(** [String(v)]. *)
Fixpoint js_String (v : json) : string :=
  match v with
  | JNull => "null"
  | JBool b => if b then "true" else "false"
  | JNum z => pretty z
  | JStr s => s
  | JArr l => join "," (map (λ x, match x with JNull => "" | _ => js_String x end) l)
  | JObj _ => "[object Object]"
  end.

(** [o ?? d]. *)
Definition nullish_or (o : option json) (d : json) : json :=
  match o with None | Some JNull => d | Some v => v end.

(** ** Built-in handlers *)

Definition DAY_MS : Z := 24 * 3600 * 1000.
Definition MAX_DELAY_MS : Z := 60000.

Section builtin.
(** [Number(v)]: an integer, or [NaN]; other doubles are left out, like in
    [json]. *)
Context (Number : option json → option Z).
(** When the task's abort signal fires, and its reason. *)
Context (signal : option (ms * thrown)).

(** [Number(v) || d]. *)
Definition number_or (v : option json) (d : Z) : Z :=
  match Number v with Some z => if bool_decide (z = 0%Z) then d else z | None => d end.

Definition sleep (duration : ms) : promise unit :=
  match signal with
  | Some (t, reason) => if bool_decide (t < duration)%Z then Some (Z.max 0 t, Rejected reason) else Some (duration, Resolved tt)
  | None => Some (duration, Resolved tt)
  end.

Definition now (s : settled handler_output) : promise handler_output := Some (0%Z, s).

Definition noop : Handler := λ _ _, now (Resolved (Output (Some (JObj [])))).

Definition delay_ms (config : json) : Z := Z.min (Z.max (number_or (prop "ms" config) 100) 0) MAX_DELAY_MS.

Definition delay : Handler := λ args _,
  let duration := delay_ms (ha_config args) in
  match sleep duration with
  | Some (t, Resolved _) => Some (t, Resolved (Output (Some (JObj [("waitedMs", JNum duration)]))))
  | Some (t, Rejected e) => Some (t, Rejected e)
  | None => None
  end.

Definition fail : Handler := λ args _,
  let message := js_String (nullish_or (prop "message" (ha_config args)) (JStr "Task configured to fail")) in
  now (Rejected (match prop "retryable" (ha_config args) with
                 | Some (JBool true) => new_Error message
                 | _ => NonRetryableError message
                 end)).

Definition flaky : Handler := λ args _,
  let failTimes := Number (Some (nullish_or (prop "failTimes" (ha_config args)) (JNum 1))) in
  let shown := match failTimes with Some z => pretty z | None => "NaN" end in
  if match failTimes with Some z => (ha_attempt args <=? z)%Z | None => false end
  then now (Rejected (new_Error ("flaky failure on attempt " +:+ pretty (ha_attempt args) +:+ "/" +:+ shown)))
  else now (Resolved (Output (Some (JObj [("succeededOnAttempt", JNum (ha_attempt args))])))).

Definition approval_ask (args : HandlerArgs) : ApprovalAsk :=
  let config := ha_config args in
  mkApprovalAsk
    (truncate 200 (js_String (nullish_or (prop "title" config) (JStr "Approval required"))))
    (Some (truncate 2000 (js_String (nullish_or (prop "message" config) (JStr "")))))
    (Some (JObj (map_to_list (ha_parents args))))
    (Z.min (Z.max (number_or (prop "timeoutMs" config) DAY_MS) 1000) (7 * DAY_MS)).

Definition human_approval : Handler := λ args _, now (Resolved (AwaitApproval (approval_ask args))).

Definition echo : Handler := λ args _,
  now (Resolved (Output (Some (JObj [("config", ha_config args); ("input", ha_input args);
                                     ("parents", JObj (map_to_list (ha_parents args)))])))).

Definition builtin_handlers (type : string) : option Handler :=
  if bool_decide (type = "noop") then Some noop
  else if bool_decide (type = "delay") then Some delay
  else if bool_decide (type = "fail") then Some fail
  else if bool_decide (type = "flaky") then Some flaky
  else if bool_decide (type = "human.approval") then Some human_approval
  else if bool_decide (type = "echo") then Some echo
  else None.

(** ** AI handlers *)

(** The argument of an AI handler; [Object.values(parents)] in its order. *)
Record AiArgs := mkAiArgs {
  ai_config : json;
  ai_input : json;
  ai_parents : list json;
  ai_ownerId : oid
}.

Definition request_needed : thrown :=
  NonRetryableError ("ai task needs a request: set config.text or pass { " +:+ double_quote +:+ "text" +:+ double_quote +:+
    ": " +:+ double_quote +:+ "..." +:+ double_quote +:+ " } as run input").

(** [config.text ?? input?.[config.inputField ?? "text"]]. *)
Definition request_value (args : AiArgs) : option json :=
  match prop "text" (ai_config args) with
  | None | Some JNull => prop (js_String (nullish_or (prop "inputField" (ai_config args)) (JStr "text"))) (ai_input args)
  | v => v
  end.

Definition requestText (args : AiArgs) : settled string :=
  match request_value args with
  | Some (JStr text) => if bool_decide (trim text = "") then Rejected request_needed else Resolved (truncate 8000 text)
  | _ => Rejected request_needed
  end.

(** [Object.values(parents).find((p) => p?.[name])]. *)
Definition parent_with (name : string) (args : AiArgs) : option json :=
  head (List.filter (λ p, truthy_json (prop name p)) (ai_parents args)).

(** [parents.find((p) => p?.route)?.route]. *)
Definition parent_route (args : AiArgs) : option json := p ← parent_with "route" args; prop "route" p.

Definition as_model (v : option json) : string := match v with Some v => js_String v | None => "undefined" end.

Definition ai_settled {A} (s : settled A) : ai A := λ n, (s, n).

Record AiModels := mkAiModels { am_small : string; am_large : string; am_embedding : string }.

Section ai.
Context (provider : Provider) (json_parse : string → string + json) (models : AiModels).
(** The texts zod derives from schemas, and those of the prompts. *)
Context (schema_text : string) (issues_of : json → list Issue) (SYSTEM : string).
(** What a provider makes of a function as the name of a model. *)
Context (function_text : string → string).

(** [models[key]]. *)
Definition model_at (key : string) : option string :=
  if bool_decide (key = "small") then Some (am_small models)
  else if bool_decide (key = "large") then Some (am_large models)
  else if bool_decide (key = "embedding") then Some (am_embedding models)
  else if bool_decide (key ∈ inherited) then Some (function_text key)
  else None.

(** [models[config.tier ?? tier] ?? models[tier]]. *)
Definition tier_model (args : AiArgs) (tier : string) (fallback : string) : string :=
  default fallback (model_at (js_String (nullish_or (prop "tier" (ai_config args)) (JStr tier)))).

Definition classify_request (text : string) : ai Classified :=
  classifyTask schema_text issues_of SYSTEM provider json_parse (am_small models) text true.

Definition ai_classify (args : AiArgs) : ai Classified :=
  text ← ai_settled (requestText args); classify_request text.

(** The classification as it is stored in an output. *)
Definition json_of_classification (c : Classification) : json :=
  JObj [("taskType", JStr (taskType c)); ("complexity", JStr (complexity c)); ("requiresRAG", JBool (requiresRAG c));
        ("requiresAgent", JBool (requiresAgent c)); ("recommendedModel", JStr (recommendedModel c));
        ("rationale", JStr (rationale c))].

Definition is_json_string (o : option json) (s : string) : bool :=
  match o with Some (JStr t) => bool_decide (t = s) | _ => false end.

(** [routeTask] on a value from an earlier task's output. *)
Definition route_value (c : json) : Route :=
  let names := mkModelNames (am_small models) (am_large models) in
  if truthy_json (prop "requiresAgent" c) then pick names "large" "agent" "requires-tools"
  else if truthy_json (prop "requiresRAG" c) then
    pick names (if is_json_string (prop "complexity" c) "low" then "small" else "large") "rag" "requires-knowledge"
  else if is_json_string (prop "complexity" c) "high" || is_json_string (prop "taskType" c) "reasoning" then
    pick names "large" "direct" "high-complexity"
  else
    pick names (if is_json_string (prop "recommendedModel" c) "large" && negb (is_json_string (prop "complexity" c) "low")
                then "large" else "small") "direct" "default-small".

Record Routed := mkRouted { rt_classification : json; rt_route : Route }.

Definition ai_route (args : AiArgs) : ai Routed :=
  c ← (match parent_with "classification" args with
       | Some p => mret (default JNull (prop "classification" p))
       | None =>
           text ← ai_settled (requestText args);
           r ← classify_request text;
           mret (json_of_classification (classification r))
       end : ai json);
  mret (mkRouted c (route_value c)).

(** [route?.mode === mode ? route.model : otherwise]. *)
Definition routed_model (args : AiArgs) (route_mode otherwise : string) : string :=
  match parent_route args with
  | Some route => if is_json_string (prop "mode" route) route_mode then as_model (prop "model" route) else otherwise
  | None => otherwise
  end.

(** [rag.answer] for an owner, a question and a model, if RAG is configured. *)
Context (rag_answer : option (oid → string → string → ai RagAnswer)).

Definition ai_rag (args : AiArgs) : ai RagAnswer :=
  match rag_answer with
  | None => reject (NonRetryableError "RAG is not configured on this worker")
  | Some answer =>
      let model := routed_model args "rag" (tier_model args "small" (am_small models)) in
      question ← ai_settled (requestText args);
      answer (ai_ownerId args) question model
  end.

(** The registry and the lookup of the owner's role, if both are configured. *)
Context (agent_tools : option (list (string * Tool) * (oid → option string))).
Context (step_schema_text : list string → string) (step_issues : json → list Issue).
Context (no_schema_error : thrown).
Context (aborted : nat → option thrown).

(** [config.tools], as [selectTools] uses it: absent, the names of an array, or
    something without [filter]. *)
Definition allowlist_of (args : AiArgs) : res (option (list string)) :=
  match prop "tools" (ai_config args) with
  | None | Some JNull => Ok None
  | Some (JArr l) => Ok (Some (js_String <$> l))
  | Some _ => Exn (PlainErr "names.filter is not a function")
  end.

Definition max_iterations (args : AiArgs) : Z :=
  Z.min (Z.max (number_or (prop "maxIterations" (ai_config args)) 5) 1) 8.

(** The message of the error [selectTools] throws; that of a [TypeError] is the
    engine's. *)
Definition select_message (e : exn) : string := match e with PlainErr m => m | _ => "Cannot read properties of undefined" end.

Definition status_text (s : AgentStatus) : string :=
  match s with AgentFinal => "final" | AgentMaxIterations => "max_iterations" | AgentLoopDetected => "loop_detected" end.

Record AgentOutput := mkAgentOutput {
  ao_answer : option string;
  ao_iterations : nat;
  ao_steps : list StepLog;
  ao_deniedTools : list string;
  ao_usage : Usage;
  ao_model : string
}.

Definition ai_agent (args : AiArgs) : ai AgentOutput :=
  match agent_tools with
  | None => reject (NonRetryableError "Agent tools are not configured on this worker")
  | Some (registry, getUserRole) =>
      match getUserRole (ai_ownerId args) with
      | None | Some "" => reject (NonRetryableError "Run owner no longer exists")
      | Some role =>
          match (allowlist ← allowlist_of args; selectTools registry allowlist role) with
          | Exn e => reject (NonRetryableError (select_message e))
          | Ok (allowed, denied) =>
              if bool_decide (length allowed = 0) then
                reject (NonRetryableError ("No permitted tools for role " +:+ double_quote +:+ role +:+ double_quote +:+
                                           " (denied: " +:+ join ", " denied +:+ ")"))
              else
                let model := routed_model args "agent" (tier_model args "large" (am_large models)) in
                goal ← ai_settled (requestText args);
                result ← runAgent provider json_parse step_schema_text step_issues no_schema_error aborted
                           model allowed goal (mkToolCtx (oid_str (ai_ownerId args))) (Z.to_nat (max_iterations args));
                match ag_status result with
                | AgentFinal =>
                    mret (mkAgentOutput (ag_answer result) (ag_iterations result) (ag_steps result) denied
                            (ag_usage result) model)
                | status => reject (NonRetryableError ("Agent stopped without an answer: " +:+ status_text status))
                end
          end
      end
  end.

(** The answer schema of [ai.generate]. *)
Definition read_answer (v : json) : option string :=
  a ← as_string (prop "answer" v);
  if ((1 <=? String.length a) && (String.length a <=? 4000))%nat then Some a else None.

Context (generate_schema_text : string).

Definition GenerateSchema : Schema string :=
  mkSchema generate_schema_text (λ v, match read_answer v with Some a => inr a | None => inl (issues_of v) end).

Record Generated := mkGenerated { gn_answer : string; gn_model : string; gn_usage : Usage }.

Definition ai_generate (args : AiArgs) : ai Generated :=
  let route := parent_route args in
  match route with
  | Some r =>
      if truthy_json (Some r) && negb (is_json_string (prop "mode" r) "direct")
      then reject (NonRetryableError ("ai.generate can only serve " +:+ double_quote +:+ "direct" +:+ double_quote +:+
             " routes; this request was routed to " +:+ double_quote +:+ as_model (prop "mode" r) +:+ double_quote))
      else mret tt
  | None => mret tt
  end ≫= λ _ : unit,
  let model :=
    match route ≫= prop "model" with
    | None | Some JNull => tier_model args "small" (am_small models)
    | m => as_model m
    end in
  text ← ai_settled (requestText args);
  r ← generateStructured provider json_parse model GenerateSchema "Answer the user's request helpfully and concisely."
        (wrapUntrusted "user_input" text) 2;
  mret (mkGenerated (st_data r) model (st_usage r)).
End ai.
End builtin.
