(* ===== verification/Cron.v ===== *)
(** * Cron expressions ([src/scheduler/cron.js])

    The grammar of the expressions and the calendar are cron-parser's and the
    list of time zones is [Intl]'s: they are parameters.  The program itself
    insists on five fields. *)

From S2P Require Import Prelude Text Program Dag Models TaskRepo Dispatcher Engine Access.

Local Open Scope string_scope.

(** [s.split(/\s+/)]: a run of blanks is one separator. *)
Fixpoint split_runs (skipping : bool) (l word : list Ascii.ascii) : list (list Ascii.ascii) :=
  match l with
  | [] => [reverse word]
  | c :: l' =>
      if is_space c
      then if skipping then split_runs true l' word else reverse word :: split_runs true l' []
      else split_runs false l' (c :: word)
  end.

Definition split_blanks (s : string) : list string :=
  String.string_of_list_ascii <$> split_runs false (String.list_ascii_of_string s) [].

Section cron.
(** [new Intl.DateTimeFormat] accepts the zone; the message cron-parser refuses
    an expression with; the slot it finds strictly after an instant. *)
Context (known_timezone : string → bool) (cron_error : string → string → option string)
        (next_slot : string → ms → string → ms).

Definition invalid_cron (message : string) : exn := ValidationError message "INVALID_CRON" JNull.

Definition assertValidCron (expr timezone : string) : res unit :=
  let fields := split_blanks (trim expr) in
  if negb (length fields =? 5)%nat
  then Exn (invalid_cron "cron must have exactly 5 fields: minute hour day-of-month month day-of-week")
  else if negb (known_timezone timezone)
  then Exn (invalid_cron ("Invalid cron expression or timezone: unknown timezone " +:+ quote timezone))
  else match cron_error expr timezone with
       | Some message => Exn (invalid_cron ("Invalid cron expression or timezone: " +:+ message))
       | None => Ok tt
       end.

Definition nextRunAfter (expr : string) (after : ms) (timezone : string) : ms := next_slot expr after timezone.

(** An expression that is accepted has no seconds field: it cannot start a run
    more often than once a minute. *)
Lemma accepted_has_five_fields expr timezone :
  assertValidCron expr timezone = Ok tt →
  length (split_blanks (trim expr)) = 5%nat ∧ known_timezone timezone = true ∧ cron_error expr timezone = None.
Proof.
  unfold assertValidCron. destruct (_ =? 5)%nat eqn:H5; [|done]. apply Nat.eqb_eq in H5. cbn [negb].
  destruct (known_timezone timezone); [|done]. cbn [negb]. by destruct (cron_error expr timezone).
Qed.

Lemma cron_refuses_seconds :
  (λ e, length (split_blanks (trim e))) <$> [" */5 * *  * * "; "* * * * * *"; "@daily"; ""] = [5; 6; 1; 1]%nat.
Proof. vm_compute. reflexivity. Qed.
End cron.
