(* ===== verification/Http.v ===== *)
(** * Requests and responses ([src/middleware/validate.js],
    [src/middleware/errorHandler.js], [src/middleware/requestId.js],
    [src/workflow/workflow.schemas.js], [src/controllers/workflow.controller.js])

    Validation of requests, the schemas of workflow definitions, and what a
    client gets to see of an error. *)

From S2P Require Import Prelude Text Program Dag Models Retry TaskRepo Dispatcher Engine TaskQueue Worker.
From S2P Require Import Access Services Structured Router Cron.

Local Open Scope string_scope.

(** ** [middleware/validate.js] *)

Record RequestIssue := mkRequestIssue { ri_location : string; ri_path : string; ri_message : string }.

Definition issue_json (i : RequestIssue) : json :=
  JObj [("location", JStr (ri_location i)); ("path", JStr (ri_path i)); ("message", JStr (ri_message i))].

(** One part of a request, [undefined] when the client sent none; [{}] is used
    then.  No schema: the part is not looked at. *)
Definition validate_part {T} (location : string) (schema : option (Schema T)) (part : option json)
    : list RequestIssue + option T :=
  match schema with
  | None => inr None
  | Some schema =>
      match safeParse schema (match part with None | Some JNull => JObj [] | Some v => v end) with
      | inr v => inr (Some v)
      | inl issues => inl ((λ i, mkRequestIssue location (issue_path i) (issue_message i)) <$> issues)
      end
  end.

Definition issues_in {A} (r : list RequestIssue + A) : list RequestIssue := match r with inl l => l | inr _ => [] end.

Record Schemas (P Q B : Type) := mkSchemas {
  params_schema : option (Schema P);
  query_schema : option (Schema Q);
  body_schema : option (Schema B)
}.
Arguments mkSchemas {P Q B} _ _ _.
Arguments params_schema {P Q B} _.
Arguments query_schema {P Q B} _.
Arguments body_schema {P Q B} _.

Record Request := mkRequest { rq_params : option json; rq_query : option json; rq_body : option json }.

Definition part_value {A} (r : list RequestIssue + option A) : option A := match r with inr v => v | inl _ => None end.

(** [req.valid]; all failing fields are reported at once. *)
Definition validate {P Q B} (schemas : Schemas P Q B) (req : Request) : res (option P * option Q * option B) :=
  let params := validate_part "params" (params_schema schemas) (rq_params req) in
  let query := validate_part "query" (query_schema schemas) (rq_query req) in
  let body := validate_part "body" (body_schema schemas) (rq_body req) in
  let details := (issues_in params ++ issues_in query ++ issues_in body)%list in
  if (0 <? length details)%nat
  then Exn (ValidationError "Request validation failed" "VALIDATION_ERROR" (JArr (issue_json <$> details)))
  else Ok (part_value params, part_value query, part_value body).

(** ** [middleware/errorHandler.js] *)

(** What reaches the handler: an exception of the program, or an error of the
    body parser with its [type], or anything else. *)
Inductive raised : Type :=
| RaisedExn (e : exn)
| RaisedTyped (type : string)
| RaisedOther (t : thrown).

Record ErrorBody := mkErrorBody {
  eb_code : string;
  eb_message : string;
  eb_requestId : string;
  eb_details : option json
}.

Record Response := mkResponse { rs_status : Z; rs_body : ErrorBody }.

(** [JNull] stands for undefined details. *)
Definition toHttpError (err : raised) : Z * string * string * option json :=
  match err with
  | RaisedExn (AppErr statusCode code message details) =>
      (statusCode, code, message, match details with JNull => None | d => Some d end)
  | RaisedTyped "entity.too.large" => (413%Z, "PAYLOAD_TOO_LARGE", "Request body is too large", None)
  | RaisedTyped "entity.parse.failed" => (400%Z, "INVALID_JSON", "Request body is not valid JSON", None)
  | _ => (500%Z, "INTERNAL_ERROR", "Internal server error", None)
  end.

(** The response ([None]: it was already on its way and the connection is
    closed), and whether the error is logged. *)
Definition errorHandler (err : raised) (requestId : string) (headersSent : bool) : option Response * bool :=
  if headersSent then (None, false)
  else
    let '(statusCode, code, message, details) := toHttpError err in
    (Some (mkResponse statusCode (mkErrorBody code message requestId details)), (500 <=? statusCode)%Z).

Definition notFound (method path : string) : raised :=
  RaisedExn (NotFoundError ("Route " +:+ method +:+ " " +:+ path +:+ " not found")).

(** ** [middleware/requestId.js] *)

(** [^[...]{lo,hi}$]. *)
Definition all_chars (p : Ascii.ascii → bool) (s : string) : bool := forallb p (String.list_ascii_of_string s).
Definition length_between (lo hi : nat) (s : string) : bool :=
  ((lo <=? String.length s) && (String.length s <=? hi))%nat.

Definition char_in (s : string) (c : Ascii.ascii) : bool := has_char c s.
Definition is_alnum_char (c : Ascii.ascii) : bool := is_lower c || is_upper c || is_digit c.

Definition SAFE_ID (s : string) : bool :=
  length_between 1 128 s && all_chars (λ c, is_alnum_char c || char_in "._-" c) s.

Definition requestId (incoming : option string) (randomUUID : string) : string :=
  match incoming with
  | Some s => if negb (bool_decide (s = "")) && SAFE_ID s then s else randomUUID
  | None => randomUUID
  end.

(** ** [workflow/workflow.schemas.js] *)

Definition MAX_TASKS : nat := 100.
Definition MAX_DEPENDENCIES : nat := 50.
Definition MAX_ATTEMPTS : Z := 10.
Definition MIN_TIMEOUT_MS : Z := 100.
Definition MAX_TIMEOUT_MS : Z := 60 * 60 * 1000.

Definition taskKey (s : string) : bool := length_between 1 64 s && all_chars (λ c, is_alnum_char c || char_in "_-" c) s.

(** [/^[a-z][a-z0-9._-]{0,63}$/]. *)
Definition taskType_ok (s : string) : bool :=
  match s with
  | "" => false
  | String c s' => is_lower c && (String.length s' <=? 63)%nat &&
                   all_chars (λ c, is_lower c || is_digit c || char_in "._-" c) s'
  end.

(** Readers: what a schema accepts, and the value it gives. *)
Definition reader (A : Type) : Type := option json → option A.

Definition read_string : reader string := λ o, match o with Some (JStr s) => Some s | _ => None end.
Definition read_int (lo hi : Z) : reader Z := λ o,
  match o with Some (JNum z) => if (lo <=? z)%Z && (z <=? hi)%Z then Some z else None | _ => None end.
Definition read_trimmed (lo hi : nat) : reader string := λ o,
  s ← read_string o; if length_between lo hi (trim s) then Some (trim s) else None.
Definition read_object : reader json := λ o, match o with Some (JObj fs) => Some (JObj fs) | _ => None end.
Definition read_array {A} (lo hi : nat) (r : reader A) : reader (list A) := λ o,
  match o with
  | Some (JArr l) => if ((lo <=? length l) && (length l <=? hi))%nat then mapM (λ v, r (Some v)) l else None
  | _ => None
  end.
(** [.default(d)]: only [undefined] is replaced. *)
Definition with_default {A} (d : A) (r : reader A) : reader A := λ o, match o with None => Some d | Some _ => r o end.

Definition read_taskKey : reader string := λ o, s ← read_string o; if taskKey s then Some s else None.

Definition read_retryPolicy : reader (Z * Z) := λ o,
  match o with
  | Some (JObj fs) =>
      maxAttempts ← with_default 3%Z (read_int 1 MAX_ATTEMPTS) (field "maxAttempts" fs);
      baseDelayMs ← with_default 1000%Z (read_int 0 60000) (field "baseDelayMs" fs);
      Some (maxAttempts, baseDelayMs)
  | _ => None
  end.

(** A task; its optional display name is checked and not kept by the model of
    definitions. *)
Definition taskDefinition : reader TaskDefinition := λ o,
  match o with
  | Some (JObj fs) =>
      key ← read_taskKey (field "key" fs);
      _ ← with_default "" (read_trimmed 0 100) (field "name" fs);
      type ← (s ← read_string (field "type" fs); if taskType_ok s then Some s else None);
      dependsOn ← with_default [] (read_array 0 MAX_DEPENDENCIES read_taskKey) (field "dependsOn" fs);
      config ← with_default (JObj []) read_object (field "config" fs);
      retry ← with_default (3%Z, 1000%Z) read_retryPolicy (field "retryPolicy" fs);
      timeoutMs ← with_default 30000%Z (read_int MIN_TIMEOUT_MS MAX_TIMEOUT_MS) (field "timeoutMs" fs);
      Some (mkTaskDefinition key type dependsOn config (Some retry.1) (Some retry.2) (Some timeoutMs))
  | _ => None
  end.

Definition workflowBody : reader Definition_ := λ o,
  match o with
  | Some (JObj fs) =>
      name ← read_trimmed 1 100 (field "name" fs);
      description ← with_default "" (read_trimmed 0 1000) (field "description" fs);
      tasks ← read_array 1 MAX_TASKS taskDefinition (field "tasks" fs);
      Some (mkDefinition name description tasks)
  | _ => None
  end.

(** With the version an edit is based on. *)
Definition updateBody : reader (Z * Definition_) := λ o,
  d ← workflowBody o;
  version ← read_int 1 (2 ^ 53 - 1) (o ≫= prop "version");
  Some (version, d).

Definition read_bool : reader bool := λ o, match o with Some (JBool b) => Some b | _ => None end.

Record ScheduleBody := mkScheduleBody { sb_cron : string; sb_timezone : string; sb_enabled : bool; sb_input : json }.

Definition scheduleBody : reader ScheduleBody := λ o,
  match o with
  | Some (JObj fs) =>
      cron ← read_trimmed 9 100 (field "cron" fs);
      timezone ← with_default "UTC" (λ o, s ← read_string o; if length_between 0 64 s then Some s else None)
                   (field "timezone" fs);
      enabled ← with_default true read_bool (field "enabled" fs);
      input ← with_default (JObj []) read_object (field "input" fs);
      Some (mkScheduleBody cron timezone enabled input)
  | _ => None
  end.

Section schemas.
(** The JSON Schema texts and the wording of issues are zod's; there is an issue
    for every refused value.  [mongoose.isValidObjectId] and the id it casts
    to. *)
Context (issues_of : json → list Issue) (valid_id : string → option oid).

Definition reader_schema {A} (r : reader A) : Schema A :=
  mkSchema "" (λ v, match r (Some v) with Some a => inr a | None => inl (issues_of v) end).

Definition createWorkflowSchema : Schemas unit unit Definition_ :=
  mkSchemas None None (Some (reader_schema workflowBody)).

Definition read_id : reader oid := λ o, s ← read_string (o ≫= prop "id"); valid_id s.

Definition updateWorkflowSchema : Schemas oid unit (Z * Definition_) :=
  mkSchemas (Some (reader_schema read_id)) None (Some (reader_schema updateBody)).

Definition workflowIdSchema : Schemas oid unit unit := mkSchemas (Some (reader_schema read_id)) None None.

Definition scheduleSchema : Schemas oid unit ScheduleBody :=
  mkSchemas (Some (reader_schema read_id)) None (Some (reader_schema scheduleBody)).

End schemas.

(** ** The controllers of workflows: from [req.user] and [req.valid] to the
    service *)

Notation Valid P Q B := (option P * option Q * option B)%type.

Section controllers.
Context {Q : Type}.

Definition c_create (u : User) (valid : Valid unit unit Definition_) : prog (AppWorld Q) oid :=
  match valid with (_, _, Some d) => create_workflow u d | _ => Throw TypeErr end.

(** The dry run: the answer to a request whose graph is wrong is the list of
    what is wrong. *)
Definition c_validate (valid : Valid unit unit Definition_) : res DagResult :=
  match valid with
  | (_, _, Some d) => default (Exn (PlainErr "out of fuel")) (validateDag (dag_task <$> def_tasks d))
  | _ => Exn TypeErr
  end.

Definition c_get (u : User) (valid : Valid oid unit unit) : prog (AppWorld Q) StoredWorkflow :=
  match valid with (Some i, _, _) => get_workflow u i | _ => Throw TypeErr end.

Definition c_update (u : User) (valid : Valid oid unit (Z * Definition_)) : prog (AppWorld Q) StoredWorkflow :=
  match valid with
  | (Some i, _, Some (version, d)) => update_workflow u i version d
  | _ => Throw TypeErr
  end.

Context (known_timezone : string → bool) (cron_error : string → string → option string)
        (next_slot : string → ms → string → ms).

Definition c_setSchedule (u : User) (valid : Valid oid unit ScheduleBody) : prog (AppWorld Q) StoredWorkflow :=
  match valid with
  | (Some i, _, Some b) =>
      setSchedule (assertValidCron known_timezone cron_error) (nextRunAfter next_slot) u i
        (sb_cron b) (sb_timezone b) (sb_enabled b) (sb_input b)
  | _ => Throw TypeErr
  end.

Definition c_clearSchedule (u : User) (valid : Valid oid unit unit) : prog (AppWorld Q) StoredWorkflow :=
  match valid with (Some i, _, _) => clearSchedule u i | _ => Throw TypeErr end.
End controllers.
