(* ===== verification/HttpProps.v ===== *)
(** * What gets past the routes, and what gets out

    Definitions that are stored are bounded and their graphs are valid, and an
    error response shows nothing of an unexpected error. *)

From S2P Require Import Prelude Text Program Dag DagFacts CycleFacts DagSpec Models Retry TaskRepo Dispatcher Engine TaskQueue Worker.
From S2P Require Import Access Services ServicesProps Structured Router Cron Http.

Local Open Scope string_scope.

(** ** What the schemas accept *)

Definition task_bounded (t : TaskDefinition) : Prop :=
  taskKey (td_key t) = true ∧ taskType_ok (td_type t) = true ∧
  (length (td_dependsOn t) ≤ 50)%nat ∧ Forall (λ d, taskKey d = true) (td_dependsOn t) ∧
  (∃ n, td_maxAttempts t = Some n ∧ (1 ≤ n ≤ 10)%Z) ∧
  (∃ n, td_baseDelayMs t = Some n ∧ (0 ≤ n ≤ 60000)%Z) ∧
  (∃ n, td_timeoutMs t = Some n ∧ (100 ≤ n ≤ 3600000)%Z).

Definition tasks_bounded (l : list TaskDefinition) : Prop := (1 ≤ length l ≤ 100)%nat ∧ Forall task_bounded l.

Lemma read_int_bounds lo hi o z : read_int lo hi o = Some z → (lo ≤ z ≤ hi)%Z.
Proof.
  unfold read_int. destruct o as [[]|]; try done. destruct (_ && _) eqn:H; [|done]. intros [= <-].
  apply andb_true_iff in H as [?%Z.leb_le ?%Z.leb_le]. lia.
Qed.

Lemma read_trimmed_bounds lo hi o s : read_trimmed lo hi o = Some s → length_between lo hi s = true.
Proof. unfold read_trimmed. intros (x & _ & H)%bind_Some. destruct (length_between _ _ _) eqn:Hl; [|done]. by injection H as <-. Qed.

Lemma with_default_cases {A} (d : A) r o a : with_default d r o = Some a → a = d ∨ r o = Some a.
Proof. destruct o as [v|]; cbn; [by right|]. intros [= <-]. by left. Qed.

Lemma mapM_all {A} (r : reader A) vs l (P : A → Prop) :
  (∀ v a, r v = Some a → P a) → mapM (λ v, r (Some v)) vs = Some l → length vs = length l ∧ Forall P l.
Proof.
  intros Hr Hm%mapM_Some. induction Hm as [|v a vs l Hv _ [IHl IHp]]; [done|].
  split; [cbn; lia|]. constructor; [by eapply Hr|done].
Qed.

Lemma read_array_spec {A} lo hi (r : reader A) o l (P : A → Prop) :
  (∀ v a, r v = Some a → P a) → read_array lo hi r o = Some l → (lo ≤ length l ≤ hi)%nat ∧ Forall P l.
Proof.
  intros Hr. unfold read_array. destruct o as [[| | | |vs|]|]; try done. destruct (_ && _) eqn:H; [|done].
  apply andb_true_iff in H as [?%Nat.leb_le ?%Nat.leb_le]. intros [? ?]%(mapM_all r vs l P Hr).
  split; [lia|done].
Qed.

Lemma read_taskKey_ok o s : read_taskKey o = Some s → taskKey s = true.
Proof. unfold read_taskKey. intros (x & _ & H)%bind_Some. destruct (taskKey x) eqn:Hx; [|done]. by injection H as <-. Qed.

Lemma read_retryPolicy_ok o r : read_retryPolicy o = Some r → (1 ≤ r.1 ≤ 10)%Z ∧ (0 ≤ r.2 ≤ 60000)%Z.
Proof.
  unfold read_retryPolicy. destruct o as [[| | | | |fs]|]; try done.
  intros (a & Ha & (b & Hb & [= <-])%bind_Some)%bind_Some. cbn.
  apply with_default_cases in Ha as [->|?%read_int_bounds], Hb as [->|?%read_int_bounds]; unfold MAX_ATTEMPTS in *; lia.
Qed.

Lemma taskDefinition_ok o t : taskDefinition o = Some t → task_bounded t.
Proof.
  unfold taskDefinition. destruct o as [[| | | | |fs]|]; try done.
  intros (key & Hkey & H)%bind_Some. apply bind_Some in H as (? & _ & H). apply bind_Some in H as (type & Htype & H).
  apply bind_Some in H as (deps & Hdeps & H). apply bind_Some in H as (config & _ & H).
  apply bind_Some in H as (retry & Hretry & H). apply bind_Some in H as (tm & Htm & [= <-]).
  unfold task_bounded. cbn [td_key td_type td_dependsOn td_maxAttempts td_baseDelayMs td_timeoutMs].
  assert ((length deps ≤ 50)%nat ∧ Forall (λ d, taskKey d = true) deps) as [Hd1 Hd2].
  { apply with_default_cases in Hdeps as [->|Hdeps]; [split; [cbn; lia|done]|].
    apply (read_array_spec _ _ _ _ _ (λ d, taskKey d = true)) in Hdeps as [? ?]; [|apply read_taskKey_ok].
    unfold MAX_DEPENDENCIES in *. split; [lia|done]. }
  assert ((1 ≤ retry.1 ≤ 10)%Z ∧ (0 ≤ retry.2 ≤ 60000)%Z) as [Hr1 Hr2].
  { apply with_default_cases in Hretry as [->|Hretry]; [cbn; lia|]. by apply read_retryPolicy_ok in Hretry. }
  assert (100 ≤ tm ≤ 3600000)%Z as Ht.
  { apply with_default_cases in Htm as [->|Htm]; [lia|]. by apply read_int_bounds in Htm. }
  split; [by eapply read_taskKey_ok|]. split.
  { apply bind_Some in Htype as (s & _ & Hs). destruct (taskType_ok s) eqn:Hx; [|done]. by injection Hs as <-. }
  split; [done|]. split; [done|]. split; [by eexists|]. split; by eexists.
Qed.

Lemma workflowBody_ok o d :
  workflowBody o = Some d → length_between 1 100 (def_name d) = true ∧ tasks_bounded (def_tasks d).
Proof.
  unfold workflowBody. destruct o as [[| | | | |fs]|]; try done.
  intros (name & Hname & H)%bind_Some. apply bind_Some in H as (desc & _ & H).
  apply bind_Some in H as (ts & Hts & [= <-]). split; [by apply read_trimmed_bounds in Hname|].
  by apply (read_array_spec _ _ _ _ _ task_bounded) in Hts; [|apply taskDefinition_ok].
Qed.

Lemma reader_schema_ok {A} issues_of (r : reader A) v a :
  safeParse (reader_schema issues_of r) v = inr a → r (Some v) = Some a.
Proof. cbn. destruct (r (Some v)); [by intros [= ->]|done]. Qed.

Lemma part_value_ok {T} location (schema : Schema T) part v :
  part_value (validate_part location (Some schema) part) = Some v → ∃ raw, safeParse schema raw = inr v.
Proof.
  unfold validate_part. destruct (safeParse _ _) as [issues|v'] eqn:Hs; [done|]. intros [= ->]. by eexists.
Qed.

Lemma assertValidGraph_ok ts u : assertValidGraph ts = Ok u → sound (dag_task <$> ts) ∧ acyclic (dag_task <$> ts).
Proof.
  unfold assertValidGraph. destruct (validateDag_cases (dag_task <$> ts))
    as [[_ ->]|[(_ & _ & _ & c & _ & ->)|(Hs & Ha & _)]]; done.
Qed.

(** ** The routes *)

Section routes.
Context {Q : Type} (issues_of : json → list Issue) (valid_id : string → option oid).

(** A stored definition that the engine can run. *)
Definition runnable (s : StoredWorkflow) : Prop :=
  length_between 1 100 (sw_name s) = true ∧ tasks_bounded (sw_tasks s) ∧
  sound (dag_task <$> sw_tasks s) ∧ acyclic (dag_task <$> sw_tasks s).

Lemma validate_parts {P Q' B} (schemas : Schemas P Q' B) req p q b :
  validate schemas req = Ok (p, q, b) →
  part_value (validate_part "params" (params_schema schemas) (rq_params req)) = p ∧
  part_value (validate_part "query" (query_schema schemas) (rq_query req)) = q ∧
  part_value (validate_part "body" (body_schema schemas) (rq_body req)) = b.
Proof. unfold validate. destruct (_ <? _)%nat; [done|]. intros [= <- <- <-]. done. Qed.

Lemma post_body req p q d :
  validate (createWorkflowSchema issues_of) req = Ok (p, q, Some d) →
  length_between 1 100 (def_name d) = true ∧ tasks_bounded (def_tasks d).
Proof.
  intros (_ & _ & [raw H]%part_value_ok)%validate_parts. apply reader_schema_ok in H. by eapply workflowBody_ok.
Qed.

Lemma put_body req i q version d :
  validate (updateWorkflowSchema issues_of valid_id) req = Ok (i, q, Some (version, d)) →
  length_between 1 100 (def_name d) = true ∧ tasks_bounded (def_tasks d).
Proof.
  intros (_ & _ & [raw H]%part_value_ok)%validate_parts.
  apply reader_schema_ok in H. unfold updateBody in H. apply bind_Some in H as (d' & Hd & H).
  apply bind_Some in H as (v & _ & [= _ <-]). by eapply workflowBody_ok.
Qed.

Definition all_runnable (w : AppWorld Q) : Prop := ∀ i s, aw_workflows w !! i = Some s → runnable s.

Lemma all_runnable_insert i s w :
  all_runnable w → runnable s → all_runnable (set_workflows (<[i := s]> (aw_workflows w)) w).
Proof. intros Hw Hs j s'. cbn. rewrite lookup_insert_Some. intros [[_ <-]|[_ Hj]]; [done|by apply (Hw j)]. Qed.

Notation keeps := (steps_ok all_runnable (λ _ _, True)).

(** An edit that keeps definitions runnable keeps all of them so. *)
Lemma keeps_update_own u i p f : (∀ s, runnable s → runnable (f s)) → keeps (update_own u i p f).
Proof.
  intros Hf w Hw. split; [|done]. cbn.
  destruct (findOneAndUpdate_cases i (λ s, ownerScope u (sw_ownerId s) && p s) f (aw_workflows w))
    as [(s & Hs & _ & ->)|[_ ->]]; cbn; [|exact Hw].
  apply all_runnable_insert; [done|]. by apply Hf, (Hw i).
Qed.

Lemma keeps_read {A} (f : AppWorld Q → A) : keeps (read f).
Proof. by intros w Hw. Qed.

Lemma keeps_engine_call {A} (p : prog (World Q) A) : keeps (engine_call p).
Proof. by eapply (steps_ok_zoom _ _ (λ _, True) (λ _ _, True)); [| |apply steps_ok_any]. Qed.

Lemma keeps_create u d :
  length_between 1 100 (def_name d) = true → tasks_bounded (def_tasks d) → keeps (create_workflow u d).
Proof.
  intros Hn Hb. unfold create_workflow. destruct (assertValidGraph _) as [[]|e] eqn:Hg; [|done].
  apply assertValidGraph_ok in Hg as [Hs Ha]. intros w Hw. split; [|done]. cbn. by apply all_runnable_insert.
Qed.

Lemma keeps_edit u i version d :
  length_between 1 100 (def_name d) = true → tasks_bounded (def_tasks d) → keeps (update_workflow u i version d).
Proof.
  intros Hn Hb. unfold update_workflow. destruct (assertValidGraph _) as [[]|e] eqn:Hg; [|done].
  apply assertValidGraph_ok in Hg as [Hs Ha]. cbn [lift mbind prog_bind prog_bind_].
  apply steps_ok_bind; [by apply keeps_update_own|]. intros [s|]; [done|].
  apply steps_ok_bind; [apply keeps_read|]. by intros [s|].
Qed.

Lemma keeps_reschedule u i sch :
  keeps (updated ← update_own u i (λ _, true) (with_schedule sch);
         match updated with Some s => Ret s | None => Throw (NotFoundError "Workflow not found") end).
Proof. apply steps_ok_bind; [by apply keeps_update_own|]. by intros [s|]. Qed.

(** What the controllers store can be run. *)
Lemma keeps_c_create u req v : validate (createWorkflowSchema issues_of) req = Ok v → keeps (c_create u v).
Proof. destruct v as [[p q] [d|]]; [|done]. intros [Hn Hb]%post_body. by apply keeps_create. Qed.

Lemma keeps_c_update u req v : validate (updateWorkflowSchema issues_of valid_id) req = Ok v → keeps (c_update u v).
Proof.
  destruct v as [[[i|] q] [[version d]|]]; try done. intros [Hn Hb]%put_body. by apply keeps_edit.
Qed.

Lemma keeps_c_setSchedule known_timezone cron_error next_slot u v :
  keeps (c_setSchedule known_timezone cron_error next_slot u v).
Proof.
  destruct v as [[[i|] q] [b|]]; try done. cbn. unfold setSchedule. destruct (assertValidCron _ _ _ _); [|done].
  cbn [lift mbind prog_bind prog_bind_]. apply (steps_ok_bind _ _ (read _)); [apply keeps_read|].
  intros current. apply keeps_reschedule.
Qed.

Lemma keeps_c_clearSchedule u v : keeps (c_clearSchedule u v).
Proof. destruct v as [[[i|] q] b]; try done. apply keeps_reschedule. Qed.

(** Nothing else writes definitions. *)
Lemma keeps_run_workflow `{!Dispatcher Q} cfg hash u i input key : keeps (run_workflow cfg hash u i input key).
Proof.
  unfold run_workflow. apply steps_ok_bind; [apply keeps_read|]. intros [s|]; [|done].
  apply steps_ok_bind; [|intros [e|e]; [done|]].
  - apply steps_ok_catch; [|done]. apply steps_ok_bind; [apply keeps_engine_call|done].
  - destruct (negb _); [done|]. apply steps_ok_bind; [apply keeps_read|]. intros [[e' x]|]; [|done].
    by destruct (bool_decide _).
Qed.

Lemma keeps_control `{!Dispatcher Q} cfg u e a : keeps (control cfg u e a).
Proof.
  unfold control. apply steps_ok_bind; [apply keeps_read|]. intros [x|]; [|done].
  apply steps_ok_bind; [apply keeps_engine_call|]. intros []; [apply keeps_read|done].
Qed.

Lemma keeps_decide `{!Dispatcher Q} cfg u i d c : keeps (decide_approval cfg u i d c).
Proof.
  unfold decide_approval. apply steps_ok_bind; [apply keeps_read|]. intros [p|]; [|done].
  destruct (bool_decide _); [done|]. apply steps_ok_bind; [apply keeps_engine_call|].
  intros [o|]; [apply keeps_read|]. apply steps_ok_bind; [apply keeps_read|]. intros now.
  apply steps_ok_bind; [apply steps_ok_lift|done].
Qed.

(** The dry run says of a definition what a save would. *)
Lemma dry_run_agrees u v (w : AppWorld Q) d p q :
  v = (p, q, Some d) → ∃ r, c_validate v = Ok r ∧ (valid r = true ↔ ∃ i, (run (c_create u v) w).1 = Ok i).
Proof.
  intros ->.
  assert (∃ r, validateDag (dag_task <$> def_tasks d) = Some (Ok r)) as [r Hr].
  { destruct (validateDag_cases (dag_task <$> def_tasks d)) as [[_ ->]|[(_ & _ & _ & c & _ & ->)|(_ & _ & r & _ & _ & ->)]];
      by eexists. }
  exists r. unfold c_create, c_validate, create_workflow, assertValidGraph. rewrite Hr. split; [done|].
  rewrite run_bind, run_lift. destruct (valid r); cbn; [|by split; [|intros [i [=]]]].
  split; [|done]. by eexists.
Qed.
End routes.

(** ** Responses *)

(** An error the program did not foresee shows nothing of itself: the status,
    the code and the message are always the same, and it is logged. *)
Lemma unexpected_errors_hidden id t : ∀ e,
  errorHandler (RaisedOther t) id false =
    (Some (mkResponse 500 (mkErrorBody "INTERNAL_ERROR" "Internal server error" id None)), true) ∧
  (∀ m, e = PlainErr m ∨ e = TypeErr ∨ (∃ ks, e = DuplicateKey ks) →
   errorHandler (RaisedExn e) id false = errorHandler (RaisedOther t) id false).
Proof. intros e. split; [done|]. by intros m [->|[->|[ks ->]]]. Qed.

(** Whatever the header says, the id is safe to log and to send back, provided
    [crypto.randomUUID] gives a safe one. *)
Lemma requestId_safe incoming uuid : SAFE_ID uuid = true → SAFE_ID (requestId incoming uuid) = true.
Proof.
  intros Hu. unfold requestId. destruct incoming as [s|]; [|done].
  destruct (negb _ && SAFE_ID s) eqn:H; [|done]. by apply andb_true_iff in H as [_ H].
Qed.
