(* ===== verification/Pages.v ===== *)
(** * Lists of documents ([list] of [src/services/workflow.service.js], the lists
    of [src/routes/knowledge.routes.js] and [src/routes/approval.routes.js],
    [listWorkflowsSchema] of [src/workflow/workflow.schemas.js])

    Sorted, limited queries within the scope of a user, and the pages of
    workflows.  The time of creation, which Mongoose adds to documents, is a
    parameter. *)

From Stdlib Require Import SpecFloat.
From stdpp Require Import sorting.
From S2P Require Import Prelude Text Program Dag Models Retry TaskRepo Dispatcher Engine TaskQueue Worker.
From S2P Require Import Access Services Structured Router Double Calculator Numbers RagText Rag Handlers Cron Http.

Local Open Scope string_scope.

(** ** Query parameters *)

(** [Number(v)] of a query parameter: a string, or what the parser makes of
    repeated and nested names. *)
Definition coerce_number (v : json) : double :=
  match v with
  | JNull => S754_zero false
  | JBool b => of_Z (if b then 1 else 0)
  | JNum z => of_Z z
  | JStr s => js_Number s
  | JArr _ => js_Number (js_String v)
  | JObj _ => S754_nan
  end.

(** [z.coerce.number().int().min(lo).max(hi)]. *)
Definition read_coerced (lo hi : Z) : reader Z := λ o,
  v ← o; z ← as_integer (coerce_number v); if bool_decide (lo ≤ z ≤ hi)%Z then Some z else None.

Definition APPROVAL_STATUSES : list string := ["PENDING"; "APPROVED"; "REJECTED"; "EXPIRED"; "CANCELLED"].

Section schemas.
Context (issues_of : json → list Issue).

(** Limit and page. *)
Definition listWorkflowsSchema : Schemas unit (Z * Z) unit :=
  mkSchemas None (Some (reader_schema issues_of (λ o,
    limit ← with_default 20%Z (read_coerced 1 100) (o ≫= prop "limit");
    page ← with_default 1%Z (read_coerced 1 10000) (o ≫= prop "page");
    Some (limit, page)))) None.

(** An optional status. *)
Definition listApprovalsSchema : Schemas unit (option string) unit :=
  mkSchemas None (Some (reader_schema issues_of (λ o,
    match o ≫= prop "status" with
    | None => Some None
    | v => s ← read_string v; if bool_decide (s ∈ APPROVAL_STATUSES) then Some (Some s) else None
    end))) None.
End schemas.

(** ** Sorted queries *)

Section sorted.
Context {A : Type} (createdAt : oid → ms).

(** [{ createdAt: -1, _id: -1 }]. *)
Definition newest (a b : oid * A) : Prop :=
  (createdAt b.1 < createdAt a.1)%Z ∨ createdAt a.1 = createdAt b.1 ∧ (b.1 ≤ a.1)%nat.
#[export] Instance newest_dec : RelDecision newest.
Proof. unfold newest. intros a b. apply _. Defined.

(** [{ createdAt: -1 }]: documents of one instant stay in the order found. *)
Definition newer (a b : oid * A) : Prop := (createdAt b.1 ≤ createdAt a.1)%Z.
#[export] Instance newer_dec : RelDecision newer.
Proof. unfold newer. intros a b. apply _. Defined.

(** [.sort(...).skip((page - 1) * limit).limit(limit)]. *)
Definition page_of (limit page : Z) (l : list (oid * A)) : list (oid * A) :=
  limit_to (Z.to_nat limit) (drop (Z.to_nat ((page - 1) * limit)) (merge_sort newest l)).

(** [.sort({ createdAt: -1 }).limit(100)]. *)
Definition latest100 (l : list (oid * A)) : list (oid * A) := take 100 (merge_sort newer l).
End sorted.

(** ** The lists *)

Section lists.
Context {Q : Type} (createdAt : string → oid → ms).

Record Page := mkPage {
  pg_items : list (oid * StoredWorkflow);
  pg_page : Z;
  pg_limit : Z;
  pg_total : nat
}.

Definition visible_workflows (u : User) (w : AppWorld Q) : list (oid * StoredWorkflow) :=
  find (λ s, ownerScope u (sw_ownerId s)) (aw_workflows w).

(** The two queries run at once; other requests may come between them. *)
Definition list_workflows (u : User) (limit page : Z) : prog (AppWorld Q) Page :=
  items ← read (λ w, page_of (createdAt "workflows") limit page (visible_workflows u w));
  total ← read (λ w, length (visible_workflows u w));
  Ret (mkPage items page limit total).

Definition list_approvals (u : User) (status : option string) (w : AppWorld Q) : list (oid * ApprovalRequest) :=
  latest100 (createdAt "approvals")
    (find (λ p, ownerScope u (p_ownerId p) &&
                match status with
                | Some s => bool_decide (approval_status_str (p_status p) = s)
                | None => true
                end) (approvals (w_db (aw_world w)))).

Definition list_documents `{!Qdrant} (u : User) (w : RagWorld) : list (oid * KnowledgeDocument) :=
  latest100 (createdAt "documents") (find (λ d, ownerScope u (kd_ownerId d)) (rw_docs w)).
End lists.

(** ** Facts *)

#[export] Instance newest_total {A} createdAt : Total (@newest A createdAt).
Proof. intros a b. unfold newest. lia. Qed.
#[export] Instance newest_trans {A} createdAt : Transitive (@newest A createdAt).
Proof. intros a b c. unfold newest. lia. Qed.

(** Consecutive chunks of a list make it up again. *)
Lemma concat_chunks {A} (m : nat) (l : list A) n :
  concat (map (λ k, take m (drop (k * m) l)) (seq 0 n)) = take (n * m) l.
Proof.
  induction n as [|n IH]; [done|].
  rewrite seq_S, map_app, concat_app, IH. cbn. rewrite app_nil_r, take_take_drop. f_equal. lia.
Qed.

Lemma page_of_chunk {A} createdAt limit k (l : list (oid * A)) :
  (1 ≤ limit)%Z →
  page_of createdAt limit (Z.of_nat (S k)) l =
  take (Z.to_nat limit) (drop (k * Z.to_nat limit) (merge_sort (newest createdAt) l)).
Proof.
  intros Hl. unfold page_of. assert (Z.to_nat ((Z.of_nat (S k) - 1) * limit) = k * Z.to_nat limit)%nat as -> by nia.
  destruct (Z.to_nat limit) eqn:Hlim; [lia|done].
Qed.

Lemma NoDup_find {A} (p : A → bool) (m : gmap oid A) : NoDup (find p m).
Proof. apply NoDup_map_to_list. Qed.

(** ** Properties *)

(** the pages of a user's workflows, as long as nothing changes, are the
    whole list: every workflow the user may see is on exactly one page, no other
    is on any, the newest come first, no page is longer than the limit, and
    every page reports how many there are. *)
Theorem pages_cover {Q : Type} (createdAt : string → oid → ms) (u : User) (limit : Z) (n : nat) (w : AppWorld Q)
    (Hlimit : (1 ≤ limit)%Z) (Hn : (Z.of_nat (length (visible_workflows u w)) ≤ Z.of_nat n * limit)%Z) :
  ∃ pages : list (list (oid * StoredWorkflow)), length pages = n ∧
    (∀ k items, pages !! k = Some items →
       run (list_workflows createdAt u limit (Z.of_nat (S k))) w =
         (Ok (mkPage items (Z.of_nat (S k)) limit (length (visible_workflows u w))), w) ∧
       (Z.of_nat (length items) ≤ limit)%Z) ∧
    StronglySorted (newest (createdAt "workflows")) (concat pages) ∧ NoDup (concat pages) ∧
    ∀ i s, (i, s) ∈ concat pages ↔ aw_workflows w !! i = Some s ∧ ownerScope u (sw_ownerId s) = true.
Proof.
  set (sorted := merge_sort (newest (createdAt "workflows")) (visible_workflows u w)).
  exists (map (λ k, take (Z.to_nat limit) (drop (k * Z.to_nat limit) sorted)) (seq 0 n)).
  assert (sorted ≡ₚ visible_workflows u w) as Hperm by apply merge_sort_Permutation.
  rewrite concat_chunks, take_ge by (rewrite Hperm; nia).
  split; [by rewrite length_map, length_seq|]. split; [|split_and!].
  - intros k items Hk. rewrite list_lookup_fmap in Hk. apply fmap_Some in Hk as (k' & Hk' & ->).
    apply lookup_seq in Hk' as [-> Hlt]. cbn [plus]. split; [|rewrite length_take; lia].
    rewrite Nat.add_0_l. cbn -[Z.of_nat]. by rewrite page_of_chunk.
  - apply StronglySorted_merge_sort; apply _.
  - rewrite Hperm. apply NoDup_find.
  - intros i s. rewrite Hperm. apply (elem_of_find (λ s, ownerScope u (sw_ownerId s))).
Qed.

(** Three workflows of two users, two on a page. *)
Definition paged_world : AppWorld unit :=
  let flow owner name := mkStoredWorkflow owner name "" [] 1 None in
  mkAppWorld (mkWorld empty_db tt 0 0 0) {[1 := flow 7 "a"; 2 := flow 8 "b"; 3 := flow 7 "c"; 4 := flow 7 "d"]}.

Lemma pages_cover_witness :
  let page k := (run (list_workflows (λ _ i, Z.of_nat i) (mkUser 7 OPERATOR) 2 k) paged_world).1 in
  (λ p, match p with Ok p => (sw_name ∘ snd <$> pg_items p, pg_total p) | Exn _ => ([], 0) end) <$> [page 1; page 2]%Z
    = [(["d"; "c"], 3); (["a"], 3)] ∧
  ∃ pages : list (list (oid * StoredWorkflow)), length pages = 2 ∧ NoDup (concat pages).
Proof.
  split; [vm_compute; reflexivity|].
  destruct (pages_cover (λ _ i, Z.of_nat i) (mkUser 7 OPERATOR) 2 2 paged_world) as (pages & Hl & _ & _ & Hd & _).
  - lia.
  - vm_compute. discriminate.
  - exists pages. split; [exact Hl|exact Hd].
Defined.
