(* ===== verification/Tools.v ===== *)
(** * The agent's tools ([createToolRegistry] of [src/ai/agent/tools.js])

    The complete list of what an agent can do, over the collections as they are
    during the run, and what it can learn: two databases that agree on what the
    owner of the run has give the same run of the agent. *)

From S2P Require Import Prelude Text Program States Dag Models Retry TaskRepo Dispatcher Engine TaskQueue Worker.
From S2P Require Import Access Services Structured Router Agent Double Calculator RagText Rag Handlers Http.

Local Open Scope string_scope.

(** ** The registry *)

Section tools.
(** zod's issues; mongoose's cast of a string to an ObjectId; a double as a JSON
    value, since [json] holds integers; [Math.pow]. *)
Context (issues_of : json → list Issue) (valid_id : string → option oid).
Context (json_number : double → json) (pow : double → double → double).

(** [z.string().min(lo).max(hi)]. *)
Definition read_between (lo hi : nat) : reader string := λ o,
  s ← read_string o; if length_between lo hi s then Some s else None.

(** An object of the declared fields; the JSON Schema text zod derives. *)
Definition tool_schema (text : string) (read : option json → option (list (string * json))) : Schema json :=
  mkSchema text (λ v, match v with
                      | JObj _ => match read (Some v) with Some fields => inr (JObj fields) | None => inl (issues_of v) end
                      | _ => inl (issues_of v)
                      end).

Definition resolves (v : json) : promise json := Some (0%Z, Resolved v).
Definition error_result (message : string) : json := JObj [("error", JStr message)].

(** [search_knowledge_base]. *)
Definition search_fields (o : option json) : option (list (string * json)) :=
  query ← read_between 1 300 (o ≫= prop "query");
  topK ← with_default 3%Z (read_int 1 5) (o ≫= prop "topK");
  Some [("query", JStr query); ("topK", JNum topK)].

Definition hit_json (h : RagHit) : json :=
  JObj [("title", JStr (hit_title h)); ("score", json_number (hit_score h)); ("text", JStr (truncate 500 (hit_text h)))].

(** [rag.retrieve], if there is one, for an owner, a query and a number of hits. *)
Context (retrieve : option (string → string → Z → promise (list RagHit))).

(** Arguments are what the schema let through (see [tool_schema_read]); the
    tools are not called with anything else, and reject it here. *)
Definition run_search (args : json) (ctx : ToolCtx) : promise json :=
  match retrieve with
  | None => resolves (error_result "knowledge base not configured")
  | Some retrieve =>
      match prop "query" args, prop "topK" args with
      | Some (JStr query), Some (JNum topK) =>
          match retrieve (tc_ownerId ctx) query topK with
          | Some (t, Resolved hits) => Some (t, Resolved (JArr (hit_json <$> hits)))
          | Some (t, Rejected err) => Some (t, Rejected err)
          | None => None
          end
      | _, _ => Some (0%Z, Rejected Nullish)
      end
  end.

(** [get_workflow_status]. *)
Definition status_fields (o : option json) : option (list (string * json)) :=
  executionId ← read_string (o ≫= prop "executionId");
  _ ← valid_id executionId;
  Some [("executionId", JStr executionId)].

Context (db : DB).

(** [findOne({ _id, ownerId })]: both are cast to ObjectIds. *)
Definition own_execution (i : oid) (ownerId : string) : option WorkflowExecution :=
  findOne i (λ x, bool_decide (oid_str (x_ownerId x) = ownerId)) (executions db).

Definition tasks_of (i : oid) : list Task := (find (of_run i) (tasks db)).*2.

Definition task_line (t : Task) : json :=
  JObj [("key", JStr (t_key t)); ("status", JStr (task_status_str (t_status t))); ("attempt", JNum (attempt t))].

Definition run_status (args : json) (ctx : ToolCtx) : promise json :=
  match prop "executionId" args with
  | Some (JStr executionId) =>
      match valid_id executionId with
      | Some i =>
          match own_execution i (tc_ownerId ctx) with
          | None => resolves (error_result "execution not found")
          | Some x =>
              resolves (JObj [("status", JStr (execution_status_str (x_status x)));
                              ("tasks", JArr (task_line <$> tasks_of i))])
          end
      | None => Some (0%Z, Rejected Nullish)
      end
  | _ => Some (0%Z, Rejected Nullish)
  end.

(** [calculator]. *)
Definition calculator_fields (o : option json) : option (list (string * json)) :=
  expression ← read_between 1 200 (o ≫= prop "expression");
  Some [("expression", JStr expression)].

Definition thrown_error (e : exn) : thrown := match e with PlainErr m => new_Error m | _ => property_of_null end.

Definition run_calculator (args : json) (ctx : ToolCtx) : promise json :=
  match prop "expression" args with
  | Some (JStr expression) =>
      match evaluateArithmetic pow expression with
      | Some (Ok v) => resolves (JObj [("result", json_number v)])
      | Some (Exn e) => Some (0%Z, Rejected (thrown_error e))
      | None => None
      end
  | _ => Some (0%Z, Rejected Nullish)
  end.

(** The JSON Schemas of the three tools. *)
Context (schema_text : string → string).

Definition createToolRegistry : list (string * Tool) := [
  ("search_knowledge_base", mkTool
     "Search the user's own knowledge base. Returns the most relevant text snippets."
     (tool_schema (schema_text "search_knowledge_base") search_fields) (Some WORKFLOW_READ) 20000 run_search);
  ("get_workflow_status", mkTool
     "Get the status of one of the user's workflow executions and its tasks, by execution id."
     (tool_schema (schema_text "get_workflow_status") status_fields) (Some WORKFLOW_READ) 5000 run_status);
  ("calculator", mkTool
     "Evaluate an arithmetic expression with + - * / % ^ and parentheses, e.g. (18 - 5) * 2."
     (tool_schema (schema_text "calculator") calculator_fields) None 1000 run_calculator)].
End tools.

(** What the schemas accept is what the tools read. *)
Lemma tool_schema_read issues_of text read v data :
  safeParse (tool_schema issues_of text read) v = inr data → ∃ fields, read (Some v) = Some fields ∧ data = JObj fields.
Proof. destruct v; cbn; try done. destruct (read _) as [fs|]; [|done]. intros [= <-]. by exists fs. Qed.

Lemma search_args o fields :
  search_fields o = Some fields → ∃ q k, fields = [("query", JStr q); ("topK", JNum k)] ∧ (1 ≤ k ≤ 5)%Z.
Proof.
  intros H. apply bind_Some in H as (q & _ & H). apply bind_Some in H as (k & Hk & H). injection H as <-.
  exists q, k. split; [done|]. unfold with_default in Hk. destruct (o ≫= prop "topK") as [v|]; [|by injection Hk as <-].
  cbn in Hk. destruct v; try done. destruct (_ && _) eqn:Hb in Hk; [|done]. injection Hk as <-.
  apply andb_true_iff in Hb as [?%Z.leb_le ?%Z.leb_le]. lia.
Qed.

(** ** Tools that a run cannot tell apart *)

Section agree.
Context (ctx : ToolCtx).

Record same_tool (t1 t2 : Tool) : Prop := mkSameTool {
  same_description : tl_description t1 = tl_description t2;
  same_schema : tl_schema t1 = tl_schema t2;
  same_permission : tl_permission t1 = tl_permission t2;
  same_timeout : tl_timeoutMs t1 = tl_timeoutMs t2;
  same_run args : tl_run t1 args ctx = tl_run t2 args ctx
}.

Definition same_named {A} (R : A → A → Prop) (a b : string * A) : Prop := a.1 = b.1 ∧ R a.2 b.2.
Definition same_tools : list (string * Tool) → list (string * Tool) → Prop := Forall2 (same_named same_tool).

Inductive same_entry : tool_entry → tool_entry → Prop :=
| same_own t1 t2 : same_tool t1 t2 → same_entry (OwnTool t1) (OwnTool t2)
| same_inherited : same_entry InheritedFunction InheritedFunction.

Definition same_entries : list (string * tool_entry) → list (string * tool_entry) → Prop :=
  Forall2 (same_named same_entry).

Lemma same_names {A} (R : A → A → Prop) l1 l2 : Forall2 (same_named R) l1 l2 → l1.*1 = l2.*1.
Proof. induction 1 as [|[??] [??] ?? [Hn _] _ IH]; [done|]. cbn in *. by rewrite Hn, IH. Qed.

Lemma same_own_tool name l1 l2 : same_tools l1 l2 → option_Forall2 same_tool (own_tool name l1) (own_tool name l2).
Proof.
  induction 1 as [|[k1 t1] [k2 t2] ?? [Hn Ht] _ IH]; [constructor|]. cbn in *. rewrite Hn.
  case_bool_decide; [by constructor|done].
Qed.

Lemma same_tool_at name l1 l2 : same_tools l1 l2 → option_Forall2 same_entry (tool_at l1 name) (tool_at l2 name).
Proof.
  intros H. unfold tool_at. destruct (same_own_tool name _ _ H) as [t1 t2 Ht|]; [by do 2 constructor|].
  case_bool_decide; by repeat constructor.
Qed.

Lemma same_unknown name l1 l2 : same_tools l1 l2 → is_unknown l1 name = is_unknown l2 name.
Proof. intros H. unfold is_unknown. by destruct (same_tool_at name _ _ H). Qed.

Lemma same_denies role e1 e2 : same_entry e1 e2 → denies role e1 = denies role e2.
Proof. intros [t1 t2 Ht|]; [|done]. cbn. by rewrite (same_permission _ _ Ht). Qed.

Lemma same_assign name e1 e2 a1 a2 :
  same_entry e1 e2 → same_entries a1 a2 → same_entries (assign name e1 a1) (assign name e2 a2).
Proof.
  intros He Ha. unfold assign. rewrite (same_names _ _ _ Ha). destruct (_ || _); [done|].
  apply Forall2_app; [done|]. by repeat constructor.
Qed.

(** What a selection gives: the same refusals and entries that agree. *)
Definition same_selection (r1 r2 : res (list (string * tool_entry) * list string)) : Prop :=
  match r1, r2 with
  | Ok (a1, d1), Ok (a2, d2) => same_entries a1 a2 ∧ d1 = d2
  | Exn e1, Exn e2 => e1 = e2
  | _, _ => False
  end.

Lemma same_select_loop l1 l2 role names : ∀ a1 a2 denied,
  same_tools l1 l2 → same_entries a1 a2 →
  same_selection (select_loop l1 role names a1 denied) (select_loop l2 role names a2 denied).
Proof.
  induction names as [|name names IH]; intros a1 a2 denied Hl Ha; [done|]. cbn [select_loop].
  destruct (same_tool_at name _ _ Hl) as [e1 e2 He|]; [|done].
  rewrite (same_denies role _ _ He). destruct (denies role e2) as [[|]|]; [| |done]; cbn; apply IH; try done.
  by apply same_assign.
Qed.

Lemma same_selectTools l1 l2 allowlist role :
  same_tools l1 l2 → same_selection (selectTools l1 allowlist role) (selectTools l2 allowlist role).
Proof.
  intros H. unfold selectTools. rewrite (same_names _ _ _ H).
  rewrite (List.filter_ext _ _ (λ name, same_unknown name _ _ H)).
  destruct (List.filter _ _); [|done]. apply same_select_loop; [done|constructor].
Qed.

Lemma same_own_tools a1 a2 : same_entries a1 a2 → option_Forall2 same_tools (own_tools a1) (own_tools a2).
Proof.
  unfold own_tools. induction 1 as [|[k1 e1] [k2 e2] ?? [Hn He] _ IH]; [by repeat constructor|].
  cbn in Hn, He. subst k2. destruct He as [t1 t2 Ht|]; cbn; [|constructor].
  destruct IH as [x1 x2 Hx|]; cbn; constructor. by constructor.
Qed.

Lemma same_prompt l1 l2 : same_tools l1 l2 → system_prompt l1 = system_prompt l2.
Proof.
  intros H. unfold system_prompt. assert (tool_doc <$> l1 = tool_doc <$> l2) as ->; [|done].
  induction H as [|[k1 t1] [k2 t2] ?? [Hn Ht] _ IH]; [done|]. cbn in *. rewrite IH. f_equal.
  unfold tool_doc. cbn. by rewrite Hn, (same_description _ _ Ht), (same_schema _ _ Ht).
Qed.

Lemma same_observe t1 t2 name args : same_tool t1 t2 → observe t1 name args ctx = observe t2 name args ctx.
Proof.
  intros H. unfold observe. rewrite (same_schema _ _ H). destruct (safeParse _ _) as [|data]; [done|].
  by rewrite (same_run _ _ H), (same_timeout _ _ H).
Qed.

Section runs.
Context (provider : Provider) (json_parse : string → string + json).
Context (step_schema_text : list string → string) (step_issues : json → list Issue).
Context (no_schema_error : thrown) (aborted : nat → option thrown).

Lemma same_agent_loop model system l1 l2 maxIterations budget : ∀ i transcript steps used last n,
  same_tools l1 l2 →
  agent_loop provider json_parse step_schema_text step_issues aborted model system l1 ctx maxIterations budget i
    transcript steps used last n =
  agent_loop provider json_parse step_schema_text step_issues aborted model system l2 ctx maxIterations budget i
    transcript steps used last n.
Proof.
  induction budget as [|budget IH]; intros i transcript steps used last n H; [done|]. cbn [agent_loop].
  destruct (aborted i); [done|]. rewrite (same_names _ _ _ H). unfold mbind, ai_bind.
  destruct (generateStructured _ _ _ _ _ _ _ _) as [[r|e] n']; [|done].
  destruct (st_data r) as [thought name fields|thought answer]; [|done].
  case_bool_decide; [done|]. destruct (same_own_tool name _ _ H) as [t1 t2 Ht|]; [|done].
  rewrite (same_observe _ _ _ _ Ht). destruct (observe _ _ _ _) as [[[logged ok] v]|e]; [by apply IH|done].
Qed.

Lemma same_runAgent model a1 a2 goal maxIterations n :
  same_entries a1 a2 →
  runAgent provider json_parse step_schema_text step_issues no_schema_error aborted model a1 goal ctx maxIterations n =
  runAgent provider json_parse step_schema_text step_issues no_schema_error aborted model a2 goal ctx maxIterations n.
Proof.
  intros H. unfold runAgent. pose proof (same_own_tools _ _ H) as Ho.
  destruct H as [|e1 e2 a1 a2 He Ha]; [done|].
  destruct Ho as [l1 l2 Hl|]; [|done]. rewrite (same_prompt _ _ Hl). by apply same_agent_loop.
Qed.
End runs.
End agree.

(** ** What an agent can learn *)

(** Two databases with the same runs of [owner] and the same tasks of them. *)
Definition same_data (owner : oid) (db1 db2 : DB) : Prop :=
  (∀ i x, x_ownerId x = owner → executions db1 !! i = Some x ↔ executions db2 !! i = Some x) ∧
  (∀ i x, x_ownerId x = owner → executions db1 !! i = Some x → tasks_of db1 i = tasks_of db2 i).

(** Two knowledge bases with the same hits for [owner]. *)
Definition same_retrieval (owner : oid) (r1 r2 : option (string → string → Z → promise (list RagHit))) : Prop :=
  option_Forall2 (λ f g, ∀ query k, f (oid_str owner) query k = g (oid_str owner) query k) r1 r2.

Lemma own_execution_Some db i owner x :
  own_execution db i (oid_str owner) = Some x ↔ executions db !! i = Some x ∧ x_ownerId x = owner.
Proof.
  unfold own_execution, findOne. destruct (executions db !! i) as [x'|]; cbn; [|naive_solver].
  case_bool_decide as Ho.
  - apply (inj pretty) in Ho. naive_solver.
  - split; [done|]. intros [[= ->] <-]. done.
Qed.

Lemma same_run_status valid_id owner db1 db2 args :
  same_data owner db1 db2 →
  run_status valid_id db1 args (mkToolCtx (oid_str owner)) = run_status valid_id db2 args (mkToolCtx (oid_str owner)).
Proof.
  intros [Hx Ht]. unfold run_status. destruct (prop "executionId" args) as [[]|]; try done.
  destruct (valid_id _) as [i|]; [|done]. cbn.
  destruct (own_execution db1 i (oid_str owner)) as [x|] eqn:H1.
  - pose proof H1 as [Hi Ho]%own_execution_Some. assert (own_execution db2 i (oid_str owner) = Some x) as ->.
    { apply own_execution_Some. split; [by apply Hx|done]. }
    by rewrite (Ht _ _ Ho Hi).
  - destruct (own_execution db2 i (oid_str owner)) as [x|] eqn:H2; [|done].
    apply own_execution_Some in H2 as [Hi Ho]. apply (Hx _ _ Ho) in Hi.
    by rewrite (proj2 (own_execution_Some _ _ _ _) (conj Hi Ho)) in H1.
Qed.

Lemma same_registry issues_of valid_id json_number pow schema_text owner r1 r2 db1 db2 :
  same_data owner db1 db2 → same_retrieval owner r1 r2 →
  same_tools (mkToolCtx (oid_str owner))
    (createToolRegistry issues_of valid_id json_number pow r1 db1 schema_text)
    (createToolRegistry issues_of valid_id json_number pow r2 db2 schema_text).
Proof.
  intros Hdb Hr. unfold createToolRegistry. repeat constructor; cbn; [| |done..]; intros args.
  - unfold run_search. destruct Hr as [f g Hfg|]; [|done]. destruct (prop "query" args) as [[]|]; try done.
    destruct (prop "topK" args) as [[]|]; try done. cbn. by rewrite Hfg.
  - by apply same_run_status.
Qed.


(** *** Witness: an agent asks for the run of another user *)

Definition foreign_execution : WorkflowExecution :=
  mkWorkflowExecution 3 8 1 E_RUNNING JNull 1 1 None TRIGGER_manual None None None None None.

Definition foreign_db : DB := mkDB {[1 := foreign_execution]} ∅ ∅ ∅ [] 0.

Definition curious_parse (s : string) : string + json :=
  if bool_decide (s = "{call}")
  then inr (JObj [("action", JStr "tool"); ("tool", JStr "get_workflow_status"); ("args", JObj [("executionId", JStr "1")])])
  else inr (JObj [("action", JStr "final"); ("answer", JStr "done")]).

Definition demo_number (v : option json) : option Z := match v with Some (JNum z) => Some z | _ => None end.
Definition demo_valid_id (s : string) : option oid := if bool_decide (s = "1") then Some 1 else None.
Definition demo_models : AiModels := mkAiModels "small" "large" "embedding".
Definition spy_task : AiArgs := mkAiArgs (JObj [("text", JStr "spy")]) JNull [] 7.

Definition curious_run (db : DB) : settled AgentOutput * nat :=
  ai_agent demo_number demo_provider curious_parse demo_models id
    (Some (createToolRegistry (λ _, []) demo_valid_id (λ _, JNull) (λ x _, x) None db (λ _, ""), λ _, Some VIEWER))
    (λ _, "") (λ _, []) Nullish (λ _, None) spy_task 0.


(** Whereas its owner sees it. *)
Example owner_sees_status :
  run_status demo_valid_id foreign_db
    (JObj [("executionId", JStr "1")]) (mkToolCtx "8")
  = Some (0%Z, Resolved (JObj [("status", JStr "RUNNING"); ("tasks", JArr [])])).
Proof. vm_compute. reflexivity. Qed.
