(* ===== verification/Health.v ===== *)
(** * Readiness ([src/services/health.service.js], [src/routes/health.routes.js])

    The checks of the dependencies, in parallel and each with its own timeout,
    and the answer a load balancer gets. *)

From S2P Require Import Prelude Text Program Dag Models Retry TaskRepo Dispatcher Engine TaskQueue Worker.

Local Open Scope string_scope.

Record CheckResult := mkCheck { ck_up : bool; ck_latencyMs : Z; ck_error : option thrown }.

(** When the race of [withTimeout] is over. *)
Definition elapsed {A} (p : promise A) (timeoutMs : Z) : Z :=
  match p with
  | Some (t, _) => if bool_decide (t < timeoutMs)%Z then t else timeoutMs
  | None => timeoutMs
  end.

Definition run_check (timeoutMs : Z) (check : string * promise unit) : string * CheckResult :=
  let '(name, p) := check in
  (name, match withTimeout p timeoutMs (name +:+ " health check") with
         | Resolved _ => mkCheck true (elapsed p timeoutMs) None
         | Rejected error => mkCheck false (elapsed p timeoutMs) (Some error)
         end).

(** The checks run in parallel; the names of an object are distinct. *)
Definition runHealthChecks (checks : list (string * promise unit)) (timeoutMs : Z)
    : bool * list (string * CheckResult) :=
  let results := run_check timeoutMs <$> checks in
  (forallb (λ r, ck_up r.2) results, results).

(** When the answer is there: the slowest check. *)
Definition total_latency (checks : list (string * promise unit)) (timeoutMs : Z) : Z :=
  foldr (λ c acc, Z.max (elapsed c.2 timeoutMs) acc) 0%Z checks.

(** The body of [GET /ready]: no detail of an error. *)
Inductive ReadyBody : Type :=
| ShuttingDown
| ReadyChecks (ready : bool) (checks : list (string * (bool * Z))).

Definition DEFAULT_TIMEOUT_MS : Z := 2000.

Definition get_ready (checks : list (string * promise unit)) (shuttingDown : bool) : Z * ReadyBody :=
  if shuttingDown then (503%Z, ShuttingDown)
  else
    let '(ready, results) := runHealthChecks checks DEFAULT_TIMEOUT_MS in
    ((if ready then 200 else 503)%Z, ReadyChecks ready ((λ r, (r.1, (ck_up r.2, ck_latencyMs r.2))) <$> results)).

(** ** The probe answers *)

Definition healthy (timeoutMs : Z) (p : promise unit) : Prop := ∃ t, p = Some (t, Resolved tt) ∧ (t < timeoutMs)%Z.

Lemma run_check_up timeoutMs name p : ck_up (run_check timeoutMs (name, p)).2 = true ↔ healthy timeoutMs p.
Proof.
  unfold run_check, healthy, withTimeout. destruct p as [[t s]|]; cbn.
  - destruct (bool_decide_reflect (t < timeoutMs)%Z); [destruct s as [[]|e]|]; cbn; split; try done.
    + intros _. by eexists.
    + by intros (? & [= _ ?] & _).
    + intros (? & [= -> _] & ?). lia.
  - split; [done|]. by intros (? & [=] & _).
Qed.

Lemma elapsed_bound {A} (p : promise A) timeoutMs : (elapsed p timeoutMs ≤ timeoutMs)%Z.
Proof. unfold elapsed. destruct p as [[t s]|]; [case_bool_decide|]; lia. Qed.

(** A probe is answered in time, also when a dependency hangs, and traffic is
    accepted exactly when the process is not shutting down and every dependency
    answered in time. *)
Lemma readiness checks shuttingDown :
  (total_latency checks DEFAULT_TIMEOUT_MS ≤ DEFAULT_TIMEOUT_MS)%Z ∧
  ((get_ready checks shuttingDown).1 = 200%Z ↔
   shuttingDown = false ∧ Forall (λ c, healthy DEFAULT_TIMEOUT_MS c.2) checks) ∧
  ((get_ready checks shuttingDown).1 = 200%Z ∨ (get_ready checks shuttingDown).1 = 503%Z).
Proof.
  split; [|split].
  - unfold total_latency. induction checks as [|c checks IH]; cbn; [done|].
    pose proof (elapsed_bound c.2 DEFAULT_TIMEOUT_MS). lia.
  - unfold get_ready. destruct shuttingDown; [split; [done|by intros [? _]]|].
    unfold runHealthChecks. cbn. destruct (forallb _ _) eqn:Hf.
    + split; [intros _|done]. split; [done|].
      rewrite forallb_forall in Hf. apply Forall_forall. intros [name p] Hin. cbn.
      apply (run_check_up _ name), (Hf (run_check DEFAULT_TIMEOUT_MS (name, p))).
      apply list_elem_of_In, list_elem_of_fmap. by eexists.
    + split; [done|]. intros [_ Hall]. exfalso. apply not_true_iff_false in Hf. apply Hf, forallb_forall.
      intros r Hr. apply list_elem_of_In, list_elem_of_fmap in Hr as ([name p] & -> & Hin).
      apply run_check_up. by rewrite Forall_forall in Hall; apply (Hall (name, p)).
  - unfold get_ready. destruct shuttingDown; [by right|]. cbn. destruct (forallb _ _); [by left|by right].
Qed.
