(* ===== verification/Providers.v ===== *)
(** * Model servers and the record of their calls
    ([src/ai/providers/openaiCompatible.js], [src/ai/providers/errors.js],
    [src/ai/providers/index.js], [src/ai/observability.js])

    A provider talks HTTP to a model server.  [fetch] is a parameter: what the
    server answers to a request and when, if nobody aborts it.  Times count from
    the start of the call. *)

From Stdlib Require Import SpecFloat.
From S2P Require Import Prelude Text Program Dag Models Retry TaskRepo Dispatcher Engine TaskQueue Worker.
From S2P Require Import Access Structured Router Double Handlers Resilience.

Local Open Scope string_scope.

(** ** [ai/providers/errors.js] *)

(** The engine and the fallback chain read [message] and [retryable]; the fields
    [provider], [status] and [cause] are left out. *)
Definition ProviderError (message : string) (retryable : bool) : thrown :=
  ErrorObject (mkError false (Some "ProviderError") (Some message) (Some retryable) ("ProviderError: " +:+ message)).

Definition isRetryableStatus (status : Z) : bool :=
  bool_decide (status = 408%Z) || bool_decide (status = 429%Z) || (500 <=? status)%Z.

(** ** [ai/providers/openaiCompatible.js] *)

Definition TypeError_ (message : string) : thrown :=
  ErrorObject (mkError false (Some "TypeError") (Some message) None ("TypeError: " +:+ message)).

(** The body of a response arrives after its head: [text()] and [json()], by
    the time they take. *)
Record FetchResponse := mkFetchResponse {
  fr_status : Z;
  fr_text : promise string;
  fr_json : promise json
}.

(** [res.ok]. *)
Definition fr_ok (res : FetchResponse) : bool := ((200 <=? fr_status res) && (fr_status res <=? 299))%Z.

(** A POST; the body is sent as JSON. *)
Record HttpCall := mkHttpCall { hc_url : string; hc_headers : list (string * string); hc_body : json }.

(** What [chat] and [embed] are called with; a signal is the time at which it
    aborts and its reason. *)
Record ChatArgs := mkChatArgs {
  ca_model : string;
  ca_messages : list Message;
  ca_temperature : option Z;
  ca_json : bool;
  ca_maxTokens : option Z;
  ca_signal : option (ms * thrown)
}.

(** The fields of the answer are whatever the server sent. *)
Record ProviderReply := mkProviderReply {
  pr_content : json;
  pr_model : json;
  pr_inputTokens : json;
  pr_outputTokens : json;
  pr_latencyMs : ms
}.

(** A missing vector is [undefined]. *)
Record EmbedReply := mkEmbedReply {
  er_vectors : list (option json);
  er_model : json;
  er_inputTokens : json;
  er_latencyMs : ms
}.

(** The reason of [AbortSignal.timeout]. *)
Definition timeout_reason : thrown :=
  ErrorObject (mkError false (Some "TimeoutError") (Some "The operation was aborted due to timeout") None
    "TimeoutError: The operation was aborted due to timeout").

(** What was started at [started], unless the signal aborts it before it
    settles. *)
Definition until {A} (abort : ms * thrown) (started : ms) (p : promise A) : promise A :=
  match p with
  | Some (t, s) =>
      if bool_decide (started + t < abort.1)%Z then Some ((started + t)%Z, s)
      else Some (Z.max started abort.1, Rejected abort.2)
  | None => Some (Z.max started abort.1, Rejected abort.2)
  end.

(** [baseUrl.replace(/\/$/, "")]. *)
Definition without_slash (url : string) : string :=
  on_chars (λ l, match reverse l with
                 | c :: r => if bool_decide (c = Ascii.ascii_of_nat 47) then reverse r else l
                 | [] => []
                 end) url.

Definition role_json (r : chat_role) : json :=
  JStr match r with System => "system" | UserRole => "user" | Assistant => "assistant" end.
Definition message_json (m : Message) : json :=
  JObj [("role", role_json (msg_role m)); ("content", JStr (msg_content m))].

(** [v?.[0]]. *)
Definition element0 (v : json) : option json :=
  match v with
  | JArr (x :: _) => Some x
  | JStr (String c _) => Some (JStr (String c ""))
  | JObj fields => field "0" fields
  | _ => None
  end.

(** [o?.name]. *)
Definition opt_prop (name : string) (o : option json) : option json := o ≫= prop name.

Definition is_null (v : json) : bool := match v with JNull => true | _ => false end.

(** Reading a property of [null] or [undefined]. *)
Definition cannot_read (what property : string) : thrown :=
  TypeError_ ("Cannot read properties of " +:+ what +:+ " (reading '" +:+ property +:+ "')").

Section provider.
Context (name baseUrl : string) (apiKey : option string) (timeoutMs : ms).
Context (fetch : HttpCall → promise FetchResponse).

Definition http_call (path : string) (body : json) : HttpCall :=
  {| hc_url := without_slash baseUrl +:+ path;
     hc_headers := ("Content-Type", "application/json") ::
       match apiKey with
       | None | Some "" => []
       | Some key => [("Authorization", "Bearer " +:+ key)]
       end;
     hc_body := body |}.

(** [AbortSignal.any([signal, timeout])]. *)
Definition combined (signal : option (ms * thrown)) : ms * thrown :=
  match signal with
  | Some (t, reason) => if bool_decide (t < timeoutMs)%Z then (t, reason) else (timeoutMs, timeout_reason)
  | None => (timeoutMs, timeout_reason)
  end.

(** The [catch] around [fetch], [elapsed] after the start. *)
Definition fetch_failed (elapsed : ms) (err : thrown) : thrown :=
  if bool_decide (timeoutMs ≤ elapsed)%Z
  then ProviderError (name +:+ " timed out after " +:+ pretty timeoutMs +:+ "ms") true
  else
    let unreachable := λ message, ProviderError (name +:+ " unreachable: " +:+ message) true in
    match err with
    | Nullish => cannot_read "undefined" "message"
    | Primitive _ _ => unreachable "undefined"
    | ErrorObject e => unreachable (default "undefined" (e_message e))
    end.

Definition http_failed (status : Z) (detail : string) : thrown :=
  ProviderError (name +:+ " HTTP " +:+ pretty status +:+ ": " +:+ truncate 300 detail) (isRetryableStatus status).

(** The parsed body, and the latency. *)
Definition post (path : string) (body : json) (signal : option (ms * thrown)) : promise (json * ms) :=
  let abort := combined signal in
  match until abort 0 (fetch (http_call path body)) with
  | None => None
  | Some (t, Rejected err) => Some (t, Rejected (fetch_failed t err))
  | Some (t, Resolved res) =>
      if negb (fr_ok res) then
        match until abort t (fr_text res) with
        | None => None
        | Some (t', Resolved text) => Some (t', Rejected (http_failed (fr_status res) text))
        | Some (t', Rejected _) => Some (t', Rejected (http_failed (fr_status res) ""))
        end
      else
        match until abort t (fr_json res) with
        | None => None
        | Some (t', Resolved r) => Some (t', Resolved (r, t'))
        | Some (t', Rejected err) => Some (t', Rejected err)
        end
  end.

(** [await post(...)], and then what reads the body. *)
Definition reading {A} (p : promise (json * ms)) (read : json → ms → settled A) : promise A :=
  match p with
  | Some (t, Resolved (r, latencyMs)) => Some (t, read r latencyMs)
  | Some (t, Rejected err) => Some (t, Rejected err)
  | None => None
  end.

Definition chat_body (a : ChatArgs) : json :=
  JObj ([("model", JStr (ca_model a)); ("messages", JArr (message_json <$> ca_messages a));
         ("temperature", JNum (default 0%Z (ca_temperature a)))] ++
        match ca_maxTokens a with
        | Some n => if bool_decide (n = 0%Z) then [] else [("max_tokens", JNum n)]
        | None => []
        end ++
        (if ca_json a then [("response_format", JObj [("type", JStr "json_object")])] else []))%list.

Definition read_chat (model : string) (r : json) (latencyMs : ms) : settled ProviderReply :=
  match r with
  | JNull => Rejected (cannot_read "null" "choices")
  | _ =>
      Resolved {|
        pr_content := nullish_or (opt_prop "content" (opt_prop "message" (prop "choices" r ≫= element0))) (JStr "");
        pr_model := nullish_or (prop "model" r) (JStr model);
        pr_inputTokens := nullish_or (opt_prop "prompt_tokens" (prop "usage" r)) (JNum 0);
        pr_outputTokens := nullish_or (opt_prop "completion_tokens" (prop "usage" r)) (JNum 0);
        pr_latencyMs := latencyMs |}
  end.

Definition openai_chat (a : ChatArgs) : promise ProviderReply :=
  reading (post "/v1/chat/completions" (chat_body a) (ca_signal a)) (read_chat (ca_model a)).

(** [r.data.map((d) => d.embedding)]. *)
Definition read_vectors (data : option json) : thrown + list (option json) :=
  match data with
  | None => inl (cannot_read "undefined" "map")
  | Some JNull => inl (cannot_read "null" "map")
  | Some (JArr l) =>
      if existsb is_null l then inl (cannot_read "null" "embedding") else inr (prop "embedding" <$> l)
  | Some _ => inl (TypeError_ "r.data.map is not a function")
  end.

Definition read_embed (model : string) (r : json) (latencyMs : ms) : settled EmbedReply :=
  match r with
  | JNull => Rejected (cannot_read "null" "data")
  | _ =>
      match read_vectors (prop "data" r) with
      | inl err => Rejected err
      | inr vectors =>
          Resolved {| er_vectors := vectors; er_model := nullish_or (prop "model" r) (JStr model);
                      er_inputTokens := nullish_or (opt_prop "prompt_tokens" (prop "usage" r)) (JNum 0);
                      er_latencyMs := latencyMs |}
      end
  end.

Definition openai_embed (model : string) (input : list string) (signal : option (ms * thrown)) : promise EmbedReply :=
  reading (post "/v1/embeddings" (JObj [("model", JStr model); ("input", JArr (JStr <$> input))]) signal)
    (read_embed model).
End provider.

(** ** [ai/providers/index.js] *)

Record FallbackSettings := mkFallbackSettings { fs_baseUrl : string; fs_apiKey : option string; fs_model : string }.

(** A price table in USD per million tokens. *)
Record Price := mkPrice { inputPer1M : double; outputPer1M : double }.

Record LlmConfig := mkLlmConfig {
  llm_provider : string;
  llm_baseUrl : string;
  llm_apiKey : option string;
  llm_models : string * string * string;
  llm_timeoutMs : ms;
  llm_fallback : option FallbackSettings;
  llm_breaker : BreakerConfig;
  llm_pricing : gmap string Price
}.

(** What is behind an entry of the chain. *)
Inductive Backend : Type :=
| MockBackend
| HttpBackend (baseUrl : string) (apiKey : option string) (timeoutMs : ms).

Definition primary_backend (c : LlmConfig) : Entry * Backend :=
  if bool_decide (llm_provider c = "mock") then (mkEntry "mock" None, MockBackend)
  else (mkEntry (llm_provider c) None, HttpBackend (llm_baseUrl c) (llm_apiKey c) (llm_timeoutMs c)).

(** The entries of the fallback chain. *)
Definition createProviderFromConfig (c : LlmConfig) : list (Entry * Backend) :=
  primary_backend c ::
  match llm_fallback c with
  | None => []
  | Some f =>
      [(mkEntry "fallback" (Some (λ _, fs_model f)), HttpBackend (fs_baseUrl f) (fs_apiKey f) (llm_timeoutMs c))]
  end.

(** ** [ai/observability.js] *)

(** [Number(((i * p.in + o * p.out) / 1e6).toFixed(8))].  The table is an object:
    a model called like an inherited property has a price whose fields are
    [undefined]. *)
Definition estimateCostUsd (pricing : gmap string Price) (model : string) (inputTokens outputTokens : Z) : double :=
  match pricing !! model with
  | Some p =>
      toFixed 8 (over (plus (times (of_Z inputTokens) (inputPer1M p)) (times (of_Z outputTokens) (outputPer1M p)))
                   (of_Z 1000000))
  | None => if bool_decide (model ∈ inherited) then S754_nan else of_Z 0
  end.

(** The task a call belongs to, which the asynchronous context carries. *)
Record AiContext := mkAiContext { cx_executionId : oid; cx_taskId : oid; cx_ownerId : oid; cx_taskType : string }.

(** What the record reads of an answer; the counts are numbers. *)
Record Observed := mkObserved {
  ob_provider : option string;
  ob_model : option string;
  ob_fallbackUsed : bool;
  ob_usage : Usage
}.

Record AIExecution := mkAIExecution {
  ax_operation : string;
  ax_context : option AiContext;
  ax_provider : string;
  ax_model : string;
  ax_success : bool;
  ax_error : option string;
  ax_retryable : option bool;
  ax_fallbackUsed : bool;
  ax_latencyMs : ms;
  ax_inputTokens : Z;
  ax_outputTokens : Z;
  ax_totalTokens : Z;
  ax_estimatedCostUsd : double
}.

(** [String(error.message).slice(0, 300)] of a truthy error. *)
Definition recorded_message (err : thrown) : string :=
  truncate 300 match err with ErrorObject e => default "undefined" (e_message e) | _ => "undefined" end.

(** [error.retryable !== false], without the check of the class. *)
Definition recorded_retryable (err : thrown) : bool :=
  match err with ErrorObject e => negb (bool_decide (e_retryable e = Some false)) | _ => true end.

Section observed.
Context (pricing : gmap string Price) (name : string).

(** The [finally] block.  [error] is falsy after a falsy rejection. *)
Definition record_of {R} (look : R → Observed) (operation : string) (ctx : option AiContext) (model : string)
    (latencyMs : ms) (s : settled R) : AIExecution :=
  let res := match s with Resolved r => Some (look r) | Rejected _ => None end in
  let error := match s with Rejected e => if truthy_thrown e then Some e else None | Resolved _ => None end in
  let usage := default no_usage (ob_usage <$> res) in
  let served := default model (res ≫= ob_model) in
  {| ax_operation := operation; ax_context := ctx;
     ax_provider := default name (res ≫= ob_provider); ax_model := served;
     ax_success := match error with Some _ => false | None => true end;
     ax_error := recorded_message <$> error; ax_retryable := recorded_retryable <$> error;
     ax_fallbackUsed := default false (ob_fallbackUsed <$> res); ax_latencyMs := latencyMs;
     ax_inputTokens := inputTokens usage; ax_outputTokens := outputTokens usage;
     ax_totalTokens := inputTokens usage + outputTokens usage;
     ax_estimatedCostUsd := estimateCostUsd pricing served (inputTokens usage) (outputTokens usage) |}.

(** The call as the caller sees it, and the record that is handed to MongoDB
    when it settles. *)
Definition observe_call {R} (look : R → Observed) (operation : string) (ctx : option AiContext) (model : string)
    (call : promise R) : promise R * option AIExecution :=
  (call, match call with Some (t, s) => Some (record_of look operation ctx model t s) | None => None end).
End observed.

(** ** Facts *)

Lemma truthy_rejection {R} pricing name (look : R → Observed) operation ctx model t err :
  truthy_thrown err = true → recorded_retryable err = true →
  ax_success (record_of pricing name look operation ctx model t (Rejected err)) = false ∧
  ax_retryable (record_of pricing name look operation ctx model t (Rejected err)) = Some true.
Proof. intros He Hr. cbn. rewrite He. cbn. by rewrite Hr. Qed.

Section settles.
Context (name baseUrl : string) (apiKey : option string) (timeoutMs : ms).
Context (fetch : HttpCall → promise FetchResponse).

Lemma until_settles {A} abort started (p : promise A) :
  (started ≤ Z.max 0 abort.1)%Z →
  ∃ t s, until abort started p = Some (t, s) ∧ (t ≤ Z.max 0 abort.1)%Z ∧
    ((∃ d, p = Some (d, s) ∧ (started + d < abort.1)%Z) ∨
     (s = Rejected abort.2 ∧ ∀ d s', p = Some (d, s') → (abort.1 ≤ started + d)%Z)).
Proof.
  intros Hle. unfold until. destruct p as [[d s]|]; [case_bool_decide as Hd|].
  - exists (started + d)%Z, s. split_and!; [done|lia|by left; exists d].
  - eexists _, _. split_and!; [done|lia|]. right. split; [done|]. intros ? ? [= <- <-]. lia.
  - eexists _, _. split_and!; [done|lia|by right].
Qed.

Lemma combined_le signal :
  ((combined timeoutMs signal).1 ≤ timeoutMs)%Z ∧
  (∀ t reason, signal = Some (t, reason) → ((combined timeoutMs signal).1 ≤ t)%Z).
Proof.
  unfold combined. destruct signal as [[t reason]|]; [case_bool_decide|]; cbn; split; (lia || by intros ?? [= <- <-]; lia).
Qed.

Lemma combined_retryable signal :
  (∀ t reason, signal = Some (t, reason) → isRetryable reason = true) →
  isRetryable (combined timeoutMs signal).2 = true.
Proof. intros Hs. unfold combined. destruct signal as [[t reason]|]; [case_bool_decide; [by apply (Hs t)|]|]; done. Qed.

Lemma fetch_failed_retryable elapsed err : isRetryable (fetch_failed name timeoutMs elapsed err) = true.
Proof. unfold fetch_failed. case_bool_decide; [done|]. by destruct err. Qed.

(** The server answered, in time, that the request itself is wrong. *)
Definition refused_for_good (call : HttpCall) (abort : ms) : Prop :=
  ∃ t res, fetch call = Some (t, Resolved res) ∧ (t < abort)%Z ∧
    fr_ok res = false ∧ isRetryableStatus (fr_status res) = false.

(** What is documented of [json()] and of the reasons of signals. *)
Definition plain_rejections (call : HttpCall) (signal : option (ms * thrown)) : Prop :=
  (∀ t reason, signal = Some (t, reason) → isRetryable reason = true) ∧
  (∀ t res d err, fetch call = Some (t, Resolved res) → fr_json res = Some (d, Rejected err) → isRetryable err = true).

Lemma post_reading {A} path body signal (read : json → ms → settled A) :
  let call := http_call baseUrl apiKey path body in
  plain_rejections call signal →
  (∀ r l err, read r l = Rejected err → isRetryable err = true) →
  ∃ t s, reading (post name baseUrl apiKey timeoutMs fetch path body signal) read = Some (t, s) ∧
    (t ≤ Z.max 0 (combined timeoutMs signal).1)%Z ∧
    ((∃ err, s = Rejected err ∧ isRetryable err = false) ↔ refused_for_good call (combined timeoutMs signal).1).
Proof.
  intros call [Hsig Hjson] Hread. unfold post. fold call.
  pose proof (combined_retryable signal Hsig) as Habort.
  set (abort := combined timeoutMs signal) in *.
  destruct (until_settles abort 0 (fetch call)) as (t & s & -> & Ht & Hs); [lia|].
  assert (∀ err, isRetryable err = true → ¬ refused_for_good call abort.1 →
    (∃ e, @Rejected A err = Rejected e ∧ isRetryable e = false) ↔ refused_for_good call abort.1) as Hboth.
  { intros err Herr Hno. split; [|done]. intros (e & [= <-] & He). congruence. }
  destruct s as [res|err].
  - destruct Hs as [(d & Hd & Hlt)|[? _]]; [|done].
    destruct (fr_ok res) eqn:Hok; cbn [negb].
    + assert (¬ refused_for_good call abort.1) as Hno.
      { intros (t1 & res1 & H1 & _ & H2 & _). rewrite Hd in H1. injection H1 as <- <-. congruence. }
      destruct (until_settles abort t (fr_json res)) as (t' & s' & -> & Ht' & Hs'); [lia|].
      destruct s' as [r|err]; cbn.
      * eexists _, _. split_and!; [done|lia|]. split; [|done]. intros (e & He & He'). apply Hread in He. congruence.
      * eexists _, _. split_and!; [done|lia|]. apply Hboth; [|done].
        destruct Hs' as [(d' & Hd' & _)|[[= ->] _]]; [by eapply Hjson|done].
    + destruct (until_settles abort t (fr_text res)) as (t' & s' & -> & Ht' & _); [lia|].
      assert (∀ detail, (∃ e, @Rejected A (http_failed name (fr_status res) detail) = Rejected e ∧ isRetryable e = false)
        ↔ refused_for_good call abort.1) as Hiff.
      { intros detail. split.
        - intros (e & [= <-] & He). exists d, res. split_and!; [done|lia|done|].
          cbn in He. by destruct (isRetryableStatus _).
        - intros (t1 & res1 & H1 & _ & _ & H2). rewrite Hd in H1. injection H1 as <- <-.
          eexists. split; [done|]. cbn. by rewrite H2. }
      destruct s'; cbn; eexists _, _; (split_and!; [done|lia|apply Hiff]).
  - cbn. eexists _, _. split_and!; [done|lia|]. apply Hboth; [apply fetch_failed_retryable|].
    intros (t1 & res1 & H1 & Hlt & _). destruct Hs as [(d & Hd & _)|[_ Hs]]; [congruence|].
    apply Hs in H1. lia.
Qed.
End settles.

Lemma read_chat_retryable model r l err : read_chat model r l = Rejected err → isRetryable err = true.
Proof. destruct r; cbn; by intros [= <-]. Qed.

Lemma read_embed_retryable model r l err : read_embed model r l = Rejected err → isRetryable err = true.
Proof.
  unfold read_embed. destruct r; try by intros [= <-].
  all: unfold read_vectors; destruct (prop "data" _) as [[]|]; try destruct (existsb is_null _); by intros [= <-].
Qed.

(** ** Properties *)

(** a call of a model server always settles, by the timeout of the provider
    and by the caller's signal, whatever the server does; and it fails for good,
    so that the engine does not retry the task, exactly when the server answered
    in time with a status that says the request itself is wrong. *)
Theorem failures_classified (name baseUrl : string) (apiKey : option string) (timeoutMs : ms)
    (fetch : HttpCall → promise FetchResponse) (a : ChatArgs) (model : string) (input : list string)
    (signal : option (ms * thrown)) :
  let chat_call := http_call baseUrl apiKey "/v1/chat/completions" (chat_body a) in
  let embed_call := http_call baseUrl apiKey "/v1/embeddings"
    (JObj [("model", JStr model); ("input", JArr (JStr <$> input))]) in
  (plain_rejections fetch chat_call (ca_signal a) →
   ∃ t s, openai_chat name baseUrl apiKey timeoutMs fetch a = Some (t, s) ∧
     (t ≤ Z.max 0 timeoutMs)%Z ∧ (∀ t' reason, ca_signal a = Some (t', reason) → (t ≤ Z.max 0 t')%Z) ∧
     ((∃ err, s = Rejected err ∧ isRetryable err = false) ↔
      refused_for_good fetch chat_call (combined timeoutMs (ca_signal a)).1)) ∧
  (plain_rejections fetch embed_call signal →
   ∃ t s, openai_embed name baseUrl apiKey timeoutMs fetch model input signal = Some (t, s) ∧
     (t ≤ Z.max 0 timeoutMs)%Z ∧ (∀ t' reason, signal = Some (t', reason) → (t ≤ Z.max 0 t')%Z) ∧
     ((∃ err, s = Rejected err ∧ isRetryable err = false) ↔
      refused_for_good fetch embed_call (combined timeoutMs signal).1)).
Proof.
  intros chat_call embed_call. split; intros Hplain.
  - destruct (post_reading name baseUrl apiKey timeoutMs fetch _ _ _ _ Hplain (read_chat_retryable (ca_model a)))
      as (t & s & Hr & Ht & Hiff).
    destruct (combined_le timeoutMs (ca_signal a)) as [H1 H2].
    exists t, s. split_and!; [done|lia| |done]. intros t' reason Hs. specialize (H2 _ _ Hs). lia.
  - destruct (post_reading name baseUrl apiKey timeoutMs fetch _ _ _ _ Hplain (read_embed_retryable model))
      as (t & s & Hr & Ht & Hiff).
    destruct (combined_le timeoutMs signal) as [H1 H2].
    exists t, s. split_and!; [done|lia| |done]. intros t' reason Hs. specialize (H2 _ _ Hs). lia.
Qed.

(** A server that answers 401 after 5 ms. *)
Lemma failures_classified_witness :
  let fetch := λ _, Some (5%Z, Resolved (mkFetchResponse 401 (Some (1%Z, Resolved "bad key")) None)) in
  let a := mkChatArgs "qwen" [mkMessage UserRole "hi"] None true None None in
  ∃ t s, openai_chat "ollama" "http://localhost:11434/" None 60000 fetch a = Some (t, s) ∧ (t ≤ 60000)%Z ∧
    (∃ err, s = Rejected err ∧ isRetryable err = false).
Proof.
  intros fetch a.
  assert (plain_rejections fetch (http_call "http://localhost:11434/" None "/v1/chat/completions" (chat_body a)) None)
    as Hplain by (split; [done|by intros ???? [= _ <-]]).
  destruct (failures_classified "ollama" "http://localhost:11434/" None 60000 fetch a "m" [] None) as [Hchat _].
  destruct (Hchat Hplain) as (t & s & Hc & Ht & _ & Hiff).
  exists t, s. split; [exact Hc|]. split; [exact Ht|]. apply Hiff.
  eexists _, _. split; [reflexivity|]. vm_compute. done.
Defined.

(** Bodies that cannot be read are not normalised: a server that answers 200
    with something that is not JSON makes [chat] reject with the [SyntaxError]
    of the parser. *)
Lemma malformed_body_is_raw err :
  let fetch := λ _, Some (5%Z, Resolved (mkFetchResponse 200 None (Some (1%Z, Rejected err)))) in
  openai_chat "ollama" "http://localhost:11434" None 60000 fetch (mkChatArgs "qwen" [] None true None None)
  = Some (6%Z, Rejected err).
Proof. reflexivity. Qed.

(** The secondary is asked for its own model, whatever was requested. *)
Lemma secondary_gets_its_model c f requested :
  llm_fallback c = Some f →
  ∃ e backend, createProviderFromConfig c !! 1 = Some (e, backend) ∧
    (g ← en_mapModel e; Some (g requested)) = Some (fs_model f).
Proof. intros Hf. unfold createProviderFromConfig. rewrite Hf. by eexists _, _. Qed.

(** Local models cost nothing; a model called like an inherited property of
    objects gets no number at all. *)
Lemma unknown_model_is_free pricing model i o :
  pricing !! model = None → model ∉ inherited → estimateCostUsd pricing model i o = of_Z 0.
Proof. intros Hp Hm. unfold estimateCostUsd. rewrite Hp. by rewrite bool_decide_eq_false_2. Qed.

Example price_of_a_call :
  estimateCostUsd {["gpt-4o-mini" := mkPrice (of_decimal false 15 (-2)) (of_decimal false 6 (-1))]} "gpt-4o-mini" 1000 500
  = of_decimal false 45 (-5).
Proof. vm_compute. reflexivity. Qed.
