(* ===== verification/Mock.v ===== *)
(** * The mock provider ([src/ai/providers/mock.js])

    The deterministic provider of tests and of demonstrations without a model:
    replies by a function of the request, embeddings by hashed words. *)

From Stdlib Require Import SpecFloat.
From S2P Require Import Prelude Text Program Dag Models Retry TaskRepo Dispatcher Engine TaskQueue Worker.
From S2P Require Import Access Structured Router Double Handlers Resilience Providers.

Local Open Scope string_scope.

(** An entry of [calls]. *)
Inductive mock_call : Type :=
| MockChatCall (a : ChatArgs)
| MockEmbedCall (model : string) (input : list string).

(** What [respond] may return: the content, an [Error] to throw, or the content
    with its usage. *)
Inductive mock_out : Type :=
| MockText (content : string)
| MockThrow (err : thrown)
| MockReply (content : string) (usage : option Usage).

Section mock.
Context (respond : ChatArgs → nat → mock_out) (dims : nat).
(** The first byte of the MD5 digest. *)
Context (md5_byte : string → nat).

Definition mock_reply (a : ChatArgs) (content : string) (usage : option Usage) : settled ProviderReply :=
  let u := match usage with
           | Some u => u
           | None =>
               mkUsage (foldl (λ n m, n + Z.of_nat (count_words (msg_content m)))%Z 0%Z (ca_messages a))
                 (Z.of_nat (count_words content))
           end in
  Resolved (mkProviderReply (JStr content) (JStr (ca_model a)) (JNum (inputTokens u)) (JNum (outputTokens u)) 1).

Definition mock_chat (a : ChatArgs) (calls : list mock_call) : settled ProviderReply * list mock_call :=
  let calls' := (calls ++ [MockChatCall a])%list in
  (match respond a (length calls) with
   | MockText content => mock_reply a content None
   | MockThrow err => Rejected err
   | MockReply content usage => mock_reply a content usage
   end, calls').

(** [.toLowerCase().match(/[a-z0-9]+/g) ?? []]. *)
Definition is_word_char (c : Ascii.ascii) : bool := is_lower c || is_digit c.

Fixpoint word_runs (l : list Ascii.ascii) (word : list Ascii.ascii) : list (list Ascii.ascii) :=
  match l with
  | [] => match word with [] => [] | _ => [word] end
  | c :: l' =>
      if is_word_char c then word_runs l' (word ++ [c])
      else match word with [] => word_runs l' [] | _ => word :: word_runs l' [] end
  end%list.

Definition words_of (text : string) : list string :=
  String.string_of_list_ascii <$> word_runs (String.list_ascii_of_string (toLowerCase text)) [].

(** [v[h[0] % dims] += 1]. *)
Definition count_word (v : list double) (word : string) : list double :=
  alter (λ x, plus x (of_Z 1)) (md5_byte word mod dims) v.

(** [Math.sqrt(sum) || 1]. *)
Definition norm_of (v : list double) : double :=
  let n := squareRoot (foldl (λ s x, plus s (times x x)) (of_Z 0) v) in
  match n with S754_zero _ | S754_nan => of_Z 1 | _ => n end.

Definition embedOne (text : string) : list double :=
  let v := foldl count_word (replicate dims (of_Z 0)) (words_of text) in
  let norm := norm_of v in
  (λ x, over x norm) <$> v.

Definition mock_embed (model : string) (input : list string) (calls : list mock_call)
    : (list (list double) * Z) * list mock_call :=
  ((embedOne <$> input, Z.of_nat (count_words (String.concat " " input))), (calls ++ [MockEmbedCall model input])%list).

(** ** Facts *)

Lemma count_word_length v w : length (count_word v w) = length v.
Proof. apply length_alter. Qed.

Lemma count_word_comm v w1 w2 : count_word (count_word v w1) w2 = count_word (count_word v w2) w1.
Proof.
  unfold count_word. destruct (decide (md5_byte w1 mod dims = md5_byte w2 mod dims)) as [->|Hne]; [done|].
  apply list_eq. intros i. rewrite !list_lookup_alter. repeat case_decide; subst; congruence || by rewrite ?option_fmap_id.
Qed.

Lemma embedOne_length text : length (embedOne text) = dims.
Proof.
  unfold embedOne. rewrite length_fmap.
  assert (∀ ws v, length (foldl count_word v ws) = length v) as H.
  { induction ws as [|w ws IH]; intros v; [done|]. cbn. by rewrite IH, count_word_length. }
  by rewrite H, length_replicate.
Qed.

(** The embedding is a bag of words: their order, their case and what stands
    between them do not matter. *)
Lemma embedOne_bag_of_words t1 t2 : words_of t1 ≡ₚ words_of t2 → embedOne t1 = embedOne t2.
Proof.
  intros H. unfold embedOne.
  assert (∀ v, foldl count_word v (words_of t1) = foldl count_word v (words_of t2)) as ->; [|done].
  induction H as [|w l1 l2 _ IH|w1 w2 l|l1 l2 l3 _ IH1 _ IH2]; intros v; cbn; [done|apply IH| |by rewrite IH1].
  by rewrite count_word_comm.
Qed.
End mock.

Example words_of_text : words_of "Hello, World-2!" = ["hello"; "world"; "2"].
Proof. vm_compute. reflexivity. Qed.

(** A text without words has the zero vector, not [NaN]s. *)
Example embedding_of_nothing : embedOne 3 (λ _, 0) "?!" = [of_Z 0; of_Z 0; of_Z 0].
Proof. vm_compute. reflexivity. Qed.
