(* ===== verification/LlmStack.v ===== *)
(** * The whole provider stack
    ([createProviderFromConfig] of [src/ai/providers/index.js])

    The fallback chain of [Resilience] over the HTTP clients of [Providers], as
    the configuration builds it, in time: while a server is asked the clock of
    the process moves, and the caller's signal keeps running from the start of
    the request. *)

From S2P Require Import Prelude Text Program Dag Models Retry TaskRepo Dispatcher Engine TaskQueue Worker.
From S2P Require Import Access Structured Router Double Handlers Resilience Providers Mock.

Local Open Scope string_scope.

(** What the chain reads of a rejection. *)
Definition as_error (err : thrown) : provider_error :=
  match err with
  | ErrorObject e => mkProviderError (default "none available" (e_message e)) (e_retryable e)
  | _ => mkProviderError "none available" None
  end.

Definition as_call {R} (s : settled R) : call_result R :=
  match s with Resolved r => CallOk r | Rejected err => CallError (as_error err) end.

(** [{ ...request, model }], [elapsed] after the request began. *)
Definition for_call (a : ChatArgs) (model : string) (elapsed : ms) : ChatArgs :=
  mkChatArgs model (ca_messages a) (ca_temperature a) (ca_json a) (ca_maxTokens a)
    ((λ s : ms * thrown, ((s.1 - elapsed)%Z, s.2)) <$> ca_signal a).

Definition advance (t : ms) (p : Process) : Process := mkProcess (breakers p) (p_clock p + t).

Section stack.
Context (c : LlmConfig).
(** What the server of the i-th entry answers to a call that starts at a time. *)
Context (fetch : nat → ms → HttpCall → promise FetchResponse).
Context (a : ChatArgs).

(** One request to the i-th provider.  A call that never settles would leave the
    chain waiting; [server_call_settles] shows that there is none. *)
Definition server_call (start : ms) (i : nat) (model : string) : prog Process (call_result ProviderReply) :=
  match createProviderFromConfig c !! i with
  | Some (e, HttpBackend baseUrl apiKey timeoutMs) =>
      Atom (λ p,
        match openai_chat (en_name e) baseUrl apiKey timeoutMs (fetch i (p_clock p))
                (for_call a model (p_clock p - start)) with
        | Some (t, s) => (as_call s, advance t p)
        | None => (CallError (as_error Nullish), p)
        end) Ret
  | Some (_, MockBackend) => Ret (as_call (mock_chat (λ _ _, MockText "{}") (for_call a model 0) []).1)
  | None => Ret (CallError (as_error Nullish))
  end.

Definition stack_chat : prog Process (chat_result ProviderReply) :=
  start ← Atom (λ p, (p_clock p, p)) Ret;
  chat (llm_breaker c) (server_call start) (createProviderFromConfig c).*1 (ca_model a).

(** ** Facts *)

Notation chain := (createProviderFromConfig c).
Notation T := (Z.max 0 (llm_timeoutMs c)).

(** What is documented of [json()] and of the reasons of signals. *)
Definition plain_servers : Prop :=
  (∀ t reason, ca_signal a = Some (t, reason) → isRetryable reason = true) ∧
  (∀ i now call t res d err, fetch i now call = Some (t, Resolved res) →
     fr_json res = Some (d, Rejected err) → isRetryable err = true).

Lemma backend_timeout i e baseUrl apiKey timeoutMs :
  chain !! i = Some (e, HttpBackend baseUrl apiKey timeoutMs) → timeoutMs = llm_timeoutMs c.
Proof.
  unfold createProviderFromConfig, primary_backend. destruct i as [|[|i]]; cbn.
  - by case_bool_decide; intros [= <- <- <- <-].
  - destruct (llm_fallback c); [by intros [= <- <- <- <-]|done].
  - by destruct (llm_fallback c).
Qed.

(** The model an entry is asked for. *)
Definition asked_model (e : Entry) (requested : string) : string :=
  match en_mapModel e with Some f => f requested | None => requested end.

(** The i-th server was asked [elapsed] after the start, at [now], and answered so. *)
Definition served_by (i : nat) (e : Entry) (reply : ProviderReply) : Prop :=
  (∃ baseUrl apiKey now elapsed t, chain !! i = Some (e, HttpBackend baseUrl apiKey (llm_timeoutMs c)) ∧
     openai_chat (en_name e) baseUrl apiKey (llm_timeoutMs c) (fetch i now)
       (for_call a (asked_model e (ca_model a)) elapsed) = Some (t, Resolved reply)) ∨
  (chain !! i = Some (e, MockBackend) ∧ pr_content reply = JStr "{}").

(** The i-th server was asked and refused the request for good. *)
Definition refused_by (i : nat) : Prop :=
  ∃ e baseUrl apiKey now elapsed, chain !! i = Some (e, HttpBackend baseUrl apiKey (llm_timeoutMs c)) ∧
    let args := for_call a (asked_model e (ca_model a)) elapsed in
    refused_for_good (fetch i now) (http_call baseUrl apiKey "/v1/chat/completions" (chat_body args))
      (combined (llm_timeoutMs c) (ca_signal args)).1.

(** How long the request has taken, and may have taken. *)
Definition in_time (start now : ms) (asked : nat) : Prop :=
  (now - start ≤ Z.of_nat asked * T)%Z ∧
  (∀ t reason, ca_signal a = Some (t, reason) → (now - start ≤ Z.max 0 t)%Z).

Lemma as_error_final err : pe_retryable (as_error err) = Some false → isRetryable err = false.
Proof. destruct err as [| |e]; try done. cbn. intros ->. by destruct (is_NonRetryableError e). Qed.

(** The outcome of one request to one provider. *)
Lemma server_call_settles start i e b p :
  plain_servers → chain !! i = Some (e, b) → in_time start (p_clock p) i →
  ∃ answer p', (∀ B (k : call_result ProviderReply → prog Process B),
      run (server_call start i (asked_model e (ca_model a)) ≫= k) p = run (k answer) p') ∧
    breakers p' = breakers p ∧ in_time start (p_clock p') (S i) ∧
    (∀ reply, answer = CallOk reply → served_by i e reply) ∧
    (∀ err, answer = CallError err → pe_retryable err = Some false → refused_by i).
Proof.
  intros [Hsig Hjson] Hi [Ht1 Ht2]. unfold server_call. rewrite Hi. destruct b as [|baseUrl apiKey timeoutMs].
  { eexists _, p. split; [done|]. split; [done|]. split; [|split].
    - split; [lia|done].
    - intros reply [= <-]. right. done.
    - intros err [=]. }
  pose proof (backend_timeout _ _ _ _ _ Hi) as ->.
  set (elapsed := (p_clock p - start)%Z) in *.
  set (args := for_call a (asked_model e (ca_model a)) elapsed).
  destruct (post_reading (en_name e) baseUrl apiKey (llm_timeoutMs c) (fetch i (p_clock p)) "/v1/chat/completions"
    (chat_body args) (ca_signal args) (read_chat (ca_model args))) as (t & s & Hr & Ht & Hiff).
  { split.
    - intros t reason. cbn. destruct (ca_signal a) as [[t0 r0]|] eqn:Hs; [|done]. intros [= _ <-]. by eapply Hsig.
    - intros t res d err. apply Hjson. }
  { apply read_chat_retryable. }
  destruct (combined_le (llm_timeoutMs c) (ca_signal args)) as [Hc1 Hc2].
  exists (as_call s), (advance t p). split; [|split_and!].
  - intros B k. assert (openai_chat (en_name e) baseUrl apiKey (llm_timeoutMs c) (fetch i (p_clock p))
      (for_call a (asked_model e (ca_model a)) (p_clock p - start)) = Some (t, s)) as Hc by exact Hr.
    cbn [mbind prog_bind prog_bind_ run]. by rewrite Hc.
  - done.
  - split; cbn.
    + lia.
    + intros t0 reason Hs. specialize (Ht2 _ _ Hs).
      assert (ca_signal args = Some ((t0 - elapsed)%Z, reason)) as Hs' by (cbn; by rewrite Hs).
      specialize (Hc2 _ _ Hs'). lia.
  - intros reply Ha. left. destruct s as [r|err]; [|done]. injection Ha as <-.
    by exists baseUrl, apiKey, (p_clock p), elapsed, t.
  - intros err Ha Herr. destruct s as [r|err0]; [done|]. injection Ha as <-.
    exists e, baseUrl, apiKey, (p_clock p), elapsed. split; [done|]. apply Hiff.
    exists err0. split; [done|]. by apply as_error_final.
Qed.

Lemma run_on_breaker {A} i (f : ms → Breaker → A * Breaker) d p :
  ∃ x p', (∀ B (k : A → prog Process B), run (on_breaker i f d ≫= k) p = run (k x) p') ∧ p_clock p' = p_clock p.
Proof.
  unfold on_breaker. cbn. destruct (breakers p !! i) as [b|]; [|by eexists _, _].
  destruct (f (p_clock p) b) as [x b']. by eexists _, _.
Qed.

(** What a request ends with. *)
Definition outcome_ok (r : chat_result ProviderReply) : Prop :=
  match r with
  | ChatOk reply provider fallbackUsed =>
      ∃ i e, served_by i e reply ∧ provider = en_name e ∧ fallbackUsed = bool_decide (0 < i)
  | ChatThrow err => pe_retryable err = Some true ∨ pe_retryable err = Some false ∧ ∃ i, refused_by i
  end.

Lemma chat_from_settles start : plain_servers → ∀ rest i lastError p,
  drop i chain = rest → in_time start (p_clock p) i →
  ∃ r p', run (chat_from (llm_breaker c) (server_call start) i rest.*1 lastError (ca_model a)) p = (Ok r, p') ∧
    in_time start (p_clock p') (i + length rest) ∧ outcome_ok r.
Proof.
  intros Hplain. induction rest as [|[e b] rest IH]; intros i lastError p Hrest Hin.
  { eexists _, _. split; [done|]. rewrite Nat.add_0_r. split; [done|]. by left. }
  assert (chain !! i = Some (e, b)) as Hi by (by rewrite <- (Nat.add_0_r i), <- lookup_drop, Hrest).
  assert (drop (S i) chain = rest) as Hrest' by (by rewrite <- Nat.add_1_r, <- drop_drop, Hrest).
  assert (∀ now, in_time start now (S i) → in_time start now (i + length ((e, b) :: rest))) as Hmono.
  { intros now [H1 H2]. split; [|done]. cbn. nia. }
  assert (in_time start (p_clock p) (S i)) as HinS by (destruct Hin; split; [lia|done]).
  cbn [fmap list_fmap fst chat_from]. fold (asked_model e (ca_model a)).
  unfold circuit_allow, circuit_success, circuit_failure.
  destruct (run_on_breaker i (allow (llm_breaker c)) false p) as (allowed & p1 & Hrun & Hclock).
  rewrite Hrun. clear Hrun. destruct allowed; cbn [negb].
  - rewrite <- Hclock in Hin. destruct (server_call_settles start i e b p1 Hplain Hi Hin)
      as (answer & p2 & Hrun & _ & Hin2 & Hok & Herr). rewrite Hrun. clear Hrun.
    destruct answer as [reply|err].
    + destruct (run_on_breaker i (λ _ b, (tt, success b)) tt p2) as (x & p3 & Hrun & Hclock3). rewrite Hrun.
      eexists _, p3. split; [done|]. rewrite Hclock3. split; [by apply Hmono|].
      exists i, e. split; [by apply Hok|done].
    + case_bool_decide as Hfinal.
      * eexists _, p2. split; [done|]. split; [by apply Hmono|]. right. split; [done|]. exists i. by apply (Herr err).
      * destruct (run_on_breaker i (λ now b, (tt, failure (llm_breaker c) now b)) tt p2) as (x & p3 & Hrun & Hclock3).
        rewrite Hrun. rewrite <- Hclock3 in Hin2.
        destruct (IH (S i) (Some err) p3 Hrest' Hin2) as (r & p' & Hrun' & Hr & Hout).
        exists r, p'. split; [done|]. split; [|done]. cbn. by rewrite Nat.add_succ_r.
  - rewrite <- Hclock in HinS.
    destruct (IH (S i) (Some (circuit_open (en_name e))) p1 Hrest' HinS) as (r & p' & Hrun & Hr & Hout).
    exists r, p'. split; [done|]. split; [|done]. cbn. by rewrite Nat.add_succ_r.
Qed.
End stack.

(** ** Properties *)


(** *** Witness: the primary is overloaded, the secondary answers *)

Definition demo_config : LlmConfig :=
  mkLlmConfig "ollama" "http://localhost:11434" None ("small", "large", "embed") 60000
    (Some (mkFallbackSettings "https://api.example.com" (Some "key") "gpt-4o-mini")) (mkBreakerConfig 3 30000) ∅.

Definition demo_fetch (i : nat) (now : ms) (call : HttpCall) : promise FetchResponse :=
  if bool_decide (i = 0) then Some (7%Z, Resolved (mkFetchResponse 503 (Some (1%Z, Resolved "busy")) None))
  else Some (20%Z, Resolved (mkFetchResponse 200 None (Some (2%Z, Resolved
    (JObj [("choices", JArr [JObj [("message", JObj [("content", JStr "hello")])]])]))))).

Definition demo_chat (signal : option (ms * thrown)) : ChatArgs :=
  mkChatArgs "small" [mkMessage UserRole "hi"] None false None signal.

Definition fresh_process : Process := mkProcess [createCircuitBreaker; createCircuitBreaker] 1000.


(** *** An abort by the caller counts as a failure of every server *)

(** The clock and the breakers after requests that are aborted at once, by a
    task that is cancelled or runs out of time, while no server is at fault. *)
Definition aborted_chat (p : Process) : Process :=
  (run (stack_chat demo_config (λ _ _ _, None) (demo_chat (Some (0%Z, new_Error "cancelled")))) p).2.

Example aborts_open_the_circuits :
  b_state <$> breakers (aborted_chat (aborted_chat (aborted_chat fresh_process))) = [OPEN; OPEN] ∧
  (run (stack_chat demo_config demo_fetch (demo_chat None)) (aborted_chat (aborted_chat (aborted_chat fresh_process)))).1
  = Ok (ChatThrow (mkProviderError "All LLM providers failed: fallback circuit open" (Some true))).
Proof. vm_compute. split; reflexivity. Qed.
