(* ===== verification/Analytics.v ===== *)
(** * Analytics ([src/services/analytics.service.js])

    MongoDB's aggregation pipelines as functions on the matched documents, and
    the reports built from them.  Groups stand in the order in which their first
    document is found, where MongoDB promises none.  The percentile, which
    MongoDB estimates, and its compensated sum of doubles are parameters. *)

From stdpp Require Import sorting.
From S2P Require Import Prelude Text Program States Dag Models Retry TaskRepo Dispatcher Engine TaskQueue Worker.
From S2P Require Import Access Services Structured Router Double Numbers Handlers Http Pages Resilience Providers.

Local Open Scope string_scope.

(** ** The window of a report ([src/routes/analytics.routes.js]) *)

Definition windowSchema (issues_of : json → list Issue) : Schemas unit Z unit :=
  mkSchemas None (Some (reader_schema issues_of (λ o, with_default 7%Z (read_coerced 1 90) (o ≫= prop "days")))) None.

Definition fromDays (current : ms) (days : Z) : ms := (current - days * 24 * 3600 * 1000)%Z.

(** ** [$group] *)

Section group.
Context {K A : Type} `{EqDecision K}.

Fixpoint group_insert (k : K) (x : A) (groups : list (K * list A)) : list (K * list A) :=
  match groups with
  | [] => [(k, [x])]
  | (k', xs) :: groups' =>
      if bool_decide (k' = k) then (k', (xs ++ [x])%list) :: groups' else (k', xs) :: group_insert k x groups'
  end.

Definition group_by (key : A → K) (l : list A) : list (K * list A) :=
  foldl (λ groups x, group_insert (key x) x groups) [] l.

(** [{ $sort: { count: -1 } }]. *)
Definition larger (a b : K * list A) : Prop := (length b.2 ≤ length a.2)%nat.
#[export] Instance larger_dec : RelDecision larger.
Proof. unfold larger. intros a b. apply _. Defined.

(** [{ $group: { _id: ..., count: { $sum: 1 } } }]. *)
Definition counted (groups : list (K * list A)) : list (K * Z) := (λ g, (g.1, Z.of_nat (length g.2))) <$> groups.

Definition by_size (groups : list (K * list A)) : list (K * list A) := merge_sort larger groups.
End group.

(** [$avg] of integers, [null] for none. *)
Definition average (l : list Z) : option double :=
  match l with [] => None | _ => Some (over (of_Z (sumZ id l)) (of_Z (Z.of_nat (length l)))) end.

(** [Math.round(x ?? 0)]. *)
Definition rounded (x : option double) : Z := from_option round_half_up 0%Z x.

(** [Number((a / b).toFixed(4))]. *)
Definition rate (a b : Z) : double := toFixed 4 (over (of_Z a) (of_Z b)).

Section analytics.
Context (percentile95 : list Z → option double) (sum_doubles : list double → double).

(** ** [ai] *)

(** A row of [AIExecution] with its [createdAt]. *)
Definition AiRow : Type := ms * AIExecution.

Definition row_owner (r : AiRow) : option oid := cx_ownerId <$> ax_context r.2.

(** [{ ...scope(user), ...since(from) }]. *)
Definition ai_match (u : User) (from : ms) (r : AiRow) : bool :=
  (bool_decide (u_role u = ADMIN) || bool_decide (row_owner r = Some (u_id u))) && bool_decide (from ≤ r.1)%Z.

Definition model_key (r : AiRow) : string * string * string := (ax_provider r.2, ax_model r.2, ax_operation r.2).
Definition is_error (r : AiRow) : bool := negb (ax_success r.2).

Record ModelLine := mkModelLine {
  ml_key : string * string * string;
  ml_calls : Z;
  ml_errors : Z;
  ml_errorRate : double;
  ml_fallbacks : Z;
  ml_avgLatencyMs : Z;
  ml_p95LatencyMs : Z;
  ml_inputTokens : Z;
  ml_outputTokens : Z;
  ml_totalTokens : Z;
  ml_estimatedCostUsd : double
}.

Definition model_line (g : (string * string * string) * list AiRow) : ModelLine :=
  let rows := g.2 in
  let calls := Z.of_nat (length rows) in
  let errors := countZ is_error rows in
  let latencies := (λ r : AiRow, ax_latencyMs r.2) <$> rows in
  let input := sumZ (λ r : AiRow, ax_inputTokens r.2) rows in
  let output := sumZ (λ r : AiRow, ax_outputTokens r.2) rows in
  {| ml_key := g.1; ml_calls := calls; ml_errors := errors; ml_errorRate := rate errors calls;
     ml_fallbacks := countZ (λ r : AiRow, ax_fallbackUsed r.2) rows;
     ml_avgLatencyMs := rounded (average latencies); ml_p95LatencyMs := rounded (percentile95 latencies);
     ml_inputTokens := input; ml_outputTokens := output; ml_totalTokens := input + output;
     ml_estimatedCostUsd := toFixed 6 (sum_doubles ((λ r : AiRow, ax_estimatedCostUsd r.2) <$> rows)) |}.

Record AiTotals := mkAiTotals {
  tt_calls : Z; tt_errors : Z; tt_fallbacks : Z; tt_totalTokens : Z; tt_estimatedCostUsd : double }.

Definition add_line (t : AiTotals) (m : ModelLine) : AiTotals :=
  mkAiTotals (tt_calls t + ml_calls m) (tt_errors t + ml_errors m) (tt_fallbacks t + ml_fallbacks m)
    (tt_totalTokens t + ml_totalTokens m) (toFixed 6 (plus (tt_estimatedCostUsd t) (ml_estimatedCostUsd m))).

Definition row_type (r : AiRow) : option string := cx_taskType <$> ax_context r.2.

Record AiReport := mkAiReport {
  ar_from : ms;
  ar_totals : AiTotals;
  ar_models : list ModelLine;
  ar_byTaskType : list (string * Z * Z)
}.

(** [aggregate(pipeline)] or [find]: what one query finds. *)
Definition found {W A} (f : W → A) : prog W A := Atom (λ w, (f w, w)) Ret.

Definition lines_of (matched : list AiRow) : list ModelLine := model_line <$> by_size (group_by model_key matched).

(** [taskType: { $ne: null }], grouped. *)
Definition types_of (matched : list AiRow) : list (string * Z * Z) :=
  let typed := omap (λ r, (λ t, (t, r)) <$> row_type r) matched in
  (λ g, (g.1, Z.of_nat (length g.2), sumZ (λ tr : string * AiRow, ax_totalTokens tr.2.2) g.2)) <$>
    by_size (group_by fst typed).

Definition totals_of (models : list ModelLine) : AiTotals := foldl add_line (mkAiTotals 0 0 0 0 (of_Z 0)) models.

(** On the collection [AIExecution]. *)
Definition analytics_ai (u : User) (from : ms) : prog (list AiRow) AiReport :=
  models ← found (λ rows, lines_of (List.filter (ai_match u from) rows));
  types ← found (λ rows, types_of (List.filter (ai_match u from) rows));
  Ret (mkAiReport from (totals_of models) models types).

(** ** [workflows] *)

Context (createdAt : oid → ms).

Definition run_match (u : User) (from : ms) (kx : oid * WorkflowExecution) : bool :=
  ownerScope u (x_ownerId kx.2) && bool_decide (from ≤ createdAt kx.1)%Z.

(** [completedAt - startedAt] of completed runs; [null] where either is. *)
Definition duration (x : WorkflowExecution) : option Z :=
  if bool_decide (x_status x = E_COMPLETED)
  then c ← x_completedAt x; s ← x_startedAt x; Some (c - s)%Z else None.

Record RunReport := mkRunReport {
  rr_from : ms;
  rr_total : Z;
  rr_byStatus : list (EXECUTION_STATUS * Z);
  rr_successRate : option double;
  rr_avgMs : Z;
  rr_p95Ms : Z;
  rr_attempts : Z;
  rr_retries : Z;
  rr_abandoned : Z;
  rr_topFailing : list (string * Z)
}.

(** [counts[status] ?? 0]. *)
Definition count_of (counts : list (EXECUTION_STATUS * Z)) (s : EXECUTION_STATUS) : Z :=
  match List.find (λ c, bool_decide (c.1 = s)) counts with Some c => c.2 | None => 0%Z end.

Definition failed_task (t : Task) : bool := bool_decide (t_status t ∈ [T_FAILED; T_DEAD_LETTER]).

Definition runs_in (u : User) (from : ms) (db : DB) : list (oid * WorkflowExecution) :=
  map_to_list (filter (λ kx, run_match u from kx) (executions db)).
Definition durations_in (u : User) (from : ms) (db : DB) : list Z := omap (λ kx, duration kx.2) (runs_in u from db).
Definition failing_in (ids : list oid) (db : DB) : list (oid * Task) :=
  map_to_list (filter (λ kt : oid * Task, t_executionId kt.2 ∈ ids ∧ failed_task kt.2) (tasks db)).
Definition attempts_in (ids : list oid) (db : DB) : list ((oid * Z) * TaskExecution) :=
  map_to_list (filter (λ ka : (oid * Z) * TaskExecution, a_executionId ka.2 ∈ ids) (attempts db)).

(** The object that is returned. *)
Definition run_report (from : ms) (counts : list (EXECUTION_STATUS * Z)) (durations : list Z)
    (failing : list (string * Z)) (tried : list ((oid * Z) * TaskExecution)) : RunReport :=
  let completed := count_of counts E_COMPLETED in
  let finished := (completed + count_of counts E_FAILED)%Z in
  {| rr_from := from; rr_total := sumZ snd counts; rr_byStatus := counts;
     rr_successRate := if bool_decide (finished = 0%Z) then None else Some (rate completed finished);
     rr_avgMs := rounded (average durations); rr_p95Ms := rounded (percentile95 durations);
     rr_attempts := Z.of_nat (length tried);
     rr_retries := countZ (λ ka, bool_decide (1 < a_attempt ka.2)%Z) tried;
     rr_abandoned := countZ (λ ka, bool_decide (a_status ka.2 = A_ABANDONED)) tried;
     rr_topFailing := failing |}.

(** The queries of one [Promise.all] are sent together. *)
Definition analytics_workflows (u : User) (from : ms) : prog DB RunReport :=
  counts ← found (λ db, counted (group_by (λ kx : oid * WorkflowExecution, x_status kx.2) (runs_in u from db)));
  durations ← found (durations_in u from);
  ids ← found (λ db, (runs_in u from db).*1);
  failing ← found (λ db, take 5 (counted (by_size (group_by (λ kt : oid * Task, t_type kt.2) (failing_in ids db)))));
  tried ← found (attempts_in ids);
  Ret (run_report from counts durations failing tried).
End analytics.

(** ** Groups *)

Section group_facts.
Context {K A : Type} `{EqDecision K} (key : A → K).

(** Groups of distinct keys, none empty, each with the elements of its key. *)
Definition grouped (l : list A) (groups : list (K * list A)) : Prop :=
  NoDup groups.*1 ∧ ∀ k xs, (k, xs) ∈ groups ↔ xs = filter (λ x, key x = k) l ∧ xs ≠ [].

Lemma group_insert_keys (k : K) (x : A) groups k' :
  k' ∈ (group_insert k x groups).*1 ↔ k' = k ∨ k' ∈ groups.*1.
Proof.
  induction groups as [|[k1 xs] groups IH]; cbn; [set_solver|].
  case_bool_decide as E; cbn; [subst; set_solver|]. rewrite !elem_of_cons, IH. naive_solver.
Qed.

Lemma group_insert_elem (k : K) (x : A) groups k' xs :
  NoDup groups.*1 →
  (k', xs) ∈ group_insert k x groups ↔
    (k' ≠ k ∧ (k', xs) ∈ groups) ∨
    (k' = k ∧ ((∃ ys, (k, ys) ∈ groups ∧ xs = (ys ++ [x])%list) ∨ (k ∉ groups.*1 ∧ xs = [x]))).
Proof.
  induction groups as [|[k1 ys] groups IH]; cbn; intros Hd; [set_solver|].
  inversion_clear Hd as [|? ? Hk Hd'].
  assert (∀ zs, (k1, zs) ∉ groups) as Hno by (intros zs Hz; apply Hk, list_elem_of_fmap; by exists (k1, zs)).
  case_bool_decide as E.
  - subst. rewrite elem_of_cons. setoid_rewrite elem_of_cons. split.
    + intros [Heq|Hin]; simplify_eq; [|left; split; [intros ->; by eapply Hno|by right]].
      right. split; [done|]. left. eexists. by split; [left|].
    + intros [[Hne [Heq|Hin]]|[-> [(zs & [Heq|Hin] & ->)|[Hn _]]]]; simplify_eq; [by right|by left| |].
      * by eapply Hno in Hin.
      * destruct Hn. by left.
  - rewrite elem_of_cons, (IH Hd'). setoid_rewrite elem_of_cons. set_solver.
Qed.

Lemma group_by_grouped l : grouped l (group_by key l).
Proof.
  unfold group_by. induction l as [|x l [IHd IHe]] using rev_ind; [by split; [constructor|set_solver]|].
  rewrite foldl_app. cbn. set (groups := foldl _ [] l) in *. split.
  - clear IHe. revert IHd. induction groups as [|[k ys] groups IH]; cbn; intros Hd.
    { apply NoDup_singleton. }
    inversion_clear Hd. case_bool_decide; cbn; constructor; auto. rewrite group_insert_keys. set_solver.
  - intros k xs. rewrite group_insert_elem, filter_app, filter_cons, filter_nil by done.
    destruct (decide (key x = k)) as [<-|Hne].
    + assert (key x ∉ groups.*1 ↔ filter (λ y, key y = key x) l = []) as Hiff.
      { split.
        - intros Hn. destruct (filter _ l) eqn:Hf; [done|]. destruct Hn. apply list_elem_of_fmap.
          exists (key x, filter (λ y, key y = key x) l). split; [done|]. apply IHe. by rewrite Hf.
        - intros Hf ([k ys] & Hk & Hin)%list_elem_of_fmap. cbn in Hk. subst k. apply IHe in Hin as [-> Hn]. by destruct Hn. }
      split.
      * intros [[? _]|[_ [(ys & [-> _]%IHe & ->)|[->%Hiff ->]]]]; [done| |done]. split; [done|]. by destruct (filter _ l).
      * intros [-> _]. right. split; [done|]. destruct (filter _ l) eqn:Hf.
        -- right. by split; [apply Hiff|].
        -- left. eexists. split; [|reflexivity]. apply IHe. by rewrite Hf.
    + rewrite app_nil_r, IHe. naive_solver.
Qed.
End group_facts.

Section group_sums.
Context {K A : Type} `{EqDecision K} (key : A → K).

(** A sum over all elements is that over the groups of their sums. *)
Lemma group_by_sum (f : A → Z) l : sumZ (λ g : K * list A, sumZ f g.2) (group_by key l) = sumZ f l.
Proof.
  unfold group_by. induction l as [|x l IH] using rev_ind; [done|].
  rewrite foldl_app, sumZ_app, <- IH, sumZ_cons. cbn [foldl]. generalize (foldl (λ gs y, group_insert (key y) y gs) [] l).
  intros groups. induction groups as [|[k xs] groups IHg]; cbn [group_insert]; rewrite ?sumZ_cons.
  - unfold sumZ. cbn. lia.
  - case_bool_decide; rewrite !sumZ_cons; cbn [snd]; [rewrite sumZ_app, sumZ_cons|]; lia.
Qed.

Lemma by_size_perm (groups : list (K * list A)) : by_size groups ≡ₚ groups.
Proof. apply merge_sort_Permutation. Qed.

#[local] Instance larger_total : Total (@larger K A).
Proof. intros a b. unfold larger. lia. Qed.
#[local] Instance larger_trans : Transitive (@larger K A).
Proof. intros a b c. unfold larger. lia. Qed.

Lemma by_size_sorted (groups : list (K * list A)) : StronglySorted larger (by_size groups).
Proof. apply (StronglySorted_merge_sort larger). Qed.

Lemma by_size_grouped l groups : grouped key l groups → grouped key l (by_size groups).
Proof. intros [Hd He]. split; [by rewrite by_size_perm|]. intros k xs. by rewrite by_size_perm, He. Qed.

Lemma grouped_elem l groups k xs :
  grouped key l groups → (k, xs) ∈ groups → xs = filter (λ x, key x = k) l ∧ xs ≠ [].
Proof. intros [_ He] Hin. by apply He. Qed.

Lemma grouped_covers l groups x :
  grouped key l groups → x ∈ l → (key x, filter (λ y, key y = key x) l) ∈ groups.
Proof.
  intros [_ He] Hin. apply He. split; [done|]. intros Hn. apply (not_elem_of_nil x). rewrite <- Hn.
  by apply list_elem_of_filter.
Qed.
End group_sums.

Section totals.
Context (p : list Z → option double) (sd : list double → double).

Lemma totals_sum t ls :
  let r := foldl add_line t ls in
  tt_calls r = (tt_calls t + sumZ ml_calls ls)%Z ∧ tt_errors r = (tt_errors t + sumZ ml_errors ls)%Z ∧
  tt_fallbacks r = (tt_fallbacks t + sumZ ml_fallbacks ls)%Z ∧
  tt_totalTokens r = (tt_totalTokens t + sumZ ml_totalTokens ls)%Z.
Proof.
  revert t. induction ls as [|l ls IH]; intros t; rewrite ?sumZ_cons; cbn [foldl]; [unfold sumZ; cbn; lia|].
  destruct (IH (add_line t l)) as (H1 & H2 & H3 & H4). cbn in *. lia.
Qed.

Lemma totals_of_sum ls :
  let r := totals_of ls in
  tt_calls r = sumZ ml_calls ls ∧ tt_errors r = sumZ ml_errors ls ∧
  tt_fallbacks r = sumZ ml_fallbacks ls ∧ tt_totalTokens r = sumZ ml_totalTokens ls.
Proof. apply (totals_sum (mkAiTotals 0 0 0 0 (of_Z 0))). Qed.

Lemma totals_of_lines matched :
  let t := totals_of (lines_of p sd matched) in
  tt_calls t = Z.of_nat (length matched) ∧ tt_errors t = countZ is_error matched ∧
  tt_fallbacks t = countZ (λ x : AiRow, ax_fallbackUsed x.2) matched ∧
  tt_totalTokens t = sumZ (λ x : AiRow, ax_inputTokens x.2 + ax_outputTokens x.2)%Z matched.
Proof.
  intros t. destruct (totals_of_sum (lines_of p sd matched)) as (H1 & H2 & H3 & H4). fold t in H1, H2, H3, H4.
  unfold lines_of in H1, H2, H3, H4. rewrite sumZ_fmap, by_size_perm in H1, H2, H3, H4.
  cbn [tt_calls tt_errors tt_fallbacks tt_totalTokens ml_calls ml_errors ml_fallbacks ml_totalTokens model_line] in *.
  rewrite H1, H2, H3, H4. unfold countZ. rewrite !sumZ_add, !(group_by_sum model_key), length_sumZ.
  rewrite <- (group_by_sum model_key (λ _, 1%Z)). split_and!; try done.
  clear. induction (group_by model_key matched) as [|g gs IH]; [done|]. by rewrite !sumZ_cons, IH, length_sumZ.
Qed.

Lemma lines_sorted matched : StronglySorted (λ a b, (ml_calls b ≤ ml_calls a)%Z) (lines_of p sd matched).
Proof.
  unfold lines_of. induction (by_size_sorted (group_by model_key matched)) as [|g gs Hs IH Hall]; [constructor|].
  cbn. constructor; [done|]. apply Forall_fmap. eapply Forall_impl; [exact Hall|]. unfold larger. cbn. lia.
Qed.

Lemma lines_grouped matched :
  NoDup (ml_key <$> lines_of p sd matched) ∧ (∀ x, x ∈ matched → model_key x ∈ ml_key <$> lines_of p sd matched) ∧
  ∀ m, m ∈ lines_of p sd matched →
    let its := filter (λ x, model_key x = ml_key m) matched in
    (0 < ml_calls m)%Z ∧ ml_calls m = Z.of_nat (length its) ∧ ml_errors m = countZ is_error its.
Proof.
  pose proof (group_by_grouped model_key matched) as Hg%by_size_grouped.
  assert (ml_key <$> lines_of p sd matched = (by_size (group_by model_key matched)).*1) as Hk.
  { unfold lines_of. by rewrite <- list_fmap_compose. }
  rewrite Hk. split; [apply Hg|]. split.
  - intros x Hx. apply list_elem_of_fmap. eexists. split; [|by apply grouped_covers]. done.
  - intros m ([k xs] & -> & Hin)%list_elem_of_fmap. eapply grouped_elem in Hin as [-> Hne]; [|done].
    cbn. split_and!; [|done..]. destruct (filter _ _); [done|cbn; lia].
Qed.
End totals.

(** the report on the models adds up.  There is one line for each model that was
    called in the window by those the user may see, the most called first; its
    calls are those of that model, its errors are among them; and the totals are
    those of all matched rows: no call is counted twice or left out. *)
Theorem analytics_ai_adds_up p sd u from rows :
  let matched := List.filter (ai_match u from) rows in
  ∃ r, run (analytics_ai p sd u from) rows = (Ok r, rows) ∧
  tt_calls (ar_totals r) = Z.of_nat (length matched) ∧
  tt_errors (ar_totals r) = countZ is_error matched ∧
  tt_fallbacks (ar_totals r) = countZ (λ x : AiRow, ax_fallbackUsed x.2) matched ∧
  tt_totalTokens (ar_totals r) = sumZ (λ x : AiRow, ax_inputTokens x.2 + ax_outputTokens x.2)%Z matched ∧
  NoDup (ml_key <$> ar_models r) ∧
  StronglySorted (λ a b, (ml_calls b ≤ ml_calls a)%Z) (ar_models r) ∧
  (∀ x, x ∈ matched → model_key x ∈ ml_key <$> ar_models r) ∧
  (∀ m, m ∈ ar_models r →
     let its := filter (λ x, model_key x = ml_key m) matched in
     (0 < ml_calls m)%Z ∧ ml_calls m = Z.of_nat (length its) ∧ ml_errors m = countZ is_error its ∧
     (0 ≤ ml_errors m ≤ ml_calls m)%Z).
Proof.
  intros matched. eexists. split; [reflexivity|]. cbn [ar_totals ar_models].
  destruct (totals_of_lines p sd matched) as (H1 & H2 & H3 & H4).
  destruct (lines_grouped p sd matched) as (Hd & Hc & Hl). split_and!; [done..|apply lines_sorted|done|].
  intros m Hm. destruct (Hl m Hm) as (Hpos & Heq & He). split_and!; [done..| |].
  - rewrite He. apply countZ_bounds.
  - rewrite He, Heq. apply countZ_bounds.
Qed.

(** ** The report on runs *)

Section counts.
Context {K A : Type} `{EqDecision K} (key : A → K).

Lemma counted_elem l groups k n :
  grouped key l groups → (k, n) ∈ counted groups →
  n = Z.of_nat (length (filter (λ x, key x = k) l)) ∧ (0 < n)%Z.
Proof.
  intros Hg ([k' xs] & [= -> ->] & Hin)%list_elem_of_fmap. eapply grouped_elem in Hin as [-> Hne]; [|done].
  split; [done|]. destruct (filter _ _); [done|cbn; lia].
Qed.

Lemma counted_total l : sumZ snd (counted (group_by key l)) = Z.of_nat (length l).
Proof.
  unfold counted. rewrite sumZ_fmap, length_sumZ, <- (group_by_sum key). cbn [snd].
  induction (group_by key l) as [|g gs IH]; [done|]. by rewrite !sumZ_cons, IH, length_sumZ.
Qed.

(** What is not among the five largest is no larger than any of them. *)
Lemma top5 l k :
  let top := take 5 (counted (by_size (group_by key l))) in
  let size := Z.of_nat (length (filter (λ x, key x = k) l)) in
  k ∈ top.*1 ∨ size = 0%Z ∨ (length top = 5 ∧ ∀ k' n, (k', n) ∈ top → (size ≤ n)%Z).
Proof.
  intros top size. pose proof (group_by_grouped key l) as Hg%by_size_grouped.
  set (gs := by_size (group_by key l)) in *.
  destruct (filter (λ x, key x = k) l) as [|x xs] eqn:Hf; [by right; left|].
  assert ((k, x :: xs) ∈ gs) as Hin by (apply Hg; by rewrite Hf).
  pose proof (by_size_sorted (group_by key l)) as Hs. fold gs in Hs.
  rewrite <- (take_drop 5 gs) in Hin, Hs. apply elem_of_app in Hin as [Hin|Hin].
  - left. unfold top, counted. rewrite <- fmap_take, <- list_fmap_compose. apply list_elem_of_fmap. by exists (k, x :: xs).
  - right. right. split.
    + unfold top, counted. rewrite length_take, length_fmap.
      destruct (decide (length gs ≤ 5)%nat); [|lia]. rewrite drop_ge in Hin by lia. by apply not_elem_of_nil in Hin.
    + intros k' n Htop. unfold top, counted in Htop. rewrite <- fmap_take in Htop.
      apply list_elem_of_fmap in Htop as (g & [= -> ->] & Hg').
      pose proof (StronglySorted_app_1_elem_of _ _ _ _ _ Hs Hg' Hin) as Hle. unfold larger in Hle. unfold size.
      cbn in Hle. cbn. lia.
Qed.
End counts.

Lemma count_of_runs {A} (key : A → EXECUTION_STATUS) l s :
  count_of (counted (group_by key l)) s = Z.of_nat (length (filter (λ x, key x = s) l)).
Proof.
  pose proof (group_by_grouped key l) as Hg. unfold count_of.
  destruct (List.find _ _) as [[s' n]|] eqn:Hf.
  - apply find_some in Hf as [Hin Hs%bool_decide_eq_true]. cbn in Hs. subst s'. apply list_elem_of_In in Hin.
    by eapply counted_elem in Hin as [-> _].
  - destruct (filter _ l) as [|x xs] eqn:Hl; [done|]. destruct Hg as [_ He].
    assert ((s, x :: xs) ∈ group_by key l) as Hin by (apply He; by rewrite Hl).
    eapply find_none in Hf; [|apply list_elem_of_In, list_elem_of_fmap; exists (s, x :: xs); by split].
    cbn in Hf. by case_bool_decide.
Qed.

Section run_reports.
Context (p : list Z → option double) (createdAt : oid → ms).
Notation report u from := (analytics_workflows p createdAt u from).

Definition counts_in (u : User) (from : ms) (db : DB) : list (EXECUTION_STATUS * Z) :=
  counted (group_by (λ kx : oid * WorkflowExecution, x_status kx.2) (runs_in createdAt u from db)).
Definition top_in (ids : list oid) (db : DB) : list (string * Z) :=
  take 5 (counted (by_size (group_by (λ kt : oid * Task, t_type kt.2) (failing_in ids db)))).

Lemma run_report_eq u from db :
  let ids := (runs_in createdAt u from db).*1 in
  run (report u from) db =
    (Ok (run_report p from (counts_in u from db) (durations_in createdAt u from db) (top_in ids db)
           (attempts_in ids db)), db).
Proof. done. Qed.
End run_reports.

(** the report on runs adds up.  The statuses count each run in the scope and
    the window once; the success rate is missing exactly when no run finished;
    retries and abandoned attempts are among the attempts of those runs; and the
    failing task types are at most five, each with its number of failures, and
    no type that is left out fails more often than one of them.  Nothing is
    changed. *)
Theorem analytics_workflows_adds_up p createdAt u from db :
  let runs := runs_in createdAt u from db in
  let failing := failing_in runs.*1 db in
  let failures := λ type, Z.of_nat (length (filter (λ kt, t_type kt.2 = type) failing)) in
  ∃ r, run (analytics_workflows p createdAt u from) db = (Ok r, db) ∧
    rr_total r = Z.of_nat (length runs) ∧
    (∀ s, count_of (rr_byStatus r) s = Z.of_nat (length (filter (λ kx, x_status kx.2 = s) runs))) ∧
    (rr_successRate r = None ↔ ∀ kx, kx ∈ runs → x_status kx.2 ≠ E_COMPLETED ∧ x_status kx.2 ≠ E_FAILED) ∧
    rr_attempts r = Z.of_nat (length (attempts_in runs.*1 db)) ∧
    (0 ≤ rr_retries r ≤ rr_attempts r)%Z ∧ (0 ≤ rr_abandoned r ≤ rr_attempts r)%Z ∧
    (length (rr_topFailing r) ≤ 5)%nat ∧
    (∀ type n, (type, n) ∈ rr_topFailing r → n = failures type ∧ (0 < n)%Z) ∧
    (∀ type, type ∈ (rr_topFailing r).*1 ∨ failures type = 0%Z ∨
       length (rr_topFailing r) = 5 ∧ ∀ type' n, (type', n) ∈ rr_topFailing r → (failures type ≤ n)%Z).
Proof.
  intros runs failing failures. rewrite run_report_eq. eexists. split; [reflexivity|].
  cbn [run_report rr_total rr_byStatus rr_successRate rr_attempts rr_retries rr_abandoned rr_topFailing].
  assert (∀ s, count_of (counts_in createdAt u from db) s =
                 Z.of_nat (length (filter (λ kx, x_status kx.2 = s) runs))) as Hcount by (intros; apply count_of_runs).
  assert (∀ s, length (filter (λ kx : oid * WorkflowExecution, x_status kx.2 = s) runs) = 0 ↔
                 ∀ kx, kx ∈ runs → x_status kx.2 ≠ s) as Hnone.
  { intros s. rewrite length_zero_iff_nil. split.
    - intros Hn kx Hin Hs. exact (filter_nil_not_elem_of _ _ _ Hn Hs Hin).
    - intros Hn. apply elem_of_nil_inv. intros kx [Hs Hin]%list_elem_of_filter. by eapply Hn. }
  split_and!; [apply counted_total|exact Hcount| |done|apply countZ_bounds..|unfold top_in; rewrite length_take; lia| |intros; apply top5].
  - rewrite !Hcount. case_bool_decide as Hz; split; [|done|done|].
    + intros _ kx Hin. split; apply (proj1 (Hnone _)); (done || lia).
    + intros Hn. destruct Hz. rewrite (proj2 (Hnone E_COMPLETED)), (proj2 (Hnone E_FAILED)); [done|..];
        intros kx Hin; apply (Hn kx Hin).
  - intros type n Hin. eapply counted_elem; [apply by_size_grouped, group_by_grouped|]. eapply subseteq_take, Hin.
Qed.

(** ** Who may see what *)

(** Two databases with the same runs of a user, and the same tasks and attempts
    of these. *)
Record own_agree (u : User) (db1 db2 : DB) : Prop := {
  agree_runs : ∀ i x, x_ownerId x = u_id u → executions db1 !! i = Some x ↔ executions db2 !! i = Some x;
  agree_tasks : ∀ k t x, executions db1 !! t_executionId t = Some x → x_ownerId x = u_id u →
    tasks db1 !! k = Some t ↔ tasks db2 !! k = Some t;
  agree_attempts : ∀ k a x, executions db1 !! a_executionId a = Some x → x_ownerId x = u_id u →
    attempts db1 !! k = Some a ↔ attempts db2 !! k = Some a
}.

Definition own_rows (u : User) (rows : list AiRow) : list AiRow :=
  List.filter (λ r, bool_decide (row_owner r = Some (u_id u))) rows.

Lemma filter_both {A} (p q : A → bool) l : List.filter (λ x, p x && q x) l = List.filter q (List.filter p l).
Proof. induction l as [|x l IH]; cbn; [done|]. destruct (p x); cbn; [|done]. destruct (q x); congruence. Qed.

Lemma ai_matched_own u from rows :
  u_role u ≠ ADMIN → List.filter (ai_match u from) rows = List.filter (λ r, bool_decide (from ≤ r.1)%Z) (own_rows u rows).
Proof.
  intros Hu. unfold own_rows. rewrite <- filter_both. apply filter_ext. intros r. unfold ai_match.
  by rewrite (bool_decide_false _ Hu).
Qed.

Section confined.
Context (createdAt : oid → ms) (u : User) (from : ms) (db1 db2 : DB).
Hypothesis (Hu : u_role u ≠ ADMIN) (Hag : own_agree u db1 db2).

Lemma runs_in_elem db i x :
  (i, x) ∈ runs_in createdAt u from db ↔
  executions db !! i = Some x ∧ x_ownerId x = u_id u ∧ (from ≤ createdAt i)%Z.
Proof using Hu.
  unfold runs_in. rewrite elem_of_map_to_list, map_lookup_filter_Some. unfold run_match, ownerScope. cbn [fst snd].
  rewrite (bool_decide_false _ Hu). cbn [orb]. by rewrite andb_True, !bool_decide_spec.
Qed.

Lemma runs_in_agree : runs_in createdAt u from db1 = runs_in createdAt u from db2.
Proof using Hu Hag.
  unfold runs_in. f_equal. apply map_eq. intros i. apply option_eq. intros x. rewrite <- !elem_of_map_to_list.
  change (map_to_list (filter _ (executions db1))) with (runs_in createdAt u from db1).
  change (map_to_list (filter _ (executions db2))) with (runs_in createdAt u from db2).
  rewrite !runs_in_elem. pose proof (agree_runs _ _ _ Hag i x). tauto.
Qed.

Lemma own_run db i : i ∈ (runs_in createdAt u from db).*1 → ∃ x, executions db !! i = Some x ∧ x_ownerId x = u_id u.
Proof using Hu. intros ([j x] & -> & Hin%runs_in_elem)%list_elem_of_fmap. exists x. naive_solver. Qed.

Lemma failing_in_agree ids :
  (∀ i, i ∈ ids → ∃ x, executions db1 !! i = Some x ∧ x_ownerId x = u_id u) → failing_in ids db1 = failing_in ids db2.
Proof using Hag.
  intros Hids. unfold failing_in. f_equal. apply map_eq. intros k. apply option_eq. intros t. rewrite !map_lookup_filter_Some. cbn [snd].
  split; intros (Hk & Hin & Hf); (split; [|done]); destruct (Hids _ Hin) as (x & Hx & Ho);
    by apply (agree_tasks _ _ _ Hag k t x Hx Ho).
Qed.

Lemma attempts_in_agree ids :
  (∀ i, i ∈ ids → ∃ x, executions db1 !! i = Some x ∧ x_ownerId x = u_id u) → attempts_in ids db1 = attempts_in ids db2.
Proof using Hag.
  intros Hids. unfold attempts_in. f_equal. apply map_eq. intros k. apply option_eq. intros a. rewrite !map_lookup_filter_Some. cbn [snd].
  split; intros (Hk & Hin); (split; [|done]); destruct (Hids _ Hin) as (x & Hx & Ho);
    by apply (agree_attempts _ _ _ Hag k a x Hx Ho).
Qed.
End confined.

(** C24: a report tells a user nothing of others.  For anyone but an admin both
    reports are the same, whatever model calls, runs, tasks and attempts others
    have. *)
Theorem analytics_confined p sd createdAt u from rows1 rows2 db1 db2 :
  u_role u ≠ ADMIN → own_rows u rows1 = own_rows u rows2 → own_agree u db1 db2 →
  (run (analytics_ai p sd u from) rows1).1 = (run (analytics_ai p sd u from) rows2).1 ∧
  (run (analytics_workflows p createdAt u from) db1).1 = (run (analytics_workflows p createdAt u from) db2).1.
Proof.
  intros Hu Hr Hag. split; [cbn; by rewrite !ai_matched_own, Hr|].
  rewrite !run_report_eq. cbn [fst].
  pose proof (runs_in_agree createdAt u from db1 db2 Hu Hag) as Hruns.
  pose proof (own_run createdAt u from Hu db1) as Hown.
  unfold counts_in, durations_in, top_in. rewrite <- Hruns, <- (failing_in_agree u db1 db2 Hag _ Hown).
  by rewrite <- (attempts_in_agree u db1 db2 Hag _ Hown).
Qed.

Definition demo_exec (owner : oid) (s : EXECUTION_STATUS) : WorkflowExecution :=
  mkWorkflowExecution 1 owner 1 s JNull 1 0 None TRIGGER_manual None None (Some 10%Z) (Some 40%Z) None.
Definition demo_attempt (x : oid) (n : Z) (s : ATTEMPT_STATUS) : TaskExecution :=
  mkTaskExecution x x n "w1" 1 s 10 None None None.
Definition demo_row (owner : oid) (model : string) (ok : bool) : AiRow :=
  (5%Z, mkAIExecution "chat" (Some (mkAiContext 1 1 owner "ai.generate")) "ollama" model ok None None false 10 3 4 7 (of_Z 0)).

(** User 7 has two runs and three calls; in the second world, user 8 has more of
    both. *)
Definition own_runs : gmap oid WorkflowExecution := {[ 1 := demo_exec 7 E_COMPLETED; 2 := demo_exec 7 E_FAILED ]}.
Definition own_attempts : gmap (oid * Z) TaskExecution :=
  {[ (1, 1%Z) := demo_attempt 1 1 A_ABANDONED; (1, 2%Z) := demo_attempt 1 2 A_SUCCEEDED ]}.
Definition own_db : DB := mkDB own_runs ∅ own_attempts ∅ [] 0.
Definition crowded_db : DB :=
  mkDB (<[3 := demo_exec 8 E_FAILED]> own_runs) ∅ (<[(3, 1%Z) := demo_attempt 3 1 A_FAILED]> own_attempts) ∅ [] 0.
Definition own_calls : list AiRow := [demo_row 7 "m1" true; demo_row 7 "m2" false; demo_row 7 "m2" true].
Definition crowded_calls : list AiRow := demo_row 8 "m1" false :: own_calls.
Definition demo_percentile (l : list Z) : option double := of_Z <$> last l.
Definition demo_user : User := mkUser 7 VIEWER.

Lemma analytics_confined_witness :
  let ai := λ rows, (run (analytics_ai demo_percentile (λ _, of_Z 0) demo_user 0) rows).1 in
  let runs := λ db, (run (analytics_workflows demo_percentile (λ _, 0%Z) demo_user 0) db).1 in
  (ai own_calls = ai crowded_calls ∧ runs own_db = runs crowded_db) ∧
  match ai crowded_calls with
  | Ok r => (λ m, (ml_key m, ml_calls m, ml_errors m)) <$> ar_models r =
            [("ollama", "m2", "chat", 2%Z, 1%Z); ("ollama", "m1", "chat", 1%Z, 0%Z)]
  | Exn _ => False
  end ∧
  match runs crowded_db with
  | Ok r => (rr_total r, rr_attempts r, rr_retries r, rr_abandoned r) = (2, 2, 1, 1)%Z
  | Exn _ => False
  end.
Proof.
  split; [|by split; vm_compute].
  refine (analytics_confined demo_percentile (λ _, of_Z 0) (λ _, 0%Z) demo_user 0 own_calls crowded_calls own_db crowded_db
    _ eq_refl _); [done|].
  split.
  - intros i x Ho. cbn [executions own_db crowded_db]. rewrite lookup_insert_Some. split; [|naive_solver].
    intros Hi. right. split; [|done]. intros <-. by vm_compute in Hi.
  - intros k t x _ _. done.
  - intros k a x Hx Ho. cbn [attempts own_db crowded_db]. rewrite lookup_insert_Some. split.
    + intros Hk. right. split; [|done]. intros <-. by vm_compute in Hk.
    + intros [[<- <-]|[_ Hk]]; [|done]. by vm_compute in Hx.
Defined.
