(* ===== verification/Chaos.v ===== *)
(** * The chaos test ([scripts/chaos.js])

    The repository's test of a deployment kills workers, restarts Redis and then
    checks invariants in MongoDB.  Here are its checks as functions of the
    database, and the proof that they cannot fail: in every world that such a
    deployment reaches, once every run is COMPLETED all of them hold. *)

From S2P Require Import Prelude Program States Dag Models Retry TaskRepo Frames Ownership Dispatcher Engine RunInv.
From S2P Require Import EngineTx EngineInv EngineSafety EngineProps TaskQueue Worker WorkerProps EventLog Handlers Analytics.

Local Open Scope string_scope.

(** ** The workload *)

(** [retryPolicy: { maxAttempts: 8, baseDelayMs: 200, ...given, ... }]: the flaky
    task is given five attempts, and eight after all. *)
Definition with_policy (t : TaskDefinition) : TaskDefinition :=
  mkTaskDefinition (td_key t) (td_type t) (td_dependsOn t) (td_config t)
    (Some (if bool_decide (td_key t = "flaky") then 8%Z else default 8%Z (td_maxAttempts t)))
    (Some (default 200%Z (td_baseDelayMs t))) (td_timeoutMs t).

Definition workload : list TaskDefinition :=
  with_policy <$>
    ([mkTaskDefinition "start" "noop" [] (JObj []) None None None] ++
    ((λ i, mkTaskDefinition ("p" +:+ pretty i) "delay" ["start"] (JObj [("ms", JNum (300 + i * 150)%Z)]) None None None)
       <$> [1; 2; 3; 4]%Z) ++
    [mkTaskDefinition "flaky" "flaky" ["start"] (JObj [("failTimes", JNum 1)]) (Some 5%Z) (Some 200%Z) None;
     mkTaskDefinition "end" "echo" ["p1"; "p2"; "p3"; "p4"; "flaky"] (JObj []) None None None])%list.

(** ** The checks *)

Section checks.
Context (db : DB).

(** [find({})] and the three aggregations. *)
Definition all_executions : list WorkflowExecution := (map_to_list (executions db)).*2.
Definition all_tasks : list Task := (map_to_list (tasks db)).*2.
Definition succeeded_attempts : list TaskExecution :=
  filter (λ a, a_status a = A_SUCCEEDED) (map_to_list (attempts db)).*2.
Definition succeeded : list (oid * Z) := counted (group_by a_taskId succeeded_attempts).
Definition completed_rows : list OutboxEvent := filter (λ ev, ev_type ev = "task.completed") (outbox db).
Definition completedEvents : list (option string * Z) :=
  counted (group_by (λ ev, payload_task (ev_payload ev)) completed_rows).

Definition checks (RUNS : nat) : list (string * bool) :=
  [("all " +:+ pretty RUNS +:+ " runs COMPLETED",
     bool_decide (length all_executions = RUNS) && forallb (λ e, bool_decide (x_status e = E_COMPLETED)) all_executions);
   ("every task COMPLETED", forallb (λ t, bool_decide (t_status t = T_COMPLETED)) all_tasks);
   ("exactly one SUCCEEDED attempt per task",
     bool_decide (length succeeded = length all_tasks) && forallb (λ s, bool_decide (s.2 = 1%Z)) succeeded);
   ("pendingTasks == 0 for every run", forallb (λ e, bool_decide (pendingTasks e = 0%Z)) all_executions);
   ("exactly one task.completed event per task",
     bool_decide (length completedEvents = length all_tasks) && forallb (λ e, bool_decide (e.2 = 1%Z)) completedEvents)].

(** What the test waits for before it looks, and what else it prints:
    [done] and [attemptsByStatus]. *)
Definition finished : nat :=
  length (filter (λ e, x_status e ∈ [E_COMPLETED; E_FAILED; E_CANCELLED]) all_executions).
Definition byStatus : list (ATTEMPT_STATUS * Z) := counted (group_by a_status (map_to_list (attempts db)).*2).

(** [Object.values(checks).every(Boolean)]. *)
Definition passes (RUNS : nat) : bool := forallb snd (checks RUNS).
End checks.

(** ** What a transaction leaves for the checks *)

Record audited (db : DB) : Prop := {
  au_tokens i t : tasks db !! i = Some t → leaseToken t = attempt t;
  au_won i t : tasks db !! i = Some t → t_status t = T_COMPLETED →
    ∃ a, attempts db !! (i, attempt t) = Some a ∧ a_status a = A_SUCCEEDED;
  au_keys k a : attempts db !! k = Some a → a_taskId a = k.1;
  au_rows ev : ev ∈ outbox db → ev_type ev = "task.completed" → ∃ i, payload_task (ev_payload ev) = Some (oid_str i)
}.

Record audits (db db' : DB) : Prop := {
  av_kept k : is_Some (attempts db !! k) → is_Some (attempts db' !! k);
  av_audited : audited db → audited db'
}.

#[export] Instance audits_preorder : PreOrder audits.
Proof. split; [by split|]. intros db1 db2 db3 [] []. split; auto. Qed.

Lemma audits_same db db' : tasks db' = tasks db → attempts db' = attempts db → outbox db' = outbox db → audits db db'.
Proof.
  intros Ht Ha Ho. split; [by rewrite Ha|]. intros [H1 H2 H3 H4]. split; rewrite ?Ht, ?Ha, ?Ho; [exact H1|exact H2|exact H3|exact H4].
Qed.

(** A task that is updated keeps its counters and does not become COMPLETED. *)
Definition modest (t t' : Task) : Prop :=
  (leaseToken t' - attempt t' = leaseToken t - attempt t)%Z ∧
  (t_status t' = T_COMPLETED → t_status t = T_COMPLETED ∧ attempt t' = attempt t).

Lemma audits_tasks db ts :
  (∀ i t', ts !! i = Some t' →
     (∃ t, tasks db !! i = Some t ∧ modest t t') ∨ leaseToken t' = attempt t' ∧ t_status t' ≠ T_COMPLETED) →
  audits db (db {{ tasks := ts }}).
Proof.
  intros Hts. split; [done|]. intros [H1 H2 H3 H4]. split; [..|exact H3|exact H4].
  - intros i t' [(t & Ht & Hm & _)|[Heq _]]%Hts; [|done]. specialize (H1 i t Ht). lia.
  - intros i t' [(t & Ht & _ & Hm)|[_ Hne]]%Hts Hs; [|done]. destruct (Hm Hs) as [Hc ->]. by apply H2.
Qed.

Lemma audits_one db i t t' :
  tasks db !! i = Some t → modest t t' → audits db (db {{ tasks := <[i := t']> (tasks db) }}).
Proof.
  intros Ht Hm. apply audits_tasks. intros j u [[<- <-]|[_ Hj]]%lookup_insert_Some; left; [by exists t|].
  exists u. by repeat split.
Qed.

(** A SUCCEEDED attempt stays, unless its task is not COMPLETED. *)
Lemma audits_attempts db ats :
  (∀ k a, attempts db !! k = Some a → ∃ a', ats !! k = Some a' ∧
     (a_status a = A_SUCCEEDED → a_status a' = A_SUCCEEDED ∨ ∀ t, tasks db !! k.1 = Some t → t_status t ≠ T_COMPLETED)) →
  (∀ k a, ats !! k = Some a → a_taskId a = k.1 ∨ ∃ a0, attempts db !! k = Some a0 ∧ a_taskId a = a_taskId a0) →
  audits db (db {{ attempts := ats }}).
Proof.
  intros Hold Hkey. split.
  - intros k [a Ha]. destruct (Hold k a Ha) as (a' & Ha' & _). by exists a'.
  - intros [H1 H2 H3 H4]. split; [exact H1|..|exact H4].
    + intros i t Ht Hs. destruct (H2 i t Ht Hs) as (a & Ha & Hsa). destruct (Hold _ a Ha) as (a' & Ha' & [|Hno]); [done|by exists a'|].
      by destruct (Hno t Ht).
    + intros k a [|(a0 & Ha0 & ->)]%Hkey; [done|]. by apply H3.
Qed.

(** *** Steps of a transaction *)

Lemma audits_transition i a b set where_ :
  b ≠ T_COMPLETED → (∀ t, leaseToken (set t) = leaseToken t ∧ attempt (set t) = attempt t) →
  relates audits (transitionTask i a b set where_).
Proof.
  intros Hb Hset db won db' [Hab [(_ & t & Ht & _ & Hst & ->)|(_ & -> & _)]]%transitionTask_ok; [|reflexivity].
  eapply audits_one; [done|]. destruct (Hset t) as [H1 H2].
  split; [change ((leaseToken (set t) - attempt (set t) = leaseToken t - attempt t)%Z); by rewrite H1, H2|by intros ?].
Qed.

Lemma audits_updateMany p u :
  (∀ t, p t = true → modest t (u t)) → relates audits (Task_updateMany p u).
Proof.
  intros Hu db n db'. rewrite Task_updateMany_eq. intros [_ <-]%ok_pair. apply audits_tasks. intros i t'.
  rewrite lookup_fmap. intros (t & Ht & ->)%fmap_Some. left. exists t. split; [done|].
  destruct (p t) eqn:Hp; [by apply Hu|by repeat split].
Qed.

Lemma audits_emit cfg r ty e payload :
  (ty = "task.completed" → ∃ i, payload_task payload = Some (oid_str i)) → relates audits (emit cfg r ty e payload).
Proof.
  intros Hty db a db'. unfold emit. destruct (cfg_outbox cfg); intros [_ <-]%ok_pair; [|reflexivity].
  split; [done|]. intros [H1 H2 H3 H4]. split; [exact H1|exact H2|exact H3|].
  intros ev [Hin| ->%list_elem_of_singleton]%elem_of_app Hev; [by apply H4|by apply Hty].
Qed.

Lemma audits_claim i wk leaseMs r : relates audits (claimTask i wk leaseMs r).
Proof.
  intros db o db'. rewrite claimTask_spec. destruct (tasks db !! i) as [t|] eqn:Ht; [|intros [_ <-]%ok_pair; reflexivity].
  destruct (claimable _ t) eqn:Hc; [|intros [_ <-]%ok_pair; reflexivity]. intros [_ <-]%ok_pair.
  eapply audits_one; [done|]. split; [|done]. unfold claim_update. cbn. lia.
Qed.

Lemma audits_renew i token leaseMs r : relates audits (renewTaskLease i token leaseMs r).
Proof.
  intros db o db'. rewrite renewTaskLease_spec. destruct (tasks db !! i) as [t|] eqn:Ht; [|intros [_ <-]%ok_pair; reflexivity].
  destruct (_ && _); intros [_ <-]%ok_pair; [|reflexivity]. eapply audits_one; [done|]. by repeat split.
Qed.

Lemma audits_abandon i n r : relates audits (abandon_attempts i n r).
Proof.
  intros db x db' [_ <-]%ok_pair. unfold updateMany. cbn [snd]. apply audits_attempts; intros k a.
  - intros Ha. rewrite lookup_fmap, Ha. eexists. split; [done|]. intros Hs. left. rewrite Hs, andb_false_r. done.
  - rewrite lookup_fmap. intros (a0 & Ha0 & ->)%fmap_Some. right. exists a0. split; [done|]. by destruct (_ && _).
Qed.

Lemma audits_create_attempt i t wk r : relates audits (create_attempt i t wk r).
Proof.
  intros db x db'. unfold create_attempt. intros (d & d' & [<- <-]%ok_pair & H)%tx_bind_ok.
  destruct (attempts db !! _) eqn:Hn; [done|]. apply ok_pair in H as [_ <-]. apply audits_attempts; intros k a.
  - intros Ha. exists a. split; [|by left]. rewrite lookup_insert_ne; [done|]. intros <-. congruence.
  - intros [[<- <-]|[_ Ha]]%lookup_insert_Some; [by left|right; by exists a].
Qed.

(** The record of an attempt of a task that is not COMPLETED. *)
Lemma audits_attempt db i n u a db' :
  (∀ t, tasks db !! i = Some t → t_status t ≠ T_COMPLETED) → (∀ a0, a_taskId (u a0) = a_taskId a0) →
  Attempt_updateOne i n u db = Ok (a, db') → audits db db'.
Proof.
  intros Hopen Hu [_ <-]%ok_pair. unfold updateOne. destruct (attempts db !! (i, n)) as [a0|] eqn:Ha0; cbn [snd]; [|by apply audits_same].
  apply audits_attempts; intros k b.
  - intros Hb. destruct (decide (k = (i, n))) as [->|Hne]; [rewrite lookup_insert_eq|rewrite lookup_insert_ne by done]; eexists; (split; [done|]); [by right|by left].
  - intros [[<- <-]|[_ Hb]]%lookup_insert_Some; right; [by exists a0|by exists b].
Qed.

(** A task becomes COMPLETED and the record of its attempt SUCCEEDED. *)
Lemma audits_win db i t0 t1 a0 u :
  tasks db !! i = Some t0 → leaseToken t1 = leaseToken t0 ∧ attempt t1 = attempt t0 →
  attempts db !! (i, leaseToken t0) = Some a0 →
  (∀ a, a_status (u a) = A_SUCCEEDED ∧ a_taskId (u a) = a_taskId a) →
  audits db (db {{ tasks := <[i := t1]> (tasks db);
                   attempts := (updateOne (i, attempt t1) (λ _, true) u (attempts db)).2 }}).
Proof.
  intros Ht0 [Htk Hat] Ha0 Hu. unfold updateOne. split.
  - intros k Hk. cbn. destruct (attempts db !! (i, attempt t1)); [|done]. cbn [snd]. apply lookup_insert_is_Some'. by right.
  - intros [K1 K2 K3 K4]. rewrite Hat, <- (K1 i t0 Ht0), Ha0. cbn [snd]. split; [| | |exact K4].
    + intros j t. change (<[i := t1]> (tasks db) !! j = Some t → leaseToken t = attempt t).
      intros [[<- <-]|[_ Ht]]%lookup_insert_Some; [|by apply (K1 j)]. by rewrite Htk, Hat, (K1 i t0 Ht0).
    + intros j t Ht Hs. change (<[i := t1]> (tasks db) !! j = Some t) in Ht. revert Ht.
      match goal with |- _ → ∃ a, attempts ?d !! _ = _ ∧ _ => change (attempts d) with (<[(i, leaseToken t0) := u a0]> (attempts db)) end.
      intros [[<- <-]|[Hne Ht]]%lookup_insert_Some.
      * rewrite Hat, <- (K1 i t0 Ht0). eexists. split; [apply lookup_insert_eq|apply Hu].
      * destruct (K2 j t Ht Hs) as (b & Hb & Hsb). exists b. split; [|done]. rewrite lookup_insert_ne; [done|]. by intros [= ->].
    + intros k b Hb. change (<[(i, leaseToken t0) := u a0]> (attempts db) !! k = Some b) in Hb.
      apply lookup_insert_Some in Hb as [[<- <-]|[_ Hb]]; [|by apply K3]. rewrite (proj2 (Hu a0)). by apply (K3 (i, leaseToken t0)).
Qed.

(** *** Transactions *)

Ltac modest_update :=
  let Hp := fresh in intros ? Hp; rewrite ?andb_true_iff in Hp; destruct_and?; split; [done|intros ?; done].

Ltac audits_elsewhere := idtac; intros ?; apply audits_same; by repeat case_match.

Ltac audits_step :=
  idtac; match goal with
  | |- relates audits (transitionTask _ _ _ _ _) => apply audits_transition; [done|by intros ?]
  | |- relates audits (Task_updateMany _ _) => apply audits_updateMany; modest_update
  | |- relates audits (emit _ _ _ _ _) => apply audits_emit; first [by intros [=]|intros _; by eexists]
  | _ => rel_step audits_elsewhere
  end.

Ltac audits_tx := unfold Task_findById, Execution_findOneAndUpdate, Execution_updateOne, create_approval; repeat audits_step.

(** [H] is a success of the transaction of the goal. *)
Ltac audits_by H :=
  match type of H with ?m ?db = Ok (?a, ?db') => refine ((_ : relates audits m) db a db' H); audits_tx end.

Section transactions.
Context (cfg : EngineConfig).

Lemma audits_after_success r i t at_ : relates audits (afterTaskSucceeded cfg r i t at_).
Proof. unfold afterTaskSucceeded. audits_tx. Qed.
Lemma audits_after_failure r i t o m b at_ : relates audits (afterTaskFailedForGood cfg r i t o m b at_).
Proof. unfold afterTaskFailedForGood. audits_tx. Qed.
Hint Resolve audits_after_success audits_after_failure : frames.
Lemma audits_dispatch i r : relates audits (transitionTask i T_READY T_QUEUED (λ t, t {{ queuedAt := Some (TaskRepo.now r) }}) (λ _, true)).
Proof. audits_tx. Qed.
Lemma audits_pause e r : relates audits (pause_tx cfg e r).
Proof. unfold pause_tx. audits_tx. Qed.
Lemma audits_resume e r : relates audits (resume_tx cfg e r).
Proof. unfold resume_tx. audits_tx. Qed.
Lemma audits_cancel e r : relates audits (cancel_tx cfg e r).
Proof. unfold cancel_tx. audits_tx. Qed.
Lemma audits_started e payload r : relates audits (emit cfg r "task.started" e payload).
Proof. audits_tx. Qed.
Lemma audits_resolve a d scope r : is_approved (d_decision d) = false → relates audits (resolve_tx cfg a d scope r).
Proof.
  intros Hd. unfold resolve_tx. rewrite Hd. audits_tx.
  - apply audits_transition; [done|]. intros t. unfold decided_task. by rewrite Hd.
  - apply audits_emit. by destruct (d_decision d).
Qed.

Lemma audits_start w p children r : relates audits (start_tx cfg w p children r).
Proof.
  unfold start_tx. repeat match goal with
  | |- relates audits (tx_modify (λ db, db {{ tasks := _ }})) => apply (rel_modify audits); intros; apply audits_tasks
  | _ => audits_step
  end. intros i t [Hi|Hi]%EngineStart.insert_all_Some; [right|left; exists t; by repeat split].
  apply EngineStart.new_map_elem in Hi. apply list_elem_of_fmap in Hi as (d & -> & _). split; [done|].
  unfold task_of_definition. cbn. by case_bool_decide.
Qed.

(** A failure or a suspension is recorded in the attempt of a task that is running. *)
Lemma audits_fail i token err r : relates audits (fail_tx cfg i token err r).
Proof.
  intros db a db'. unfold fail_tx. intros (d & d' & [<- <-]%ok_pair & H)%tx_bind_ok. cbn beta in H.
  destruct (findOne _ _ _) as [t|] eqn:Hf; [|by apply ok_pair in H as [_ <-]].
  apply findOne_Some in Hf as [Ht [Hst%bool_decide_eq_true _]%andb_true_iff].
  apply tx_bind_ok in H as (u & db1 & H1 & H). etrans.
  { eapply audits_attempt; [..|exact H1]; [|by intros]. intros t' Ht'. assert (t' = t) as -> by congruence. by rewrite Hst. }
  audits_by H.
Qed.

Lemma audits_suspend i token ask r : relates audits (suspend_tx cfg i token ask r).
Proof.
  intros db a db'. unfold suspend_tx. intros (won & db1 & H1 & H)%tx_bind_ok.
  assert (audits db db1) as Hb by audits_by H1.
  apply transition_shifts in H1 as (_ & Hw & _). destruct won; [|by apply ok_pair in H as [_ <-]]. cbn [negb] in H.
  destruct Hw as (t0 & _ & _ & Hts). etrans; [exact Hb|].
  apply tx_bind_ok in H as (t & db2 & H2 & (u & db3 & H3 & H)%tx_bind_ok).
  erewrite Task_findById_eq in H2 by (rewrite Hts; apply lookup_insert_eq). apply ok_pair in H2 as [<- <-].
  etrans; [eapply audits_attempt; [..|exact H3]; [|by intros]|].
  { rewrite Hts. intros t'. rewrite lookup_insert_eq. by intros [= <-]. }
  audits_by H.
Qed.

(** A success is recorded in the attempt that holds the token, if it has a record. *)
Lemma audits_complete i token out r db a db' :
  is_Some (attempts db !! (i, token)) → complete_tx cfg i token out r db = Ok (a, db') → audits db db'.
Proof.
  intros [a0 Ha0]. unfold complete_tx. intros (won & db1 & H1 & H)%tx_bind_ok.
  destruct (transitionTask_ok _ _ _ _ _ _ _ _ H1) as [_ [(-> & t0 & Ht0 & Htk%bool_decide_eq_true & _ & ->)|(-> & -> & _)]];
    [|by apply ok_pair in H as [_ <-]]. clear H1. cbn [negb] in H.
  apply tx_bind_ok in H as (t & db2 & H2 & (u & db3 & [_ <-]%ok_pair & (v & db4 & H4 & [_ <-]%ok_pair)%tx_bind_ok)%tx_bind_ok).
  erewrite Task_findById_eq in H2 by apply lookup_insert_eq. apply ok_pair in H2 as [<- <-].
  etrans; [|exact (audits_after_success _ _ _ _ _ _ _ H4)]. clear H4. by apply (audits_win db i t0 _ a0 _ Ht0); [|rewrite Htk|..].
Qed.
End transactions.

(** ** The deployment *)

(** Everything that runs against the database while the test kills processes:
    requests that start and control runs, workers with any handlers, their timers
    and the reconciler.  A process that is killed is one that is never scheduled
    again; the queue changes in any way, so it may be lost with Redis.  Nobody
    approves anything: an approved task has no SUCCEEDED attempt. *)
Inductive chaos_api (cfg : EngineConfig) : prog (World TaskQueue) unit → Prop :=
| ch_start wf p : chaos_api cfg (_ ← startExecution cfg wf p; Ret tt)
| ch_pause e : chaos_api cfg (_ ← pauseExecution cfg e; Ret tt)
| ch_resume e : chaos_api cfg (_ ← resumeExecution cfg e; Ret tt)
| ch_cancel e : chaos_api cfg (_ ← cancelExecution cfg e; Ret tt)
| ch_reconcile stale limit : chaos_api cfg (_ ← reconcile cfg stale limit; Ret tt)
| ch_process handlers wk leaseMs i : chaos_api cfg (processTask cfg handlers wk leaseMs i)
| ch_renew leaseMs i token : chaos_api cfg (_ ← renew cfg leaseMs i token; Ret tt)
| ch_maintenance : chaos_api cfg maintenance.

Section deployment.
Context (cfg : EngineConfig).

Notation auditing := (steps_ok (λ _ : World TaskQueue, True) (λ w w', audits (w_db w) (w_db w'))).

Hint Resolve audits_dispatch audits_claim audits_renew audits_abandon audits_fail audits_suspend audits_pause audits_resume
  audits_cancel audits_start audits_started : frames.

Ltac audit_step :=
  idtac; match goal with
  | |- relates audits (resolve_tx _ _ _ _ _) => by apply audits_resolve
  | _ => rel_step fail
  end.
Ltac audit_program :=
  unfold transaction, dispatchReady, dispatchTask, enqueueSafely, enqueueRetrySafely, status_of;
  repeat stepwise_step audits audit_step.

Lemma auditing_failTask i token err : auditing (failTask cfg i token err).
Proof. unfold failTask. audit_program. Qed.
Lemma auditing_suspend i token ask : auditing (suspendForApproval cfg i token ask).
Proof. unfold suspendForApproval. audit_program. Qed.
Lemma auditing_dispatchReady e : auditing (dispatchReady e).
Proof. audit_program. Qed.

Lemma auditing_calls p : chaos_api cfg p → (∃ handlers wk leaseMs i, p = processTask cfg handlers wk leaseMs i) ∨ auditing p.
Proof.
  destruct 1; [right..| |right|right]; [| | | | |left; by eexists _, _, _, _|..];
    unfold startExecution, pauseExecution, resumeExecution, cancelExecution, reconcile, redispatch, reenqueue, expire,
      resolveApproval, renew, renewLease, maintenance; audit_program.
Qed.

(** *** Records and their tokens *)

(** Who holds [(i, n)] knows that attempt [n] of task [i] has a record. *)
Definition kept (T : gset (oid * Z)) (w : World TaskQueue) : Prop :=
  audited (w_db w) ∧ ∀ k, k ∈ T → is_Some (attempts (w_db w) !! k).

Notation owned := (owns kept).

Lemma kept_audits T w w' : kept T w → audits (w_db w) (w_db w') → kept T w'.
Proof. intros [Ha Hk] [K A]. split; auto. Qed.

Lemma kept_by_auditing {A} (p : prog (World TaskQueue) A) T : auditing p → owned T p (λ T' _, T' = T).
Proof. apply owns_steps; [done|]. intros T' w w'. apply kept_audits. Qed.

(** A transaction, whose commit may create tokens. *)
Lemma owned_db_call {A} (body : Readings → tx DB A) (T : gset (oid * Z)) (Q : gset (oid * Z) → A → Prop) :
  (∀ (w : World TaskQueue) (others : gset (oid * Z)) a db, T ## others → kept (T ∪ others) w → body (readings w) (w_db w) = Ok (a, db) →
     ∃ T', T' ## others ∧ kept (T' ∪ others) (set_db w db) ∧ Q T' a) →
  owned T (db_call body) Q.
Proof.
  intros Hb w others Hd HI. unfold db_step. destruct (body (readings w) (w_db w)) as [[a db]|e] eqn:E; cbn.
  - by apply Hb.
  - exists T. by destruct w.
Qed.

Lemma kept_by_claim i wk T :
  owned T (db_call (claimTask i wk (cfg_leaseMs cfg)))
    (λ T' c, T' = T ∧ match c with Some t => leaseToken t = attempt t | None => True end).
Proof.
  apply owned_db_call. intros w others a db Hd HI Hc. exists T. split; [done|].
  pose proof (audits_claim _ _ _ _ _ _ _ Hc) as Haud.
  split; [by apply (kept_audits _ w)|]. split; [done|]. revert Hc. rewrite claimTask_spec.
  destruct (tasks (w_db w) !! i) as [t|] eqn:Ht; [|by intros [<- _]%ok_pair].
  destruct (claimable _ t); intros [<- _]%ok_pair; [|done]. unfold claim_update. cbn. f_equal.
  by apply (au_tokens _ (proj1 HI) i).
Qed.

Lemma kept_by_create i t wk T : owned T (db_call (create_attempt i t wk)) (λ T' _, (i, attempt t) ∈ T').
Proof.
  apply owned_db_call. intros w others [] db Hd HI Hc. exists ({[(i, attempt t)]} ∪ T).
  pose proof (kept_audits _ w (set_db w db) HI (audits_create_attempt _ _ _ _ _ _ _ Hc)) as [Ha Hk].
  revert Hc. unfold create_attempt. intros (d & d' & [<- <-]%ok_pair & H)%tx_bind_ok.
  destruct (attempts (w_db w) !! (i, attempt t)) eqn:Hn; [done|]. apply ok_pair in H as [_ <-].
  assert ((i, attempt t) ∉ T ∪ others) as Hnew by (intros [a Hs]%(proj2 HI); congruence).
  split; [set_solver|]. split; [|set_solver]. split; [done|]. intros k Hin.
  destruct (decide (k = (i, attempt t))) as [->|Hne]; [|apply Hk; set_solver].
  cbn. rewrite lookup_insert_eq. by eexists.
Qed.

Lemma kept_by_complete i token out T :
  (i, token) ∈ T → owned T (transaction (complete_tx cfg i token out)) (λ _ _, True).
Proof.
  intros Hin. apply owned_db_call. intros w others a db Hd HI Hc. exists T. split_and!; [done| |done].
  apply (kept_audits _ w); [done|]. eapply audits_complete; [|exact Hc]. apply HI. set_solver.
Qed.

Lemma kept_by_then {A B} (p : prog (World TaskQueue) A) (k : A → prog (World TaskQueue) B) T Q :
  auditing p → (∀ a, owned T (k a) Q) → owned T (p ≫= k) Q.
Proof.
  intros Hp Hk. apply owns_bind. eapply owns_impl; [|by apply kept_by_auditing]. intros T' a ->. apply Hk.
Qed.

Lemma kept_by_startTask i wk T :
  owned T (startTask cfg i wk) (λ T' claimed,
    match claimed with Some c => claimed_id c = i ∧ (i, leaseToken (claimed_task c)) ∈ T' | None => True end).
Proof.
  unfold startTask. apply owns_bind. eapply owns_impl; [|apply kept_by_claim]. intros T1 [t|] [-> Ht]; [|done].
  apply kept_by_then; [audit_program|]. intros _. apply owns_bind. eapply owns_impl; [|apply kept_by_create]. intros T2 ? Hin.
  apply kept_by_then; [audit_program|]. intros _. case_bool_decide.
  - apply kept_by_then; [apply auditing_failTask|]. done.
  - apply kept_by_then; [audit_program|]. intros x. apply kept_by_then; [audit_program|]. intros parents. cbn. by rewrite Ht.
Qed.

Lemma kept_by_report c s T :
  (claimed_id c, leaseToken (claimed_task c)) ∈ T → owned T (report cfg c s) (λ _ _, True).
Proof.
  intros Hin. unfold report. destruct (outcome_of s) as [out failure]. destruct (truthy_thrown failure).
  { apply kept_by_then; [apply auditing_failTask|done]. }
  destruct out as [o|request]; [|apply kept_by_then; [apply auditing_suspend|done]].
  apply owns_bind. unfold completeTask. apply owns_bind. eapply owns_impl; [|by apply kept_by_complete].
  intros T' [e|] _; [|done]. apply kept_by_then; [apply auditing_dispatchReady|done].
Qed.

Lemma kept_by_process handlers wk leaseMs i : owned ∅ (processTask cfg handlers wk leaseMs i) (λ _ _, True).
Proof.
  assert (∀ T, owned T (_ ← queue_call (queue_ack i); Ret tt) (λ _ _, True)) as Hack.
  { intros T. apply kept_by_then; [audit_program|done]. }
  unfold processTask. apply owns_bind. eapply owns_impl; [|apply kept_by_startTask]. intros T [c|] Hc; [|apply Hack].
  destruct Hc as [Hid Hin]. apply kept_by_then; [audit_program|]. intros _. apply owns_bind. unfold runTask. apply owns_bind.
  intros w others Hd HI. exists T. split_and!; [done|done|].
  match goal with |- owns _ _ _ ?Q => change (Q T (handler_result handlers c w)) end. cbv beta.
  eapply owns_impl; [|apply kept_by_report; by rewrite Hid].
  intros T' u _. apply Hack.
Qed.

Lemma chaos_audited q w : reachable (chaos_api cfg) outside (initial q) w → audited (w_db w).
Proof.
  intros Hr. enough (kept ∅ w) as [Ha _] by done. revert Hr. apply (reachable_owned kept (chaos_api cfg) outside).
  - intros T T' w' HT [Ha Hk]. split; [done|]. auto.
  - intros p Hp. destruct (auditing_calls p Hp) as [(handlers & wk & leaseMs & i & ->)|Hs]; [apply kept_by_process|].
    eapply owns_impl; [|by apply kept_by_auditing]. done.
  - unfold outside. intros w1 w2 T Ho [Ha Hk]. split; rewrite Ho; done.
  - split; [|by intros k ?%elem_of_empty]. split.
    + intros i t Ht. by destruct (lookup_empty_Some i t).
    + intros i t Ht. by destruct (lookup_empty_Some i t).
    + intros k a Ha. by destruct (lookup_empty_Some k a).
    + by intros ev ?%not_elem_of_nil.
Qed.

(** The other invariants hold as well. *)
Lemma chaos_engine q w : reachable (chaos_api cfg) outside (initial q) w → world_inv cfg w.
Proof.
  apply (reachable_inv (chaos_api cfg) outside (world_inv cfg) world_guar); [|apply outside_ok|apply initial_inv].
  destruct 1; try solve [apply worker_ok; constructor; constructor].
  apply ok_processTask.
Qed.

Lemma chaos_settled q w : cfg_outbox cfg = true → reachable (chaos_api cfg) outside (initial q) w → settled empty_db (w_db w).
Proof.
  intros Hout. apply (reachable_inv (chaos_api cfg) outside (λ w, settled empty_db (w_db w)) (λ w w', settled (w_db w) (w_db w'))).
  - assert (∀ p : prog (World TaskQueue) unit, steps_ok (λ _, True) (λ w w', settled (w_db w) (w_db w')) p →
      steps_ok (λ w, settled empty_db (w_db w)) (λ w w', settled (w_db w) (w_db w')) p) as Hlift.
    { intros p. apply steps_ok_impl; [done|]. intros w1 w2 H1 [_ H2]. split; [by etrans|done]. }
    intros p Hp. apply Hlift. destruct Hp; try solve [apply (settled_api cfg Hout); constructor].
    + by apply settled_process.
    + apply (settled_timers cfg). right. by eexists _, _, _.
    + apply (settled_timers cfg). by left.
  - unfold outside. intros w1 w2 -> H1. split; [done|reflexivity].
  - reflexivity.
Qed.
End deployment.

(** ** Counting *)

(** Elements with distinct keys make groups of one. *)
Lemma group_insert_last {K A} `{EqDecision K} (k : K) (x : A) groups :
  k ∉ groups.*1 → group_insert k x groups = (groups ++ [(k, [x])])%list.
Proof.
  induction groups as [|[k1 xs] groups IH]; cbn; [done|]. intros [Hne Hk]%not_elem_of_cons.
  rewrite bool_decide_eq_false_2 by congruence. by rewrite IH.
Qed.

Lemma group_by_distinct {K A} `{EqDecision K} (key : A → K) (l : list A) :
  NoDup (key <$> l) → group_by key l = (λ x, (key x, [x])) <$> l.
Proof.
  unfold group_by. induction l as [|x l IH] using rev_ind; [done|]. rewrite fmap_app, NoDup_app. intros (Hl & Hx & _).
  rewrite foldl_app, (IH Hl), fmap_app. cbn. apply group_insert_last. rewrite <- list_fmap_compose.
  intros Hin. apply (Hx (key x)); [|by left]. exact Hin.
Qed.

Lemma counted_distinct {K A} `{EqDecision K} (key : A → K) (l : list A) :
  NoDup (key <$> l) → counted (group_by key l) = (λ x, (key x, 1%Z)) <$> l.
Proof. intros Hl. unfold counted. by rewrite group_by_distinct, <- list_fmap_compose. Qed.

(** A group for every document, each of one element. *)
Definition one_each {K} (n : nat) (groups : list (K * Z)) : bool :=
  bool_decide (length groups = n) && forallb (λ g, bool_decide (g.2 = 1%Z)) groups.

Lemma one_each_counted {K A} `{EqDecision K} (key : A → K) (l : list A) (keys : list K) :
  NoDup (key <$> l) → NoDup keys → (∀ k, k ∈ key <$> l ↔ k ∈ keys) →
  one_each (length keys) (counted (group_by key l)) = true.
Proof.
  intros Hl Hk Heq. rewrite counted_distinct by done. unfold one_each. rewrite length_fmap.
  apply (NoDup_Permutation _ _ Hl Hk) in Heq. apply Permutation_length in Heq. rewrite length_fmap in Heq.
  rewrite bool_decide_eq_true_2 by done. cbn [andb]. apply forallb_forall. intros g (x & -> & _)%list_elem_of_In%list_elem_of_fmap. done.
Qed.

Lemma filter_of_fmap {A B} (f : A → B) (P : B → Prop) `{∀ x, Decision (P x)} (l : list A) :
  filter P (f <$> l) = f <$> filter (λ x, P (f x)) l.
Proof.
  induction l as [|x l IH]; [done|]. rewrite fmap_cons, !filter_cons, IH. by destruct (decide (P (f x))).
Qed.

(** Keys that each have at most one element are distinct. *)
Lemma NoDup_keys {K A} `{EqDecision K} (key : A → K) (l : list A) :
  (∀ k, k ∈ key <$> l → (length (filter (λ x, key x = k) l) ≤ 1)%nat) → NoDup (key <$> l).
Proof.
  induction l as [|x l IH]; [constructor|]. rewrite fmap_cons. intros Hl. constructor.
  - intros (y & Hy & Hin)%list_elem_of_fmap. specialize (Hl (key x) ltac:(by left)).
    rewrite filter_cons, decide_True in Hl by done.
    assert (y ∈ filter (λ z, key z = key x) l) as Hf by (by apply list_elem_of_filter).
    destruct (filter _ l); [by apply not_elem_of_nil in Hf|]. cbn in Hl. lia.
  - apply IH. intros k Hk. specialize (Hl k ltac:(by right)). rewrite filter_cons in Hl. case_decide; cbn in Hl; lia.
Qed.

(** ** The test cannot fail *)

Section outcome.
Context (db : DB).

Lemma all_tasks_elem t : t ∈ all_tasks db ↔ ∃ i, tasks db !! i = Some t.
Proof.
  unfold all_tasks. rewrite list_elem_of_fmap. split.
  - intros ([i t'] & -> & Hin%elem_of_map_to_list). by exists i.
  - intros [i Hi]. exists (i, t). by rewrite elem_of_map_to_list.
Qed.

Lemma all_executions_elem x : x ∈ all_executions db ↔ ∃ e, executions db !! e = Some x.
Proof.
  unfold all_executions. rewrite list_elem_of_fmap. split.
  - intros ([i t'] & -> & Hin%elem_of_map_to_list). by exists i.
  - intros [i Hi]. exists (i, x). by rewrite elem_of_map_to_list.
Qed.

Definition task_ids : list oid := (map_to_list (tasks db)).*1.

Lemma task_ids_elem i : i ∈ task_ids ↔ is_Some (tasks db !! i).
Proof.
  unfold task_ids. rewrite list_elem_of_fmap. split.
  - intros ([j t] & -> & Hin%elem_of_map_to_list). by eexists.
  - intros [t Ht]. exists (i, t). by rewrite elem_of_map_to_list.
Qed.

Lemma task_ids_length : length task_ids = length (all_tasks db).
Proof. unfold task_ids, all_tasks. by rewrite !length_fmap. Qed.

Context (Haud : audited db) (Hset : settled empty_db db).
Context (Hall : ∀ i t, tasks db !! i = Some t → t_status t = T_COMPLETED).

Lemma succeeded_attempts_elem a :
  a ∈ succeeded_attempts db ↔ a_status a = A_SUCCEEDED ∧ ∃ n, attempts db !! (a_taskId a, n) = Some a.
Proof.
  unfold succeeded_attempts. rewrite list_elem_of_filter, list_elem_of_fmap. apply and_iff_compat_l. split.
  - intros ([[i n] a'] & -> & Hin%elem_of_map_to_list). exists n. cbn in *. by rewrite (au_keys _ Haud _ _ Hin).
  - intros [n Ha]. exists ((a_taskId a, n), a). by rewrite elem_of_map_to_list.
Qed.

Lemma one_success_per_task : one_each (length (all_tasks db)) (succeeded db) = true.
Proof.
  destruct (settled_facts db Hset) as [_ Hwin]. rewrite <- task_ids_length. apply one_each_counted.
  - unfold succeeded_attempts. rewrite filter_of_fmap, <- list_fmap_compose.
    apply NoDup_fmap_2_strong; [|apply NoDup_filter, NoDup_map_to_list].
    intros [[i n] a] [[j m] b] [Hsa Ha%elem_of_map_to_list]%list_elem_of_filter [Hsb Hb%elem_of_map_to_list]%list_elem_of_filter Heq.
    cbn in *. pose proof (au_keys _ Haud _ _ Ha) as Hka. pose proof (au_keys _ Haud _ _ Hb) as Hkb. cbn in *.
    assert (j = i) as -> by congruence.
    destruct (Hwin i n a Ha Hsa) as (t & Ht & _ & <-), (Hwin i m b Hb Hsb) as (u & Hu & _ & <-). congruence.
  - apply NoDup_fst_map_to_list.
  - intros i. rewrite task_ids_elem, list_elem_of_fmap. split.
    + intros (a & -> & [Hs [n Ha]]%succeeded_attempts_elem). destruct (Hwin _ _ _ Ha Hs) as (t & Ht & _). by eexists.
    + intros [t Ht]. destruct (au_won _ Haud i t Ht (Hall i t Ht)) as (a & Ha & Hs). exists a.
      pose proof (au_keys _ Haud _ _ Ha) as Hk. cbn in Hk. rewrite succeeded_attempts_elem, Hk. eauto.
Qed.

Lemma completed_rows_elem ev :
  ev ∈ completed_rows db → ∃ i, payload_task (ev_payload ev) = Some (oid_str i) ∧ announces (TaskIs i T_COMPLETED) ev = true.
Proof.
  intros [Hty Hin]%list_elem_of_filter. destruct (au_rows _ Haud ev Hin Hty) as [i Hi]. exists i. split; [done|].
  unfold announces, subject. rewrite Hi. cbn [fact_event task_event]. rewrite !bool_decide_eq_true_2; [done|done|congruence].
Qed.

Lemma rows_of_task i :
  filter (λ ev, payload_task (ev_payload ev) = Some (oid_str i)) (completed_rows db) =
  filter (λ ev, announces (TaskIs i T_COMPLETED) ev = true) (outbox db).
Proof.
  unfold completed_rows. rewrite list_filter_filter. apply list_filter_iff. intros ev. unfold announces, subject.
  rewrite andb_true_iff, !bool_decide_eq_true. cbn [fact_event task_event]. split; [intros [H1 H2]|intros [[= H1] H2]]; split; congruence.
Qed.

Lemma one_event_per_task : one_each (length (all_tasks db)) (completedEvents db) = true.
Proof.
  destruct (settled_facts db Hset) as [Hrows _].
  assert (∀ i, length (filter (λ ev, payload_task (ev_payload ev) = Some (oid_str i)) (completed_rows db)) =
    if holds (TaskIs i T_COMPLETED) db then 1%nat else 0%nat) as Hlen.
  { intros i. rewrite rows_of_task. apply (Hrows (TaskIs i T_COMPLETED)). by eexists. }
  rewrite <- task_ids_length, <- (length_fmap (λ i, Some (oid_str i))). apply one_each_counted.
  - apply NoDup_keys. intros k (ev & -> & (i & -> & _)%completed_rows_elem)%list_elem_of_fmap. rewrite Hlen. case_match; lia.
  - apply NoDup_fmap_2; [|apply NoDup_fst_map_to_list]. by intros i j [= ?%(inj oid_str)].
  - intros k. rewrite !list_elem_of_fmap. split.
    + intros (ev & -> & Hev). destruct (completed_rows_elem ev Hev) as (i & Hi & _). exists i. split; [done|].
      apply task_ids_elem. specialize (Hlen i). cbn [holds] in Hlen.
      assert (ev ∈ filter (λ ev, payload_task (ev_payload ev) = Some (oid_str i)) (completed_rows db)) as Hf by (by apply list_elem_of_filter).
      destruct (tasks db !! i); [by eexists|]. destruct (filter _ _); [by apply not_elem_of_nil in Hf|done].
    + intros (i & -> & [t Ht]%task_ids_elem). specialize (Hlen i). cbn [holds] in Hlen.
      rewrite bool_decide_eq_true_2 in Hlen by (rewrite Ht; cbn; f_equal; by apply (Hall i)).
      destruct (filter _ (completed_rows db)) as [|ev l] eqn:Hf; [done|]. exists ev.
      assert (ev ∈ filter (λ ev, payload_task (ev_payload ev) = Some (oid_str i)) (completed_rows db)) as [? ?]%list_elem_of_filter
        by (rewrite Hf; by left). done.
Qed.
End outcome.

Lemma passes_completed db RUNS :
  passes db RUNS = true → size (executions db) = RUNS ∧ ∀ e x, executions db !! e = Some x → x_status x = E_COMPLETED.
Proof.
  unfold passes, checks. cbn [forallb snd]. rewrite andb_true_iff. intros [[Hn Hall]%andb_true_iff _].
  apply bool_decide_eq_true in Hn. split.
  - rewrite <- Hn. unfold all_executions. by rewrite length_fmap, length_map_to_list.
  - intros e x Hx. rewrite forallb_forall in Hall.
    apply (bool_decide_eq_true (x_status x = E_COMPLETED)), Hall, list_elem_of_In.
    apply list_elem_of_fmap. exists (e, x). by rewrite elem_of_map_to_list.
Qed.


(** ** Witness *)

Import Demo.

(** One run of the workload.  A worker is killed after its claim of the first
    task, another takes the task over when the lease has lapsed, and the flaky
    task fails once. *)
Definition chaos_workflow : Workflow := mkWorkflow 1 1 1 workload.
Definition read_int (v : option json) : option Z := match v with Some (JNum z) => Some z | _ => None end.
Definition works (i : oid) : prog (World TaskQueue) unit :=
  processTask cfg (builtin_handlers read_int None) "worker-2" 15000 i.

Definition w_begun : World TaskQueue := (run (_ ← startExecution cfg chaos_workflow params; Ret tt) (initial empty_queue)).2.
Definition w_killed : World TaskQueue := default w_begun (worlds (works 0) w_begun !! 2).
Definition w_lapsed : World TaskQueue := mkWorld (w_db w_killed) empty_queue 60000 60000 0.
Definition w_chaos : World TaskQueue := foldl (λ w i, (run (works i) w).2) w_lapsed [0; 1; 2; 3; 4; 5; 5; 6].

Lemma w_chaos_reachable : reachable (chaos_api cfg) outside (initial empty_queue) w_chaos.
Proof.
  unfold w_chaos. cbn [foldl]. do 8 (apply reachable_run; [constructor|]). apply (reachable_env _ _ _ w_killed); [done|].
  apply (reachable_crash _ _ (works 0) _ w_begun); [constructor|apply reachable_run; [constructor|apply reachable_refl]|].
  apply (list_elem_of_lookup_2 _ 2). by vm_compute.
Qed.

