(* ===== verification/Registry.v ===== *)
(** * The registry of workers ([src/workers/registry.js], the heartbeat of
    [src/workers/queueWorker.js])

    A failure detector: every worker refreshes a Redis key that expires and a
    row in MongoDB.  The clock of the world is that of every machine here. *)

From stdpp Require Import sorting.
From S2P Require Import Prelude Program Models.

Local Open Scope string_scope.

(** ** Data *)

Inductive WorkerStatus : Type := W_ACTIVE | W_STOPPED.

(** A document of [src/models/worker.model.js]. *)
Record WorkerRow := mkWorkerRow {
  wk_workerId : string;
  wk_host : string;
  wk_pid : Z;
  wk_concurrency : Z;
  wk_status : WorkerStatus;
  wk_runningTasks : Z;
  wk_tasksCompleted : Z;
  wk_startedAt : ms;
  wk_lastSeenAt : ms
}.

(** The collection by [workerId], the keys of Redis with their value and expiry,
    which stores answer, and the time. *)
Record RegistryWorld := mkRegistryWorld {
  rg_workers : gmap string WorkerRow;
  rg_keys : gmap string (string * ms);
  rg_mongo_up : bool;
  rg_redis_up : bool;
  rg_time : ms
}.

Definition with_workers (f : gmap string WorkerRow → gmap string WorkerRow) (w : RegistryWorld) : RegistryWorld :=
  mkRegistryWorld (f (rg_workers w)) (rg_keys w) (rg_mongo_up w) (rg_redis_up w) (rg_time w).
Definition with_keys (f : gmap string (string * ms) → gmap string (string * ms)) (w : RegistryWorld) : RegistryWorld :=
  mkRegistryWorld (rg_workers w) (f (rg_keys w)) (rg_mongo_up w) (rg_redis_up w) (rg_time w).

Definition mongo_call {A} (f : RegistryWorld → A * RegistryWorld) : prog RegistryWorld A :=
  await (λ w, if rg_mongo_up w then (λ r, (Ok r.1, r.2)) (f w) else (Exn (PlainErr "MongoDB is not reachable"), w)).
Definition redis_call {A} (f : RegistryWorld → A * RegistryWorld) : prog RegistryWorld A :=
  await (λ w, if rg_redis_up w then (λ r, (Ok r.1, r.2)) (f w) else (Exn (PlainErr "Redis is not reachable"), w)).

Definition worker_key (workerId : string) : string := "wf:worker:" +:+ workerId.

(** [GET] and [MGET]: an expired key reads as missing. *)
Definition key_alive (w : RegistryWorld) (workerId : string) : bool :=
  match rg_keys w !! worker_key workerId with
  | Some (_, expiry) => bool_decide (rg_time w < expiry)%Z
  | None => false
  end.

(** ** [createWorkerRegistry] *)

Section registry.
Context (ttlMs : ms) (workerId host : string) (pid concurrency : Z).

(** [redis.set(key, String(Date.now()), "PX", ttlMs)]. *)
Definition set_key : prog RegistryWorld unit :=
  redis_call (λ w, (tt, with_keys <[worker_key workerId := (pretty (rg_time w), (rg_time w + ttlMs)%Z)]> w)).

(** An upsert; the fields it does not set have their defaults in a new row. *)
Definition register : prog RegistryWorld unit :=
  _ ← mongo_call (λ w, (tt,
        let completed := from_option wk_tasksCompleted 0%Z (rg_workers w !! workerId) in
        with_workers <[workerId :=
          mkWorkerRow workerId host pid concurrency W_ACTIVE 0 completed (rg_time w) (rg_time w)]> w));
  set_key.

Definition beat_row (runningTasks completedSinceLastBeat : Z) : prog RegistryWorld unit :=
  mongo_call (λ w, (tt, with_workers (alter (λ r,
    mkWorkerRow (wk_workerId r) (wk_host r) (wk_pid r) (wk_concurrency r) W_ACTIVE runningTasks
      (wk_tasksCompleted r + completedSinceLastBeat) (wk_startedAt r) (rg_time w)) workerId) w)).

(** Two calls of which neither waits for the other, in the order in which they
    take effect; errors are logged. *)
Definition both (first_first : bool) (p q : prog RegistryWorld unit) : prog RegistryWorld unit :=
  let settle := λ r, catch r (λ _, Ret tt) in
  if first_first then _ ← settle p; settle q else _ ← settle q; settle p.

Definition beat (order : bool) (runningTasks completedSinceLastBeat : Z) : prog RegistryWorld unit :=
  both order set_key (beat_row runningTasks completedSinceLastBeat).

Definition deregister (order : bool) : prog RegistryWorld unit :=
  both order
    (redis_call (λ w, (tt, with_keys (delete (worker_key workerId)) w)))
    (mongo_call (λ w, (tt, with_workers (alter (λ r,
       mkWorkerRow (wk_workerId r) (wk_host r) (wk_pid r) (wk_concurrency r) W_STOPPED 0 (wk_tasksCompleted r)
         (wk_startedAt r) (wk_lastSeenAt r)) workerId) w))).
End registry.

(** [heartbeat] of a worker process, with its counters [running] and
    [completedSinceLastBeat]: the new value of the latter. *)
Definition heartbeat (ttlMs : ms) (workerId : string) (order : bool) (running completedSinceLastBeat : Z)
    : prog RegistryWorld Z :=
  _ ← beat ttlMs workerId order running completedSinceLastBeat; Ret 0%Z.

(** ** [listWorkers] *)

Inductive ShownStatus : Type := ShownActive | ShownStopped | ShownUnresponsive.

#[export] Instance shown_status_eq_dec : EqDecision ShownStatus.
Proof. solve_decision. Defined.

Definition shown (alive : bool) (s : WorkerStatus) : ShownStatus :=
  match s with
  | W_ACTIVE => if alive then ShownActive else ShownUnresponsive
  | W_STOPPED => ShownStopped
  end.

Definition seen_later (a b : WorkerRow) : Prop := (wk_lastSeenAt b ≤ wk_lastSeenAt a)%Z.
#[export] Instance seen_later_dec : RelDecision seen_later.
Proof. unfold seen_later. intros a b. apply _. Defined.

(** [find({}).sort({ lastSeenAt: -1 }).limit(200)]. *)
Definition latest_workers (w : RegistryWorld) : list WorkerRow :=
  take 200 (merge_sort seen_later (map_to_list (rg_workers w)).*2).

Definition listWorkers : prog RegistryWorld (list (WorkerRow * ShownStatus)) :=
  workers ← mongo_call (λ w, (latest_workers w, w));
  alive ← (if bool_decide (length workers = 0) then Ret []
           else redis_call (λ w, (map (λ r, key_alive w (wk_workerId r)) workers, w)));
  Ret (zip_with (λ r a, (r, shown a (wk_status r))) workers alive).

(** ** Who runs what *)

(** The operations of the processes other than the worker [silent], and of all
    processes when it is [None].  A worker has its own id; all have the same
    [ttlMs], as they read it from one configuration. *)
Inductive registry_api (ttlMs : ms) (silent : option string) : prog RegistryWorld unit → Prop :=
| api_register id host pid c : Some id ≠ silent → registry_api ttlMs silent (register ttlMs id host pid c)
| api_heartbeat id order n k :
    Some id ≠ silent → registry_api ttlMs silent (_ ← heartbeat ttlMs id order n k; Ret tt)
| api_deregister id order : Some id ≠ silent → registry_api ttlMs silent (deregister id order)
| api_list : registry_api ttlMs silent (_ ← listWorkers; Ret tt).

(** Time passes, the stores fail and recover, and Redis may lose keys. *)
Definition registry_env (w w' : RegistryWorld) : Prop :=
  (rg_time w ≤ rg_time w')%Z ∧ rg_workers w' = rg_workers w ∧ rg_keys w' ⊆ rg_keys w.

Definition empty_registry : RegistryWorld := mkRegistryWorld ∅ ∅ true true 0.

(** ** Facts *)

Lemma worker_key_inj a b : worker_key a = worker_key b → a = b.
Proof. apply (inj (String.append _)). Qed.

Section steps.
Context (J : RegistryWorld → Prop).
Notation ok := (steps_ok J (λ _ _, True)).

(** An invariant that looks at the time and the keys only. *)
Hypothesis J_ext : ∀ w w', rg_keys w' = rg_keys w → rg_time w' = rg_time w → J w → J w'.

Lemma ok_mongo {A} (f : RegistryWorld → A * RegistryWorld) :
  (∀ w, rg_keys (f w).2 = rg_keys w ∧ rg_time (f w).2 = rg_time w) → ok (mongo_call f).
Proof.
  intros Hf. apply steps_ok_await. intros w Hw. split; [|done]. destruct (rg_mongo_up w); [|done].
  destruct (Hf w). by eapply J_ext.
Qed.

Lemma ok_redis {A} (f : RegistryWorld → A * RegistryWorld) :
  (∀ w, J w → J (f w).2) → ok (redis_call f).
Proof. intros Hf. apply steps_ok_await. intros w Hw. split; [|done]. destruct (rg_redis_up w); [by apply Hf|done]. Qed.

Lemma ok_both order p q : ok p → ok q → ok (both order p q).
Proof. intros Hp Hq. destruct order; cbn; apply steps_ok_bind; intros; apply steps_ok_catch; done. Qed.

Lemma api_keeps ttlMs silent p :
  (∀ id w, Some id ≠ silent → J w →
     J (with_keys <[worker_key id := (pretty (rg_time w), (rg_time w + ttlMs)%Z)]> w)) →
  (∀ id w, Some id ≠ silent → J w → J (with_keys (delete (worker_key id)) w)) →
  registry_api ttlMs silent p → ok p.
Proof.
  intros Hset Hdel [id host pid c Hid|id order n k Hid|id order Hid|].
  - apply steps_ok_bind; [by apply ok_mongo|]. intros _. apply ok_redis; cbn; auto.
  - repeat (apply steps_ok_bind; [|done]). apply ok_both; [|by apply ok_mongo]. apply ok_redis; cbn; auto.
  - apply ok_both; [|by apply ok_mongo]. apply ok_redis; cbn; auto.
  - repeat (apply steps_ok_bind; [|done]). apply steps_ok_bind; [by apply ok_mongo|]. intros ws.
    apply steps_ok_bind; [|done]. case_bool_decide; [done|]. by apply ok_redis.
Qed.
End steps.

(** Keys never outlive the heartbeat that set them by more than [ttlMs]. *)
Definition keys_fresh (ttlMs : ms) (w : RegistryWorld) : Prop :=
  ∀ k v e, rg_keys w !! k = Some (v, e) → (e ≤ rg_time w + ttlMs)%Z.

(** The key of [id] expires by [deadline]. *)
Definition expires_by (id : string) (deadline : ms) (w : RegistryWorld) : Prop :=
  ∀ v e, rg_keys w !! worker_key id = Some (v, e) → (e ≤ deadline)%Z.

Lemma reachable_fresh ttlMs w0 w :
  keys_fresh ttlMs w0 → reachable (registry_api ttlMs None) registry_env w0 w → keys_fresh ttlMs w.
Proof.
  intros H0. apply (reachable_inv _ _ (keys_fresh ttlMs) (λ _ _, True)); [| |done].
  - intros p. apply api_keeps.
    + intros w1 w2 Hk Ht Hf k v e. rewrite Hk, Ht. apply Hf.
    + intros id w1 _ Hf k v e. cbn. rewrite lookup_insert_Some. intros [[_ [= _ <-]]|[_ Hk]]; [lia|by eapply Hf].
    + intros id w1 _ Hf k v e. cbn. rewrite lookup_delete_Some. intros [_ Hk]. by eapply Hf.
  - intros w1 w2 (Ht & _ & Hk) Hf. split; [|done]. intros k v e Hl.
    eapply lookup_weaken in Hk; [|done]. apply Hf in Hk. lia.
Qed.

Lemma reachable_expires ttlMs id deadline w0 w :
  expires_by id deadline w0 → reachable (registry_api ttlMs (Some id)) registry_env w0 w → expires_by id deadline w.
Proof.
  intros H0. apply (reachable_inv _ _ (expires_by id deadline) (λ _ _, True)); [| |done].
  - intros p. apply api_keeps.
    + intros w1 w2 Hk Ht Hf v e. rewrite Hk. apply Hf.
    + intros id' w1 Hne Hf v e. cbn. rewrite lookup_insert_ne; [apply Hf|]. intros ->%worker_key_inj. done.
    + intros id' w1 _ Hf v e. cbn. rewrite lookup_delete_Some. intros [_ Hk]. by eapply Hf.
  - intros w1 w2 (_ & _ & Hk) Hf. split; [|done]. intros v e Hl. eapply lookup_weaken in Hk; [|done]. by eapply Hf.
Qed.

Lemma zip_with_map {A B C} (f : A → B → C) (g : A → B) l : zip_with f l (map g l) = map (λ a, f a (g a)) l.
Proof. induction l as [|a l IH]; [done|]. cbn. by rewrite IH. Qed.

(** What [listWorkers] answers when nothing happens meanwhile. *)
Lemma run_listWorkers w rows :
  (run listWorkers w).1 = Ok rows →
  rows = map (λ r, (r, shown (key_alive w (wk_workerId r)) (wk_status r))) (latest_workers w).
Proof.
  unfold listWorkers, mongo_call, redis_call. rewrite run_bind, run_await.
  destruct (rg_mongo_up w); cbn [fst snd]; [|done]. rewrite run_bind. case_bool_decide as Hl.
  - apply nil_length_inv in Hl. rewrite Hl. cbn. by intros [= <-].
  - rewrite run_await. destruct (rg_redis_up w); cbn; [|done]. intros [= <-]. by rewrite zip_with_map.
Qed.

(** ** Properties *)

(** the registry detects failures.  In any reachable state of the system, a
    worker that stops beating, whether or not it said goodbye, is no longer
    shown as ACTIVE once [ttlMs] has passed, whatever the other workers do; and
    what is shown is ACTIVE, UNRESPONSIVE or STOPPED exactly by the row and the
    key of each worker. *)
Theorem silent_worker_not_active (ttlMs : ms) (id : string) (w0 w : RegistryWorld)
    (rows : list (WorkerRow * ShownStatus))
    (Hreach : reachable (registry_api ttlMs None) registry_env empty_registry w0)
    (Hsilent : reachable (registry_api ttlMs (Some id)) registry_env w0 w)
    (Htime : (rg_time w0 + ttlMs ≤ rg_time w)%Z)
    (Hrows : (run listWorkers w).1 = Ok rows) :
  ∀ r s, (r, s) ∈ rows →
    (wk_workerId r = id → s ≠ ShownActive) ∧
    (s = ShownActive ↔ wk_status r = W_ACTIVE ∧ key_alive w (wk_workerId r) = true) ∧
    (s = ShownStopped ↔ wk_status r = W_STOPPED).
Proof.
  apply reachable_fresh in Hreach; [|by intros k v e Hk].
  assert (expires_by id (rg_time w) w) as Hexp.
  { eapply reachable_expires; [|done]. intros v e Hk. apply Hreach in Hk. lia. }
  intros r s Hin. rewrite (run_listWorkers _ _ Hrows) in Hin.
  apply list_elem_of_In, in_map_iff in Hin as (r' & [= -> <-] & _). split_and!.
  - intros <-. unfold key_alive. destruct (rg_keys w !! _) as [[v e]|] eqn:Hk.
    + apply Hexp in Hk. rewrite bool_decide_eq_false_2 by lia. by destruct (wk_status r).
    + by destruct (wk_status r).
  - destruct (wk_status r), (key_alive w (wk_workerId r)); cbn; naive_solver.
  - destruct (wk_status r), (key_alive w (wk_workerId r)); cbn; naive_solver.
Qed.

(** A worker registers and crashes; another one registers later. *)
Lemma silent_worker_not_active_witness :
  let w0 := (run (register 15000 "w1" "host" 1 4) empty_registry).2 in
  let w1 := mkRegistryWorld (rg_workers w0) (rg_keys w0) true true 15000 in
  let w := (run (register 15000 "w2" "host" 2 4) w1).2 in
  ∃ rows, (run listWorkers w).1 = Ok rows ∧ map (λ rs, (wk_workerId rs.1, rs.2)) rows =
    [("w2", ShownActive); ("w1", ShownUnresponsive)] ∧ ∀ r s, (r, s) ∈ rows → wk_workerId r = "w1" → s ≠ ShownActive.
Proof.
  intros w0 w1 w. eexists. split; [vm_compute; reflexivity|]. split; [vm_compute; reflexivity|].
  intros r s Hin Hid. refine (proj1 (silent_worker_not_active 15000 "w1" w0 w _ _ _ _ _ r s Hin) Hid).
  - apply reachable_run; [by constructor|apply reachable_refl].
  - apply reachable_run; [by constructor|]. apply (reachable_env _ _ _ w0); [|apply reachable_refl].
    split_and!; [by vm_compute|done|done].
  - by vm_compute.
  - vm_compute. reflexivity.
Defined.

(** A heartbeat that fails loses the tasks it was to count. *)
Lemma failed_beat_loses_count ttlMs id order running n w :
  rg_mongo_up w = false →
  (run (heartbeat ttlMs id order running n) w).1 = Ok 0%Z ∧
  rg_workers (run (heartbeat ttlMs id order running n) w).2 = rg_workers w.
Proof.
  intros Hm. unfold heartbeat, beat, both, set_key, beat_row, mongo_call, redis_call, await.
  destruct order, (rg_redis_up w) eqn:Hr; repeat (cbn; rewrite ?Hm, ?Hr); done.
Qed.
