(* ===== verification/App.v ===== *)
(** * The HTTP application ([src/app.js], [src/routes/], [src/controllers/],
    [src/auth/auth.schemas.js], the limiters of [src/middleware/rateLimit.js])

    The routers as one list of layers in the order Express tries them, and what
    a request does.  Express (matching of paths, parsing of bodies) and the
    documentation pages are parameters, and so is what the reports read and the
    world does not keep ([Reporting]). *)

From S2P Require Import Prelude Text Program Dag Models Retry TaskRepo Dispatcher Engine TaskQueue Worker.
From S2P Require Import Double Providers Analytics Registry.
From S2P Require Import RateLimit Access Services Accounts Structured Router RagText Rag Handlers Cron Http Health Pages.

Local Open Scope string_scope.

(** ** Requests and Express *)

Record HttpRequest := mkHttp {
  hr_method : string;
  hr_path : string;
  hr_query : option json;
  hr_header : string → option string;
  hr_ip : option string;
  hr_raw : string
}.

(** [express.json({ limit })]; whether a route ([method], [pattern]) takes the
    request, with its path parameters; whether [router.use(prefix)] does. *)
Class Express := {
  express_json : string → HttpRequest → raised + option json;
  route_match : string → string → HttpRequest → option json;
  prefix_match : string → HttpRequest → bool
}.

(** ** Schemas of the other routers ([auth/auth.schemas.js],
    [routes/execution.routes.js], [routes/knowledge.routes.js],
    [routes/approval.routes.js]) *)

Section schemas.
Context (issues_of : json → list Issue) (valid_id : string → option oid) (valid_email : string → bool).

Definition read_email : reader string := λ o,
  s ← read_string o;
  let s := toLowerCase (trim s) in
  if valid_email s && (String.length s <=? 254)%nat then Some s else None.

Definition BCRYPT_MAX_BYTES : nat := 72.

Definition read_bounded (lo hi : nat) : reader string := λ o,
  s ← read_string o; if length_between lo hi s then Some s else None.

(** A character is a byte here. *)
Definition read_password : reader string := read_bounded 8 BCRYPT_MAX_BYTES.

Definition registerBody : reader (string * string) := λ o,
  email ← read_email (o ≫= prop "email");
  password ← read_password (o ≫= prop "password");
  Some (email, password).

Definition loginBody : reader (string * string) := λ o,
  email ← read_email (o ≫= prop "email");
  password ← read_bounded 1 1024 (o ≫= prop "password");
  Some (email, password).

Definition refreshBody : reader string := λ o, read_bounded 1 4096 (o ≫= prop "refreshToken").

Definition roleBody : reader string := λ o,
  s ← read_string (o ≫= prop "role"); if bool_decide (s ∈ ROLES) then Some s else None.

Definition body_schema_of {A} (r : reader A) : Schemas unit unit A :=
  mkSchemas None None (Some (reader_schema issues_of r)).
Definition id_schema_of {A} (r : reader A) : Schemas oid unit A :=
  mkSchemas (Some (reader_schema issues_of (read_id valid_id))) None (Some (reader_schema issues_of r)).

Definition registerSchema := body_schema_of registerBody.
Definition loginSchema := body_schema_of loginBody.
Definition refreshSchema := body_schema_of refreshBody.
Definition changeRoleSchema := id_schema_of roleBody.

(** The input of a run. *)
Definition runSchema : Schemas oid unit json :=
  id_schema_of (λ o, match o with Some (JObj fs) => with_default (JObj []) read_object (field "input" fs) | _ => None end).

Definition executionIdSchema : Schemas oid unit unit := workflowIdSchema issues_of valid_id.

Record Upload := mkUpload { up_title : string; up_mimeType : string; up_content : string }.

Definition uploadSchema : Schemas unit unit Upload := body_schema_of (λ o,
  title ← read_trimmed 1 200 (o ≫= prop "title");
  mimeType ← with_default "text/plain"
    (λ o, s ← read_string o; if bool_decide (s ∈ ["text/plain"; "text/markdown"]) then Some s else None)
    (o ≫= prop "mimeType");
  content ← read_bounded 20 200000 (o ≫= prop "content");
  Some (mkUpload title mimeType content)).

Definition searchSchema : Schemas unit unit (string * Z) := body_schema_of (λ o,
  query ← read_trimmed 1 1000 (o ≫= prop "query");
  topK ← with_default 4%Z (read_int 1 20) (o ≫= prop "topK");
  Some (query, topK)).

(** An optional comment. *)
Definition decideSchema : Schemas oid unit (option string) := id_schema_of (λ o,
  match o with
  | Some (JObj fs) =>
      match field "comment" fs with
      | None => Some None
      | v => c ← read_trimmed 0 1000 v; Some (Some c)
      end
  | _ => None
  end).
End schemas.

(** [/^[A-Za-z0-9_-]{8,128}$/]. *)
Definition idempotencyKey_ok (s : string) : bool :=
  length_between 8 128 s && all_chars (λ c, is_alnum_char c || char_in "_-" c) s.

(** The header of [POST /workflows/:id/run]. *)
Definition idempotency_key (header : option string) : res (option string) :=
  match header with
  | None => Ok None
  | Some raw =>
      if idempotencyKey_ok raw then Ok (Some raw)
      else Exn (ValidationError "Idempotency-Key must be 8-128 chars of letters, digits, _ or -" "VALIDATION_ERROR" JNull)
  end.

(** [req.path.split("/").pop()]. *)
Definition last_segment (path : string) : string :=
  default "" (last (String.string_of_list_ascii <$> split_at (Ascii.ascii_of_nat 47) (String.list_ascii_of_string path) [])).

(** ** The state of the API process and of its stores *)

(** Responses; what a document looks like as JSON is mongoose's. *)
Inductive ApiBody : Type :=
| BodyNone
| BodyUser (id : oid) (email role : string)
| BodySession (id : oid) (ts : Tokens)
| BodyTokens (ts : Tokens)
| BodyWorkflowId (id : oid)
| BodyWorkflow (s : StoredWorkflow)
| BodyAi (r : AiReport)
| BodyRuns (r : RunReport)
| BodyWorkers (rows : list (WorkerRow * ShownStatus))
| BodyWorkflows (p : Page)
| BodyDocuments (ds : list (oid * KnowledgeDocument))
| BodyApprovals (ps : list (oid * ApprovalRequest))
| BodyGraph (r : DagResult)
| BodyRun (id : oid) (replayed : bool)
| BodyExecution (x : option WorkflowExecution)
| BodyExecutionTasks (x : WorkflowExecution) (ts : list (oid * Task))
| BodyApproval (p : option ApprovalRequest)
| BodyDocumentId (id : oid)
| BodyDocument (d : KnowledgeDocument)
| BodyHits (hits : list RagHit)
| BodyReady (b : ReadyBody)
| BodyJson (v : json)
| BodyError (e : ErrorBody).

Record ApiReply := mkReply { ar_status : Z; ar_body : ApiBody }.

Record ApiWorld (Q : Type) `{!Qdrant} := mkApiWorld {
  api_app : AppWorld Q;
  api_accounts : AccountWorld;
  api_rag : RagWorld;
  (** Redis: the sorted sets of the limiters by key, whether it answers, its
      clock; and the counter of the process. *)
  api_windows : gmap string Window;
  api_redis_up : bool;
  api_redis_time : Z;
  api_seq : nat
}.
Arguments mkApiWorld {Q _} _ _ _ _ _ _ _.
Arguments api_app {Q _} _.
Arguments api_accounts {Q _} _.
Arguments api_rag {Q _} _.
Arguments api_windows {Q _} _.
Arguments api_redis_up {Q _} _.
Arguments api_redis_time {Q _} _.
Arguments api_seq {Q _} _.

(** What the reports and the list of workers read besides the stores above: the
    collection of model calls and the registry, which the workers write, and
    MongoDB's percentile and its sum of doubles. *)
Record Reporting (Q : Type) `{!Qdrant} := mkReporting {
  ob_percentile95 : list Z → option double;
  ob_sum : list double → double;
  ob_calls : ApiWorld Q → list AiRow;
  ob_registry : ApiWorld Q → RegistryWorld
}.
Arguments ob_percentile95 {Q _} _ _.
Arguments ob_sum {Q _} _ _.
Arguments ob_calls {Q _} _ _.
Arguments ob_registry {Q _} _ _.

Section app.
Context {Q : Type} `{!Dispatcher Q, !Jwt, !Bcrypt, !Qdrant, !Express}.
(** The configuration of the services. *)
Context (cfg : EngineConfig) (hash : string → string) (tc : TokenConfig) (bcryptCost : Z) (dummyHash : string)
        (deps : RagDeps).
(** zod, mongoose and cron-parser. *)
Context (issues_of : json → list Issue) (valid_id : string → option oid) (valid_email : string → bool).
Context (known_timezone : string → bool) (cron_error : string → string → option string)
        (next_slot : string → ms → string → ms).
(** The creation time of documents, by collection; what the reports and the list
    of workers read; the specification and the pages of [/docs]. *)
Context (createdAt : string → oid → ms).
Context (obs : Reporting Q) (openapiSpec : json)
        (swagger : HttpRequest → option ApiReply).
(** The checks of the dependencies as they answer now, and whether the process
    is shutting down. *)
Context (checks : list (string * promise unit)) (shuttingDown : bool).
(** [RATE_LIMIT_ENABLED], and the limits of body sizes. *)
Context (rateLimitEnabled : bool) (bodyLimit documentBodyLimit : string).

Notation W := (ApiWorld Q).
Notation api := (prog W).

Definition set_app (a : AppWorld Q) (w : W) : W :=
  mkApiWorld a (api_accounts w) (api_rag w) (api_windows w) (api_redis_up w) (api_redis_time w) (api_seq w).
Definition set_accounts (a : AccountWorld) (w : W) : W :=
  mkApiWorld (api_app w) a (api_rag w) (api_windows w) (api_redis_up w) (api_redis_time w) (api_seq w).
Definition set_rag (r : RagWorld) (w : W) : W :=
  mkApiWorld (api_app w) (api_accounts w) r (api_windows w) (api_redis_up w) (api_redis_time w) (api_seq w).
Definition set_window (key : string) (win : Window) (w : W) : W :=
  mkApiWorld (api_app w) (api_accounts w) (api_rag w) (<[key := win]> (api_windows w)) (api_redis_up w)
    (api_redis_time w) (api_seq w).
Definition next_seq (w : W) : W :=
  mkApiWorld (api_app w) (api_accounts w) (api_rag w) (api_windows w) (api_redis_up w) (api_redis_time w) (S (api_seq w)).

Definition app_call {A} (p : prog (AppWorld Q) A) : api A := zoom api_app set_app p.
Definition account_call {A} (p : prog AccountWorld A) : api A := zoom api_accounts set_accounts p.
(** The errors of libraries are not [AppError]s: the client sees a 500. *)
Definition rag_call {A} (m : rag A) : api A :=
  await (λ w, match m (api_rag w) with
              | (inr a, r) => (Ok a, set_rag r w)
              | (inl (AppError e), r) => (Exn e, set_rag r w)
              | (inl (Thrown _), r) => (Exn (PlainErr "RAG failed"), set_rag r w)
              end).

(** ** [createRateLimiters] *)

(** One limiter: [redis.eval], then the middleware. *)
Definition limiter_key (name who : string) : string := "wf:rl:" +:+ name +:+ ":" +:+ who.

Definition window_call (name who : string) (limit : nat) (windowMs : Z) (w : W) : option (bool * Z * Z) * W :=
  if api_redis_up w then
    let key := limiter_key name who in
    let '(reply, win) := SLIDING_WINDOW windowMs limit (api_seq w) (api_redis_time w)
                           (default empty_window (api_windows w !! key)) in
    (reply, next_seq (set_window key win w))
  else (None, next_seq w).

Definition rateLimit (name : string) (limit : nat) (windowMs : Z) (failClosed : bool) (who : option string) : api unit :=
  match who with
  | None | Some "" => Ret tt
  | Some k =>
      reply ← Atom (window_call name k limit windowMs) Ret;
      match rateLimitMiddleware failClosed who reply with Next => Ret tt | NextError e => Throw e end
  end.

(** *** The keys *)

Record ReqState := mkReqState { rs_parts : Request; rs_user : option Identity }.

Definition ip (req : HttpRequest) : string := default "unknown" (hr_ip req).
Definition email (st : ReqState) : string :=
  truncate 254 (toLowerCase (trim (js_String (nullish_or (rq_body (rs_parts st) ≫= prop "email") (JStr ""))))).
Definition user (st : ReqState) : option string := id_sub <$> rs_user st.

Definition MINUTE : Z := 60000.

Definition loginPerAccount (req : HttpRequest) (st : ReqState) : api unit :=
  rateLimit "login-acct" 5 (15 * MINUTE) true (Some (ip req +:+ ":" +:+ email st)).
Definition loginPerIp (req : HttpRequest) : api unit := rateLimit "login-ip" 20 (15 * MINUTE) true (Some (ip req)).
Definition rl_register (req : HttpRequest) : api unit := rateLimit "register" 5 (60 * MINUTE) true (Some (ip req)).
Definition rl_api (st : ReqState) : api unit := rateLimit "api" 300 MINUTE false (user st).
Definition rl_run (st : ReqState) : api unit := rateLimit "run" 60 MINUTE false (user st).
Definition rl_upload (st : ReqState) : api unit := rateLimit "upload" 20 (60 * MINUTE) false (user st).

(** ** Middleware and controllers *)

(** A limiter, unless limiting is off. *)
Definition limited (p : api unit) : api unit := if rateLimitEnabled then p else Ret tt.

(** [createAuthenticate], and with it the limit per user. *)
Definition mw_authenticate (req : HttpRequest) (st : ReqState) : api ReqState :=
  who ← account_call (Accounts.authenticate tc (hr_header req "authorization"));
  match who with
  | inr (err, _) => Throw err
  | inl who =>
      let st := mkReqState (rs_parts st) (Some who) in
      _ ← limited (rl_api st);
      Ret st
  end.

(** The permission check looks at the role only. *)
Definition role_of (who : Identity) : string := default "undefined" (id_role who).
Definition mw_require (permission : string) (req : HttpRequest) (st : ReqState) : api ReqState :=
  _ ← lift (requirePermission permission ((λ who, mkUser 0 (role_of who)) <$> rs_user st));
  Ret st.

Definition mw_limit (p : HttpRequest → ReqState → api unit) (req : HttpRequest) (st : ReqState) : api ReqState :=
  _ ← limited (p req st); Ret st.

(** [req.user] in a query: the id is cast to an ObjectId.  (The queries of an
    admin that select by nothing else than [_id] do not cast it; the ids in
    tokens are ObjectIds.) *)
Definition with_user {A} (st : ReqState) (k : User → api A) : api A :=
  match rs_user st with
  | None => Throw TypeErr
  | Some who =>
      match valid_id (id_sub who) with
      | Some i => k (mkUser i (role_of who))
      | None => Throw (PlainErr "Cast to ObjectId failed")
      end
  end.

Definition validated {P Q' B} (schemas : Schemas P Q' B) (st : ReqState) : api (Valid P Q' B) :=
  lift (validate schemas (rs_parts st)).

Definition reply (status : Z) (b : ApiBody) : api ApiReply := Ret (mkReply status b).
Definition user_body (i : oid) (u : UserDoc) : ApiBody := BodyUser i (us_email u) (us_role u).

(** *** [auth.controller.js] *)

Definition h_register (req : HttpRequest) (st : ReqState) : api ApiReply :=
  valid ← validated (registerSchema issues_of valid_email) st;
  match valid with
  | (_, _, Some (email, password)) =>
      created ← account_call (register bcryptCost email password);
      reply 201 (user_body created.1 created.2)
  | _ => Throw TypeErr
  end.

Definition h_login (req : HttpRequest) (st : ReqState) : api ApiReply :=
  valid ← validated (loginSchema issues_of valid_email) st;
  match valid with
  | (_, _, Some (email, password)) =>
      session ← account_call (login tc dummyHash email password);
      reply 200 (BodySession session.1 session.2)
  | _ => Throw TypeErr
  end.

Definition h_refresh (req : HttpRequest) (st : ReqState) : api ApiReply :=
  valid ← validated (refreshSchema issues_of) st;
  match valid with
  | (_, _, Some token) => ts ← account_call (refresh tc token); reply 200 (BodyTokens ts)
  | _ => Throw TypeErr
  end.

Definition h_logout (req : HttpRequest) (st : ReqState) : api ApiReply :=
  with_user st (λ u, _ ← account_call (logoutAll (u_id u)); reply 204 BodyNone).

Definition h_me (req : HttpRequest) (st : ReqState) : api ApiReply :=
  with_user st (λ u, d ← account_call (getUser (u_id u)); reply 200 (user_body (u_id u) d)).

Definition h_changeRole (req : HttpRequest) (st : ReqState) : api ApiReply :=
  valid ← validated (changeRoleSchema issues_of valid_id) st;
  match valid, rs_user st with
  | (Some target, _, Some role), Some who =>
      d ← account_call (changeRole (id_sub who) target role); reply 200 (user_body target d)
  | _, _ => Throw TypeErr
  end.

(** *** [workflow.controller.js] *)

(** Validate, then the service for the user. *)
Definition h_workflow {P Q' B A} (schemas : Schemas P Q' B) (c : User → Valid P Q' B → prog (AppWorld Q) A)
    (status : Z) (b : A → ApiBody) (req : HttpRequest) (st : ReqState) : api ApiReply :=
  valid ← validated schemas st;
  with_user st (λ u, a ← app_call (c u valid); reply status (b a)).

Definition h_create := h_workflow (createWorkflowSchema issues_of) c_create 201 BodyWorkflowId.
Definition h_validate (req : HttpRequest) (st : ReqState) : api ApiReply :=
  valid ← validated (createWorkflowSchema issues_of) st;
  r ← lift (c_validate valid);
  reply 200 (BodyGraph r).
Definition h_get := h_workflow (workflowIdSchema issues_of valid_id) c_get 200 BodyWorkflow.
Definition h_update := h_workflow (updateWorkflowSchema issues_of valid_id) c_update 200 BodyWorkflow.
Definition h_setSchedule := h_workflow (scheduleSchema issues_of valid_id)
  (c_setSchedule known_timezone cron_error next_slot) 200 BodyWorkflow.
Definition h_clearSchedule := h_workflow (workflowIdSchema issues_of valid_id) c_clearSchedule 200 BodyWorkflow.

(** *** [execution.controller.js] *)

Definition h_run (req : HttpRequest) (st : ReqState) : api ApiReply :=
  valid ← validated (runSchema issues_of valid_id) st;
  key ← lift (idempotency_key (hr_header req "idempotency-key"));
  match valid with
  | (Some i, _, Some input) =>
      with_user st (λ u,
        started ← app_call (run_workflow cfg hash u i input key);
        reply 202 (BodyRun started.1 started.2))
  | _ => Throw TypeErr
  end.

(** The action is the text after the last slash; any other text finds no
    operation. *)
Definition action_of (name : string) : option ACTION :=
  if bool_decide (name = "pause") then Some ACTION_pause
  else if bool_decide (name = "resume") then Some ACTION_resume
  else if bool_decide (name = "cancel") then Some ACTION_cancel
  else None.

Definition control_named (u : User) (i : oid) (name : string) : prog (AppWorld Q) (option WorkflowExecution) :=
  match action_of name with
  | Some a => control cfg u i a
  | None =>
      found ← read (λ w, own_execution u i (w_db (aw_world w)));
      match found with
      | None => Throw (NotFoundError "Execution not found")
      | Some _ => Throw TypeErr
      end
  end.

Definition h_control (req : HttpRequest) (st : ReqState) : api ApiReply :=
  let action := last_segment (hr_path req) in
  valid ← validated (executionIdSchema issues_of valid_id) st;
  match valid with
  | (Some i, _, _) =>
      with_user st (λ u, x ← app_call (control_named u i action); reply 200 (BodyExecution x))
  | _ => Throw TypeErr
  end.

Definition h_execution (req : HttpRequest) (st : ReqState) : api ApiReply :=
  valid ← validated (executionIdSchema issues_of valid_id) st;
  match valid with
  | (Some i, _, _) =>
      with_user st (λ u, xt ← app_call (get_execution u i); reply 200 (BodyExecutionTasks xt.1 xt.2))
  | _ => Throw TypeErr
  end.

(** *** [knowledge.routes.js] *)

Definition h_upload (req : HttpRequest) (st : ReqState) : api ApiReply :=
  valid ← validated (uploadSchema issues_of) st;
  match valid with
  | (_, _, Some up) =>
      with_user st (λ u,
        created ← rag_call (ingest deps (u_id u) (up_title up) (up_content up) (up_mimeType up));
        reply 201 (BodyDocumentId created.1))
  | _ => Throw TypeErr
  end.

Definition h_document (req : HttpRequest) (st : ReqState) : api ApiReply :=
  valid ← validated (executionIdSchema issues_of valid_id) st;
  match valid with
  | (Some i, _, _) =>
      with_user st (λ u,
        found ← Atom (λ w, (findOne i (λ d, ownerScope u (kd_ownerId d)) (rw_docs (api_rag w)), w)) Ret;
        match found with
        | None => Throw (NotFoundError "Document not found")
        | Some d => reply 200 (BodyDocument d)
        end)
  | _ => Throw TypeErr
  end.

Definition h_deleteDocument (req : HttpRequest) (st : ReqState) : api ApiReply :=
  valid ← validated (executionIdSchema issues_of valid_id) st;
  match valid with
  | (Some i, _, _) => with_user st (λ u, _ ← rag_call (deleteDocument deps (ownerScope u) i); reply 204 BodyNone)
  | _ => Throw TypeErr
  end.

Definition h_search (req : HttpRequest) (st : ReqState) : api ApiReply :=
  valid ← validated (searchSchema issues_of) st;
  match valid with
  | (_, _, Some (q, topK)) =>
      with_user st (λ u, hits ← rag_call (retrieve deps (u_id u) q (Z.to_nat topK)); reply 200 (BodyHits hits))
  | _ => Throw TypeErr
  end.

(** *** [approval.routes.js] *)

Definition h_approval (req : HttpRequest) (st : ReqState) : api ApiReply :=
  valid ← validated (executionIdSchema issues_of valid_id) st;
  match valid with
  | (Some i, _, _) =>
      with_user st (λ u,
        found ← Atom (λ w, (findOne i (λ p, ownerScope u (p_ownerId p))
                              (approvals (w_db (aw_world (api_app w)))), w)) Ret;
        match found with
        | None => Throw (NotFoundError "Approval not found")
        | Some p => reply 200 (BodyApproval (Some p))
        end)
  | _ => Throw TypeErr
  end.

Definition h_decide (d : DECISION) (req : HttpRequest) (st : ReqState) : api ApiReply :=
  valid ← validated (decideSchema issues_of valid_id) st;
  match valid with
  | (Some i, _, Some comment) =>
      with_user st (λ u, p ← app_call (decide_approval cfg u i d comment); reply 200 (BodyApproval p))
  | _ => Throw TypeErr
  end.

(** The lists. *)
Definition h_list (req : HttpRequest) (st : ReqState) : api ApiReply :=
  valid ← validated (listWorkflowsSchema issues_of) st;
  match valid with
  | (_, Some (limit, page), _) =>
      with_user st (λ u, p ← app_call (list_workflows createdAt u limit page); reply 200 (BodyWorkflows p))
  | _ => Throw TypeErr
  end.

Definition h_documents (req : HttpRequest) (st : ReqState) : api ApiReply :=
  with_user st (λ u, ds ← Atom (λ w, (list_documents createdAt u (api_rag w), w)) Ret; reply 200 (BodyDocuments ds)).

Definition h_approvals (req : HttpRequest) (st : ReqState) : api ApiReply :=
  valid ← validated (listApprovalsSchema issues_of) st;
  match valid with
  | (_, Some status, _) =>
      with_user st (λ u,
        ps ← Atom (λ w, (list_approvals createdAt u status (api_app w), w)) Ret; reply 200 (BodyApprovals ps))
  | _ => Throw TypeErr
  end.

(** *** [analytics.routes.js], [admin.routes.js] *)

(** A report in the window that the request asks for. *)
Definition h_report {A} (report : User → ms → api A) (body : A → ApiBody) (req : HttpRequest) (st : ReqState) : api ApiReply :=
  valid ← validated (windowSchema issues_of) st;
  match valid with
  | (_, Some days, _) =>
      with_user st (λ u,
        current ← Atom (λ w, (w_clock (aw_world (api_app w)), w)) Ret;
        r ← report u (fromDays current days);
        reply 200 (body r))
  | _ => Throw TypeErr
  end.

Definition ai_report (u : User) (from : ms) : api AiReport :=
  zoom (ob_calls obs) (λ _ w, w) (analytics_ai (ob_percentile95 obs) (ob_sum obs) u from).
Definition workflows_report (u : User) (from : ms) : api RunReport :=
  zoom (λ w, w_db (aw_world (api_app w))) (λ _ w, w)
    (analytics_workflows (ob_percentile95 obs) (createdAt "executions") u from).

Definition h_workers (req : HttpRequest) (st : ReqState) : api ApiReply :=
  rows ← zoom (ob_registry obs) (λ _ w, w) listWorkers;
  reply 200 (BodyWorkers rows).

Definition h_ready (req : HttpRequest) (st : ReqState) : api ApiReply :=
  let '(status, b) := get_ready checks shuttingDown in reply status (BodyReady b).
(** ** The layers, in the order of [createApp] *)

Definition mw : Type := HttpRequest → ReqState → api ReqState.
Definition handler : Type := HttpRequest → ReqState → api ApiReply.

Inductive layer : Type :=
| Use (prefixes : list string) (mws : list mw)
| Route (method pattern : string) (mws : list mw) (h : handler)
| Static (serve : HttpRequest → option ApiReply).

Definition auth_routes : list layer := [
  Route "POST" "/auth/register" [mw_limit (λ req _, rl_register req)] h_register;
  Route "POST" "/auth/login" [mw_limit (λ req _, loginPerIp req); mw_limit loginPerAccount] h_login;
  Route "POST" "/auth/refresh" [] h_refresh;
  Route "POST" "/auth/logout" [mw_authenticate] h_logout;
  Route "GET" "/auth/me" [mw_authenticate] h_me;
  Route "PATCH" "/users/:id/role" [mw_authenticate; mw_require USER_MANAGE] h_changeRole].

Definition workflow_routes : list layer := [
  Use ["/workflows"] [mw_authenticate];
  Route "POST" "/workflows" [mw_require WORKFLOW_CREATE] h_create;
  Route "POST" "/workflows/validate" [mw_require WORKFLOW_CREATE] h_validate;
  Route "GET" "/workflows" [mw_require WORKFLOW_READ] h_list;
  Route "GET" "/workflows/:id" [mw_require WORKFLOW_READ] h_get;
  Route "PUT" "/workflows/:id" [mw_require WORKFLOW_CREATE] h_update;
  Route "PUT" "/workflows/:id/schedule" [mw_require WORKFLOW_CREATE] h_setSchedule;
  Route "DELETE" "/workflows/:id/schedule" [mw_require WORKFLOW_CREATE] h_clearSchedule].

Definition control_route (action : string) : layer :=
  Route "POST" ("/executions/:id/" +:+ action) [mw_authenticate; mw_require WORKFLOW_RUN] h_control.

Definition execution_routes : list layer := [
  Route "POST" "/workflows/:id/run"
    [mw_authenticate; mw_limit (λ _ st, rl_run st); mw_require WORKFLOW_RUN] h_run;
  Route "GET" "/executions/:id" [mw_authenticate; mw_require WORKFLOW_READ] h_execution;
  control_route "pause"; control_route "resume"; control_route "cancel"].

Definition admin_routes : list layer := [
  Route "GET" "/workers" [mw_authenticate; mw_require USER_MANAGE] h_workers].

Definition knowledge_routes : list layer := [
  Use ["/documents"; "/knowledge"] [mw_authenticate];
  Route "POST" "/documents" [mw_require WORKFLOW_CREATE; mw_limit (λ _ st, rl_upload st)] h_upload;
  Route "GET" "/documents" [mw_require WORKFLOW_READ] h_documents;
  Route "GET" "/documents/:id" [mw_require WORKFLOW_READ] h_document;
  Route "DELETE" "/documents/:id" [mw_require WORKFLOW_CREATE] h_deleteDocument;
  Route "POST" "/knowledge/search" [mw_require WORKFLOW_READ] h_search].

Definition approval_routes : list layer := [
  Use ["/approvals"] [mw_authenticate];
  Route "GET" "/approvals" [mw_require WORKFLOW_READ] h_approvals;
  Route "GET" "/approvals/:id" [mw_require WORKFLOW_READ] h_approval;
  Route "POST" "/approvals/:id/approve" [mw_require APPROVAL_DECIDE] (h_decide APPROVED);
  Route "POST" "/approvals/:id/reject" [mw_require APPROVAL_DECIDE] (h_decide REJECTED)].

Definition analytics_routes : list layer := [
  Use ["/analytics"] [mw_authenticate; mw_require ANALYTICS_READ];
  Route "GET" "/analytics/ai" [] (h_report ai_report BodyAi);
  Route "GET" "/analytics/workflows" [] (h_report workflows_report BodyRuns)].

(** The uptime is left out. *)
Definition health_routes : list layer := [
  Route "GET" "/health" [] (λ _ _, reply 200 (BodyJson (JObj [("status", JStr "ok")])));
  Route "GET" "/ready" [] h_ready].

Definition docs_routes : list layer := [
  Route "GET" "/openapi.json" [] (λ _ _, reply 200 (BodyJson openapiSpec));
  Static swagger].

Definition layers : list layer :=
  (health_routes ++ docs_routes ++ auth_routes ++ workflow_routes ++ execution_routes ++ admin_routes ++
   knowledge_routes ++ approval_routes ++ analytics_routes)%list.

Fixpoint through (mws : list mw) (req : HttpRequest) (st : ReqState) : api ReqState :=
  match mws with
  | [] => Ret st
  | m :: mws => st ← m req st; through mws req st
  end.

Definition with_params (params : json) (st : ReqState) : ReqState :=
  mkReqState (mkRequest (Some params) (rq_query (rs_parts st)) (rq_body (rs_parts st))) (rs_user st).

(** A layer that takes the request answers, passes it on or raises; what no
    layer answers is not found. *)
Fixpoint dispatch (ls : list layer) (req : HttpRequest) (st : ReqState) : api ApiReply :=
  match ls with
  | [] => Throw (NotFoundError ("Route " +:+ hr_method req +:+ " " +:+ hr_path req +:+ " not found"))
  | Use prefixes mws :: ls =>
      if existsb (λ p, prefix_match p req) prefixes
      then st ← through mws req st; dispatch ls req st
      else dispatch ls req st
  | Route method pattern mws h :: ls =>
      match route_match method pattern req with
      | Some params => st ← through mws req (with_params params st); h req st
      | None => dispatch ls req st
      end
  | Static serve :: ls =>
      match serve req with Some r => Ret r | None => dispatch ls req st end
  end.

(** [errorHandler], when nothing has been sent. *)
Definition error_reply (err : raised) (id : string) : ApiReply :=
  match errorHandler err id false with
  | (Some r, _) => mkReply (rs_status r) (BodyError (rs_body r))
  | (None, _) => mkReply 0 BodyNone
  end.

(** Uploads of documents may be larger. *)
Definition body_limit (req : HttpRequest) : string :=
  if bool_decide (hr_method req = "POST") && bool_decide (hr_path req = "/documents")
  then documentBodyLimit else bodyLimit.

(** One request: its id, its body, the layers, the error handler. *)
Definition createApp (req : HttpRequest) (randomUUID : string) : api ApiReply :=
  let id := requestId (hr_header req "x-request-id") randomUUID in
  match express_json (body_limit req) req with
  | inl err => Ret (error_reply err id)
  | inr body =>
      catch (dispatch layers req (mkReqState (mkRequest None (hr_query req) body) None))
        (λ err, Ret (error_reply (RaisedExn err) id))
  end.
End app.
