(* ===== verification/AppProps.v ===== *)
(** * What a request can do

    Invariants of every step of every request, whatever other requests and
    processes do in between; what it takes to change anything; and how many
    passwords a client can try. *)

From Stdlib Require Import Sorting.Sorted.
From S2P Require Import Prelude Text Program Dag DagSpec Models Retry TaskRepo Dispatcher Engine TaskQueue Worker.
From S2P Require Import Double Providers Analytics Registry.
From S2P Require Import EngineProps RateLimit Access Services ServicesProps Accounts AccountsProps Structured Router RagText Rag RagProps Handlers Cron Http HttpProps Health Pages App.

Local Open Scope string_scope.

Section requests.
Context {Q : Type} `{dq : !Dispatcher Q, jw : !Jwt, bc : !Bcrypt, qd : !Qdrant, ql : !QdrantLaws, ex : !Express}.
Context (cfg : EngineConfig) (hash : string → string) (tc : TokenConfig) (bcryptCost : Z) (dummyHash : string)
        (deps : RagDeps).
Context (issues_of : json → list Issue) (valid_id : string → option oid) (valid_email : string → bool).
Context (known_timezone : string → bool) (cron_error : string → string → option string)
        (next_slot : string → ms → string → ms).
Context (createdAt : string → oid → ms).
Context (obs : Reporting Q) (openapiSpec : json)
        (swagger : HttpRequest → option ApiReply).
Context (checks : list (string * promise unit)) (shuttingDown : bool).
Context (rateLimitEnabled : bool) (bodyLimit documentBodyLimit : string).

Notation W := (ApiWorld Q).
Notation create_app := (createApp cfg hash tc bcryptCost dummyHash deps issues_of valid_id valid_email known_timezone
  cron_error next_slot createdAt obs openapiSpec swagger checks shuttingDown rateLimitEnabled bodyLimit documentBodyLimit).
Notation all_layers := (layers cfg hash tc bcryptCost dummyHash deps issues_of valid_id valid_email known_timezone
  cron_error next_slot createdAt obs openapiSpec swagger checks shuttingDown rateLimitEnabled).
Notation authenticate_mw := (mw_authenticate (Q := Q) tc rateLimitEnabled).

(** ** Steps of middleware and of controllers *)

Section steps.
(** What every step keeps, and what it may do to accounts, limiters and, when
    it only searches, to the vector store. *)
Context (I : W → Prop) (G : W → W → Prop) (safe : ∀ A, prog AccountWorld A → Prop) (limit_ok : string → Prop).
Hypothesis G_refl : ∀ w, I w → G w w.
Hypothesis account_ok : ∀ A (p : prog AccountWorld A), safe A p → steps_ok I G (account_call (Q := Q) p).
Hypothesis window_ok : ∀ name who limit windowMs w,
  limit_ok name → I w → I (window_call name who limit windowMs w).2 ∧ G w (window_call name who limit windowMs w).2.
Hypothesis rag_ok : ∀ A (m : rag A), calm m → steps_ok I G (rag_call (Q := Q) m).

(** A property of the state of a request. *)
Context (P : ReqState → Prop) (req : HttpRequest).

Definition mw_ok (m : mw) : Prop := ∀ st, P st → steps_spec I G P (m req st).
Definition handler_ok (h : handler) : Prop := ∀ st, P st → steps_ok I G (h req st).

Definition layer_ok (l : layer) : Prop :=
  match l with
  | Use _ mws => Forall mw_ok mws
  | Route method pattern mws h =>
      is_Some (route_match method pattern req) → ∀ st, P st → steps_ok I G (st ← through mws req st; h req st)
  | Static _ => True
  end.

Lemma through_ok mws st : Forall mw_ok mws → P st → steps_spec I G P (through mws req st).
Proof.
  intros Hm. revert st. induction Hm as [|m mws Hm _ IH]; intros st HP; [done|].
  cbn [through]. eapply steps_spec_bind; [by apply Hm|done].
Qed.

Lemma route_ok method pattern mws h : Forall mw_ok mws → handler_ok h → layer_ok (Route method pattern mws h).
Proof. intros Hm Hh _ st HP. eapply steps_ok_bind_spec; [by apply through_ok|done]. Qed.

Lemma dispatch_ok ls st :
  (∀ params st, P st → P (with_params params st)) → Forall layer_ok ls → P st → steps_ok I G (dispatch ls req st).
Proof.
  intros Hpar Hl. revert st. induction Hl as [|l ls Hl _ IH]; intros st HP; [done|].
  destruct l as [prefixes mws|method pattern mws h|serve]; cbn [dispatch].
  - destruct (existsb _ _); [|by apply IH]. eapply steps_ok_bind_spec; [by apply through_ok|done].
  - destruct (route_match _ _ _) as [params|] eqn:Hr; [|by apply IH]. apply Hl; [by eexists|apply Hpar, HP].
  - destruct (serve req); [done|by apply IH].
Qed.

(** *** Middleware *)

Lemma rateLimit_ok name limit windowMs failClosed who :
  limit_ok name → steps_ok I G (rateLimit (Q := Q) name limit windowMs failClosed who).
Proof.
  intros Hn. unfold rateLimit. destruct who as [[|c k]|]; [done| |done]. apply steps_ok_bind.
  - intros w Hw. by destruct (window_ok name (String c k) limit windowMs w Hn Hw).
  - intros r. by destruct (rateLimitMiddleware _ _ _).
Qed.

Lemma limited_ok (p : prog W unit) : steps_ok I G p → steps_ok I G (limited rateLimitEnabled p).
Proof. unfold limited. by destruct rateLimitEnabled. Qed.

Lemma mw_limit_ok p : (∀ st, steps_ok I G (p req st)) → mw_ok (mw_limit rateLimitEnabled p).
Proof.
  intros Hp st HP. unfold mw_limit. eapply (steps_spec_bind _ _ (λ _, True)); [|done].
  apply steps_spec_of_ok; [done|]. apply limited_ok, Hp.
Qed.

Lemma mw_require_ok permission : mw_ok (mw_require permission).
Proof.
  intros st HP. unfold mw_require. eapply (steps_spec_bind _ _ (λ _, True)); [|done].
  apply steps_spec_of_ok; [done|]. apply steps_ok_lift.
Qed.

(** *** Controllers *)

Lemma with_user_ok {A} st (k : User → prog W A) : (∀ u, steps_ok I G (k u)) → steps_ok I G (with_user valid_id st k).
Proof. intros Hk. unfold with_user. destruct (rs_user st); [|done]. destruct (valid_id _); [apply Hk|done]. Qed.

Lemma validated_ok {P' Q' B A} (schemas : Schemas P' Q' B) st (k : Valid P' Q' B → prog W A) :
  (∀ v, validate schemas (rs_parts st) = Ok v → steps_ok I G (k v)) → steps_ok I G (v ← validated schemas st; k v).
Proof. intros Hk. unfold validated. destruct (validate _ _) as [v|e]; [by apply Hk|done]. Qed.

Lemma read_ok {A} (f : W → A) (k : A → prog W ApiReply) :
  (∀ a, steps_ok I G (k a)) → steps_ok I G (a ← Atom (λ w, (f w, w)) Ret; k a).
Proof. intros Hk w Hw. cbn. split; [done|]. split; [by apply G_refl|apply Hk]. Qed.

Lemma account_reply {A} (p : prog AccountWorld A) status b :
  safe A p → steps_ok I G (a ← account_call p; reply (Q := Q) status (b a)).
Proof. intros Hp. apply steps_ok_bind; [by apply account_ok|done]. Qed.

Lemma h_report_ok {A} (report : User → ms → prog W A) body :
  (∀ u from, steps_ok I G (report u from)) → handler_ok (h_report issues_of valid_id report body).
Proof.
  intros Hr st HP. apply validated_ok. intros [[p [days|]] b] _; [|done]. apply with_user_ok. intros u.
  apply read_ok. intros current. by apply steps_ok_bind.
Qed.

(** A program that only looks at its part of the world. *)
Lemma looking_ok {V A} (get : W → V) (p : prog V A) :
  steps_ok (λ _, True) (λ _ _, True) p → steps_ok I G (zoom get (λ _ w, w) p).
Proof. intros Hp. eapply (steps_ok_zoom _ _ (λ _, True) (λ _ _, True)); [done| |exact Hp]. by intros; split; [|apply G_refl]. Qed.

Lemma ai_report_ok u from : steps_ok I G (ai_report obs u from).
Proof. apply looking_ok, steps_ok_any. Qed.
Lemma workflows_report_ok u from : steps_ok I G (workflows_report createdAt obs u from).
Proof. apply looking_ok, steps_ok_any. Qed.
Lemma h_workers_ok : handler_ok (h_workers obs).
Proof. intros st HP. apply steps_ok_bind; [|done]. apply looking_ok, steps_ok_any. Qed.

Lemma h_list_ok : handler_ok (h_list issues_of valid_id createdAt).
Proof.
  intros st HP. apply validated_ok. intros [[p [[limit page]|]] b] _; [|done]. apply with_user_ok. intros u.
  apply steps_ok_bind; [|done]. unfold app_call, list_workflows, read.
  intros w Hw. cbn. assert (set_app (api_app w) w = w) as -> by by destruct w.
  split; [done|]. split; [by apply G_refl|].
  intros w' Hw'. cbn. assert (set_app (api_app w') w' = w') as -> by by destruct w'.
  split; [done|]. split; [by apply G_refl|done].
Qed.

Lemma h_documents_ok : handler_ok (h_documents valid_id createdAt).
Proof. intros st HP. apply with_user_ok. intros u. by apply read_ok. Qed.

Lemma h_approvals_ok : handler_ok (h_approvals issues_of valid_id createdAt).
Proof.
  intros st HP. apply validated_ok. intros [[p [status|]] b] _; [|done]. apply with_user_ok. intros u. by apply read_ok.
Qed.

Lemma h_validate_ok : handler_ok (h_validate issues_of).
Proof.
  intros st HP. apply validated_ok. intros v _. apply steps_ok_bind; [apply steps_ok_lift|done].
Qed.

Lemma h_ready_ok : handler_ok (h_ready checks shuttingDown).
Proof. intros st HP. unfold h_ready. by destruct (get_ready _ _). Qed.

Lemma h_document_ok : handler_ok (h_document issues_of valid_id).
Proof.
  intros st HP. apply validated_ok. intros [[[i|] q] b] _; [|done]. apply with_user_ok. intros u.
  apply read_ok. by intros [d|].
Qed.

Lemma h_approval_ok : handler_ok (h_approval issues_of valid_id).
Proof.
  intros st HP. apply validated_ok. intros [[[i|] q] b] _; [|done]. apply with_user_ok. intros u.
  apply read_ok. by intros [p|].
Qed.

Lemma calm_retrieve o q k : calm (retrieve deps o q k).
Proof. unfold retrieve. apply calm_bind; [apply calm_embed|]. intros v. apply calm_bind; [apply calm_search|]. intros h. apply calm_ret. Qed.

Lemma h_search_ok : handler_ok (h_search deps issues_of valid_id).
Proof.
  intros st HP. apply validated_ok. intros [[p q] [[s k]|]] _; [|done]. apply with_user_ok. intros u.
  apply steps_ok_bind; [apply rag_ok, calm_retrieve|done].
Qed.

(** Reads of the application. *)
Lemma app_read_ok {A B} (f : AppWorld Q → A) (k : A → prog (AppWorld Q) B) :
  (∀ a, ∃ r, k a = lift r) → steps_ok I G (app_call (a ← read f; k a)).
Proof.
  intros Hk w Hw. cbn. assert (set_app (api_app w) w = w) as -> by by destruct w.
  split; [done|]. split; [by apply G_refl|]. destruct (Hk (f (api_app w))) as [[b|e] ->]; done.
Qed.

Lemma h_get_ok : handler_ok (h_get issues_of valid_id).
Proof.
  intros st HP. apply validated_ok. intros [[[i|] q] b] _; apply with_user_ok; intros u; [|done].
  apply steps_ok_bind; [|done]. apply app_read_ok. intros [s|]; [by exists (Ok s)|by eexists (Exn _)].
Qed.
Lemma h_execution_ok : handler_ok (h_execution issues_of valid_id).
Proof.
  intros st HP. apply validated_ok. intros [[[i|] q] b] _; [|done]. apply with_user_ok. intros u.
  apply steps_ok_bind; [|done]. intros w Hw. cbn. assert (set_app (api_app w) w = w) as -> by by destruct w.
  split; [done|]. split; [by apply G_refl|]. destruct (own_execution _ _ _); [|done].
  intros w' Hw'. cbn. assert (set_app (api_app w') w' = w') as -> by by destruct w'.
  split; [done|]. split; [by apply G_refl|done].
Qed.

(** *** Accounts *)

Lemma h_register_ok : (∀ e p, safe _ (register bcryptCost e p)) → handler_ok (h_register bcryptCost issues_of valid_email).
Proof. intros Hs st HP. apply validated_ok. intros [[p q] [[e w]|]] _; [|done]. by apply account_reply. Qed.

Lemma h_login_ok : (∀ e p, safe _ (login tc dummyHash e p)) → handler_ok (h_login tc dummyHash issues_of valid_email).
Proof. intros Hs st HP. apply validated_ok. intros [[p q] [[e w]|]] _; [|done]. by apply account_reply. Qed.

Lemma h_refresh_ok : (∀ t, safe _ (refresh tc t)) → handler_ok (h_refresh tc issues_of).
Proof. intros Hs st HP. apply validated_ok. intros [[p q] [t|]] _; [|done]. by apply account_reply. Qed.

Lemma h_logout_ok : (∀ i, safe _ (logoutAll i)) → handler_ok (h_logout valid_id).
Proof. intros Hs st HP. apply with_user_ok. intros u. by apply account_reply. Qed.

Lemma h_me_ok : (∀ i, safe _ (getUser i)) → handler_ok (h_me valid_id).
Proof. intros Hs st HP. apply with_user_ok. intros u. by apply account_reply. Qed.

Lemma h_changeRole_ok : (∀ a t r, safe _ (changeRole a t r)) → handler_ok (h_changeRole issues_of valid_id).
Proof.
  intros Hs st HP. apply validated_ok. intros [[[t|] q] [r|]] _; try done. destruct (rs_user st); [|done].
  by apply account_reply.
Qed.

(** [Acc]: what is known of an identity the header gives. *)
Lemma mw_authenticate_ok (Acc : Identity → Prop) :
  steps_spec I G (λ r, match r with inl who => Acc who | inr _ => True end)
    (account_call (Q := Q) (Accounts.authenticate tc (hr_header req "authorization"))) →
  (∀ st who, P st → Acc who → P (mkReqState (rs_parts st) (Some who))) →
  limit_ok "api" → mw_ok authenticate_mw.
Proof.
  intros Ha HP Hl st Hst. unfold mw_authenticate. eapply steps_spec_bind; [exact Ha|].
  intros [who|[e h]] Hwho; [|done]. eapply (steps_spec_bind _ _ (λ _, True)); [|by intros; apply HP].
  apply steps_spec_of_ok; [done|]. by apply limited_ok, rateLimit_ok.
Qed.
(** *** All layers *)

(** The controllers that write something other than an account. *)
Definition writes : list (string * handler) := [
  (WORKFLOW_CREATE, h_create issues_of valid_id);
  (WORKFLOW_CREATE, h_update issues_of valid_id);
  (WORKFLOW_CREATE, h_setSchedule issues_of valid_id known_timezone cron_error next_slot);
  (WORKFLOW_CREATE, h_clearSchedule issues_of valid_id);
  (WORKFLOW_CREATE, h_upload deps issues_of valid_id);
  (WORKFLOW_CREATE, h_deleteDocument deps issues_of valid_id);
  (WORKFLOW_RUN, h_run cfg hash issues_of valid_id);
  (WORKFLOW_RUN, h_control cfg issues_of valid_id);
  (APPROVAL_DECIDE, h_decide cfg issues_of valid_id APPROVED);
  (APPROVAL_DECIDE, h_decide cfg issues_of valid_id REJECTED)].

Definition login_route : layer (Q := Q) :=
  Route "POST" "/auth/login"
    [mw_limit rateLimitEnabled (λ req _, loginPerIp req); mw_limit rateLimitEnabled loginPerAccount]
    (h_login tc dummyHash issues_of valid_email).

Hypothesis auth_ok : mw_ok authenticate_mw.
Hypothesis limiters_ok : Forall limit_ok ["register"; "api"; "run"; "upload"].
Hypothesis writes_ok : ∀ permission h, (permission, h) ∈ writes → ∀ method pattern mws,
  Forall mw_ok mws → mw_require permission ∈ mws → layer_ok (Route method pattern mws h).
Hypothesis login_ok : layer_ok login_route.
Hypothesis safe_register : ∀ e p, safe _ (register bcryptCost e p).
Hypothesis safe_refresh : ∀ t, safe _ (refresh tc t).
Hypothesis safe_logout : ∀ i, safe _ (logoutAll i).
Hypothesis safe_get : ∀ i, safe _ (getUser i).
Hypothesis safe_role : ∀ a t r, safe _ (changeRole a t r).

Lemma limit_layer name limit windowMs failClosed who :
  name ∈ ["register"; "api"; "run"; "upload"] →
  mw_ok (mw_limit rateLimitEnabled (λ req st, rateLimit (Q := Q) name limit windowMs failClosed (who req st))).
Proof.
  intros Hn. apply mw_limit_ok. intros st. apply rateLimit_ok. by apply (proj1 (Forall_forall _ _) limiters_ok).
Qed.

Lemma limits_ok :
  mw_ok (mw_limit rateLimitEnabled (λ req _, rl_register req)) ∧
  mw_ok (mw_limit rateLimitEnabled (λ _ st, rl_run st)) ∧ mw_ok (mw_limit rateLimitEnabled (λ _ st, rl_upload st)).
Proof. split_and!; apply limit_layer; set_solver. Qed.

Ltac mws_ok := repeat first [apply Forall_nil_2 | apply Forall_cons_2; [by auto|]].
Ltac layer_ok_tac :=
  lazymatch goal with
  | |- layer_ok (Use _ _) => cbn [layer_ok]; mws_ok
  | |- layer_ok (Static _) => exact Logic.I
  | |- layer_ok (Route _ _ _ _) =>
      first
      [ exact login_ok
      | eapply writes_ok; [unfold writes; by repeat first [left | right]|mws_ok|by repeat first [left | right]]
      | apply route_ok; [mws_ok|];
        first [apply h_report_ok; (apply ai_report_ok || apply workflows_report_ok) | apply h_workers_ok | apply h_list_ok | apply h_documents_ok | apply h_approvals_ok | apply h_get_ok | apply h_execution_ok | apply h_document_ok | apply h_search_ok
          | apply h_approval_ok | apply h_validate_ok | apply h_ready_ok | by apply h_register_ok
          | by apply h_refresh_ok | by apply h_logout_ok | by apply h_me_ok | by apply h_changeRole_ok | by intros st HP] ]
  end.

Ltac layers_ok_tac := first [apply Forall_nil_2 | apply Forall_cons_2; [layer_ok_tac|layers_ok_tac]].

Lemma all_layers_ok : Forall layer_ok all_layers.
Proof.
  destruct limits_ok as (Hregister & Hrun & Hupload).
  assert (∀ p, mw_ok (mw_require p)) as Hreq by apply mw_require_ok.
  unfold layers, health_routes, docs_routes, auth_routes, workflow_routes, execution_routes, admin_routes,
    knowledge_routes, approval_routes, analytics_routes, control_route. cbn [Datatypes.app].
  assert (∀ p, Forall mw_ok [authenticate_mw; mw_require p]) as Hguard by (intros p; mws_ok).
  layers_ok_tac.
Qed.
End steps.

(** The controllers that write, where the programs of the application do what
    they may. *)
Section writing.
Context (I : W → Prop) (G : W → W → Prop) (safe_app : ∀ A, prog (AppWorld Q) A → Prop) (P : ReqState → Prop).
Hypothesis app_ok : ∀ A (p : prog (AppWorld Q) A), safe_app A p → steps_ok I G (app_call p).
Hypothesis rag_any : ∀ A (m : rag A), steps_ok I G (rag_call (Q := Q) m).
Hypothesis safe_create : ∀ u parts v, validate (createWorkflowSchema issues_of) parts = Ok v → safe_app _ (c_create u v).
Hypothesis safe_update : ∀ u parts v,
  validate (updateWorkflowSchema issues_of valid_id) parts = Ok v → safe_app _ (c_update u v).
Hypothesis safe_schedule : ∀ u v, safe_app _ (c_setSchedule known_timezone cron_error next_slot u v).
Hypothesis safe_clear : ∀ u v, safe_app _ (c_clearSchedule u v).
Hypothesis safe_run : ∀ u i input key, safe_app _ (run_workflow cfg hash u i input key).
Hypothesis safe_control : ∀ u i name, safe_app _ (control_named cfg u i name).
Hypothesis safe_decide : ∀ u i d c, safe_app _ (decide_approval cfg u i d c).

Lemma app_reply {A} (p : prog (AppWorld Q) A) status b :
  safe_app A p → steps_ok I G (a ← app_call p; reply (Q := Q) status (b a)).
Proof. intros Hp. apply steps_ok_bind; [by apply app_ok|done]. Qed.

Lemma writes_handlers_ok permission h req : (permission, h) ∈ writes → handler_ok I G P req h.
Proof.
  intros Hin st _. unfold writes in Hin.
  repeat (apply elem_of_cons in Hin as [[= _ ->]|Hin]); [..|by apply elem_of_nil in Hin]; apply validated_ok.
  - intros v Hv. apply with_user_ok. intros u. by eapply app_reply, safe_create.
  - intros v Hv. apply with_user_ok. intros u. by eapply app_reply, safe_update.
  - intros v _. apply with_user_ok. intros u. by apply app_reply.
  - intros v _. apply with_user_ok. intros u. by apply app_reply.
  - intros [[p q] [up|]] _; [|done]. apply with_user_ok. intros u. by apply steps_ok_bind.
  - intros [[[i|] q] b] _; [|done]. apply with_user_ok. intros u. by apply steps_ok_bind.
  - intros [[[i|] q] [input|]] _; (apply steps_ok_bind; [apply steps_ok_lift|]); intros key; try done.
    apply with_user_ok. intros u. by apply app_reply.
  - intros [[[i|] q] b] _; [|done]. apply with_user_ok. intros u. by apply app_reply.
  - intros [[[i|] q] [c|]] _; try done. apply with_user_ok. intros u. by apply app_reply.
  - intros [[[i|] q] [c|]] _; try done. apply with_user_ok. intros u. by apply app_reply.
Qed.
End writing.

(** A request is safe when its layers are. *)
Lemma create_app_ok (I : W → Prop) (G : W → W → Prop) (P : ReqState → Prop) req uuid :
  (∀ parts, P (mkReqState parts None)) → (∀ params st, P st → P (with_params params st)) →
  Forall (layer_ok I G P req) all_layers → steps_ok I G (create_app req uuid).
Proof.
  intros Hinit Hpar Hl. unfold createApp. destruct (express_json _ _) as [err|body]; [done|].
  apply steps_ok_catch; [|done]. by eapply dispatch_ok.
Qed.

Lemma window_call_cases name who limit windowMs (w : W) :
  ∃ key win, (window_call name who limit windowMs w).2 = next_seq w ∨
             (window_call name who limit windowMs w).2 = next_seq (set_window key win w).
Proof.
  unfold window_call. destruct (api_redis_up w); [|exists "", empty_window; by left].
  destruct (SLIDING_WINDOW _ _ _ _ _) as [r win]. do 2 eexists. by right.
Qed.

(** Where the accounts and the limiters do not matter. *)
Section elsewhere.
Context (I : W → Prop) (G : W → W → Prop).
Hypothesis G_refl : ∀ w, I w → G w w.
Hypothesis accounts_free : ∀ w a, I w → I (set_accounts a w) ∧ G w (set_accounts a w).
Hypothesis windows_free : ∀ w key win, I w →
  (I (next_seq w) ∧ G w (next_seq w)) ∧ I (next_seq (set_window key win w)) ∧ G w (next_seq (set_window key win w)).
Hypothesis rag_free : ∀ A (m : rag A), calm m → steps_ok I G (rag_call (Q := Q) m).

Lemma account_free A (p : prog AccountWorld A) : True → steps_ok I G (account_call (Q := Q) p).
Proof. intros _. eapply (steps_ok_zoom _ _ (λ _, True) (λ _ _, True)); [done| |apply steps_ok_any]. auto. Qed.

Lemma window_free name who limit windowMs w :
  True → I w → I (window_call name who limit windowMs w).2 ∧ G w (window_call name who limit windowMs w).2.
Proof.
  intros _ Hw. destruct (window_call_cases name who limit windowMs w) as (key & win & [-> | ->]);
    by destruct (windows_free w key win Hw) as (? & ? & ?).
Qed.

Lemma layers_elsewhere (P : ReqState → Prop) (req : HttpRequest) :
  mw_ok I G P req authenticate_mw →
  (∀ permission h, (permission, h) ∈ writes → ∀ method pattern mws,
    Forall (mw_ok I G P req) mws → mw_require permission ∈ mws → layer_ok I G P req (Route method pattern mws h)) →
  Forall (layer_ok I G P req) all_layers.
Proof.
  intros Ha Hw. apply (all_layers_ok I G (λ _ _, True) (λ _, True)); auto using account_free, window_free.
  apply route_ok.
  - repeat apply Forall_cons_2; [..|apply Forall_nil_2]; apply mw_limit_ok; intros st;
      by apply (rateLimit_ok I G (λ _, True) window_free).
  - apply (h_login_ok I G (λ _ _, True)); [exact account_free|done].
Qed.
End elsewhere.

(** ** Stored definitions can be run *)

Definition runnable_world (w : W) : Prop := all_runnable (api_app w).
Notation keeps := (steps_ok runnable_world (λ _ _, True)).

Lemma keeps_app_call {A} (p : prog (AppWorld Q) A) : steps_ok all_runnable (λ _ _, True) p → keeps (app_call p).
Proof. by apply steps_ok_zoom. Qed.

Lemma keeps_rag_call {A} (m : rag A) : keeps (rag_call (Q := Q) m).
Proof.
  apply steps_ok_await. intros w Hw. split; [|done].
  by destruct (m (api_rag w)) as [[[e|t]|a] r].
Qed.

Lemma keeps_control_named u i name : steps_ok all_runnable (λ _ _, True) (control_named cfg u i name).
Proof.
  unfold control_named. destruct (action_of _); [apply keeps_control|].
  apply steps_ok_bind; [apply keeps_read|]. by intros [x|].
Qed.

(** Requests, and other processes (which start, run and schedule workflows, and
    change of a definition at most its schedule). *)
Inductive request_api : prog W unit → Prop :=
| ra_request req uuid : request_api (_ ← create_app req uuid; Ret tt).

Definition api_env (w w' : W) : Prop := ∀ i s', aw_workflows (api_app w') !! i = Some s' →
  ∃ s, aw_workflows (api_app w) !! i = Some s ∧ sw_name s' = sw_name s ∧ sw_tasks s' = sw_tasks s.

(** C31: what the routes store can be run.  In every state that any number of
    requests reach, however they interleave, no stored definition has an empty
    or overlong name, no task or more than a hundred, a retry policy or a timeout
    out of bounds, duplicate keys, missing dependencies or a cycle. *)
Theorem stored_definitions_runnable (w0 w : W) (Hempty : aw_workflows (api_app w0) = ∅)
    (Hreach : reachable request_api api_env w0 w) :
  ∀ i s, aw_workflows (api_app w) !! i = Some s → runnable s.
Proof.
  change (runnable_world w). eapply (reachable_inv request_api api_env _ (λ _ _, True)); [| | |exact Hreach].
  - intros _ [req uuid]. apply steps_ok_bind; [|done]. apply (create_app_ok _ _ (λ _, True)); [done..|].
    apply layers_elsewhere; try done.
    + intros. apply keeps_rag_call.
    + apply (mw_authenticate_ok _ _ (λ _, True)) with (Acc := λ _, True);
        [by apply (window_free runnable_world (λ _ _, True))| |done..].
      apply steps_spec_of_ok; [by intros []|by apply account_free].
    + intros p h Hin m pat mws Hm _. apply route_ok; [done|].
      apply (writes_handlers_ok _ _ (λ _, steps_ok all_runnable (λ _ _, True)) _) with p;
        eauto using keeps_app_call, keeps_rag_call, keeps_c_create, keeps_c_update, keeps_c_setSchedule,
          keeps_c_clearSchedule, keeps_run_workflow, keeps_control_named, keeps_decide.
  - intros v v' He Hv. split; [|done]. intros i s' Hs'. destruct (He i s' Hs') as (s & Hs & Hn & Ht).
    destruct (Hv i s Hs) as (? & ? & ? & ?). unfold runnable. by rewrite Hn, Ht.
  - intros i s Hs. by rewrite Hempty in Hs.
Qed.

(** ** Who can change anything *)

(** The permissions that let a request change workflows, runs, approvals or
    documents. *)
Definition writing : list string := [WORKFLOW_CREATE; WORKFLOW_RUN; APPROVAL_DECIDE].

(** The header is accepted, at some time, as the identity [who]. *)
Definition accepted_as (header : option string) (who : Identity) : Prop :=
  ∃ a, (run (Accounts.authenticate tc header) a).1 = Ok (inl who).

(** Workflows, runs, tasks, approvals, documents and vectors stay as they are. *)
Definition untouched (w w' : W) : Prop := api_app w' = api_app w ∧ quiet (api_rag w) (api_rag w').

#[export] Instance untouched_preorder : PreOrder untouched.
Proof.
  split; [by intros w|]. intros w1 w2 w3 [H1 H2] [H3 H4]. split; [congruence|by etrans].
Qed.

Lemma steps_spec_authenticate (I : W → Prop) (G : W → W → Prop) header :
  (∀ w, I w → G w w) →
  steps_spec I G (λ r, match r with inl who => accepted_as header who | inr _ => True end)
    (account_call (Accounts.authenticate tc header)).
Proof.
  intros HG. unfold accepted_as. unfold Accounts.authenticate at 2.
  destruct (split (default "" header)) as [|scheme [|token rest]] eqn:Hs; [done..|].
  destruct (_ || _) eqn:Hb; [done|].
  intros w Hw. cbn. assert (set_accounts (api_accounts w) w = w) as -> by by destruct w.
  split; [done|]. split; [by apply HG|].
  destruct (verify_at token (accessSecret tc) "access" (ac_clock (api_accounts w))) as [c|e] eqn:Hv; [|done].
  cbn. exists (api_accounts w). unfold Accounts.authenticate. rewrite Hs, Hb. cbn. by rewrite Hv.
Qed.

(** A step that only a granted role gets to. *)
Lemma mw_require_refuses (I : W → Prop) (G : W → W → Prop) permission req st :
  (∀ who, rs_user st = Some who → hasPermission (role_of who) permission ≠ Ok true) →
  steps_spec (A := ReqState) I G (λ _, False) (mw_require permission req st).
Proof.
  intros Hno. unfold mw_require, requirePermission. destruct (rs_user st) as [who|]; [|done]. cbn.
  specialize (Hno who eq_refl). by destruct (hasPermission _ _) as [[]|e].
Qed.

Lemma through_refuses (I : W → Prop) (G : W → W → Prop) (P : ReqState → Prop) permission req mws st :
  (∀ st, P st → steps_spec (A := ReqState) I G (λ _, False) (mw_require permission req st)) →
  Forall (mw_ok I G P req) mws → mw_require permission ∈ mws → P st →
  steps_spec I G (λ _, False) (through mws req st).
Proof.
  intros Hno Hm. revert st. induction Hm as [|m mws Hm _ IH]; intros st Hin HP; [by apply elem_of_nil in Hin|].
  cbn [through]. apply elem_of_cons in Hin as [<-|Hin].
  - eapply steps_spec_bind; [by apply Hno|done].
  - eapply steps_spec_bind; [by apply Hm|]. intros st' HP'. by apply IH.
Qed.

(** C30: nobody changes anything without a role that grants it.  A request whose
    [Authorization] header is accepted for no identity with the permission to
    create, to run or to decide (so: no header, a forged or expired token, a
    viewer's token) leaves workflows, runs, tasks, approvals, documents and
    vectors as they are, at every step and however it interleaves with others. *)
Theorem unauthorised_requests_change_nothing (req : HttpRequest) (uuid : string)
    (Hno : ∀ who p, accepted_as (hr_header req "authorization") who → p ∈ writing →
       hasPermission (role_of who) p ≠ Ok true) :
  steps_ok (λ _, True) untouched (create_app req uuid) ∧
  ∀ w, untouched w (run (create_app req uuid) w).2.
Proof.
  assert (steps_ok (λ _, True) untouched (create_app req uuid)) as Hok.
  { set (P := λ st, ∀ who, rs_user st = Some who → accepted_as (hr_header req "authorization") who).
    apply (create_app_ok _ _ P); [done|done|]. apply layers_elsewhere; [done|done|done| | |].
    - intros A m Hm. apply steps_ok_await. intros w _. split; [done|]. specialize (Hm (api_rag w)).
      by destruct (m (api_rag w)) as [[[e|t]|a] r].
    - apply (mw_authenticate_ok _ _ (λ _, True)) with (Acc := accepted_as (hr_header req "authorization"));
        [by apply (window_free (λ _, True) untouched)| | |done].
      + by apply steps_spec_authenticate.
      + intros st who HP Hwho who' [= <-]. exact Hwho.
    - intros p h Hin m pat mws Hm Hreq _ st HP.
      apply (steps_ok_bind_spec _ _ (λ _, False)); [|by intros st' []]. eapply (through_refuses _ _ P p); [|done..].
      intros st' HP'. apply mw_require_refuses. intros who Hwho. apply Hno; [by apply HP'|].
      unfold writes in Hin. unfold writing. set_solver. }
  split; [exact Hok|]. intros w.
  apply (steps_ok_run (untouched w) (λ _ _, True)); [|done].
  apply (steps_ok_impl (λ _, True) untouched); [done| |exact Hok].
  intros w1 w2 H1 [_ H2]. split; [by etrans|done].
Qed.

(** ** How many passwords can be tried *)

(** A program on accounts that compares no password. *)
Definition no_compare (A : Type) (p : prog AccountWorld A) : Prop :=
  steps_ok (λ _, True) (λ w w', ac_compares w' = ac_compares w) p.

Lemma no_compare_register e p : no_compare _ (register bcryptCost e p).
Proof.
  apply steps_ok_bind; [by intros w _|]. intros h. apply steps_ok_catch; [|intros err; by destruct (is_duplicate_key err)].
  apply steps_ok_await. intros w _. split; [done|]. destruct (_ || _); [done|]. by destruct (bool_decide _).
Qed.

Lemma no_compare_issue i u : no_compare _ (issueTokens tc i u).
Proof. by intros w _; split; [done|]; split; [done|]; intros w' _. Qed.

Lemma no_compare_verify t s e : no_compare _ (verify t s e).
Proof. by apply steps_ok_await. Qed.

Lemma no_compare_refresh t : no_compare _ (refresh tc t).
Proof.
  apply steps_ok_bind; [apply no_compare_verify|]. intros c. apply steps_ok_bind; [by intros w _|].
  intros [[i u]|]; [|done]. destruct (bool_decide _); [done|apply no_compare_issue].
Qed.

Lemma no_compare_update i f : no_compare _ (User_update i f).
Proof. intros w _. cbn. by destruct (ac_users w !! i). Qed.

Lemma no_compare_logout i : no_compare _ (logoutAll i).
Proof. apply steps_ok_bind; [apply no_compare_update|done]. Qed.

Lemma no_compare_get i : no_compare _ (getUser i).
Proof. apply steps_ok_bind; [by intros w _|]. by intros [u|]. Qed.

Lemma no_compare_role a t r : no_compare _ (changeRole a t r).
Proof.
  unfold changeRole, no_compare. destruct (bool_decide _); [done|]. destruct (negb _); [done|].
  apply steps_ok_bind; [apply no_compare_update|]. by intros [u|].
Qed.

Lemma no_compare_authenticate h : no_compare _ (Accounts.authenticate tc h).
Proof.
  unfold Accounts.authenticate. destruct (split _) as [|scheme [|token rest]]; [done..|].
  destruct (_ || _); [done|]. apply steps_ok_catch; [|done]. apply steps_ok_bind; [apply no_compare_verify|done].
Qed.

(** *** Requests that are no sign-in *)

Section still.
(** A sorted set of one of the two limiters of sign-in, the comparisons so far,
    and the least number a new request can get. *)
Context (key : string) (x : option Window) (c s : nat).
Hypothesis key_login : ∃ who, key = limiter_key "login-acct" who ∨ key = limiter_key "login-ip" who.

Definition still (w : W) : Prop :=
  api_windows w !! key = x ∧ ac_compares (api_accounts w) = c ∧ (s ≤ api_seq w)%nat.

Lemma other_limiters name who : name ∈ ["register"; "api"; "run"; "upload"] → limiter_key name who ≠ key.
Proof.
  intros Hn. destruct key_login as [k [-> | ->]]; unfold limiter_key;
    (repeat (apply elem_of_cons in Hn as [->|Hn]); [intros Heq; cbn in Heq; discriminate Heq..|by apply elem_of_nil in Hn]).
Qed.

Lemma still_window name who limit windowMs w : name ∈ ["register"; "api"; "run"; "upload"] →
  still w → still (window_call name who limit windowMs w).2 ∧ True.
Proof.
  intros Hn (Hx & Hc & Hs). split; [|done]. unfold window_call. destruct (api_redis_up w); cbn; [|split_and!; [done..|cbn; lia]].
  destruct (SLIDING_WINDOW _ _ _ _ _) as [r win]. cbn. split_and!; [|done|cbn; lia].
  cbn. by rewrite lookup_insert_ne by by apply other_limiters.
Qed.

Lemma still_account A (p : prog AccountWorld A) : no_compare A p → steps_ok still (λ _ _, True) (account_call (Q := Q) p).
Proof.
  intros Hp. eapply (steps_ok_zoom _ _ (λ _, True)); [done| |exact Hp].
  intros w a (Hx & Hc & Hs) _ Ha. split; [|done]. split_and!; cbn; [done|congruence|done].
Qed.

Lemma still_rag A (m : rag A) : steps_ok still (λ _ _, True) (rag_call (Q := Q) m).
Proof. apply steps_ok_await. intros w Hw. split; [|done]. by destruct (m (api_rag w)) as [[[e|t]|a] r]. Qed.

Lemma still_app A (p : prog (AppWorld Q) A) : True → steps_ok still (λ _ _, True) (app_call p).
Proof. intros _. by eapply (steps_ok_zoom _ _ (λ _, True) (λ _ _, True)); [| |apply steps_ok_any]. Qed.

(** Everything but a sign-in leaves all three alone. *)
Lemma still_request req uuid :
  route_match "POST" "/auth/login" req = None → steps_ok still (λ _ _, True) (create_app req uuid).
Proof.
  intros Hno. apply (create_app_ok _ _ (λ _, True)); [done..|].
  apply (all_layers_ok still (λ _ _, True) no_compare (λ n, n ∈ ["register"; "api"; "run"; "upload"]));
    auto using still_account, still_rag, no_compare_register, no_compare_refresh, no_compare_logout, no_compare_get, no_compare_role.
  - intros. by apply still_window.
  - apply (mw_authenticate_ok _ _ (λ n, n ∈ ["register"; "api"; "run"; "upload"])) with (Acc := λ _, True);
      [intros; by apply still_window| |done|set_solver].
    apply steps_spec_of_ok; [by intros []|]. apply still_account, no_compare_authenticate.
  - by apply Forall_forall.
  - intros p h Hin m pat mws Hm _. apply route_ok; [done|].
    by apply (writes_handlers_ok _ _ (λ _ _, True) _ still_app still_rag) with p.
  - intros [? Hr]. congruence.
Qed.
End still.

(** *** A sign-in *)

Lemma run_account_call {A} (p : prog AccountWorld A) (w : W) :
  run (account_call p) w = let '(r, a) := run p (api_accounts w) in (r, set_accounts a w).
Proof. apply run_zoom; [done..|by intros []]. Qed.

(** A limiter that refuses when Redis is down: one step of its own sorted set,
    and the request goes on only if the script accepted it. *)
Lemma run_limiter name limit windowMs who (w : W) :
  who ≠ "" → ∃ r w', run (rateLimit (Q := Q) name limit windowMs true (Some who)) w = (r, w') ∧
    api_accounts w' = api_accounts w ∧ api_redis_time w' = api_redis_time w ∧ api_seq w' = S (api_seq w) ∧
    (∀ k, k ≠ limiter_key name who → api_windows w' !! k = api_windows w !! k) ∧
    ((r ≠ Ok tt ∧ api_windows w' = api_windows w) ∨
     ∃ reply win, SLIDING_WINDOW windowMs limit (api_seq w) (api_redis_time w)
         (default empty_window (api_windows w !! limiter_key name who)) = (reply, win) ∧
       api_windows w' !! limiter_key name who = Some win ∧
       (r = Ok tt → ∃ remaining after, reply = Some (true, remaining, after))).
Proof.
  intros Hwho. destruct who as [|ch who]; [done|]. unfold rateLimit. rewrite run_bind. cbn [run].
  assert (∀ reply v, run (match rateLimitMiddleware true (Some (String ch who)) reply with
      Next => Ret tt | NextError e => Throw e end) v =
      (match reply with Some (true, _, _) => Ok tt | Some (false, _, after) => Exn (too_many (retry_seconds after))
       | None => Exn (AppErr 503 "RATE_LIMITER_UNAVAILABLE" "Temporarily unavailable, try again shortly" JNull) end, v : W)) as Hmw.
  { intros [[[[] remaining] after]|] v; done. }
  unfold window_call. destruct (api_redis_up w).
  - destruct (SLIDING_WINDOW _ _ _ _ _) as [reply win] eqn:Hs. rewrite Hmw. do 2 eexists. split; [done|].
    cbn. split_and!; [done..| |].
    + intros k Hk. by rewrite lookup_insert_ne.
    + right. exists reply, win. split; [done|]. split; [by rewrite lookup_insert_eq|].
      destruct reply as [[[[] remaining] after]|]; [by eauto|done..].
  - rewrite Hmw. do 2 eexists. split; [done|]. cbn. split_and!; [done..|]. by left.
Qed.

(** The address a sign-in is for. *)
Definition login_email (req : HttpRequest) : option string :=
  match express_json (body_limit bodyLimit documentBodyLimit req) req with
  | inr body => fst <$> loginBody valid_email (Some (match body with None | Some JNull => JObj [] | Some v => v end))
  | inl _ => None
  end.

Lemma substring_all s n : (String.length s ≤ n)%nat → String.substring 0 n s = s.
Proof.
  revert n. induction s as [|ch s IH]; intros n Hn; [by destruct n|].
  cbn in Hn. destruct n as [|n]; [lia|]. cbn. by rewrite IH by lia.
Qed.

(** The limiter and the service read the same address. *)
Lemma limiter_reads_login_email st parts e :
  rs_parts st = parts →
  loginBody valid_email (Some (match rq_body parts with None | Some JNull => JObj [] | Some v => v end)) = Some e →
  email st = e.1.
Proof.
  intros Hparts (a & Ha & (pw & _ & [= <-])%bind_Some)%bind_Some. unfold email. rewrite Hparts. cbn [fst].
  destruct (rq_body parts) as [v|] eqn:Hb; [|done]. cbn [mbind option_bind] in *.
  unfold read_email in Ha. apply bind_Some in Ha as (s & Hs & Ha). destruct (_ && _) eqn:Hok in Ha; [|done].
  injection Ha as <-. apply andb_true_iff in Hok as [_ Hlen%Nat.leb_le].
  assert (prop "email" v = Some (JStr s)) as ->.
  { destruct v as [| | | | |fs]; cbn in Hs; try done. cbn. destruct (field "email" fs) as [[]|]; try done.
    cbn in Hs. by injection Hs as ->. }
  by apply substring_all.
Qed.

(** What a sign-in does after the limiters. *)
Lemma run_h_login req st (w : W) : ∃ a, (run (h_login tc dummyHash issues_of valid_email req st) w).2 = set_accounts a w ∧
  (ac_compares a ≠ ac_compares (api_accounts w) →
   ∃ e, loginBody valid_email (Some (match rq_body (rs_parts st) with None | Some JNull => JObj [] | Some v => v end)) = Some e).
Proof.
  assert (w = set_accounts (api_accounts w) w) as Hself by by destruct w.
  unfold h_login, validated. rewrite run_bind, run_lift.
  destruct (validate _ _) as [[[p q] b]|err] eqn:Hv; [|by exists (api_accounts w)].
  destruct b as [[e pw]|]; [|by exists (api_accounts w)]. rewrite run_bind, run_account_call.
  destruct (run (login tc dummyHash e pw) (api_accounts w)) as [[r|err] a]; exists a; (split; [done|]; intros _).
  all: apply validate_parts in Hv as (_ & _ & Hb); unfold validate_part in Hb; cbn in Hb; exists (e, pw);
    destruct (loginBody _ _) as [v|]; [by injection Hb as ->|done].
Qed.

Context (limiting : rateLimitEnabled = true).

Notation login_program req st :=
  (st' ← through [mw_limit rateLimitEnabled (λ req _, loginPerIp req); mw_limit rateLimitEnabled loginPerAccount] req st;
   h_login tc dummyHash issues_of valid_email req st').

Lemma run_mw_limit p req st (w : W) :
  run (mw_limit rateLimitEnabled p req st) w =
  match run (p req st) w with (Ok _, w') => (Ok st, w') | (Exn e, w') => (Exn e, w') end.
Proof. unfold mw_limit, limited. rewrite limiting, run_bind. by destruct (run (p req st) w) as [[]]. Qed.

(** First the limiter of the client, then that of the client and the account,
    then the password. *)
Lemma run_login_program req st (w : W) :
  ∃ r1 w1, run (loginPerIp req) w = (r1, w1) ∧
    ((r1 ≠ Ok tt ∧ (run (login_program req st) w).2 = w1) ∨
     r1 = Ok tt ∧ ∃ r2 w2, run (loginPerAccount req st) w1 = (r2, w2) ∧
       ((r2 ≠ Ok tt ∧ (run (login_program req st) w).2 = w2) ∨
        r2 = Ok tt ∧ (run (login_program req st) w).2 = (run (h_login tc dummyHash issues_of valid_email req st) w2).2)).
Proof.
  rewrite run_bind. cbn [through]. rewrite run_bind, run_mw_limit.
  destruct (run (loginPerIp req) w) as [[[]|e] w1]; do 2 eexists; (split; [done|]); [right; split; [done|]|by left].
  rewrite run_bind, run_mw_limit. destruct (run (loginPerAccount req st) w1) as [[[]|e] w2]; do 2 eexists;
    (split; [done|]); [by right|by left].
Qed.

(** *** One request, as a limiter sees it *)

Definition counted (key : string) (limit : nat) (counts : Prop) (w w' : W) : Prop :=
  (api_seq w ≤ api_seq w')%nat ∧
  ((api_windows w' !! key = api_windows w !! key ∧
    (counts → ac_compares (api_accounts w') = ac_compares (api_accounts w))) ∨
   ∃ u reply win, (api_seq w ≤ u < api_seq w')%nat ∧
     SLIDING_WINDOW (15 * MINUTE) limit u (api_redis_time w) (default empty_window (api_windows w !! key)) = (reply, win) ∧
     api_windows w' !! key = Some win ∧
     (counts → ac_compares (api_accounts w') ≠ ac_compares (api_accounts w) →
      ∃ remaining after, reply = Some (true, remaining, after))).

Lemma still_counted {A} key limit counts (p : prog W A) w :
  steps_ok (still key (api_windows w !! key) (ac_compares (api_accounts w)) (api_seq w)) (λ _ _, True) p →
  counted key limit counts w (run p w).2.
Proof.
  intros Hp. destruct (steps_ok_run _ _ p w Hp) as (H1 & H2 & H3); [by split_and!|]. split; [done|]. by left.
Qed.

Lemma counted_impl key limit (counts counts' : Prop) w w' :
  (counts' → counts) → counted key limit counts w w' → counted key limit counts' w w'.
Proof.
  intros Himp [Hs [[Hw Hc]|(u & reply & win & Hu & Hscript & Hwin & Hok)]]; (split; [done|]); [left; by auto|].
  right. exists u, reply, win. repeat (split; [done|]). auto.
Qed.

(** The key of a client and an account. *)
Definition account_key (address account : string) : string := limiter_key "login-acct" (address +:+ ":" +:+ account).
Definition client_key (address : string) : string := limiter_key "login-ip" address.

Lemma keys_differ a b : limiter_key "login-acct" a ≠ limiter_key "login-ip" b.
Proof. unfold limiter_key. intros Heq. discriminate Heq. Qed.

Lemma append_nonempty a b : a +:+ (":" +:+ b) ≠ "".
Proof. by destruct a. Qed.

Lemma run_loginPerAccount req st (w : W) : ∃ r w', run (loginPerAccount req st) w = (r, w') ∧
    api_accounts w' = api_accounts w ∧ api_redis_time w' = api_redis_time w ∧ api_seq w' = S (api_seq w) ∧
    (∀ k, k ≠ account_key (ip req) (email st) → api_windows w' !! k = api_windows w !! k) ∧
    ((r ≠ Ok tt ∧ api_windows w' = api_windows w) ∨
     ∃ reply win, SLIDING_WINDOW (15 * MINUTE) 5 (api_seq w) (api_redis_time w)
         (default empty_window (api_windows w !! account_key (ip req) (email st))) = (reply, win) ∧
       api_windows w' !! account_key (ip req) (email st) = Some win ∧
       (r = Ok tt → ∃ remaining after, reply = Some (true, remaining, after))).
Proof. apply run_limiter, append_nonempty. Qed.

Lemma run_loginPerIp req (w : W) : ∃ r w', run (loginPerIp req) w = (r, w') ∧
    api_accounts w' = api_accounts w ∧ api_redis_time w' = api_redis_time w ∧ (api_seq w ≤ api_seq w')%nat ∧
    (∀ k, k ≠ client_key (ip req) → api_windows w' !! k = api_windows w !! k) ∧
    (ip req ≠ "" → api_seq w' = S (api_seq w) ∧ ((r ≠ Ok tt ∧ api_windows w' = api_windows w) ∨
     ∃ reply win, SLIDING_WINDOW (15 * MINUTE) 20 (api_seq w) (api_redis_time w)
         (default empty_window (api_windows w !! client_key (ip req))) = (reply, win) ∧
       api_windows w' !! client_key (ip req) = Some win ∧
       (r = Ok tt → ∃ remaining after, reply = Some (true, remaining, after)))).
Proof.
  destruct (decide (ip req = "")) as [Hip|Hip].
  - exists (Ok tt), w. unfold loginPerIp. by rewrite Hip.
  - destruct (run_limiter "login-ip" 20 (15 * MINUTE) (ip req) w Hip) as (r & w' & H1 & H2 & H3 & H4 & H5 & H6).
    exists r, w'. split_and!; [done..|lia|done|done].
Qed.

(** The state in which a request reaches its route. *)
Definition parsed (req : HttpRequest) (st : ReqState) : Prop :=
  express_json (body_limit bodyLimit documentBodyLimit req) req = inr (rq_body (rs_parts st)).

Lemma parsed_email req st e : parsed req st →
  loginBody valid_email (Some (match rq_body (rs_parts st) with None | Some JNull => JObj [] | Some v => v end)) = Some e →
  login_email req = Some e.1 ∧ email st = e.1.
Proof.
  intros Hp He. split; [|by eapply limiter_reads_login_email]. unfold login_email. rewrite Hp.
  by rewrite He.
Qed.

Lemma login_counted_account req st (w : W) address account : parsed req st →
  counted (account_key address account) 5 (ip req = address ∧ login_email req = Some account) w
    (run (login_program req st) w).2.
Proof.
  intros Hp. destruct (run_login_program req st w) as (r1 & w1 & Hr1 & Hrest).
  destruct (run_loginPerIp req w) as (r & v & Hr & Ha1 & Ht1 & Hs1 & Hw1 & _). rewrite Hr1 in Hr. injection Hr as <- <-.
  assert (api_windows w1 !! account_key address account = api_windows w !! account_key address account) as Hk1
    by apply Hw1, keys_differ.
  destruct Hrest as [[_ ->]|[_ (r2 & w2 & Hr2 & Hrest)]].
  { split; [done|]. left. split; [done|]. by rewrite Ha1. }
  destruct (run_loginPerAccount req st w1) as (r & v & Hr & Ha2 & Ht2 & Hs2 & Hw2 & Hstep).
  rewrite Hr2 in Hr. injection Hr as <- <-. rewrite Ht1 in Hstep.
  destruct (run_h_login req st w2) as (a & Ha & Hcmp).
  set (K := account_key address account) in *.
  assert (∃ a', (run (login_program req st) w).2 = set_accounts a' w2 ∧
    (ac_compares a' ≠ ac_compares (api_accounts w) → r2 = Ok tt ∧ ∃ e, login_email req = Some e ∧ email st = e)) as (a' & -> & Hc).
  { destruct Hrest as [[_ ->]|[-> ->]]; [exists (api_accounts w2); split; [by destruct w2|]; by rewrite Ha2, Ha1|].
    exists a. split; [done|]. rewrite <- Ha1, <- Ha2. intros (e & He)%Hcmp. split; [done|].
    exists e.1. by eapply parsed_email. }
  split; [cbn; lia|]. cbn [api_windows api_accounts api_seq set_accounts].
  destruct (decide (K = account_key (ip req) (email st))) as [HK|HK].
  - rewrite <- HK, Hk1 in Hstep. destruct Hstep as [[Hbad Hsame]|(reply & win & Hstep & Hwin & Hok)].
    + left. split; [by rewrite Hsame|]. intros _. destruct (decide (ac_compares a' = ac_compares (api_accounts w))); [done|].
      by destruct Hc as [? _].
    + right. exists (api_seq w1), reply, win. split_and!; [lia|lia|done|done|]. by intros _ [? _]%Hc; apply Hok.
  - left. split; [by rewrite Hw2|]. intros [Hip Hem].
    destruct (decide (ac_compares a' = ac_compares (api_accounts w))) as [|Hne]; [done|].
    destruct (Hc Hne) as (_ & e & He & Hst). destruct HK. unfold K. congruence.
Qed.

Lemma login_counted_client req st (w : W) address : address ≠ "" →
  counted (client_key address) 20 (ip req = address) w (run (login_program req st) w).2.
Proof.
  intros Hne. destruct (run_login_program req st w) as (r1 & w1 & Hr1 & Hrest).
  destruct (run_loginPerIp req w) as (r & v & Hr & Ha1 & Ht1 & Hs1 & Hw1 & Hstep). rewrite Hr1 in Hr. injection Hr as <- <-.
  set (K := client_key address) in *.
  assert (∃ w2 : W, api_windows w2 !! K = api_windows w1 !! K ∧ (api_seq w1 ≤ api_seq w2)%nat ∧
    api_windows (run (login_program req st) w).2 = api_windows w2 ∧ api_seq (run (login_program req st) w).2 = api_seq w2 ∧
    (ac_compares (api_accounts (run (login_program req st) w).2) ≠ ac_compares (api_accounts w) → r1 = Ok tt))
    as (w2 & Hk2 & Hs2 & Hwin2 & Hseq2 & Hc).
  { destruct Hrest as [[_ ->]|[-> (r2 & w2 & Hr2 & Hrest)]]; [exists w1; split_and!; try done; by rewrite Ha1|].
    destruct (run_loginPerAccount req st w1) as (r & v & Hr & Ha2 & _ & Hs2 & Hw2 & _).
    rewrite Hr2 in Hr. injection Hr as <- <-. exists w2.
    split; [apply Hw2; intros Heq; symmetry in Heq; by apply keys_differ in Heq|]. split; [lia|].
    destruct Hrest as [[_ ->]|[-> ->]]; [done|].
    destruct (run_h_login req st w2) as (a & -> & _). done. }
  split; [lia|]. rewrite Hwin2, Hk2, Hseq2.
  destruct (decide (ip req = address)) as [Hip|Hip].
  - destruct Hstep as [Hs Hstep]; [by rewrite Hip|]. rewrite Hip in Hstep.
    destruct Hstep as [[Hbad Hsame]|(reply & win & Hstep & Hwin & Hok)].
    + left. rewrite Hsame. split; [done|]. intros _.
      destruct (decide (ac_compares (api_accounts (run (login_program req st) w).2) = ac_compares (api_accounts w))); [done|].
      by destruct Hbad; apply Hc.
    + right. exists (api_seq w), reply, win. split_and!; [lia|lia|done|done|]. by intros _ ?%Hc; apply Hok.
  - left. split; [|done]. apply Hw1. unfold K, client_key, limiter_key. intros Heq.
    apply Hip. symmetry. by do 3 apply (inj (String.app _)) in Heq.
Qed.

Lemma dispatch_login req st params :
  route_match "POST" "/auth/login" req = Some params →
  (∀ key x c s, (∃ who, key = limiter_key "login-acct" who ∨ key = limiter_key "login-ip" who) →
     steps_ok (still key x c s) (λ _ _, True) (dispatch all_layers req st)) ∨
  dispatch all_layers req st = login_program req (with_params params st).
Proof.
  intros Hlogin. unfold layers, health_routes, docs_routes, auth_routes. cbn [Datatypes.app dispatch through].
  destruct (route_match "GET" "/health" req); [left; intros; exact Logic.I|].
  destruct (route_match "GET" "/ready" req).
  { left. intros. by apply (h_ready_ok _ _ (λ _, True)). }
  destruct (route_match "GET" "/openapi.json" req); [left; intros; exact Logic.I|].
  destruct (swagger req); [left; intros; exact Logic.I|].
  destruct (route_match "POST" "/auth/register" req) as [ps|].
  - left. intros key x c s Hkey. apply steps_ok_bind.
    + apply steps_ok_bind; [|done]. apply steps_ok_bind; [|done].
      apply limited_ok, (rateLimit_ok _ _ (λ n, n ∈ ["register"; "api"; "run"; "upload"])); [|set_solver].
      intros. by apply still_window.
    + intros st'. apply (h_register_ok _ _ no_compare) with (P := λ _, True);
        [apply still_account|apply no_compare_register|done].
  - right. by rewrite Hlogin.
Qed.

(** A request takes at most one step of each limiter's set, and compares a
    password only if that step accepted it. *)
Lemma request_counted req uuid (w : W) address account :
  let w' := (run (create_app req uuid) w).2 in
  counted (account_key address account) 5 (ip req = address ∧ login_email req = Some account) w w' ∧
  (address ≠ "" → counted (client_key address) 20 (ip req = address) w w').
Proof.
  cbv zeta.
  assert (∃ who, account_key address account = limiter_key "login-acct" who ∨ account_key address account = limiter_key "login-ip" who) as Ha
    by (eexists; by left).
  assert (∃ who, client_key address = limiter_key "login-acct" who ∨ client_key address = limiter_key "login-ip" who) as Hc
    by (eexists; by right).
  destruct (route_match "POST" "/auth/login" req) as [params|] eqn:Hr;
    [|by split; [|intros _]; apply still_counted, still_request].
  unfold createApp. destruct (express_json _ _) as [err|body] eqn:Hbody; [by split; [|intros _]; apply still_counted|].
  rewrite run_catch. set (st := mkReqState (mkRequest None (hr_query req) body) None).
  destruct (dispatch_login req st params Hr) as [Hstill|Hlogin].
  - assert (∀ key limit counts, (∃ who, key = limiter_key "login-acct" who ∨ key = limiter_key "login-ip" who) →
      counted key limit counts w (run (dispatch all_layers req st) w).2) as Hs
      by (intros; by apply still_counted, Hstill).
    pose proof (Hs _ 5 (ip req = address ∧ login_email req = Some account) Ha) as H1.
    pose proof (Hs _ 20 (ip req = address) Hc) as H2.
    by destruct (run (dispatch all_layers req st) w) as [[r|e] w'].
  - rewrite Hlogin. pose proof (login_counted_account req (with_params params st) w address account Hbody) as H1.
    pose proof (login_counted_client req (with_params params st) w address) as H2.
    by destruct (run (login_program req (with_params params st)) w) as [[r|e] w'].
Qed.

(** *** Histories of requests

    Before each request the clock of Redis, its availability and everything
    that other processes write may have changed. *)
Record Turn := mkTurn {
  tn_time : Z;
  tn_up : bool;
  tn_app : AppWorld Q;
  tn_accounts : AccountWorld;
  tn_rag : RagWorld;
  tn_request : HttpRequest;
  tn_uuid : string
}.

Definition at_turn (tn : Turn) (w : W) : W :=
  mkApiWorld (tn_app tn) (tn_accounts tn) (tn_rag tn) (api_windows w) (tn_up tn) (tn_time tn) (api_seq w).
Definition after_turn (tn : Turn) (w : W) : W := (run (create_app (tn_request tn) (tn_uuid tn)) (at_turn tn w)).2.

(** When a request that counts had a password compared. *)
Fixpoint tried (counts : HttpRequest → bool) (hist : list Turn) (w : W) : list Z :=
  match hist with
  | [] => []
  | tn :: hist =>
      let w' := after_turn tn w in
      (if counts (tn_request tn) && negb (bool_decide (ac_compares (api_accounts w') = ac_compares (tn_accounts tn)))
       then [tn_time tn] else []) ++ tried counts hist w'
  end%list.

Definition in_period (window T : Z) (l : list Z) : list Z := filter (λ t, T - window < t ∧ t ≤ T)%Z l.

Lemma tried_bounded (key : string) (limit : nat) (counts : HttpRequest → bool) T :
  (∀ req uuid w, counted key limit (counts req = true) w (run (create_app req uuid) w).2) →
  ∀ hist now acc w, StronglySorted Z.le (tn_time <$> hist) → Forall (λ tn, now ≤ tn_time tn)%Z hist →
    window_inv (15 * MINUTE) limit now acc (default empty_window (api_windows w !! key)) →
    (∀ m, m ∈ acc → (m.2 < api_seq w)%nat) →
    (length (in_period (15 * MINUTE) T (tried counts hist w)) + length (in_window (15 * MINUTE) T acc) ≤ limit)%nat.
Proof.
  intros Hstep. induction hist as [|tn hist IH]; intros now acc w Hsort Hnow Hinv Hacc; [by apply (wi_bound _ _ _ _ _ Hinv)|].
  cbn [tried]. rewrite fmap_cons in Hsort. apply StronglySorted_inv in Hsort as [Hsort Hhd]. apply Forall_cons in Hnow as [Hnow Hrest].
  destruct (Hstep (tn_request tn) (tn_uuid tn) (at_turn tn w)) as [Hseq Hcase].
  fold (after_turn tn w) in *. cbn [api_windows api_seq api_accounts api_redis_time at_turn] in *.
  assert (Forall (λ tn', tn_time tn ≤ tn_time tn')%Z hist) as Hlater by (rewrite Forall_fmap in Hhd; exact Hhd).
  unfold in_period. rewrite filter_app, length_app.
  destruct Hcase as [[Hwin Hsame]|(u & reply & win & Hu & Hscript & Hwin & Hok)].
  - assert ((if counts (tn_request tn) && negb (bool_decide (ac_compares (api_accounts (after_turn tn w)) =
        ac_compares (tn_accounts tn))) then [tn_time tn] else []) = []) as ->.
    { destruct (counts _); [|done]. by rewrite bool_decide_eq_true_2 by by apply Hsame. }
    apply (IH now acc); [done|done|by rewrite Hwin|]. intros m ?%Hacc. lia.
  - assert ((tn_time tn, u) ∉ acc) as Hnew by (intros ?%Hacc; cbn in *; lia).
    pose proof (serve_step (15 * MINUTE) limit ltac:(done) _ _ _ _ _ _ _ Hinv Hnow Hnew Hscript) as Hinv'.
    specialize (IH (tn_time tn) (match reply with Some (true, _, _) => (tn_time tn, u) :: acc | _ => acc end) (after_turn tn w)).
    rewrite Hwin in IH. specialize (IH Hsort Hlater Hinv').
    assert (∀ m, m ∈ match reply with Some (true, _, _) => (tn_time tn, u) :: acc | _ => acc end → (m.2 < api_seq (after_turn tn w))%nat) as Hacc'.
    { intros m Hm. assert (m = (tn_time tn, u) ∨ m ∈ acc) as [->|?%Hacc]; [|cbn; lia|lia].
      destruct reply as [[[[] r] a]|]; [by apply elem_of_cons in Hm|by right..]. }
    specialize (IH Hacc'). unfold in_period in IH.
    assert (∀ e, length (in_window (15 * MINUTE) T (e :: acc)) =
      (length (filter (λ t, T - 15 * MINUTE < t ∧ t ≤ T)%Z [e.1]) + length (in_window (15 * MINUTE) T acc))%nat) as Hcons.
    { intros e. unfold in_window. rewrite !filter_cons. cbn. by case_decide. }
    destruct (counts (tn_request tn) && _) eqn:Hc.
    + apply andb_true_iff in Hc as [Hc Hne]. apply negb_true_iff, bool_decide_eq_false in Hne.
      destruct (Hok Hc Hne) as (remaining & after & ->). rewrite Hcons in IH. cbn [fst] in IH. lia.
    + cbn [filter list_filter length]. destruct reply as [[[[] r] a]|]; [rewrite Hcons in IH|..]; lia.
Qed.

Lemma window_inv_empty limit now : window_inv (15 * MINUTE) limit now [] empty_window.
Proof. split; [constructor|by intros m ?%elem_of_nil..| |cbn; lia]. by intros e m _ ?%elem_of_nil. Qed.

End requests.

(** ** Witnesses: Express as documented (segments, case-insensitive, an optional
    trailing slash) and a few bodies *)

Module ToyApi.
Definition segments (s : string) : list string :=
  String.string_of_list_ascii <$> split_at (Ascii.ascii_of_nat 47) (String.list_ascii_of_string s) [].

Fixpoint match_segments (pattern path : list string) (params : list (string * json)) : option json :=
  match pattern, path with
  | [], [] | [], [""] => Some (JObj params)
  | String c name :: pattern, s :: path =>
      if bool_decide (c = Ascii.ascii_of_nat 58)
      then if bool_decide (s = "") then None else match_segments pattern path ((name, JStr s) :: params)
      else if bool_decide (toLowerCase (String c name) = toLowerCase s) then match_segments pattern path params else None
  | "" :: pattern, "" :: path => match_segments pattern path params
  | _, _ => None
  end.

Fixpoint match_prefix (pattern path : list string) : bool :=
  match pattern, path with
  | [], _ => true
  | p :: pattern, s :: path => bool_decide (toLowerCase p = toLowerCase s) && match_prefix pattern path
  | _, _ => false
  end.

(** The bodies the demonstrations send. *)
Definition body_named (name : string) : option json :=
  if bool_decide (name = "login") then Some (JObj [("email", JStr " ADA@example.com"); ("password", JStr "guess")])
  else if bool_decide (name = "workflow") then
    Some (JObj [("name", JStr " nightly ");
      ("tasks", JArr [JObj [("key", JStr "a"); ("type", JStr "noop")];
                      JObj [("key", JStr "b"); ("type", JStr "noop"); ("dependsOn", JArr [JStr "a"])]])])
  else None.

#[export] Instance express : Express := {
  express_json _ req := inr (body_named (hr_raw req));
  route_match method pattern req :=
    if bool_decide (method = hr_method req) then match_segments (segments pattern) (segments (hr_path req)) [] else None;
  prefix_match prefix req := match_prefix (segments prefix) (segments (hr_path req))
}.

Import EngineProps.Demo AccountsProps.Toy RagProps.ToyStore.

Definition valid_id (s : string) : option oid := head (List.filter (λ i, bool_decide (oid_str i = s)) (seq 0 10)).

Definition toy_reporting : Reporting unit :=
  mkReporting unit _ demo_percentile (foldr plus (of_Z 0)) (λ _, own_calls) (λ _, empty_registry).

Notation toy_app := (createApp EngineProps.Demo.cfg (λ s, s) AccountsProps.Toy.tc 12 "$" RagProps.ToyStore.deps
  (λ _, [mkIssue "" "Invalid input"]) valid_id (λ s, has_char (Ascii.ascii_of_nat 64) s) (λ _, true) (λ _ _, None) (λ _ t _, t)
  (λ _ _, 0%Z) toy_reporting JNull (λ _, None) [] false true "100kb" "256kb").

Definition world (a : AppWorld unit) : ApiWorld unit :=
  mkApiWorld a AccountsProps.Toy.w_ada (RagProps.ToyStore.empty_store false) ∅ true 1000 0.
Definition empty_app : AppWorld unit := set_workflows ∅ ServicesProps.app.

Definition token (sub role : string) : string :=
  jwt_sign (mkClaims sub (Some role) None "access") "access" ALGORITHM ISSUER "15m" 0.

Definition send (method path raw : string) (auth : option string) : HttpRequest :=
  mkHttp method path None (λ h, if bool_decide (h = "authorization") then (λ t, "Bearer " +:+ t) <$> auth else None)
    (Some "10.0.0.1") raw.

Definition status (r : res ApiReply * ApiWorld unit) : Z := match r.1 with Ok a => ar_status a | Exn _ => 0 end.
Definition api_entries (r : res ApiReply * ApiWorld unit) (who : string) : nat :=
  match api_windows r.2 !! limiter_key "api" who with Some win => size (entries win) | None => 0 end.
End ToyApi.

Import EngineProps.Demo AccountsProps.Toy RagProps.ToyStore ToyApi.

(** Starting a run goes through [authenticate] twice (the router of workflows
    guards the prefix [/workflows], and the route has it again), so it counts
    twice against the limit of the user; reading a workflow counts once. *)
Lemma run_counts_twice :
  let start := run (toy_app (send "POST" "/workflows/7/run" "" (Some (token "1" OPERATOR))) "id") (world ServicesProps.app) in
  let read := run (toy_app (send "GET" "/workflows/7" "" (Some (token "1" OPERATOR))) "id") (world ServicesProps.app) in
  status start = 202%Z ∧ api_entries start "1" = 2 ∧ status read = 200%Z ∧ api_entries read "1" = 1.
Proof. vm_compute. repeat split. Qed.

(** The action is what follows the last slash of the path, but Express ignores
    case and a trailing slash: such a request finds its route and no operation
    (here the first spelling is told that the run cannot be cancelled any more). *)
Lemma trailing_slash_is_an_error :
  (λ path, status (run (toy_app (send "POST" path "" (Some (token "1" OPERATOR))) "id") (world ServicesProps.app))) <$>
    ["/executions/0/cancel"; "/executions/0/cancel/"; "/executions/0/CANCEL"] = [409; 500; 500]%Z.
Proof. vm_compute. reflexivity. Qed.

Definition toy_requests : prog (ApiWorld unit) unit → Prop :=
  request_api EngineProps.Demo.cfg (λ s, s) AccountsProps.Toy.tc 12 "$" RagProps.ToyStore.deps
    (λ _, [mkIssue "" "Invalid input"]) valid_id (λ s, has_char (Ascii.ascii_of_nat 64) s) (λ _, true) (λ _ _, None)
    (λ _ t _, t) (λ _ _, 0%Z) toy_reporting JNull (λ _, None) [] false true "100kb" "256kb".

Definition posted : ApiWorld unit :=
  (run (_ ← toy_app (send "POST" "/workflows" "workflow" (Some (token "1" OPERATOR))) "id"; Ret tt) (world empty_app)).2.

Definition demo_stored : StoredWorkflow :=
  mkStoredWorkflow 1 "nightly" ""
    [mkTaskDefinition "a" "noop" [] (JObj []) (Some 3%Z) (Some 1000%Z) (Some 30000%Z);
     mkTaskDefinition "b" "noop" ["a"] (JObj []) (Some 3%Z) (Some 1000%Z) (Some 30000%Z)] 1 None.

Lemma stored_definitions_runnable_witness :
  aw_workflows (api_app posted) !! 0 = Some demo_stored ∧ runnable demo_stored.
Proof.
  assert (aw_workflows (api_app posted) !! 0 = Some demo_stored) as H by (vm_compute; reflexivity).
  split; [exact H|]. refine (stored_definitions_runnable _ _ _ _ _ _ _ _ _ _ _ _ _ _ _ _ _ _ _ _ _ (world empty_app) posted _ _ 0 _ H).
  - vm_compute. reflexivity.
  - apply reachable_run; [apply ra_request|apply reachable_refl].
Defined.

Lemma accepted_token method path raw sub role who :
  accepted_as AccountsProps.Toy.tc (hr_header (send method path raw (Some (token sub role))) "authorization") who →
  who = mkIdentity sub (Some role).
Proof.
  intros [a Ha]. revert Ha. unfold send, hr_header. rewrite bool_decide_eq_true_2 by done. cbn [fmap option_fmap option_map].
  unfold token. rewrite run_authenticate_bearer. cbn [fst].
  unfold verify_at. rewrite verify_pack by (left). cbn [accessSecret AccountsProps.Toy.tc].
  rewrite bool_decide_eq_true_2 by reflexivity. destruct (bool_decide _); [|done].
  cbn. by intros [= <-].
Qed.

Definition viewer_request : HttpRequest := send "POST" "/workflows" "workflow" (Some (token "1" VIEWER)).

Lemma unauthorised_requests_change_nothing_witness :
  api_app (run (toy_app viewer_request "id") (world empty_app)).2 = empty_app.
Proof.
  refine (proj1 (proj2 (unauthorised_requests_change_nothing _ _ _ _ _ _ _ _ _ _ _ _ _ _ _ _ _ _ _ _ _
    viewer_request "id" _) (world empty_app))).
  intros who p Ha Hp. unfold viewer_request in Ha. apply accepted_token in Ha. rewrite Ha.
  unfold writing in Hp. repeat (apply elem_of_cons in Hp as [->|Hp]); [vm_compute; discriminate..|by apply elem_of_nil in Hp].
Defined.

(** Eight guesses within a minute, in different spellings of the address. *)
Definition guesses : list (Turn (Q := unit)) :=
  (λ t, mkTurn (1000 * Z.of_nat t) true empty_app AccountsProps.Toy.w_ada (RagProps.ToyStore.empty_store false)
          (send "POST" "/auth/login" "login" None) "id") <$> seq 0 8.

Definition toy_tried : list Z :=
  tried EngineProps.Demo.cfg (λ s, s) AccountsProps.Toy.tc 12 "$" RagProps.ToyStore.deps
    (λ _, [mkIssue "" "Invalid input"]) valid_id (λ s, has_char (Ascii.ascii_of_nat 64) s) (λ _, true) (λ _ _, None)
    (λ _ t _, t) (λ _ _, 0%Z) toy_reporting JNull (λ _, None) [] false true "100kb" "256kb"
    (λ req, bool_decide (ip req = "10.0.0.1") &&
            bool_decide (login_email (λ s, has_char (Ascii.ascii_of_nat 64) s) "100kb" "256kb" req = Some "ada@example.com"))
    guesses (world empty_app).

