(* ===== verification/Config.v ===== *)
(** * Configuration ([src/config/env.js])

    The environment is a function from names to strings.  Every variable has a
    reader, which gives its value or refuses it; [loadConfig] reads them all.
    The texts of zod's issues, its check of URLs and the parsing of the price
    table are parameters. *)

From Stdlib Require Import Ascii SpecFloat.
From S2P Require Import Prelude Text Program Dag Models Retry TaskRepo Dispatcher Engine TaskQueue Worker.
From S2P Require Import Access Structured Router Double Calculator Numbers Resilience Http Providers.

Local Open Scope string_scope.

(** ** Readers *)

(** From a variable that is set. *)
Definition env_reader (A : Type) : Type := string → option A.

(** [z.coerce.number().int()] with its bounds. *)
Definition env_int (lo hi : Z) : env_reader Z := λ s,
  z ← as_integer (js_Number s); if bool_decide (lo ≤ z ≤ hi)%Z then Some z else None.

Definition MAX_SAFE : Z := 2 ^ 53 - 1.

(** [z.coerce.number()] between two numbers. *)
Definition env_double (lo hi : double) : env_reader double := λ s,
  let x := js_Number s in if SFleb lo x && SFleb x hi then Some x else None.

Definition env_enum (values : list string) : env_reader string := λ s,
  if bool_decide (s ∈ values) then Some s else None.
Definition env_matching (p : string → bool) : env_reader string := λ s, if p s then Some s else None.

(** [/^\d+(a|b|...)$/]. *)
Definition digits_then (units : list string) (s : string) : bool :=
  let l := String.list_ascii_of_string s in
  let n := leading is_digit l in
  (0 <? n)%nat && bool_decide (String.string_of_list_ascii (drop n l) ∈ units).

Definition is_size : string → bool := digits_then ["b"; "kb"; "mb"].
(** [/^\d+[smhd]?$/]. *)
Definition is_ttl : string → bool := digits_then [""; "s"; "m"; "h"; "d"].
(** [/^mongodb(\+srv)?:\/\//]. *)
Definition is_mongo (s : string) : bool := String.prefix "mongodb://" s || String.prefix "mongodb+srv://" s.
(** [/^rediss?:\/\//]. *)
Definition is_redis (s : string) : bool := String.prefix "redis://" s || String.prefix "rediss://" s.
(** [/^[A-Za-z0-9._-]+$/]. *)
Definition is_topic (s : string) : bool :=
  negb (bool_decide (s = "")) && all_chars (λ c, is_alnum_char c || char_in "._-" c) s.
Definition is_secret (s : string) : bool := (32 <=? String.length s)%nat.

(** What Express takes for [trust proxy]. *)
Inductive TrustProxy : Type := TrustBool (b : bool) | TrustHops (n : double) | TrustList (s : string).

Definition trust_proxy (v : string) : TrustProxy :=
  if bool_decide (v = "false") then TrustBool false
  else if bool_decide (v = "true") then TrustBool true
  else if negb (bool_decide (v = "")) && all_chars is_digit v then TrustHops (js_Number v) else TrustList v.

(** ** The configuration *)

Record AuthConfig := mkAuthConfig {
  accessSecret : string; refreshSecret : string; accessTtl : string; refreshTtl : string; bcryptCost : Z }.
Record WorkerConfig := mkWorkerConfig {
  concurrency : Z; pollIntervalMs : Z; claimLeaseMs : Z; leaseMs : Z }.
Record KafkaConfig := mkKafkaConfig { brokers_ : list string; topic : string; relayIntervalMs : Z }.
Record RagConfig := mkRagConfig {
  qdrantUrl : string; chunkSize : Z; chunkOverlap : Z; ragTopK : Z; ragMinScore : double }.

Record Config := mkConfig {
  cf_env : string;
  cf_isProduction : bool;
  cf_port : Z;
  cf_logLevel : string;
  cf_mongoUri : string;
  cf_redisUrl : string;
  cf_shutdownTimeoutMs : Z;
  cf_bodyLimit : string;
  cf_documentBodyLimit : string;
  cf_rateLimitEnabled : bool;
  cf_trustProxy : TrustProxy;
  cf_auth : AuthConfig;
  cf_worker : WorkerConfig;
  cf_kafka : KafkaConfig;
  cf_schedulerTickMs : Z;
  cf_rag : RagConfig;
  cf_llm : LlmConfig;
  cf_reconcilerIntervalMs : Z;
  cf_reconcilerStaleMs : Z
}.

Section env.
(** zod's check of a URL and the value it gives, [JSON.parse] and the check of
    the price table, and the problems zod reports ([NAME: rule]). *)
Context (zod_url : env_reader string) (parse_pricing : env_reader (gmap string Price)).
Context (problems : (string → option string) → list string).
Context (env : string → option string).

(** A variable with a default, an optional one, and one that must be set. *)
Definition var {A} (name : string) (d : A) (r : env_reader A) : option A :=
  match env name with None => Some d | Some s => r s end.
Definition optional_var {A} (name : string) (r : env_reader A) : option (option A) :=
  match env name with None => Some None | Some s => Some <$> r s end.
Definition required_var {A} (name : string) (r : env_reader A) : option A := env name ≫= r.

Definition int_var (name : string) (d lo hi : Z) : option Z := var name d (env_int lo hi).

(** The two refinements on the secrets. *)
Definition secrets_ok (NODE_ENV access refresh : string) : bool :=
  negb (bool_decide (access = refresh)) &&
  (negb (bool_decide (NODE_ENV = "production")) || negb (existsb (String.prefix "change-me") [access; refresh])).

Definition load_auth (NODE_ENV : string) : option AuthConfig :=
  access ← required_var "JWT_ACCESS_SECRET" (env_matching is_secret);
  refresh ← required_var "JWT_REFRESH_SECRET" (env_matching is_secret);
  accessTtl ← var "JWT_ACCESS_TTL" "15m" (env_matching is_ttl);
  refreshTtl ← var "JWT_REFRESH_TTL" "7d" (env_matching is_ttl);
  cost ← int_var "BCRYPT_COST" 12 4 15;
  if secrets_ok NODE_ENV access refresh
  then Some (mkAuthConfig access refresh accessTtl refreshTtl cost) else None.

Definition load_worker : option WorkerConfig :=
  concurrency ← int_var "WORKER_CONCURRENCY" 4 1 64;
  poll ← int_var "QUEUE_POLL_INTERVAL_MS" 200 10 10000;
  claim ← int_var "QUEUE_CLAIM_LEASE_MS" 30000 1000 MAX_SAFE;
  lease ← int_var "LEASE_TTL_MS" 15000 300 MAX_SAFE;
  Some (mkWorkerConfig concurrency poll claim lease).

Definition load_kafka : option KafkaConfig :=
  brokers ← var "KAFKA_BROKERS" "localhost:9095" Some;
  topic ← var "KAFKA_TOPIC" "workflow-events" (env_matching is_topic);
  relay ← int_var "OUTBOX_RELAY_INTERVAL_MS" 500 50 MAX_SAFE;
  Some (mkKafkaConfig
    ((λ l, trim (String.string_of_list_ascii l)) <$> split_at ","%char (String.list_ascii_of_string brokers) [])
    topic relay).

(** [env.LLM_FALLBACK_BASE_URL && env.LLM_FALLBACK_MODEL ? ... : null]. *)
Definition fallback_of (baseUrl apiKey model : option string) : option FallbackSettings :=
  match baseUrl, model with
  | Some "", _ | _, Some "" => None
  | Some url, Some m => Some (mkFallbackSettings url apiKey m)
  | _, _ => None
  end.

Definition load_llm : option LlmConfig :=
  provider ← var "LLM_PROVIDER" "ollama" (env_enum ["ollama"; "openai-compatible"; "mock"]);
  baseUrl ← var "LLM_BASE_URL" "http://localhost:11434" zod_url;
  apiKey ← optional_var "LLM_API_KEY" Some;
  small ← var "LLM_MODEL_SMALL" "qwen2.5:0.5b" Some;
  large ← var "LLM_MODEL_LARGE" "qwen2.5:0.5b" Some;
  embedding ← var "EMBEDDING_MODEL" "nomic-embed-text" Some;
  timeoutMs ← int_var "LLM_TIMEOUT_MS" 60000 1000 MAX_SAFE;
  fallbackUrl ← optional_var "LLM_FALLBACK_BASE_URL" zod_url;
  fallbackKey ← optional_var "LLM_FALLBACK_API_KEY" Some;
  fallbackModel ← optional_var "LLM_FALLBACK_MODEL" Some;
  failures ← int_var "LLM_BREAKER_FAILURES" 3 1 MAX_SAFE;
  cooldown ← int_var "LLM_BREAKER_COOLDOWN_MS" 30000 1000 MAX_SAFE;
  pricing ← parse_pricing (default "{}" (env "LLM_PRICING_JSON"));
  Some (mkLlmConfig provider baseUrl apiKey (small, large, embedding) timeoutMs
          (fallback_of fallbackUrl fallbackKey fallbackModel) (mkBreakerConfig failures cooldown) pricing).

Definition load_rag : option RagConfig :=
  url ← var "QDRANT_URL" "http://localhost:6333" zod_url;
  size ← int_var "RAG_CHUNK_SIZE" 800 100 8000;
  overlap ← int_var "RAG_CHUNK_OVERLAP" 100 0 2000;
  k ← int_var "RAG_TOP_K" 4 1 20;
  score ← var "RAG_MIN_SCORE" (of_decimal false 5 (-1)) (env_double (of_Z 0) (of_Z 1));
  Some (mkRagConfig url size overlap k score).

Definition read_env : option Config :=
  NODE_ENV ← var "NODE_ENV" "development" (env_enum ["development"; "test"; "production"]);
  port ← int_var "PORT" 4000 1 65535;
  level ← var "LOG_LEVEL" "info" (env_enum ["fatal"; "error"; "warn"; "info"; "debug"; "trace"; "silent"]);
  mongo ← required_var "MONGO_URI" (env_matching is_mongo);
  redis ← required_var "REDIS_URL" (env_matching is_redis);
  shutdown ← int_var "SHUTDOWN_TIMEOUT_MS" 10000 1 MAX_SAFE;
  bodyLimit ← var "BODY_LIMIT" "100kb" (env_matching is_size);
  documentBodyLimit ← var "DOCUMENT_BODY_LIMIT" "256kb" (env_matching is_size);
  limited ← var "RATE_LIMIT_ENABLED" "true" (env_enum ["true"; "false"]);
  proxy ← var "TRUST_PROXY" (TrustBool false) (λ s, Some (trust_proxy s));
  auth ← load_auth NODE_ENV;
  worker ← load_worker;
  kafka ← load_kafka;
  llm ← load_llm;
  rag ← load_rag;
  tick ← int_var "SCHEDULER_TICK_MS" 5000 100 MAX_SAFE;
  interval ← int_var "RECONCILE_INTERVAL_MS" 5000 100 MAX_SAFE;
  stale ← int_var "RECONCILE_STALE_MS" 10000 100 MAX_SAFE;
  Some (mkConfig NODE_ENV (bool_decide (NODE_ENV = "production")) port level mongo redis shutdown bodyLimit
          documentBodyLimit (bool_decide (limited = "true")) proxy auth worker kafka tick rag llm interval stale).

(** The configuration, or the message of the error that stops the process. *)
Definition loadConfig : string + Config :=
  match read_env with
  | Some c => inr c
  | None => inl ("Invalid configuration: " +:+ String.concat "; " (problems env))
  end.
End env.

(** ** Facts *)

(** What follows from reading the variables one by one. *)
Ltac read_all H := repeat (apply bind_Some in H as (? & ? & H)).

Section facts.
Context (zod_url : env_reader string) (parse_pricing : env_reader (gmap string Price)).
Context (env : string → option string).

Lemma env_int_bounds lo hi s z : env_int lo hi s = Some z → (lo ≤ z ≤ hi)%Z.
Proof. intros H. apply bind_Some in H as (z' & _ & H). case_bool_decide; [by injection H as <-|done]. Qed.

Lemma int_var_bounds name d lo hi z : (lo ≤ d ≤ hi)%Z → int_var env name d lo hi = Some z → (lo ≤ z ≤ hi)%Z.
Proof. unfold int_var, var. destruct (env name); [intros _; apply env_int_bounds|by intros ? [= <-]]. Qed.

Lemma required_matching name p s : required_var env name (env_matching p) = Some s → p s = true.
Proof.
  intros H. apply bind_Some in H as (s' & _ & H). unfold env_matching in H. destruct (p s') eqn:Hp; [|done].
  by injection H as <-.
Qed.

Lemma load_auth_spec NODE_ENV a :
  load_auth env NODE_ENV = Some a →
  (32 ≤ String.length (accessSecret a))%nat ∧ (32 ≤ String.length (refreshSecret a))%nat ∧
  accessSecret a ≠ refreshSecret a ∧
  (NODE_ENV = "production" → String.prefix "change-me" (accessSecret a) = false ∧
                             String.prefix "change-me" (refreshSecret a) = false) ∧
  (4 ≤ bcryptCost a ≤ 15)%Z.
Proof.
  intros H. unfold load_auth in H. apply bind_Some in H as (access & Ha & H).
  apply bind_Some in H as (refresh & Hr & H). read_all H.
  apply required_matching, Nat.leb_le in Ha, Hr.
  destruct (secrets_ok NODE_ENV access refresh) eqn:Hsec; [|done].
  apply andb_true_iff in Hsec as [Hne Hprod]. apply negb_true_iff, bool_decide_eq_false in Hne.
  injection H as <-. cbn. do 3 (split; [done|]).
  split; [|by eapply int_var_bounds; [|done]; lia].
  intros ->. rewrite bool_decide_eq_true_2 in Hprod by done. cbn in Hprod.
  apply negb_true_iff, orb_false_iff in Hprod as [? Hprod]. by apply orb_false_iff in Hprod as [? _].
Qed.

(** A running task's lease is renewed at least twice before it lapses. *)
Lemma load_worker_spec w :
  load_worker env = Some w →
  (1 ≤ concurrency w ≤ 64)%Z ∧ (10 ≤ pollIntervalMs w ≤ 10000)%Z ∧ (1000 ≤ claimLeaseMs w)%Z ∧
  (3 * renewEveryMs (leaseMs w) ≤ leaseMs w)%Z ∧ (100 ≤ renewEveryMs (leaseMs w))%Z.
Proof.
  intros H. unfold load_worker in H. read_all H. injection H as <-. cbn.
  repeat match goal with Hv : int_var _ _ _ _ _ = Some _ |- _ =>
    apply int_var_bounds in Hv; [|unfold MAX_SAFE; lia] end.
  unfold renewEveryMs. split_and!; Z.to_euclidean_division_equations; lia.
Qed.

Lemma load_rag_spec r :
  load_rag zod_url env = Some r →
  (100 ≤ chunkSize r ≤ 8000)%Z ∧ (0 ≤ chunkOverlap r ≤ 2000)%Z ∧ (1 ≤ ragTopK r ≤ 20)%Z.
Proof.
  intros H. unfold load_rag in H. read_all H. injection H as <-. cbn.
  repeat match goal with Hv : int_var _ _ _ _ _ = Some _ |- _ => apply int_var_bounds in Hv; [|lia] end.
  split_and!; lia.
Qed.

Lemma load_llm_spec c :
  load_llm zod_url parse_pricing env = Some c →
  (1000 ≤ llm_timeoutMs c)%Z ∧ (1 ≤ failureThreshold (llm_breaker c))%Z ∧ (1000 ≤ cooldownMs (llm_breaker c))%Z ∧
  (∀ f, llm_fallback c = Some f → fs_baseUrl f ≠ "" ∧ fs_model f ≠ "").
Proof.
  intros H. unfold load_llm in H. read_all H. injection H as <-. cbn.
  repeat match goal with Hv : int_var _ _ _ _ _ = Some _ |- _ =>
    apply int_var_bounds in Hv; [|unfold MAX_SAFE; lia] end.
  split_and!; [lia..|]. intros f Hf. unfold fallback_of in Hf.
  repeat match type of Hf with context [match ?o with _ => _ end] => destruct o; try done end;
  by injection Hf as <-.
Qed.
End facts.

(** ** Properties *)

(** whatever the environment, a process that starts has two different
    secrets of at least 32 characters, none of them a published placeholder in
    production; renews a running task's lease at least twice before it lapses;
    and has limits, timeouts and a circuit breaker within the documented
    bounds. *)
Theorem loaded_configuration_sound (zod_url : env_reader string) (parse_pricing : env_reader (gmap string Price))
    (problems : (string → option string) → list string) (env : string → option string) (c : Config)
    (Hload : loadConfig zod_url parse_pricing problems env = inr c) :
  let auth := cf_auth c in let worker := cf_worker c in let rag := cf_rag c in let llm := cf_llm c in
  ((32 ≤ String.length (accessSecret auth))%nat ∧ (32 ≤ String.length (refreshSecret auth))%nat ∧
   accessSecret auth ≠ refreshSecret auth ∧
   (cf_isProduction c = true → String.prefix "change-me" (accessSecret auth) = false ∧
                               String.prefix "change-me" (refreshSecret auth) = false) ∧
   (4 ≤ bcryptCost auth ≤ 15)%Z) ∧
  ((1 ≤ concurrency worker ≤ 64)%Z ∧ (10 ≤ pollIntervalMs worker ≤ 10000)%Z ∧ (1000 ≤ claimLeaseMs worker)%Z ∧
   (3 * renewEveryMs (leaseMs worker) ≤ leaseMs worker)%Z ∧ (100 ≤ renewEveryMs (leaseMs worker))%Z) ∧
  ((1000 ≤ llm_timeoutMs llm)%Z ∧ (1 ≤ failureThreshold (llm_breaker llm))%Z ∧
   (1000 ≤ cooldownMs (llm_breaker llm))%Z ∧
   (∀ f, llm_fallback llm = Some f → fs_baseUrl f ≠ "" ∧ fs_model f ≠ "")) ∧
  ((100 ≤ chunkSize rag ≤ 8000)%Z ∧ (0 ≤ chunkOverlap rag ≤ 2000)%Z ∧ (1 ≤ ragTopK rag ≤ 20)%Z) ∧
  (1 ≤ cf_port c ≤ 65535)%Z ∧ (1 ≤ cf_shutdownTimeoutMs c)%Z.
Proof.
  unfold loadConfig in Hload. destruct (read_env _ _ _) as [c'|] eqn:H; [injection Hload as ->|done].
  unfold read_env in H. read_all H. injection H as <-. cbn.
  repeat match goal with
  | Hv : load_auth _ _ = Some _ |- _ => apply load_auth_spec in Hv
  | Hv : load_worker _ = Some _ |- _ => apply load_worker_spec in Hv
  | Hv : load_llm _ _ _ = Some _ |- _ => apply load_llm_spec in Hv
  | Hv : load_rag _ _ = Some _ |- _ => apply load_rag_spec in Hv
  | Hv : int_var _ _ _ _ _ = Some _ |- _ => apply int_var_bounds in Hv; [|unfold MAX_SAFE; lia]
  end.
  rewrite bool_decide_eq_true. naive_solver lia.
Qed.

(** An environment with the variables that have no default. *)
Definition minimal_env (name : string) : option string :=
  if bool_decide (name = "MONGO_URI") then Some "mongodb://localhost/wf"
  else if bool_decide (name = "REDIS_URL") then Some "redis://localhost"
  else if bool_decide (name = "JWT_ACCESS_SECRET") then Some "0123456789abcdef0123456789abcdef"
  else if bool_decide (name = "JWT_REFRESH_SECRET") then Some "fedcba9876543210fedcba9876543210"
  else None.

Definition with_variables (vars : list (string * string)) (env : string → option string) (name : string) : option string :=
  match List.find (λ v, bool_decide (v.1 = name)) vars with Some v => Some v.2 | None => env name end.

Definition load_example (vars : list (string * string)) : string + Config :=
  loadConfig Some (λ _, Some ∅) (λ _, []) (with_variables vars minimal_env).

Lemma loaded_configuration_sound_witness :
  ∃ c, load_example [("NODE_ENV", "production"); ("LEASE_TTL_MS", "300")] = inr c ∧
    (3 * renewEveryMs (leaseMs (cf_worker c)) ≤ leaseMs (cf_worker c))%Z.
Proof.
  eexists. split; [vm_compute; reflexivity|].
  match goal with |- (3 * renewEveryMs (leaseMs (cf_worker ?c)) ≤ _)%Z =>
    assert (load_example [("NODE_ENV", "production"); ("LEASE_TTL_MS", "300")] = inr c) as H
      by (vm_compute; reflexivity);
    apply (loaded_configuration_sound _ _ _ _ c H)
  end.
Defined.

(** A missing secret, equal secrets, a placeholder in production and a port that
    is not a number stop the process. *)
Example refused_configurations :
  load_example [("JWT_ACCESS_SECRET", "short")] = inl "Invalid configuration: " ∧
  load_example [("JWT_ACCESS_SECRET", "fedcba9876543210fedcba9876543210")] = inl "Invalid configuration: " ∧
  load_example [("NODE_ENV", "production"); ("JWT_ACCESS_SECRET", "change-me-change-me-change-me-32-chars")]
    = inl "Invalid configuration: " ∧
  load_example [("PORT", "http")] = inl "Invalid configuration: ".
Proof. vm_compute. repeat split; reflexivity. Qed.

(** Pieces that overlap by more than their size are accepted. *)
Example overlap_can_exceed_size :
  match load_example [("RAG_CHUNK_SIZE", "100"); ("RAG_CHUNK_OVERLAP", "2000")] with
  | inr c => chunkSize (cf_rag c) = 100%Z ∧ chunkOverlap (cf_rag c) = 2000%Z
  | inl _ => False
  end.
Proof. vm_compute. split; reflexivity. Qed.

(** A time to live without a unit is accepted. *)
Example bare_ttl_accepted : is_ttl "3600" = true ∧ is_ttl "15m" = true ∧ is_ttl "1 h" = false.
Proof. vm_compute. repeat split; reflexivity. Qed.
