(* ===== verification/Wiring.v ===== *)
(** * How a worker process is put together ([src/worker.js])

    The times to live that [main] derives from the configuration, against the
    timers that renew what they bound: the locks of the scheduler and of the
    relay, and the key of the registry. *)

From S2P Require Import Prelude Text Program Dag Models Retry TaskRepo Dispatcher Engine TaskQueue Worker.
From S2P Require Import Registry Lock Double Resilience Providers Lifecycle Config.

Local Open Scope string_scope.

(** ** Times to live *)

(** [createLock(redis, "scheduler", { ttlMs: Math.max(10_000, config.scheduler.tickMs * 3) })]. *)
Definition scheduler_lock_ttl (c : Config) : Z := Z.max 10000 (cf_schedulerTickMs c * 3).
(** [createLock(redis, "outbox-relay", { ttlMs: Math.max(3000, config.kafka.relayIntervalMs * 6) })]. *)
Definition relay_lock_ttl (c : Config) : Z := Z.max 3000 (relayIntervalMs (cf_kafka c) * 6).

(** The leaders of the process: time to live of the lock, interval of the ticks. *)
Definition leaderships (c : Config) : list (Z * Z) :=
  [(scheduler_lock_ttl c, cf_schedulerTickMs c); (relay_lock_ttl c, relayIntervalMs (cf_kafka c))].

(** [ttlMs: config.worker.leaseMs] of the registry, and the heartbeat's interval. *)
Definition registry_ttl (c : Config) : Z := leaseMs (cf_worker c).
Definition heartbeatEveryMs (c : Config) : Z := renewEveryMs (leaseMs (cf_worker c)).

(** ** Facts *)

Section facts.
Context (zod_url : env_reader string) (parse_pricing : env_reader (gmap string Price)).
Context (problems : (string → option string) → list string) (env : string → option string).

Lemma loaded_intervals c :
  loadConfig zod_url parse_pricing problems env = inr c →
  (100 ≤ cf_schedulerTickMs c)%Z ∧ (50 ≤ relayIntervalMs (cf_kafka c))%Z ∧
  (3 * renewEveryMs (leaseMs (cf_worker c)) ≤ leaseMs (cf_worker c))%Z ∧ (100 ≤ renewEveryMs (leaseMs (cf_worker c)))%Z.
Proof.
  unfold loadConfig. destruct (read_env _ _ _) as [c'|] eqn:H; [intros [= ->]|done].
  unfold read_env in H. read_all H. injection H as <-. cbn.
  repeat match goal with
  | Hv : load_worker _ = Some _ |- _ => apply load_worker_spec in Hv
  | Hv : load_kafka _ = Some _ |- _ => unfold load_kafka in Hv; read_all Hv; injection Hv as <-
  | Hv : int_var _ _ _ _ _ = Some _ |- _ => apply int_var_bounds in Hv; [|unfold MAX_SAFE; lia]
  end.
  cbn. lia.
Qed.
End facts.

Lemma lock_kept s token expiry cs :
  l_key s = Some (token, expiry) → forallb (foreign token) cs = true → (l_time (foldl lock_exec s cs) < expiry)%Z →
  l_key (foldl lock_exec s cs) = Some (token, expiry).
Proof.
  revert s. induction cs as [|c cs IH]; intros s Hk; [done|]. cbn. intros [Hc Hf]%andb_true_iff Ht.
  apply IH; [|done|done]. apply lock_exec_keeps; [done| |done].
  pose proof (lock_exec_time s c). pose proof (lock_run_time cs (lock_exec s c)). lia.
Qed.

(** C26: a working process keeps what it holds.  Whatever configuration it was
    started with and whatever other processes do with the locks: a leader that
    comes back within two intervals of its timer still has its lock and keeps
    it, under the same fencing token; and a worker whose last heartbeat is at
    most two intervals old is alive in the registry. *)
Theorem leases_outlive_renewals zod_url parse_pricing problems env c :
  loadConfig zod_url parse_pricing problems env = inr c →
  (∀ ttl every s token fence cs, (ttl, every) ∈ leaderships c →
     l_key s = Some (token, l_time s + ttl)%Z → forallb (foreign token) cs = true →
     let s' := foldl lock_exec s cs in
     (l_time s' ≤ l_time s + 2 * every)%Z →
     run (lead ttl (Some (token, fence))) s' =
       (Ok (Some (token, fence)), with_key (Some (token, l_time s' + ttl)%Z) s')) ∧
  (∀ id w w', (run (set_key (registry_ttl c) id) w).1 = Ok tt →
     rg_keys w' = rg_keys (run (set_key (registry_ttl c) id) w).2 →
     (rg_time w' ≤ rg_time w + 2 * heartbeatEveryMs c)%Z → key_alive w' id = true).
Proof.
  intros Hc. destruct (loaded_intervals _ _ _ _ _ Hc) as (Htick & Hrelay & Hlease & Hevery). split.
  - intros ttl every s token fence cs Hin Hk Hf s' Ht.
    assert (2 * every < ttl)%Z as Httl.
    { unfold leaderships, scheduler_lock_ttl, relay_lock_ttl in Hin.
      apply elem_of_cons in Hin as [[= -> ->]|[[= -> ->]|Hin%not_elem_of_nil]%elem_of_cons]; [lia|lia|done]. }
    assert (l_key s' = Some (token, l_time s + ttl)%Z) as Hk' by (apply lock_kept; [done|done|fold s'; lia]).
    assert (holder s' = Some token) as Hh by (unfold holder; rewrite Hk', bool_decide_eq_true_2 by lia; done).
    unfold lead, extend. rewrite run_bind. cbn. unfold extend_script. rewrite bool_decide_eq_true_2 by done. done.
  - intros id w w'. unfold set_key, redis_call. rewrite run_await. destruct (rg_redis_up w); cbn; [|done].
    intros _ Hk Ht. unfold key_alive. rewrite Hk, lookup_insert_eq. apply bool_decide_eq_true_2.
    unfold registry_ttl, heartbeatEveryMs in *. lia.
Qed.

(** The shortest intervals that the configuration accepts; the relay comes back
    after one of them, in which another process tries to take its lock. *)
Lemma leases_outlive_renewals_witness :
  ∃ c, load_example [("OUTBOX_RELAY_INTERVAL_MS", "1000"); ("LEASE_TTL_MS", "300")] = inr c ∧
    (relay_lock_ttl c, relayIntervalMs (cf_kafka c)) = (6000, 1000)%Z ∧
    run (lead 6000 (Some (0, 1%Z))) (foldl lock_exec (mkLockStore (Some (0, 6000%Z)) 1 0 1) [Wait 1000; SetNx 1 6000]) =
      (Ok (Some (0, 1%Z)), mkLockStore (Some (0, 7000%Z)) 1 1000 1) ∧
    key_alive (mkRegistryWorld ∅ {[worker_key "w1" := ("0", 300%Z)]} true true 200) "w1" = true.
Proof.
  destruct (load_example [("OUTBOX_RELAY_INTERVAL_MS", "1000"); ("LEASE_TTL_MS", "300")]) as [e|c] eqn:Hc;
    [by vm_compute in Hc|].
  exists c. split; [done|].
  destruct (leases_outlive_renewals Some (λ _, Some ∅) (λ _, []) _ c Hc) as [Hlead Halive].
  assert (cf_schedulerTickMs c = 5000%Z ∧ relayIntervalMs (cf_kafka c) = 1000%Z ∧ leaseMs (cf_worker c) = 300%Z) as (H1 & H2 & H3)
    by (vm_compute in Hc; by injection Hc as <-).
  split; [unfold relay_lock_ttl; by rewrite H2|]. split.
  - apply (Hlead 6000%Z 1000%Z (mkLockStore (Some (0, 6000%Z)) 1 0 1) 0 1%Z [Wait 1000; SetNx 1 6000]);
      [|done|done|by vm_compute].
    unfold leaderships, relay_lock_ttl. rewrite H2. by right; left.
  - apply (Halive "w1" (mkRegistryWorld ∅ ∅ true true 0)); [done| |].
    + unfold registry_ttl. rewrite H3. by vm_compute.
    + unfold heartbeatEveryMs. rewrite H3. by vm_compute.
Defined.

(** Whereas the configuration lets an idle worker sleep for as long as its
    graceful shutdown may take by default, so that it is killed with code 1. *)
Example sleepy_configuration :
  match load_example [("QUEUE_POLL_INTERVAL_MS", "10000")] with
  | inr c => shutdown (cf_shutdownTimeoutMs c)
               (worker_steps (mkWorkerSteps [quick tt (pollIntervalMs (cf_worker c))] [] None None (quick tt 0) []))
             = (1, 10000)%Z
  | inl _ => False
  end.
Proof. vm_compute. reflexivity. Qed.
