(* ===== verification/Startup.v ===== *)
(** * Starting up ([src/worker.js], [src/server.js], [src/consumers/analytics.js],
    [src/events/kafka.js], [src/config/mongo.js], [src/config/redis.js])

    What each process waits for before it works, what ends it, what it has
    started by then, and from when on a signal stops it gracefully. *)

From S2P Require Import Prelude Program States Dag Models Retry TaskRepo Dispatcher Engine TaskQueue Worker.
From S2P Require Import Lifecycle.

Local Open Scope string_scope.

(** ** The connections *)

(** [try { await p } finally { await q }]: a rejection of [q] replaces the result. *)
Definition finally (p q : promise unit) : promise unit :=
  '(t, r) ← p; '(u, s) ← q; Some (t + u, match s with Rejected e => Rejected e | Resolved _ => r end)%Z.

(** [connectMongo]: the connection, then [hello], whose answer is only logged. *)
Definition connectMongo (connect hello : promise unit) : promise unit := in_turn [connect; hello].

(** The calls of kafkajs that [connect] of the publisher makes. *)
Record KafkaCalls := mkKafkaCalls {
  ka_admin_connect : promise unit;
  ka_createTopics : promise unit;
  ka_admin_disconnect : promise unit;
  ka_producer_connect : promise unit
}.

Definition publisher_connect (k : KafkaCalls) : promise unit :=
  in_turn [ka_admin_connect k; finally (ka_createTopics k) (ka_admin_disconnect k); ka_producer_connect k].

(** ioredis' [retryStrategy], for the attempts 1, 2, ... *)
Definition retryStrategy (attempt : Z) : ms := Z.min (attempt * 200) 5000.

(** [pingRedis], [pingMongo]: the answer of the server; the state of the
    connection, 1 when it is connected, before a round trip. *)
Definition pingRedis (ping : promise string) : promise unit :=
  '(t, r) ← ping;
  Some (t, match r with
           | Rejected e => Rejected e
           | Resolved reply =>
               if bool_decide (reply = "PONG") then Resolved tt
               else Rejected (new_Error ("unexpected PING reply: " +:+ reply))
           end).

Definition pingMongo (readyState : Z) (ping : promise unit) : promise unit :=
  if bool_decide (readyState = 1)%Z then ping else Some (0%Z, Rejected (new_Error "mongo not connected")).

(** ** The processes *)

Inductive Component : Type := QueueWorker | Scheduler | Relay | Reconciler | HttpServer | AnalyticsConsumer.

(** [main] has returned, and so listens to signals; it threw, and the process
    exits with code 1; or it waits for ever.  With what was started by then. *)
Inductive Boot : Type :=
| Running (at_ : ms) (cs : list Component)
| Fatal (at_ : ms) (cs : list Component)
| Stuck (cs : list Component).

(** [await p], then the rest of [main]. *)
Definition awaiting (p : promise unit) (cs : list Component) (k : ms → Boot) (t : ms) : Boot :=
  match p with
  | None => Stuck cs
  | Some (d, Rejected _) => Fatal (t + d) cs
  | Some (d, Resolved _) => k (t + d)%Z
  end.

(** The surroundings of a worker process: whether [loadConfig] accepts the
    environment, and the calls of its [main].  [worker.start()] waits for
    [registry.register()] and for nothing else. *)
Record WorkerCalls := mkWorkerCalls {
  wc_config : bool;
  wc_mongo : promise unit;
  wc_redis : promise unit;
  wc_register : promise unit;
  wc_kafka : KafkaCalls
}.

(** Kafka may be down: then there is no relay in this process. *)
Definition worker_main (w : WorkerCalls) : Boot :=
  if negb (wc_config w) then Fatal 0 [] else
  awaiting (wc_mongo w) [] (awaiting (wc_redis w) [] (awaiting (wc_register w) [] (λ t,
    match publisher_connect (wc_kafka w) with
    | None => Stuck [QueueWorker; Scheduler]
    | Some (d, Resolved _) => Running (t + d) [QueueWorker; Scheduler; Relay; Reconciler]
    | Some (d, Rejected _) => Running (t + d) [QueueWorker; Scheduler; Reconciler]
    end))) 0%Z.

(** [app.listen] is not awaited: an error of the server ends the process later. *)
Definition server_main (config : bool) (mongo redis listen : promise unit) : Boot :=
  if negb config then Fatal 0 [] else
  awaiting mongo [] (awaiting redis [] (λ t,
    match listen with
    | Some (d, Rejected _) => Fatal (t + d) []
    | _ => Running t [HttpServer]
    end)) 0%Z.

Definition consumer_main (config : bool) (mongo connect subscribe run_ : promise unit) : Boot :=
  if negb config then Fatal 0 [] else
  awaiting mongo [] (awaiting connect [] (awaiting subscribe [] (awaiting run_ [] (λ t,
    Running t [AnalyticsConsumer])))) 0%Z.

(** The exit code of a process that a signal ends, or that Node.js ends because
    of a rejection that nobody handles. *)
Definition killed (s : Signal) : Z := match s with SIGTERM => 143 | SIGINT => 130 | UnhandledRejection => 1 end.

(** The exit of a process whose first signal comes at [ts]: the handlers are
    installed at the end of [main]. *)
Definition exit_on (shutdownTimeoutMs : ms) (steps : list (promise unit)) (b : Boot) (ts : ms) (s : Signal) : Z * ms :=
  match b with
  | Running t _ =>
      if bool_decide (t ≤ ts)%Z
      then let '(code, u) := shutdown shutdownTimeoutMs steps in (code, ts + u)%Z
      else (killed s, ts)
  | Fatal t _ => if bool_decide (t ≤ ts)%Z then (1%Z, t) else (killed s, ts)
  | Stuck _ => (killed s, ts)
  end.

(** What has been started at a time. *)
Definition started_by (b : Boot) : list Component := match b with Running _ cs | Fatal _ cs | Stuck cs => cs end.

(** ** Facts *)

Lemma finally_resolved p q t : finally p q = Some (t, Resolved tt) ↔
  ∃ u v, p = Some (u, Resolved tt) ∧ q = Some (v, Resolved tt) ∧ t = (u + v)%Z.
Proof.
  unfold finally. destruct p as [[u [[]|e]]|], q as [[v [[]|e']]|]; cbn; split; try done; naive_solver.
Qed.

Definition up (p : promise unit) : Prop := ∃ t, p = Some (t, Resolved tt).

Lemma in_turn_up ps : up (in_turn ps) ↔ Forall up ps.
Proof.
  unfold up. induction ps as [|p ps IH]; cbn; [split; [by constructor|eauto]|].
  rewrite Forall_cons, <- IH. destruct p as [[t [[]|e]]|]; cbn; [|naive_solver..].
  destruct (in_turn ps) as [[u [[]|e]]|]; cbn; naive_solver.
Qed.

(** The publisher is connected exactly when all of its calls succeed. *)
Lemma publisher_connect_up k :
  up (publisher_connect k) ↔
  up (ka_admin_connect k) ∧ up (ka_createTopics k) ∧ up (ka_admin_disconnect k) ∧ up (ka_producer_connect k).
Proof.
  unfold publisher_connect. rewrite in_turn_up, !Forall_cons, Forall_nil.
  assert (up (finally (ka_createTopics k) (ka_admin_disconnect k)) ↔ up (ka_createTopics k) ∧ up (ka_admin_disconnect k)).
  { unfold up. split.
    - intros [t (u & v & Hu & Hv & _)%finally_resolved]. eauto.
    - intros [[u Hu] [v Hv]]. exists (u + v)%Z. apply finally_resolved. eauto. }
  tauto.
Qed.

Lemma awaiting_running p k t u cs cs' :
  awaiting p cs' k t = Running u cs ↔ ∃ d, p = Some (d, Resolved tt) ∧ k (t + d)%Z = Running u cs.
Proof.
  unfold awaiting. destruct p as [[d [[]|e]]|]; split; try done; try naive_solver.
Qed.


(** How far the queue worker is: its loops run once it is registered. *)
Definition working_since (w : WorkerCalls) : option ms :=
  if wc_config w then
    '(t, r) ← in_turn [wc_mongo w; wc_redis w; wc_register w];
    match r with Resolved _ => Some t | Rejected _ => None end
  else None.

Lemma worker_main_eq w :
  worker_main w =
    if negb (wc_config w) then Fatal 0 [] else
    match in_turn [wc_mongo w; wc_redis w; wc_register w] with
    | None => Stuck []
    | Some (t, Rejected _) => Fatal t []
    | Some (t, Resolved _) =>
        match publisher_connect (wc_kafka w) with
        | None => Stuck [QueueWorker; Scheduler]
        | Some (d, Resolved _) => Running (t + d) [QueueWorker; Scheduler; Relay; Reconciler]
        | Some (d, Rejected _) => Running (t + d) [QueueWorker; Scheduler; Reconciler]
        end
    end.
Proof.
  unfold worker_main, awaiting. destruct (wc_config w); cbn; [|done].
  destruct (wc_mongo w) as [[t1 [[]|e]]|]; cbn; [|done..].
  destruct (wc_redis w) as [[t2 [[]|e]]|]; cbn; [|done..].
  destruct (wc_register w) as [[t3 [[]|e]]|]; cbn; [|by rewrite Z.add_assoc|done].
  by rewrite Z.add_0_r, Z.add_assoc.
Qed.

(** a worker process works once the configuration is accepted, MongoDB
    and Redis answer and it is registered, whether Kafka answers or not; where
    one of these fails, nothing was started.  The relay runs exactly in the
    processes that reached Kafka when they started, and every process whose
    wait for Kafka ends has a reconciler. *)
Theorem worker_boots w :
  (QueueWorker ∈ started_by (worker_main w) ↔ is_Some (working_since w)) ∧
  (Relay ∈ started_by (worker_main w) ↔ is_Some (working_since w) ∧ up (publisher_connect (wc_kafka w))) ∧
  (Reconciler ∈ started_by (worker_main w) ↔ is_Some (working_since w) ∧ settles (publisher_connect (wc_kafka w))) ∧
  (working_since w = None → started_by (worker_main w) = []).
Proof.
  rewrite worker_main_eq. unfold working_since, up, settles. generalize (publisher_connect (wc_kafka w)). intros pk.
  assert (¬ is_Some (@None ms)) as Hno by by intros [? [=]].
  destruct (wc_config w); cbn [negb]; [|cbn; rewrite !elem_of_nil; tauto].
  destruct (in_turn _) as [[t [[]|e]]|]; cbn; [|rewrite !elem_of_nil; tauto..].
  assert (is_Some (Some t)) as Hyes by by eexists.
  destruct pk as [[d [[]|e]]|]; cbn; rewrite !elem_of_cons, !elem_of_nil.
  - assert (is_Some (Some (d, @Resolved unit tt))) by by eexists. split_and!; [tauto| |tauto|done].
    split; [intros _|tauto]. split; [done|by exists d].
  - assert (is_Some (Some (d, @Rejected unit e))) by by eexists. split_and!; [tauto| |tauto|done].
    split; [intros Hin; destruct_or! Hin; discriminate Hin || done|]. intros [_ [u Hu]]; discriminate Hu.
  - assert (¬ is_Some (@None (ms * settled unit))) by by intros [? [=]]. split_and!; [tauto| | |done].
    + split; [intros Hin; destruct_or! Hin; discriminate Hin || done|]. intros [_ [u Hu]]; discriminate Hu.
    + split; [intros Hin; destruct_or! Hin; discriminate Hin || done|tauto].
Qed.

(** The handlers of signals are installed after the wait for Kafka, when the
    worker already takes tasks: until then a signal ends it at once, and the
    tasks in flight are not reported. *)
Lemma signal_while_kafka_connects timeout steps w t d r ts :
  working_since w = Some t → publisher_connect (wc_kafka w) = Some (d, r) → (t ≤ ts < t + d)%Z →
  QueueWorker ∈ started_by (worker_main w) ∧ exit_on timeout steps (worker_main w) ts SIGTERM = (143%Z, ts).
Proof.
  intros Ht Hd Hts. split; [apply worker_boots; by eexists|]. rewrite worker_main_eq. unfold working_since in Ht.
  destruct (wc_config w); [|done]. cbn [negb]. destruct (in_turn _) as [[t' [[]|e]]|]; cbn in Ht; [|done..].
  injection Ht as ->. rewrite Hd. unfold exit_on. destruct r; by rewrite bool_decide_eq_false_2 by lia.
Qed.

(** Where all goes well, the next signal stops it as [Lifecycle] says. *)
Lemma signal_after_boot timeout steps b t cs ts s :
  b = Running t cs → (t ≤ ts)%Z →
  exit_on timeout steps b ts s = let '(code, u) := shutdown timeout steps in (code, (ts + u)%Z).
Proof. intros -> Hts. unfold exit_on. by rewrite bool_decide_eq_true_2. Qed.

(** The API serves only with both stores; the consumer only with its topic. *)
Lemma server_boots config mongo redis listen :
  HttpServer ∈ started_by (server_main config mongo redis listen) →
  config = true ∧ up mongo ∧ up redis ∧ ∀ d e, listen ≠ Some (d, Rejected e).
Proof.
  unfold server_main, awaiting, up. destruct config; cbn; [|set_solver].
  destruct mongo as [[t1 [[]|e1]]|]; cbn; [|set_solver..]. destruct redis as [[t2 [[]|e2]]|]; cbn; [|set_solver..].
  destruct listen as [[d [[]|e]]|]; cbn; [|set_solver|]; intros _; split_and!; eauto; done.
Qed.

Lemma consumer_boots config mongo connect subscribe run_ :
  AnalyticsConsumer ∈ started_by (consumer_main config mongo connect subscribe run_) ↔
  config = true ∧ Forall up [mongo; connect; subscribe; run_].
Proof.
  rewrite !Forall_cons, Forall_nil. unfold consumer_main, awaiting, up. destruct config; cbn; [|set_solver].
  destruct mongo as [[t1 [[]|e1]]|]; cbn; [|set_solver..]. destruct connect as [[t2 [[]|e2]]|]; cbn; [|set_solver..].
  destruct subscribe as [[t3 [[]|e3]]|]; cbn; [|set_solver..]. destruct run_ as [[t4 [[]|e4]]|]; cbn; [|set_solver..].
  split; [intros _; split_and!; eauto|set_solver].
Qed.

(** Reconnecting: the delays grow by 200 ms to 5 s and stay there. *)
Lemma retryStrategy_bounds n : (1 ≤ n)%Z →
  (200 ≤ retryStrategy n ≤ 5000 ∧ retryStrategy n ≤ retryStrategy (n + 1) ∧ (25 ≤ n → retryStrategy n = 5000))%Z.
Proof. unfold retryStrategy. lia. Qed.

(** The pings are up exactly when the server answers as it should. *)
Lemma pings_up readyState ping pong :
  (up (pingMongo readyState ping) ↔ readyState = 1%Z ∧ up ping) ∧ (up (pingRedis pong) ↔ ∃ t, pong = Some (t, Resolved "PONG")).
Proof.
  unfold up, pingMongo, pingRedis. split.
  - case_bool_decide; naive_solver.
  - destruct pong as [[t [reply|e]]|]; cbn; [|naive_solver..]. case_bool_decide; naive_solver.
Qed.
